(** * Gmail_backend: the spam classifier and the message fan-out

    A shallow embedding of the email routes of the backend and the
    properties of the send / reply / forward pipeline proved about it.
    The code is read from src/models/Email.js (the Email schema, then the
    router of the email routes, then the User schema), from the end of
    src/routes/auth.js (the module of [detectSpam]), from
    src/models/AutoReply.js and from src/unnamed/part_001 (the Label
    schema and [ensureSpamLabel]).

    The handlers are written in a small state-and-exception monad over a
    [World] that holds the four MongoDB collections, the Socket.IO
    registration and a schedule of collaborator faults. *)

From Stdlib Require Import List String Ascii Bool Arith ZArith Lia.
Import ListNotations.
Local Open Scope string_scope.
Local Open Scope list_scope.
Local Open Scope nat_scope.

Set Implicit Arguments.

(* ================================================================== *)
(** * JavaScript strings *)
(* ================================================================== *)

(** A JavaScript string is modelled by a [string] whose characters are
    the code units below 256 (the Latin-1 range). *)
Module Js.

Definition code (c : ascii) : nat := nat_of_ascii c.

Definition between (lo hi n : nat) : bool := (lo <=? n) && (n <=? hi).

(** [String.prototype.toLowerCase] on one code unit: A-Z, and the
    Latin-1 capitals U+00C0..U+00DE except the multiplication sign. *)
Definition lowerChar (c : ascii) : ascii :=
  let n := code c in
  if between 65 90 n || (between 192 222 n && negb (n =? 215))
  then ascii_of_nat (n + 32) else c.

Fixpoint toLowerCase (s : string) : string :=
  match s with
  | EmptyString => EmptyString
  | String c t => String (lowerChar c) (toLowerCase t)
  end.

(** White space of [\s] and of [trim]: TAB, LF, VT, FF, CR, SP, NBSP. *)
Definition isSpace (c : ascii) : bool :=
  let n := code c in between 9 13 n || (n =? 32) || (n =? 160).

(** [s.includes(kw)] *)
Fixpoint includes (s kw : string) : bool :=
  prefix kw s ||
  match s with
  | EmptyString => false
  | String _ t => includes t kw
  end.

Fixpoint trimStart (l : list ascii) : list ascii :=
  match l with
  | c :: t => if isSpace c then trimStart t else l
  | [] => []
  end.

(** [s.trim()] *)
Definition trim (s : string) : string :=
  string_of_list_ascii
    (rev (trimStart (rev (trimStart (list_ascii_of_string s))))).

(** Truthiness of a string: the empty string is the only falsy one. *)
Definition truthy (s : string) : bool :=
  match s with EmptyString => false | String _ _ => true end.

(** [s.split('.').pop()]: what follows the last dot, the whole string
    when it has none. [acc] is the segment read so far. *)
Fixpoint lastSegment (acc s : string) : string :=
  match s with
  | EmptyString => acc
  | String c t =>
      if (code c =? 46) then lastSegment EmptyString t
      else lastSegment (append acc (String c EmptyString)) t
  end.

Definition splitDotPop (s : string) : string := lastSegment EmptyString s.

(** ** The regular expression urlRegex of detectSpam *)

(** Its character class: anything but white space, the two angle
    brackets, the double quote (34) and the single quote (39). *)
Definition urlChar (c : ascii) : bool :=
  let n := code c in
  negb (isSpace c || (n =? 60) || (n =? 62) || (n =? 34) || (n =? 39)).

(** The longest run of class characters at the head of [l], and what
    follows it: the greedy [+]. *)
Fixpoint spanUrl (l : list ascii) : list ascii * list ascii :=
  match l with
  | c :: t =>
      if urlChar c
      then let (run, rest) := spanUrl t in (c :: run, rest)
      else ([], l)
  | [] => ([], [])
  end.

Fixpoint stripPrefix (p l : list ascii) : option (list ascii) :=
  match p, l with
  | [], _ => Some l
  | a :: p', b :: l' => if Ascii.eqb a b then stripPrefix p' l' else None
  | _ :: _, [] => None
  end.

(** The body of one match after the scheme [sch]: at least one class
    character, greedily extended. *)
Definition execAfter (sch l : list ascii) : option (list ascii * list ascii) :=
  match stripPrefix sch l with
  | Some after =>
      match spanUrl after with
      | ([], _) => None
      | (run, rest) => Some (sch ++ run, rest)
      end
  | None => None
  end.

(** One attempt of the expression at the head of [l]: the match and the
    rest of the input. The optional [s] is tried first. *)
Definition execUrl (l : list ascii) : option (list ascii * list ascii) :=
  match execAfter (list_ascii_of_string "https://") l with
  | Some r => Some r
  | None => execAfter (list_ascii_of_string "http://") l
  end.

(** [String.prototype.match] with the [g] flag: every match, left to
    right, the search resuming where the last match ended. *)
Fixpoint matchAll (fuel : nat) (l : list ascii) : list string :=
  match fuel with
  | 0 => []
  | S fuel' =>
      match l with
      | [] => []
      | _ :: t =>
          match execUrl l with
          | Some (m, rest) => string_of_list_ascii m :: matchAll fuel' rest
          | None => matchAll fuel' t
          end
      end
  end.

(** [body.match(urlRegex) || []] *)
Definition matchUrls (body : string) : list string :=
  let l := list_ascii_of_string body in matchAll (List.length l) l.

End Js.

(* ================================================================== *)
(** * The Mongoose models *)
(* ================================================================== *)

(** An ObjectId. Path parameters that must be ObjectIds are [option
    ObjectId]: [None] is a string that is not one. *)
Definition ObjectId := nat.

(** models/User.js, the fields the email routes read. *)
Module User.
Record t := mk {
  id : ObjectId;
  email : option string;
  isEmailVerified : bool
}.
End User.

(** The attachment sub-document of models/Email.js. No path is required. *)
Module Attachment.
Record t := mk {
  url : option string;
  filename : option string;
  size : option Z
}.
End Attachment.

Inductive Folder := inbox | sent | draft | starred | trash | spam.

(** models/Email.js *)
Module Email.
Record t := mk {
  id : ObjectId;
  sender : string;
  recipients : list string;
  cc : list string;
  bcc : list string;
  subject : string;
  body : string;
  attachments : list Attachment.t;
  folder : Folder;
  labels : list ObjectId;
  isRead : bool;
  isStarred : bool;
  isSpam : bool;
  sentAt : nat;
  draftSavedAt : option nat
}.

Definition set_id (i : ObjectId) (e : t) : t :=
  mk i (sender e) (recipients e) (cc e) (bcc e) (subject e) (body e)
     (attachments e) (folder e) (labels e) (isRead e) (isStarred e)
     (isSpam e) (sentAt e) (draftSavedAt e).

Definition set_folder (f : Folder) (e : t) : t :=
  mk (id e) (sender e) (recipients e) (cc e) (bcc e) (subject e) (body e)
     (attachments e) f (labels e) (isRead e) (isStarred e)
     (isSpam e) (sentAt e) (draftSavedAt e).

Definition set_labels (l : list ObjectId) (e : t) : t :=
  mk (id e) (sender e) (recipients e) (cc e) (bcc e) (subject e) (body e)
     (attachments e) (folder e) l (isRead e) (isStarred e)
     (isSpam e) (sentAt e) (draftSavedAt e).

Definition set_isRead (b : bool) (e : t) : t :=
  mk (id e) (sender e) (recipients e) (cc e) (bcc e) (subject e) (body e)
     (attachments e) (folder e) (labels e) b (isStarred e)
     (isSpam e) (sentAt e) (draftSavedAt e).

Definition set_isStarred (b : bool) (e : t) : t :=
  mk (id e) (sender e) (recipients e) (cc e) (bcc e) (subject e) (body e)
     (attachments e) (folder e) (labels e) (isRead e) b
     (isSpam e) (sentAt e) (draftSavedAt e).

(** The [required: true] paths of the schema: sender, subject, body and
    every element of recipients. Mongoose rejects the empty string for
    a required String. *)
Definition valid (e : t) : bool :=
  Js.truthy (sender e) && Js.truthy (subject e) && Js.truthy (body e)
  && forallb Js.truthy (recipients e).

(** The participant filter of the read / star / trash / label routes:
    [$or: [{sender}, {recipients}, {cc}, {bcc}]]. *)
Definition participant (who : string) (e : t) : bool :=
  String.eqb (sender e) who
  || existsb (String.eqb who) (recipients e)
  || existsb (String.eqb who) (cc e)
  || existsb (String.eqb who) (bcc e).
End Email.

(** The Label model (its schema; [ensureSpamLabel] is further down). *)
Module Label.
Record t := mk {
  id : ObjectId;
  userId : ObjectId;
  name : string;
  isSystemLabel : bool;
  createdAt : nat
}.
End Label.

(** models/AutoReply.js *)
Module AutoReply.
Record t := mk {
  id : ObjectId;
  userId : ObjectId;
  enabled : bool;
  message : string;
  updatedAt : nat
}.
End AutoReply.

(* ================================================================== *)
(** * The world and the monad of the handlers *)
(* ================================================================== *)

(** The payload of a [newEmail] event. The auto-reply notification has no
    [isSpam] field. *)
Record Notification := mkNotification {
  n_sender : string;
  n_subject : string;
  n_sentAt : nat;
  n_isSpam : option bool
}.

(** What a handler does besides reading and writing the collections. *)
Inductive Event :=
| Classify (sender : string)              (* detectSpam was entered *)
| Emit (room : string) (n : Notification) (* io.to(room).emit('newEmail', n) *)
| Log (msg : string).                     (* console.error / console.warn *)

(** [faults k] is the error thrown by the [k]-th call to a collaborator
    (the database, Cloudinary, Socket.IO), if that call fails; [calls]
    counts the calls made so far. [io] tells whether [app.get('io')] is
    set; [now] is the clock read by [new Date()]. *)
Record World := mkWorld {
  users : list User.t;
  emails : list Email.t;
  labels : list Label.t;
  autoReplies : list AutoReply.t;
  nextId : ObjectId;
  now : nat;
  io : bool;
  faults : nat -> option string;
  calls : nat;
  trace : list Event
}.

Definition set_emails (l : list Email.t) (w : World) : World :=
  mkWorld (users w) l (labels w) (autoReplies w) (nextId w) (now w) (io w)
          (faults w) (calls w) (trace w).

Definition set_labels (l : list Label.t) (w : World) : World :=
  mkWorld (users w) (emails w) l (autoReplies w) (nextId w) (now w) (io w)
          (faults w) (calls w) (trace w).

Definition set_nextId (i : ObjectId) (w : World) : World :=
  mkWorld (users w) (emails w) (labels w) (autoReplies w) i (now w) (io w)
          (faults w) (calls w) (trace w).

Definition set_calls (c : nat) (w : World) : World :=
  mkWorld (users w) (emails w) (labels w) (autoReplies w) (nextId w) (now w)
          (io w) (faults w) c (trace w).

Definition set_trace (t : list Event) (w : World) : World :=
  mkWorld (users w) (emails w) (labels w) (autoReplies w) (nextId w) (now w)
          (io w) (faults w) (calls w) t.

(** The result of running a piece of handler code: a value or a thrown
    error. The world is kept in both cases: nothing is rolled back. *)
Inductive Outcome (A : Type) :=
| Returned (a : A)
| Thrown (err : string).
Arguments Returned {A} a.
Arguments Thrown {A} err.

Definition M (A : Type) : Type := World -> Outcome A * World.

Definition ret {A} (a : A) : M A := fun w => (Returned a, w).

Definition bind {A B} (m : M A) (k : A -> M B) : M B :=
  fun w =>
    match m w with
    | (Returned a, w1) => k a w1
    | (Thrown err, w1) => (Thrown err, w1)
    end.

Definition throw {A} (err : string) : M A := fun w => (Thrown err, w).

(** [try { m } catch (err) { h err }] *)
Definition try_catch {A} (m : M A) (h : string -> M A) : M A :=
  fun w =>
    match m w with
    | (Returned a, w1) => (Returned a, w1)
    | (Thrown err, w1) => h err w1
    end.

Notation "x <- m ;; k" := (bind m (fun x => k))
  (at level 61, m at next level, right associativity).
Notation "m ;;; k" := (bind m (fun _ => k))
  (at level 61, right associativity).

Definition get_world : M World := fun w => (Returned w, w).

Definition emit_event (e : Event) : M unit :=
  fun w => (Returned tt, set_trace (trace w ++ [e]) w).

Definition log (msg : string) : M unit := emit_event (Log msg).

(** A call to a collaborator: it counts, and throws when the schedule of
    faults says so. *)
Definition external : M unit :=
  fun w =>
    let w1 := set_calls (S (calls w)) w in
    match faults w (calls w) with
    | Some err => (Thrown err, w1)
    | None => (Returned tt, w1)
    end.

(** The _id that [new Model(...)] gives a document. *)
Definition fresh : M ObjectId :=
  fun w => (Returned (nextId w), set_nextId (S (nextId w)) w).

(** [new Date()] *)
Definition newDate : M nat := fun w => (Returned (now w), w).

(** [for (const x of l) { f x }] *)
Fixpoint forEach {A} (l : list A) (f : A -> M unit) : M unit :=
  match l with
  | [] => ret tt
  | x :: t => f x ;;; forEach t f
  end.

Notation "a +++ b" := (String.append a b) (at level 60, right associativity).

(* ================================================================== *)
(** * The collections *)
(* ================================================================== *)

(** [{ email: addr, isEmailVerified: true }] *)
Definition verifiedWithEmail (addr : string) (u : User.t) : bool :=
  match User.email u with
  | Some e => String.eqb e addr
  | None => false
  end && User.isEmailVerified u.

(** [{ email: { $in: addrs }, isEmailVerified: true }] *)
Definition verifiedAmong (addrs : list string) (u : User.t) : bool :=
  match User.email u with
  | Some e => existsb (String.eqb e) addrs
  | None => false
  end && User.isEmailVerified u.

(** [u.email === addr] *)
Definition hasEmail (addr : string) (u : User.t) : bool :=
  match User.email u with
  | Some e => String.eqb e addr
  | None => false
  end.

Definition User_findOne (p : User.t -> bool) : M (option User.t) :=
  external ;;; w <- get_world ;; ret (find p (users w)).

Definition User_find (p : User.t -> bool) : M (list User.t) :=
  external ;;; w <- get_world ;; ret (filter p (users w)).

Definition Email_findOne (p : Email.t -> bool) : M (option Email.t) :=
  external ;;; w <- get_world ;; ret (find p (emails w)).

(** [Email.findById(id)]: a string that is no ObjectId fails the cast. *)
Definition Email_findById (i : option ObjectId) : M (option Email.t) :=
  match i with
  | Some i => Email_findOne (fun e => Email.id e =? i)
  | None => throw "Cast to ObjectId failed"
  end.

(** [new Email({...})]: a fresh _id and the defaults of the schema
    (isRead and isStarred false, no draftSavedAt, sentAt the current
    time unless given). *)
Definition Email_new (sender : string) (recipients cc bcc : list string)
    (subject body : string) (attachments : list Attachment.t)
    (folder : Folder) (isSpam : bool) (labels : list ObjectId)
    (sentAt : option nat) : M Email.t :=
  i <- fresh ;;
  t <- newDate ;;
  ret (Email.mk i sender recipients cc bcc subject body attachments folder
         labels false false isSpam
         (match sentAt with Some s => s | None => t end) None).

(** [doc.save()] of a new document: validation, then the insert. *)
Definition Email_save (e : Email.t) : M unit :=
  if Email.valid e
  then external ;;; (fun w => (Returned tt, set_emails (emails w ++ [e]) w))
  else throw "Email validation failed".

(** Replaces the first document that satisfies [p] by its image under
    [f]; the result tells whether one was found. *)
Fixpoint updateFirst {A} (p : A -> bool) (f : A -> A) (l : list A) : list A * option A :=
  match l with
  | [] => ([], None)
  | x :: t =>
      if p x then (f x :: t, Some (f x))
      else let (t', r) := updateFirst p f t in (x :: t', r)
  end.

(** [Email.findOneAndUpdate(filter, update, { new: true })]; also
    [Email.updateOne], whose [matchedCount] is 1 exactly when a document
    comes back. *)
Definition Email_findOneAndUpdate (p : Email.t -> bool) (f : Email.t -> Email.t)
  : M (option Email.t) :=
  external ;;;
  (fun w => let (l, r) := updateFirst p f (emails w) in
            (Returned r, set_emails l w)).

(** [email.save()] of a document that was read from the collection and
    modified: validation, then the update of the stored document. *)
Definition Email_saveExisting (e : Email.t) : M unit :=
  if Email.valid e
  then external ;;;
       (fun w => (Returned tt,
                  set_emails (fst (updateFirst (fun x => Email.id x =? Email.id e)
                                               (fun _ => e) (emails w))) w))
  else throw "Email validation failed".

(** [Email.updateMany({ labels: l }, { $pull: { labels: l } })] *)
Definition pullLabel (l : ObjectId) (e : Email.t) : Email.t :=
  if existsb (Nat.eqb l) (Email.labels e)
  then Email.set_labels (filter (fun x => negb (x =? l)) (Email.labels e)) e
  else e.

Definition Email_pullLabelEverywhere (l : ObjectId) : M unit :=
  external ;;;
  (fun w => (Returned tt, set_emails (map (pullLabel l) (emails w)) w)).

Definition Label_findOne (p : Label.t -> bool) : M (option Label.t) :=
  external ;;; w <- get_world ;; ret (find p (labels w)).

(** [Label.find(filter)] *)
Definition Label_find (p : Label.t -> bool) : M (list Label.t) :=
  external ;;; w <- get_world ;; ret (filter p (labels w)).

(** The label documents that take the place of the _ids [ids] of a
    populated path: for each _id in turn the label that has it, and
    nothing for an _id that no label has. *)
Definition labelsOfIds (found : list Label.t) (ids : list ObjectId) : list Label.t :=
  flat_map (fun i => match find (fun x => Label.id x =? i) found with
                     | Some l => [l]
                     | None => []
                     end) ids.

(** [.populate('labels')] on a document that the query gave: one query
    of the labels for the _ids of the path, and none when the path is
    empty. *)
Definition populateLabels (ids : list ObjectId) : M (list Label.t) :=
  match ids with
  | [] => ret []
  | _ :: _ =>
      found <- Label_find (fun x => existsb (Nat.eqb (Label.id x)) ids) ;;
      ret (labelsOfIds found ids)
  end.

(** [label.save()]: name is required. *)
Definition Label_save (l : Label.t) : M unit :=
  if Js.truthy (Label.name l)
  then external ;;; (fun w => (Returned tt, set_labels (labels w ++ [l]) w))
  else throw "Label validation failed".

(** Removes the first element that satisfies [p]; the count of removed. *)
Fixpoint removeFirst {A} (p : A -> bool) (l : list A) : list A * nat :=
  match l with
  | [] => ([], 0)
  | x :: t =>
      if p x then (t, 1)
      else let (t', n) := removeFirst p t in (x :: t', n)
  end.

(** [Label.deleteOne(filter)], giving [deletedCount]. *)
Definition Label_deleteOne (p : Label.t -> bool) : M nat :=
  external ;;;
  (fun w => let (l, n) := removeFirst p (labels w) in
            (Returned n, set_labels l w)).

Definition AutoReply_findOne (p : AutoReply.t -> bool) : M (option AutoReply.t) :=
  external ;;; w <- get_world ;; ret (find p (autoReplies w)).

(** ** Label.ensureSpamLabel *)

Definition isSpamLabelOf (userId : ObjectId) (l : Label.t) : bool :=
  (Label.userId l =? userId) && String.eqb (Label.name l) "Spam"
  && Label.isSystemLabel l.

Definition ensureSpamLabel (userId : ObjectId) : M Label.t :=
  spamLabel <- Label_findOne (isSpamLabelOf userId) ;;
  match spamLabel with
  | None =>
      i <- fresh ;;
      t <- newDate ;;
      let newSpamLabel := Label.mk i userId "Spam" true t in
      Label_save newSpamLabel ;;;
      ret newSpamLabel
  | Some l => ret l
  end.

(* ================================================================== *)
(** * The classifier: detectSpam, at the end of src/routes/auth.js *)
(* ================================================================== *)

(** The object handed to [detectSpam], as far as it reads it. A field is
    [None] when the property is absent. *)
Record SpamInput := mkSpamInput {
  si_subject : option string;
  si_body : option string;
  si_recipients : option (list string);
  si_attachments : option (list Attachment.t)
}.

(** A Mongoose Email document has all four. *)
Definition Email_view (e : Email.t) : SpamInput :=
  mkSpamInput (Some (Email.subject e)) (Some (Email.body e))
              (Some (Email.recipients e)) (Some (Email.attachments e)).

Definition spamKeywords : list string :=
  [ "win a prize"; "free offer"; "click here"; "urgent"; "limited time offer";
    "make money fast"; "lottery"; "guaranteed"; "viagra"; "cheap pills" ].

Definition allowedExtensions : list string := [ "jpg"; "jpeg"; "png"; "pdf" ].

(** Reading a property of an absent value is a TypeError. *)
Definition property {A} (o : option A) : M A :=
  match o with
  | Some a => ret a
  | None => throw "TypeError: Cannot read properties of undefined"
  end.

(** [attachment.size > 5 * 1024 * 1024]; an absent size compares false. *)
Definition tooLarge (a : Attachment.t) : bool :=
  match Attachment.size a with
  | Some n => (5 * 1024 * 1024 <? n)%Z
  | None => false
  end.

Definition extensionOf (filename : string) : string :=
  Js.toLowerCase (Js.splitDotPop filename).

Definition allowedExtension (filename : string) : bool :=
  existsb (String.eqb (extensionOf filename)) allowedExtensions.

(** The callback of [attachments.some]. *)
Definition suspiciousAttachment (a : Attachment.t) : M bool :=
  if tooLarge a then ret true
  else
    filename <- property (Attachment.filename a) ;;
    ret (negb (allowedExtension filename)).

(** [l.some(p)] for a callback that may throw. *)
Fixpoint someM {A} (p : A -> M bool) (l : list A) : M bool :=
  match l with
  | [] => ret false
  | x :: t => b <- p x ;; if b then ret true else someM p t
  end.

Definition hasSpamKeyword (subject body : string) : bool :=
  existsb (fun keyword => Js.includes subject keyword || Js.includes body keyword)
          spamKeywords.

(** The body of the [try] block. *)
Definition detectSpam_try (email : SpamInput) (sender : string) : M bool :=
  subject <- property (si_subject email) ;;
  let subject := Js.toLowerCase subject in
  body <- property (si_body email) ;;
  let body := Js.toLowerCase body in
  (* 1. keywords *)
  if hasSpamKeyword subject body then ret true else
  (* 2. links *)
  let links := Js.matchUrls body in
  if 5 <? List.length links then ret true else
  (* 3. sender *)
  senderUser <- User_findOne (verifiedWithEmail sender) ;;
  match senderUser with
  | None => ret true
  | Some _ =>
      (* 4. recipients *)
      recipients <- property (si_recipients email) ;;
      if 10 <? List.length recipients then ret true else
      (* 5. attachments *)
      match si_attachments email with
      | Some (a :: rest) =>
          hasSuspiciousAttachment <- someM suspiciousAttachment (a :: rest) ;;
          if hasSuspiciousAttachment then ret true else ret false
      | _ => ret false
      end
  end.

Definition detectSpam (email : SpamInput) (sender : string) : M bool :=
  emit_event (Classify sender) ;;;
  try_catch (detectSpam_try email sender)
            (fun err => log ("Spam detection error: " +++ err) ;;; ret false).

(* ================================================================== *)
(** * The email routes: the router in src/models/Email.js *)
(* ================================================================== *)

(** The paths that the star route selects, the labels path populated. *)
Module Starred.
Record t := mk {
  id : ObjectId;
  sender : string;
  recipients : list string;
  subject : string;
  sentAt : nat;
  isRead : bool;
  isStarred : bool;
  isSpam : bool;
  labels : list Label.t
}.
End Starred.

Inductive Payload :=
| Message (s : string)              (* { message: s } *)
| Error (s : string)                (* { error: s } *)
| ErrorDetails (s details : string) (* { error: s, details } *)
| Document (e : Email.t) (labels : list Label.t)
    (* the email, its labels path holding the label documents *)
| Selection (s : Starred.t).        (* the selected paths of the email *)

Record Response := mkResponse { status : nat; payload : Payload }.

Definition json (st : nat) (p : Payload) : M Response := ret (mkResponse st p).

(** An element of an array of the request body: a string or not. *)
Inductive JsItem := JString (s : string) | JOther.

(** A list-valued field of the request body, after the JSON.parse step of
    the handler: a string that does not parse, a falsy value, a truthy
    value that is no array, or an array. *)
Inductive Field (A : Type) :=
| Unparsable
| Falsy
| NotArray
| Array (items : list A).
Arguments Unparsable {A}.
Arguments Falsy {A}.
Arguments NotArray {A}.
Arguments Array {A} items.

Definition unparsable {A} (f : Field A) : bool :=
  match f with Unparsable => true | _ => false end.

(** A file as multer hands it over, with the URL Cloudinary answers for
    it. *)
Module File.
Record t := mk {
  originalname : string;
  size : Z;
  secure_url : string
}.
End File.

(** The middleware [ensureEmailVerified]; [next] receives
    [req.user.email]. ([authenticateToken] has run: [caller] is
    [req.user].) *)
Definition ensureEmailVerified (caller : User.t) (next : string -> M Response)
  : M Response :=
  match User.email caller with
  | Some me =>
      if Js.truthy me && User.isEmailVerified caller then next me
      else json 400 (Error "Verified email required to perform this action")
  | None => json 400 (Error "Verified email required to perform this action")
  end.

(** The Cloudinary upload of each file, in order. *)
Fixpoint uploadAll (files : list File.t) : M (list Attachment.t) :=
  match files with
  | [] => ret []
  | file :: rest =>
      external ;;;
      let a := Attachment.mk (Some (File.secure_url file))
                             (Some (File.originalname file))
                             (Some (File.size file)) in
      more <- uploadAll rest ;;
      ret (a :: more)
  end.

(** [io.to(room).emit('newEmail', n)] under its own try / catch, or the
    warning when Socket.IO is not set. *)
Definition notify (what room : string) (n : Notification) : M unit :=
  w <- get_world ;;
  if io w then
    try_catch (external ;;; emit_event (Emit room n))
              (fun err => log ("WebSocket error for " +++ what +++ " " +++ err))
  else
    log ("Socket.IO not initialized, skipping WebSocket notification for "
           +++ what).

(** [typeof email === 'string' && email.trim()] *)
Definition keepAddresses (items : list JsItem) : list string :=
  flat_map (fun i => match i with
                     | JString s => if Js.truthy (Js.trim s) then [s] else []
                     | JOther => []
                     end) items.

(** [[...new Set(l)]] *)
Fixpoint uniq (l : list string) : list string :=
  match l with
  | [] => []
  | x :: t => x :: filter (fun y => negb (String.eqb x y)) (uniq t)
  end.

(** [validEmails.has(addr)] for [validEmails = new Set(users.map(u => u.email))] *)
Definition hasValid (recipientUsers : list User.t) (addr : string) : bool :=
  existsb (hasEmail addr) recipientUsers.

(** The Spam label of the owner of a copy, when the message is spam and
    the owner is known. *)
Definition spamLabelFor (isSpam : bool) (recipientUser : option User.t)
  : M (option Label.t) :=
  match recipientUser with
  | Some u =>
      if isSpam then l <- ensureSpamLabel (User.id u) ;; ret (Some l)
      else ret None
  | None => ret None
  end.

(** [isSpam && spamLabel ? [spamLabel._id] : []] *)
Definition labelsOf (isSpam : bool) (spamLabel : option Label.t) : list ObjectId :=
  match spamLabel with
  | Some l => if isSpam then [Label.id l] else []
  | None => []
  end.

Module SendReq.
Record t := mk {
  recipients : Field JsItem;
  cc : Field JsItem;
  bcc : Field JsItem;
  subject : option string;   (* [None]: absent or not a string *)
  body : option string;
  files : list File.t
}.
End SendReq.

Section Send.
Variables (me subject body : string) (cc bcc : list string)
          (attachments : list Attachment.t) (sentAt : nat) (isSpam : bool)
          (recipientUsers : list User.t).

(** What the three loops of the send handler share: the copy of one
    address, its Spam label and its notification. *)
Definition deliverCopy (what addr : string) : M (option User.t) :=
  let recipientUser := find (hasEmail addr) recipientUsers in
  spamLabel <- spamLabelFor isSpam recipientUser ;;
  inboxEmail <- Email_new me [addr] cc bcc subject body attachments
                  (if isSpam then spam else inbox) isSpam
                  (labelsOf isSpam spamLabel) (Some sentAt) ;;
  Email_save inboxEmail ;;;
  notify (what +++ " " +++ addr) addr
         (mkNotification me subject (Email.sentAt inboxEmail) (Some isSpam)) ;;;
  ret recipientUser.

(** The auto-reply block of the recipients loop. *)
Definition autoReplyOf (recipient : string) (recipientUser : option User.t)
  : M unit :=
  match recipientUser with
  | Some u =>
      if negb isSpam then
        autoReply <- AutoReply_findOne (fun a => AutoReply.userId a =? User.id u) ;;
        match autoReply with
        | Some ar =>
            if AutoReply.enabled ar && User.isEmailVerified u then
              let reSubject := "Auto Reply: " +++ subject in
              replyEmail <- Email_new recipient [me] [] [] reSubject
                              (AutoReply.message ar) [] sent false [] None ;;
              Email_save replyEmail ;;;
              senderInboxEmail <- Email_new recipient [me] [] [] reSubject
                                    (AutoReply.message ar) [] inbox false []
                                    (Some (Email.sentAt replyEmail)) ;;
              Email_save senderInboxEmail ;;;
              notify ("auto-reply " +++ me) me
                     (mkNotification recipient reSubject
                                     (Email.sentAt senderInboxEmail) None)
            else ret tt
        | None => ret tt
        end
      else ret tt
  | None => ret tt
  end.

Definition deliverRecipient (recipient : string) : M unit :=
  recipientUser <- deliverCopy "recipient" recipient ;;
  autoReplyOf recipient recipientUser.

Definition deliverCc (ccEmail : string) : M unit :=
  deliverCopy "CC" ccEmail ;;; ret tt.

Definition deliverBcc (bccEmail : string) : M unit :=
  deliverCopy "BCC" bccEmail ;;; ret tt.
End Send.

Definition sendSuccess : Response := mkResponse 200 (Message "Email sent successfully").

(** The [try] block of POST /send, from the filtered lists on. *)
Definition send_try (me : string) (recipients cc bcc : list string)
    (subject body : string) (files : list File.t) : M Response :=
  let allEmails := uniq (recipients ++ cc ++ bcc) in
  recipientUsers <- User_find (verifiedAmong allEmails) ;;
  if negb (forallb (hasValid recipientUsers) recipients) then
    json 400 (Error "Some recipients not found or unverified")
  else if (0 <? List.length cc) && negb (forallb (hasValid recipientUsers) cc) then
    json 400 (Error "Some CC recipients not found or unverified")
  else if (0 <? List.length bcc) && negb (forallb (hasValid recipientUsers) bcc) then
    json 400 (Error "Some BCC recipients not found or unverified")
  else
    attachments <- uploadAll files ;;
    sentAt <- newDate ;;
    sentEmail <- Email_new me recipients cc bcc subject body attachments
                   sent false [] (Some sentAt) ;;
    Email_save sentEmail ;;;
    isSpam <- detectSpam (Email_view sentEmail) me ;;
    forEach recipients
      (deliverRecipient me subject body cc bcc attachments
                        (Email.sentAt sentEmail) isSpam recipientUsers) ;;;
    forEach cc
      (deliverCc me subject body cc bcc attachments
                 (Email.sentAt sentEmail) isSpam recipientUsers) ;;;
    forEach bcc
      (deliverBcc me subject body cc bcc attachments
                  (Email.sentAt sentEmail) isSpam recipientUsers) ;;;
    ret sendSuccess.

Definition optionalList (f : Field JsItem) : list string :=
  match f with
  | Array items => keepAddresses items
  | _ => []
  end.

(** POST /send. The text of the JSON.parse error is not kept in the log
    line. *)
Definition send (caller : User.t) (req : SendReq.t) : M Response :=
  ensureEmailVerified caller (fun me =>
    if unparsable (SendReq.recipients req) || unparsable (SendReq.cc req)
       || unparsable (SendReq.bcc req)
    then
      log "JSON parse error:" ;;;
      json 400 (Error "Invalid JSON format in recipients, cc, or bcc")
    else
      match SendReq.recipients req, SendReq.subject req, SendReq.body req with
      | Array (r :: rs), Some subject, Some body =>
          if negb (Js.truthy subject && Js.truthy body) then
            json 400 (Error "Recipients (array), subject (string), and body (string) are required")
          else
          match SendReq.cc req, SendReq.bcc req with
          | NotArray, _ => json 400 (Error "CC must be an array")
          | _, NotArray => json 400 (Error "BCC must be an array")
          | ccField, bccField =>
              let recipients := keepAddresses (r :: rs) in
              let cc := optionalList ccField in
              let bcc := optionalList bccField in
              match recipients with
              | [] => json 400 (Error "At least one valid recipient is required")
              | _ :: _ =>
                  try_catch
                    (send_try me recipients cc bcc subject body (SendReq.files req))
                    (fun err =>
                       log ("Send email error: " +++ err) ;;;
                       json 500 (ErrorDetails "Server error" err))
              end
          end
      | _, _, _ =>
          json 400 (Error "Recipients (array), subject (string), and body (string) are required")
      end).

Module ReplyReq.
Record t := mk {
  emailId : option ObjectId;  (* the path parameter, cleaned of its angle brackets and bars *)
  body : option string;       (* [None]: undefined *)
  files : list File.t
}.
End ReplyReq.

(** The text of a value inside a template literal. *)
Definition interpolate (v : option string) : string :=
  match v with Some s => s | None => "undefined" end.

Definition replySuccess : Response := mkResponse 200 (Message "Reply sent successfully").

(** POST /reply/:emailId *)
Definition reply (caller : User.t) (req : ReplyReq.t) : M Response :=
  ensureEmailVerified caller (fun me =>
    try_catch
      (originalEmail <- Email_findById (ReplyReq.emailId req) ;;
       match originalEmail with
       | None => json 404 (Error "Email not found")
       | Some originalEmail =>
           recipientUser <- User_findOne (verifiedWithEmail (Email.sender originalEmail)) ;;
           match recipientUser with
           | None => json 400 (Error "Recipient email not found or unverified")
           | Some recipientUser =>
               attachments <- uploadAll (ReplyReq.files req) ;;
               let reSubject := "Re: " +++ Email.subject originalEmail in
               let reBody := interpolate (ReplyReq.body req)
                               +++ "<br><br>--- Original Message ---<br>"
                               +++ Email.body originalEmail in
               replyEmail <- Email_new me [Email.sender originalEmail] [] []
                               reSubject reBody attachments sent false [] None ;;
               isSpam <- detectSpam (Email_view replyEmail) me ;;
               spamLabel <- (if isSpam
                             then l <- ensureSpamLabel (User.id recipientUser) ;; ret (Some l)
                             else ret None) ;;
               Email_save replyEmail ;;;
               recipientInboxEmail <- Email_new me [Email.sender originalEmail] [] []
                                        reSubject reBody attachments
                                        (if isSpam then spam else inbox) isSpam
                                        (labelsOf isSpam spamLabel) None ;;
               Email_save recipientInboxEmail ;;;
               w <- get_world ;;
               (if io w then
                  external ;;;
                  emit_event (Emit (Email.sender originalEmail)
                                (mkNotification me reSubject
                                   (Email.sentAt recipientInboxEmail) (Some isSpam)))
                else log "Socket.IO not initialized, skipping WebSocket notification") ;;;
               ret replySuccess
           end
       end)
      (fun err =>
         log ("Reply email error: " +++ err) ;;;
         json 500 (Error "Server error"))).

Module ForwardReq.
Record t := mk {
  emailId : option ObjectId;
  recipients : Field string;  (* the elements are taken to be strings *)
  body : option string;
  files : list File.t
}.
End ForwardReq.

Definition forwardSuccess : Response :=
  mkResponse 200 (Message "Email forwarded successfully").

(** The loop body of the forward handler. *)
Definition forwardTo (me fwSubject fwBody : string)
    (attachments : list Attachment.t) (isSpam : bool)
    (recipientUsers : list User.t) (recipient : string) : M unit :=
  let recipientUser := find (hasEmail recipient) recipientUsers in
  spamLabel <- spamLabelFor isSpam recipientUser ;;
  recipientInboxEmail <- Email_new me [recipient] [] [] fwSubject fwBody attachments
                           (if isSpam then spam else inbox) isSpam
                           (labelsOf isSpam spamLabel) None ;;
  Email_save recipientInboxEmail ;;;
  notify ("recipient " +++ recipient) recipient
         (mkNotification me fwSubject (Email.sentAt recipientInboxEmail) (Some isSpam)).

(** POST /forward/:emailId. The text of the JSON.parse error is not kept
    in the log line. *)
Definition forward (caller : User.t) (req : ForwardReq.t) : M Response :=
  ensureEmailVerified caller (fun me =>
    match ForwardReq.recipients req with
    | Unparsable =>
        log "JSON parse error for recipients:" ;;;
        json 400 (Error "Invalid JSON format in recipients")
    | Array (r :: rs) =>
        let recipients := r :: rs in
        try_catch
          (originalEmail <- Email_findById (ForwardReq.emailId req) ;;
           match originalEmail with
           | None => json 404 (Error "Email not found")
           | Some originalEmail =>
               recipientUsers <- User_find (verifiedAmong recipients) ;;
               if negb (List.length recipientUsers =? List.length recipients) then
                 json 400 (Error "Some recipients not found or unverified")
               else
                 uploaded <- uploadAll (ForwardReq.files req) ;;
                 let attachments := Email.attachments originalEmail ++ uploaded in
                 let fwSubject := "Fwd: " +++ Email.subject originalEmail in
                 let fwBody := match ForwardReq.body req with Some b => b | None => "" end
                                 +++ "<br><br>--- Forwarded Message ---<br>"
                                 +++ Email.body originalEmail in
                 forwardEmail <- Email_new me recipients [] [] fwSubject fwBody
                                   attachments sent false [] None ;;
                 isSpam <- detectSpam (Email_view forwardEmail) me ;;
                 Email_save forwardEmail ;;;
                 forEach recipients
                   (forwardTo me fwSubject fwBody attachments isSpam recipientUsers) ;;;
                 ret forwardSuccess
           end)
          (fun err =>
             log ("Forward email error: " +++ err) ;;;
             json 500 (ErrorDetails "Server error" err))
    | _ => json 400 (Error "Recipients are required and must be an array")
    end).

(** PATCH /mark-read/:emailId; [isRead] is [None] when the body does not
    hold a boolean. *)
Definition markRead (caller : User.t) (emailId : option ObjectId)
    (isRead : option bool) : M Response :=
  ensureEmailVerified caller (fun me =>
    try_catch
      (match emailId, isRead with
       | None, _ => json 400 (Error "Invalid email ID")
       | Some _, None => json 400 (Error "isRead must be a boolean")
       | Some i, Some isRead =>
           updated <- Email_findOneAndUpdate
                        (fun e => (Email.id e =? i) && Email.participant me e)
                        (Email.set_isRead isRead) ;;
           match updated with
           | None => json 404 (Error "Email not found or unauthorized")
           | Some _ => json 200 (Message "Email read status updated")
           end
       end)
      (fun err => log ("Mark read error: " +++ err) ;;; json 500 (Error "Server error"))).

(** [select: 'sender recipients subject sentAt isRead isStarred isSpam
    labels'] *)
Definition selected (e : Email.t) (labels : list Label.t) : Starred.t :=
  Starred.mk (Email.id e) (Email.sender e) (Email.recipients e) (Email.subject e)
             (Email.sentAt e) (Email.isRead e) (Email.isStarred e) (Email.isSpam e)
             labels.

(** PATCH /star/:emailId *)
Definition star (caller : User.t) (emailId : option ObjectId)
    (isStarred : option bool) : M Response :=
  ensureEmailVerified caller (fun me =>
    try_catch
      (match emailId, isStarred with
       | None, _ => json 400 (Error "Invalid email ID format")
       | Some _, None => json 400 (Error "isStarred must be a boolean value")
       | Some i, Some isStarred =>
           email <- Email_findOneAndUpdate
                      (fun e => (Email.id e =? i) && Email.participant me e)
                      (Email.set_isStarred isStarred) ;;
           match email with
           | None => json 404 (Error "Email not found or you are not authorized to modify it")
           | Some email =>
               labels <- populateLabels (Email.labels email) ;;
               json 200 (Selection (selected email labels))
           end
       end)
      (fun err => log ("Star email error: " +++ err) ;;; json 500 (Error "Server error"))).

(** PATCH /move-to-trash/:emailId *)
Definition moveToTrash (caller : User.t) (emailId : option ObjectId) : M Response :=
  ensureEmailVerified caller (fun me =>
    try_catch
      (match emailId with
       | None => json 400 (Error "Invalid email ID")
       | Some i =>
           updated <- Email_findOneAndUpdate
                        (fun e => (Email.id e =? i) && Email.participant me e)
                        (Email.set_folder trash) ;;
           match updated with
           | None => json 404 (Error "Email not found or unauthorized")
           | Some _ => json 200 (Message "Email moved to trash")
           end
       end)
      (fun err => log ("Move to trash error: " +++ err) ;;; json 500 (Error "Server error"))).

(** A string of a request that [mongoose.isValidObjectId] accepts, as
    far as the code tells such strings apart: the ObjectId that it is
    cast to, and whether it is the text that [toString] gives for that
    ObjectId -- twenty-four hexadecimal digits, the letters small -- or
    another spelling of it (capital letters, or a string of twelve
    characters). *)
Module IdText.
Record t := mk {
  cast : ObjectId;
  canonical : bool
}.
End IdText.

(** [id.toString() === text], which is also how [includes] of a
    Mongoose array compares a string with an ObjectId. *)
Definition spells (text : IdText.t) (id : ObjectId) : bool :=
  (id =? IdText.cast text) && IdText.canonical text.

(** PATCH /emails/:emailId/labels. The label is looked up and pushed by
    the ObjectId that [labelId] is cast to; the tests of [includes] and
    of the filter compare the string itself. *)
Definition emailLabels (caller : User.t) (emailId : option ObjectId)
    (labelId : option IdText.t) (action : string) : M Response :=
  ensureEmailVerified caller (fun me =>
    try_catch
      (match emailId, labelId with
       | Some i, Some labelId =>
           if negb (String.eqb action "add" || String.eqb action "remove") then
             json 400 (Error "Invalid action")
           else
             email <- Email_findOne
                        (fun e => (Email.id e =? i) && Email.participant me e) ;;
             match email with
             | None => json 404 (Error "Email not found or unauthorized")
             | Some email =>
                 label <- Label_findOne
                            (fun x => (Label.id x =? IdText.cast labelId)
                                      && (Label.userId x =? User.id caller)) ;;
                 match label with
                 | None => json 404 (Error "Label not found or unauthorized")
                 | Some _ =>
                     let email' :=
                       if String.eqb action "add" then
                         if existsb (spells labelId) (Email.labels email) then email
                         else Email.set_labels
                                (Email.labels email ++ [IdText.cast labelId]) email
                       else
                         Email.set_labels
                           (filter (fun id => negb (spells labelId id))
                                   (Email.labels email)) email in
                     Email_saveExisting email' ;;;
                     json 200 (Message "Label updated successfully")
                 end
             end
       | _, _ => json 400 (Error "Invalid email or label ID")
       end)
      (fun err => log ("Update email labels error: " +++ err) ;;; json 500 (Error "Server error"))).

(** DELETE /labels/:labelId *)
Definition deleteLabel (caller : User.t) (labelId : option ObjectId) : M Response :=
  ensureEmailVerified caller (fun me =>
    try_catch
      (match labelId with
       | None => json 400 (Error "Invalid label ID")
       | Some l =>
           let mine := fun x => (Label.id x =? l) && (Label.userId x =? User.id caller) in
           label <- Label_findOne mine ;;
           match label with
           | None => json 404 (Error "Label not found or unauthorized")
           | Some label =>
               if Label.isSystemLabel label then
                 json 400 (Error "Cannot delete system label")
               else
                 deleted <- Label_deleteOne mine ;;
                 if deleted =? 0 then
                   json 404 (Error "Label not found or unauthorized")
                 else
                   Email_pullLabelEverywhere l ;;;
                   json 200 (Message "Label deleted successfully")
           end
       end)
      (fun err => log ("Delete label error: " +++ err) ;;; json 500 (Error "Server error"))).

(** GET /emails/:emailId *)
Definition getEmail (caller : User.t) (emailId : option ObjectId) : M Response :=
  ensureEmailVerified caller (fun me =>
    try_catch
      (match emailId with
       | None => json 400 (Error "Invalid email ID")
       | Some i =>
           email <- Email_findOne
                      (fun e => (Email.id e =? i) && Email.participant me e) ;;
           match email with
           | None => json 404 (Error "Email not found or unauthorized")
           | Some email =>
               labels <- populateLabels (Email.labels email) ;;
               json 200 (Document email labels)
           end
       end)
      (fun err => log ("Get email error: " +++ err) ;;; json 500 (Error "Server error"))).

(* ================================================================== *)
(** * What the properties speak of *)
(* ================================================================== *)

(** [kw] occurs in [s]. *)
Definition Contains (kw s : string) : Prop :=
  exists pre post, s = pre +++ kw +++ post.

(** Rule 1: the subject or the body, lowered, holds a keyword. *)
Definition KeywordRule (subject body : string) : Prop :=
  exists kw, In kw spamKeywords /\
             (Contains kw (Js.toLowerCase subject) \/ Contains kw (Js.toLowerCase body)).

(** Rule 2: more than five URL matches in the lowered body. *)
Definition LinkRule (body : string) : Prop :=
  5 < List.length (Js.matchUrls (Js.toLowerCase body)).

(** Rule 3: no verified user has the address of the sender. *)
Definition SenderRule (us : list User.t) (sender : string) : Prop :=
  forall u, In u us ->
            ~ (User.email u = Some sender /\ User.isEmailVerified u = true).

(** Rule 4: more than ten To-recipients. *)
Definition RecipientRule (recipients : list string) : Prop :=
  10 < List.length recipients.

(** Rule 5: an attachment over 5 MiB, or one whose extension is not
    among the four allowed. *)
Definition AttachmentRule (atts : list Attachment.t) : Prop :=
  exists a, In a atts /\
    ((exists n, Attachment.size a = Some n /\ (5 * 1024 * 1024 < n)%Z) \/
     (exists fn, Attachment.filename a = Some fn /\
                 ~ In (extensionOf fn) allowedExtensions)).

(** The number of times the classifier was entered. *)
Fixpoint classified (t : list Event) : nat :=
  match t with
  | [] => 0
  | Classify _ :: r => S (classified r)
  | _ :: r => classified r
  end.

(** The collections are the same in both worlds. *)
Record sameStores (w w' : World) : Prop := mkSameStores {
  same_users : users w' = users w;
  same_emails : emails w' = emails w;
  same_labels : labels w' = labels w;
  same_autoReplies : autoReplies w' = autoReplies w
}.

(** What no code of the email routes changes, and what only a save of an
    email or the classifier changes. *)
Record untouched (w w' : World) : Prop := mkUntouched {
  un_users : users w' = users w;
  un_emails : emails w' = emails w;
  un_autoReplies : autoReplies w' = autoReplies w;
  un_now : now w' = now w;
  un_io : io w' = io w;
  un_faults : faults w' = faults w;
  un_classified : classified (trace w') = classified (trace w)
}.

(** An internal fault occurs during classification: the [try] block of
    [detectSpam], run where [detectSpam] runs it, throws. *)
Definition faultsDuring (email : SpamInput) (sender : string) (w : World) : Prop :=
  exists err w1,
    detectSpam_try email sender (set_trace (trace w ++ [Classify sender]) w)
    = (Thrown err, w1).

(** ** The documents a send stores *)

(** A document without its _id and its labels. *)
Definition shape (e : Email.t) : Email.t :=
  Email.set_id 0 (Email.set_labels [] e).

(** The attachments that [uploadAll] answers. *)
Definition attachmentsOf (files : list File.t) : list Attachment.t :=
  map (fun file => Attachment.mk (Some (File.secure_url file))
                                 (Some (File.originalname file))
                                 (Some (File.size file))) files.

Section SendDocs.
Variables (me subject body : string) (recipients cc bcc : list string)
          (atts : list Attachment.t) (t : nat) (v : bool).
(* [t] is the time of the send: the clock does not move during it. *)

(** The sent copy of the sender. *)
Definition sentDoc : Email.t :=
  Email.mk 0 me recipients cc bcc subject body atts sent [] false false false t None.

(** The copy of the address [addr]. *)
Definition copyDoc (addr : string) : Email.t :=
  Email.mk 0 me [addr] cc bcc subject body atts (if v then spam else inbox)
           [] false false v t None.

(** The two documents of an auto-reply of [addr] with the text [msg]. *)
Definition autoReplyDocs (addr msg : string) : list Email.t :=
  [ Email.mk 0 addr [me] [] [] ("Auto Reply: " +++ subject) msg [] sent
             [] false false false t None;
    Email.mk 0 addr [me] [] [] ("Auto Reply: " +++ subject) msg [] inbox
             [] false false false t None ].

(** The auto-reply configuration that answers for a recipient: the
    identity is known, the message is not spam, the configuration of
    the identity exists and is enabled, and the identity is verified. *)
Definition autoReplyFor (ars : list AutoReply.t) (recipientUser : option User.t)
  : option AutoReply.t :=
  match recipientUser with
  | Some u =>
      if v then None
      else
        match find (fun a => AutoReply.userId a =? User.id u) ars with
        | Some ar =>
            if AutoReply.enabled ar && User.isEmailVerified u then Some ar else None
        | None => None
        end
  | None => None
  end.

Definition replyDocs (ars : list AutoReply.t) (recipientUser : option User.t)
    (addr : string) : list Email.t :=
  match autoReplyFor ars recipientUser with
  | Some ar => autoReplyDocs addr (AutoReply.message ar)
  | None => []
  end.

(** What the recipients loop stores for [addr]. *)
Definition recipientDocs (ars : list AutoReply.t) (rus : list User.t)
    (addr : string) : list Email.t :=
  copyDoc addr :: replyDocs ars (find (hasEmail addr) rus) addr.

(** All that a send stores, in order. *)
Definition sendDocs (ars : list AutoReply.t) (rus : list User.t) : list Email.t :=
  sentDoc :: flat_map (recipientDocs ars rus) recipients
          ++ map copyDoc cc ++ map copyDoc bcc.
End SendDocs.

(** The users that the send handler resolves. *)
Definition resolved (us : list User.t) (recipients cc bcc : list string) : list User.t :=
  filter (verifiedAmong (uniq (recipients ++ cc ++ bcc))) us.

(** [w'] is [w] with the emails [news] stored after the others; the
    count of calls, the next _id, the labels and the log may differ. *)
Definition sentMore (w w' : World) (news : list Email.t) : Prop :=
  untouched w (set_emails (emails w) w') /\ emails w' = emails w ++ news.

(** [l1] is the beginning of [l2]. *)
Definition Prefix (l1 l2 : list Email.t) : Prop := exists rest, l2 = l1 ++ rest.

(** The run of [m] from [w] stores emails of the shapes [docs], all of
    them when it returns and the first of them when it throws. *)
Definition stores {A} (m : M A) (w : World) (docs : list Email.t) : Prop :=
  forall o w', m w = (o, w') ->
    exists news, sentMore w w' news /\
      match o with
      | Returned _ => map shape news = docs
      | Thrown _ => Prefix (map shape news) docs
      end.

(** ** The request of a send, as the handler reads it *)

(** The To, cc and bcc lists after the filter of the handler. *)
Definition toOf (req : SendReq.t) : list string :=
  match SendReq.recipients req with
  | Array items => keepAddresses items
  | _ => []
  end.

Definition ccOf (req : SendReq.t) : list string := optionalList (SendReq.cc req).

Definition bccOf (req : SendReq.t) : list string := optionalList (SendReq.bcc req).

(** All the addresses of a send, list after list. *)
Definition addressesOf (req : SendReq.t) : list string :=
  toOf req ++ ccOf req ++ bccOf req.

(** The sender, the subject and the body of the logical message. *)
Definition Composed (caller : User.t) (req : SendReq.t) (me subject body : string) : Prop :=
  User.email caller = Some me /\ SendReq.subject req = Some subject
  /\ SendReq.body req = Some body.

(** The identities that the handler resolved for the addresses. *)
Definition resolvedFor (w : World) (req : SendReq.t) : list User.t :=
  resolved (users w) (toOf req) (ccOf req) (bccOf req).

(** The documents of the whole fan-out of [req] in [w] for the verdict
    [v]: the sent copy, then what the To loop, the cc loop and the bcc
    loop store. *)
Definition fanOutDocs (w : World) (req : SendReq.t) (me subject body : string)
    (v : bool) : list Email.t :=
  sendDocs me subject body (toOf req) (ccOf req) (bccOf req)
           (attachmentsOf (SendReq.files req)) (now w) v
           (autoReplies w) (resolvedFor w req).

(** [e] is a copy addressed to [a] alone. *)
Definition copyOf (a : string) (e : Email.t) : bool :=
  match Email.recipients e with
  | [r] => String.eqb r a
  | _ => false
  end.

(** The address [a] belongs to a user whose auto-reply is enabled. *)
Definition autoReplyEnabled (w : World) (a : string) : Prop :=
  exists u ar, In u (users w) /\ User.email u = Some a /\
               In ar (autoReplies w) /\ AutoReply.userId ar = User.id u /\
               AutoReply.enabled ar = true.

(** The identity of an address: the verified user that has it. *)
Definition identityOf (w : World) (a : string) : option User.t :=
  find (verifiedWithEmail a) (users w).

(** The auto-reply configuration of a user. *)
Definition configOf (w : World) (u : User.t) : option AutoReply.t :=
  find (fun x => AutoReply.userId x =? User.id u) (autoReplies w).

(** The address [a] answers a send of verdict [v] automatically, with
    the configuration [ar]: the verdict is false, [a] is a To-recipient,
    its identity has a configuration that is enabled, and is verified. *)
Definition AutoReplies (w : World) (req : SendReq.t) (v : bool) (a : string)
    (ar : AutoReply.t) : Prop :=
  v = false /\ In a (toOf req) /\
  exists u, identityOf w a = Some u /\ configOf w u = Some ar /\
            AutoReply.enabled ar = true /\ User.isEmailVerified u = true.


(** [e] is an auto-reply to a message of subject [subject]. *)
Definition isAutoReply (subject : string) (e : Email.t) : bool :=
  String.eqb (Email.subject e) ("Auto Reply: " +++ subject).

(** ** The verdict of a fan-out *)

(** The world of a handler that since [w] has made [k] calls to
    collaborators, has taken [n] fresh _ids and has stored the emails
    [news] after the others, and has written nothing to the log. *)
Definition advanced (w : World) (k n : nat) (news : list Email.t) : World :=
  mkWorld (users w) (emails w ++ news) (labels w) (autoReplies w)
          (nextId w + n) (now w) (io w) (faults w) (calls w + k) (trace w).

(** [v] is what the classifier answers for the email [e] and its
    sender when it is asked in [w]. *)
Definition Classifies (w : World) (e : Email.t) (v : bool) : Prop :=
  fst (detectSpam (Email_view e) (Email.sender e) w) = Returned v.

(** The world in which the handler of a send asks the classifier: the
    addresses were looked up, each file was uploaded, and the sent copy
    was given its _id and stored. *)
Definition sendAsks (w : World) (files : list File.t) (sentCopy : Email.t) : World :=
  advanced w (2 + List.length files) 1 [sentCopy].

(** The world in which the handlers of a reply and of a forward ask the
    classifier: the original and the addresses were looked up, each file
    was uploaded, and the sent copy was given its _id; it is not stored
    yet. *)
Definition replyAsks (w : World) (files : list File.t) : World :=
  advanced w (2 + List.length files) 1 [].

(** ** A small world to run the handlers in *)
Module Scenario.
Definition alice : User.t := User.mk 1 (Some "alice@x.com") true.
Definition bob : User.t := User.mk 2 (Some "bob@x.com") true.
Definition carol : User.t := User.mk 3 (Some "carol@x.com") true.
Definition mallory : User.t := User.mk 4 (Some "mallory@x.com") true.

(** Alice, Bob and Carol are known, nothing is stored, Socket.IO is
    set, and the collaborators fail as [f] tells. *)
Definition world (f : nat -> option string) : World :=
  mkWorld [alice; bob; carol; mallory] [] [] [] 100 7 true f 0 [].

Definition healthy : World := world (fun _ => None).

(** The fourth call to a collaborator fails, and no other. *)
Definition fourthFails : World :=
  world (fun k => if k =? 3 then Some "db down" else None).

(** Bob has turned his auto-reply on. *)
Definition bobAway : World :=
  mkWorld [alice; bob; carol; mallory] [] []
          [AutoReply.mk 50 2 true "Away" 0] 100 7 true (fun _ => None) 0 [].

(** Alice writes to Bob and Carol. *)
Definition hello : SendReq.t :=
  SendReq.mk (Array [JString "bob@x.com"; JString "carol@x.com"]) Falsy Falsy
             (Some "Hello") (Some "See you at noon") [].

(** The same with a keyword of the list in the body. *)
Definition offer : SendReq.t :=
  SendReq.mk (Array [JString "bob@x.com"; JString "carol@x.com"]) Falsy Falsy
             (Some "Hello") (Some "A limited time offer") [].

(** Alice writes to Bob, with Carol in copy and an unknown address in
    blind copy. *)
Definition stranger : SendReq.t :=
  SendReq.mk (Array [JString "bob@x.com"]) (Array [JString "carol@x.com"])
             (Array [JString "nobody@x.com"])
             (Some "Hello") (Some "See you at noon") [].

(** A message from Alice in the inbox of Bob, under his label Work;
    Bob also has his Spam label. Mallory is no participant. *)
Definition note : Email.t :=
  Email.mk 30 "alice@x.com" ["bob@x.com"] [] [] "Hello" "See you at noon" []
           inbox [60] false false false 5 None.

Definition work : Label.t := Label.mk 60 2 "Work" false 0.

Definition junk : Label.t := Label.mk 61 2 "Spam" true 0.

Definition mailbox : World :=
  mkWorld [alice; bob; carol; mallory] [note] [work; junk] [] 100 7 true
          (fun _ => None) 0 [].
End Scenario.

(** The request passes the checks that come before the Directory
    lookup: the caller has a verified email, recipients is an array,
    cc and bcc are arrays or falsy, subject and body are strings that
    are not empty, and an address is left in the To list. *)
Definition Accepted (caller : User.t) (req : SendReq.t) : Prop :=
  (exists me, User.email caller = Some me /\ Js.truthy me = true) /\
  User.isEmailVerified caller = true /\
  (exists items, SendReq.recipients req = Array items) /\
  (SendReq.cc req = Falsy \/ exists items, SendReq.cc req = Array items) /\
  (SendReq.bcc req = Falsy \/ exists items, SendReq.bcc req = Array items) /\
  (exists s, SendReq.subject req = Some s /\ Js.truthy s = true) /\
  (exists b, SendReq.body req = Some b /\ Js.truthy b = true) /\
  toOf req <> [].

(** An address of [l] does not resolve to a verified identity. *)
Definition Unresolved (w : World) (l : list string) : Prop :=
  exists a, In a l /\ SenderRule (users w) a.

(** The caller has a verified email: what [ensureEmailVerified] asks. *)
Definition Verified (caller : User.t) (me : string) : Prop :=
  User.email caller = Some me /\ Js.truthy me = true /\
  User.isEmailVerified caller = true.

(** The label of _id [l] that belongs to [caller]. *)
Definition ownedBy (caller : User.t) (l : ObjectId) (x : Label.t) : bool :=
  (Label.id x =? l) && (Label.userId x =? User.id caller).

(** [e] without the label [l]. *)
Definition detached (l : ObjectId) (e : Email.t) : Email.t :=
  Email.set_labels (filter (fun x => negb (x =? l)) (Email.labels e)) e.

(** No call to a collaborator fails. *)
Definition noFaults (w : World) : Prop := forall k, faults w k = None.



(** ** The spam flag, the folder and the Spam label *)

(** What holds of every stored email: an email in the spam folder is
    flagged, and a flagged email is in the spam folder or in the trash. *)
Definition Consistent (e : Email.t) : Prop :=
  (Email.folder e = spam -> Email.isSpam e = true) /\
  (Email.isSpam e = true -> Email.folder e = spam \/ Email.folder e = trash).

(** [e] is addressed to one address, and carries the Spam label of the
    identity of that address. *)
Definition CarriesSpamLabel (w : World) (e : Email.t) : Prop :=
  exists a u lab,
    Email.recipients e = [a] /\ identityOf w a = Some u /\
    In lab (labels w) /\ isSpamLabelOf (User.id u) lab = true /\
    In (Label.id lab) (Email.labels e).

(** How the handlers make an email: not flagged, out of the spam folder
    and without label; or flagged, in the spam folder, addressed to one
    address, with the Spam label of the identity of that address as its
    only label when the address has one. *)
Definition Made (w : World) (e : Email.t) : Prop :=
  (Email.isSpam e = false /\ Email.folder e <> spam /\ Email.labels e = []) \/
  (Email.isSpam e = true /\ Email.folder e = spam /\
   exists a, Email.recipients e = [a] /\
     match identityOf w a with
     | Some u => exists lab, In lab (labels w) /\ isSpamLabelOf (User.id u) lab = true /\
                             Email.labels e = [Label.id lab]
     | None => Email.labels e = []
     end).

(** [w'] is [w] with emails made by the handlers stored after the
    others, and maybe more labels. *)
Definition adds (w w' : World) : Prop :=
  users w' = users w /\ incl (labels w) (labels w') /\
  exists news, emails w' = emails w ++ news /\ Forall (Made w') news.

(** The requests to the email routes. *)
Inductive Request :=
| Send (caller : User.t) (req : SendReq.t)
| Reply (caller : User.t) (req : ReplyReq.t)
| Forward (caller : User.t) (req : ForwardReq.t)
| MarkRead (caller : User.t) (emailId : option ObjectId) (isRead : option bool)
| Star (caller : User.t) (emailId : option ObjectId) (isStarred : option bool)
| MoveToTrash (caller : User.t) (emailId : option ObjectId)
| EmailLabels (caller : User.t) (emailId : option ObjectId)
              (labelId : option IdText.t) (action : string)
| DeleteLabel (caller : User.t) (labelId : option ObjectId).

Definition handle (r : Request) : M Response :=
  match r with
  | Send caller req => send caller req
  | Reply caller req => reply caller req
  | Forward caller req => forward caller req
  | MarkRead caller emailId isRead => markRead caller emailId isRead
  | Star caller emailId isStarred => star caller emailId isStarred
  | MoveToTrash caller emailId => moveToTrash caller emailId
  | EmailLabels caller emailId labelId action => emailLabels caller emailId labelId action
  | DeleteLabel caller labelId => deleteLabel caller labelId
  end.

(** The requests that fan a message out. *)
Definition fansOut (r : Request) : bool :=
  match r with
  | Send _ _ | Reply _ _ | Forward _ _ => true
  | _ => false
  end.

(** The worlds that the requests lead to from a world without emails.
    Between two requests anything but the emails may change: the users,
    the auto-reply settings and the labels through the other routes,
    the clock, the faults to come. *)
Inductive Reachable : World -> Prop :=
| reach_empty (w : World) : emails w = [] -> Reachable w
| reach_request (w : World) (r : Request) : Reachable w -> Reachable (snd (handle r w))
| reach_world (w w' : World) : Reachable w -> emails w' = emails w -> Reachable w'.

(** Every stored email is consistent. *)
Definition AllConsistent (w : World) : Prop := Forall Consistent (emails w).

(** A relation between the world before and the world after that every
    step of a computation keeps, whatever the outcome. *)
Definition keeps (R : World -> World -> Prop) {A} (m : M A) : Prop :=
  forall w, R w (snd (m w)).

(** Nothing but the count of calls and the trace differs. *)
Record inert (w w' : World) : Prop := mkInert {
  in_stores : sameStores w w';
  in_nextId : nextId w' = nextId w;
  in_now : now w' = now w;
  in_io : io w' = io w;
  in_faults : faults w' = faults w
}.

(** An invariant, read as a relation. *)
Definition carries (I : World -> Prop) (w w' : World) : Prop := I w -> I w'.

(** The attachment test, when it does not throw. *)
Definition suspicious (a : Attachment.t) : bool :=
  tooLarge a ||
  match Attachment.filename a with
  | Some fn => negb (allowedExtension fn)
  | None => false
  end.

(** The verdict as a function of what the classifier reads. *)
Definition verdict (us : list User.t) (sender subject body : string)
    (recipients : list string) (atts : list Attachment.t) : bool :=
  hasSpamKeyword (Js.toLowerCase subject) (Js.toLowerCase body)
  || (5 <? List.length (Js.matchUrls (Js.toLowerCase body)))
  || match find (verifiedWithEmail sender) us with
     | None => true
     | Some _ => (10 <? List.length recipients) || existsb suspicious atts
     end.

(** Whether the first two rules decide, so that the Directory is not
    consulted. *)
Definition decidedEarly (subject body : string) : bool :=
  hasSpamKeyword (Js.toLowerCase subject) (Js.toLowerCase body)
  || (5 <? List.length (Js.matchUrls (Js.toLowerCase body))).

(* ================================================================== *)
(** * The other routes of the router in src/models/Email.js *)
(* ================================================================== *)

Definition set_autoReplies (l : list AutoReply.t) (w : World) : World :=
  mkWorld (users w) (emails w) (labels w) l (nextId w) (now w) (io w)
          (faults w) (calls w) (trace w).

Definition set_draftSavedAt (d : option nat) (e : Email.t) : Email.t :=
  Email.mk (Email.id e) (Email.sender e) (Email.recipients e) (Email.cc e)
           (Email.bcc e) (Email.subject e) (Email.body e) (Email.attachments e)
           (Email.folder e) (Email.labels e) (Email.isRead e) (Email.isStarred e)
           (Email.isSpam e) (Email.sentAt e) d.

(** [Email.deleteOne(filter)], giving [deletedCount]. *)
Definition Email_deleteOne (p : Email.t -> bool) : M nat :=
  external ;;;
  (fun w => let (l, n) := removeFirst p (emails w) in
            (Returned n, set_emails l w)).

(** [Label.updateOne(filter, update)], giving [matchedCount]. *)
Definition Label_updateOne (p : Label.t -> bool) (f : Label.t -> Label.t) : M nat :=
  external ;;;
  (fun w => let (l, r) := updateFirst p f (labels w) in
            (Returned (match r with Some _ => 1 | None => 0 end), set_labels l w)).

(** The update [{ name }] of a label. *)
Definition renamed (name : string) (l : Label.t) : Label.t :=
  Label.mk (Label.id l) (Label.userId l) name (Label.isSystemLabel l)
           (Label.createdAt l).

(** [autoReply.save()] of a new document: userId, the only required
    path, is set by the handler. *)
Definition AutoReply_save (ar : AutoReply.t) : M unit :=
  external ;;;
  (fun w => (Returned tt, set_autoReplies (autoReplies w ++ [ar]) w)).

(** [autoReply.save()] of a document that was read from the collection:
    the update of the stored document of that _id. *)
Definition AutoReply_saveExisting (ar : AutoReply.t) : M unit :=
  external ;;;
  (fun w => (Returned tt,
             set_autoReplies
               (fst (updateFirst (fun x => AutoReply.id x =? AutoReply.id ar)
                                 (fun _ => ar) (autoReplies w))) w)).

(** The default of the message path of the AutoReply schema. *)
Definition defaultMessage : string :=
  "Thank you for your email. I am currently unavailable and will respond soon.".

(** What the routes below answer besides the payloads above. *)
Inductive Body :=
| Plain (p : Payload)
| LabelCreated (message : string) (label : Label.t)          (* { message, label } *)
| LabelList (all : list Label.t)                             (* the labels *)
| AutoReplyUpdated (message : string) (autoReply : AutoReply.t) (* { message, autoReply } *)
| DraftSaved (message : string) (emailId : ObjectId).        (* { message, emailId } *)

Record Answer := mkAnswer { code : nat; content : Body }.

Definition answer (st : nat) (b : Body) : M Answer := ret (mkAnswer st b).

(** The middleware [ensureEmailVerified] again, for the routes that
    answer a [Body]; [next] receives [req.user.email]. *)
Definition verifiedEmail (caller : User.t) (next : string -> M Answer) : M Answer :=
  match User.email caller with
  | Some me =>
      if Js.truthy me && User.isEmailVerified caller then next me
      else answer 400 (Plain (Error "Verified email required to perform this action"))
  | None => answer 400 (Plain (Error "Verified email required to perform this action"))
  end.

Module DraftReq.
Record t := mk {
  recipients : Field string;  (* the elements are taken to be strings *)
  cc : Field string;
  bcc : Field string;
  subject : option string;    (* [None]: undefined *)
  body : option string;
  files : list File.t
}.
End DraftReq.

(** [l || []] of a field that passed the array checks. *)
Definition arrayOrEmpty {A} (f : Field A) : list A :=
  match f with
  | Array items => items
  | _ => []
  end.

(** [s || ''] *)
Definition textOrEmpty (s : option string) : string :=
  match s with Some s => s | None => "" end.

(** POST /save-draft. The text of the JSON.parse error is not kept in
    the log line. *)
Definition saveDraft (caller : User.t) (req : DraftReq.t) : M Answer :=
  verifiedEmail caller (fun me =>
    if unparsable (DraftReq.recipients req) || unparsable (DraftReq.cc req)
       || unparsable (DraftReq.bcc req)
    then
      log "JSON parse error in save-draft:" ;;;
      answer 400 (Plain (Error "Invalid JSON format in recipients, cc, or bcc"))
    else
      try_catch
        (match DraftReq.recipients req, DraftReq.cc req, DraftReq.bcc req with
         | NotArray, _, _ => answer 400 (Plain (Error "Recipients must be an array"))
         | _, NotArray, _ => answer 400 (Plain (Error "CC must be an array"))
         | _, _, NotArray => answer 400 (Plain (Error "BCC must be an array"))
         | recipients, cc, bcc =>
             attachments <- uploadAll (DraftReq.files req) ;;
             savedAt <- newDate ;;
             e <- Email_new me (arrayOrEmpty recipients) (arrayOrEmpty cc)
                    (arrayOrEmpty bcc) (textOrEmpty (DraftReq.subject req))
                    (textOrEmpty (DraftReq.body req)) attachments draft false []
                    None ;;
             let draftEmail := set_draftSavedAt (Some savedAt) e in
             Email_save draftEmail ;;;
             answer 200 (DraftSaved "Draft saved successfully" (Email.id draftEmail))
         end)
        (fun err =>
           log ("Save draft error: " +++ err) ;;;
           answer 500 (Plain (Error "Server error")))).

(** DELETE /:emailId *)
Definition deleteEmail (caller : User.t) (emailId : option ObjectId) : M Response :=
  ensureEmailVerified caller (fun me =>
    try_catch
      (match emailId with
       | None => json 400 (Error "Invalid email ID")
       | Some i =>
           deleted <- Email_deleteOne
                        (fun e => (Email.id e =? i) && Email.participant me e) ;;
           if deleted =? 0 then
             json 404 (Error "Email not found or you are not authorized to delete it")
           else json 200 (Message "Email permanently deleted")
       end)
      (fun err => log ("Delete email error: " +++ err) ;;; json 500 (Error "Server error"))).

(** [{ userId: req.user._id, name }] *)
Definition namedBy (caller : User.t) (name : string) (x : Label.t) : bool :=
  (Label.userId x =? User.id caller) && String.eqb (Label.name x) name.

(** POST /labels; [name] is [None] when the body has none (a name that
    is no string is left out). *)
Definition createLabel (caller : User.t) (name : option string) : M Answer :=
  verifiedEmail caller (fun _ =>
    match name with
    | Some name =>
        if Js.truthy name then
          try_catch
            (existingLabel <- Label_findOne (namedBy caller name) ;;
             match existingLabel with
             | Some _ => answer 400 (Plain (Error "Label name already exists"))
             | None =>
                 i <- fresh ;;
                 t <- newDate ;;
                 let label := Label.mk i (User.id caller) name false t in
                 Label_save label ;;;
                 answer 200 (LabelCreated "Label created successfully" label)
             end)
            (fun err =>
               log ("Create label error: " +++ err) ;;;
               answer 500 (Plain (Error "Server error")))
        else answer 400 (Plain (Error "Label name is required"))
    | None => answer 400 (Plain (Error "Label name is required"))
    end).

(** PATCH /labels/:labelId *)
Definition renameLabel (caller : User.t) (labelId : option ObjectId)
    (name : option string) : M Response :=
  ensureEmailVerified caller (fun _ =>
    try_catch
      (match labelId with
       | None => json 400 (Error "Invalid label ID")
       | Some l =>
           match name with
           | Some name =>
               if Js.truthy name then
                 label <- Label_findOne (ownedBy caller l) ;;
                 match label with
                 | None => json 404 (Error "Label not found or unauthorized")
                 | Some label =>
                     if Label.isSystemLabel label then
                       json 400 (Error "Cannot modify system label")
                     else
                       matched <- Label_updateOne (ownedBy caller l) (renamed name) ;;
                       if matched =? 0 then
                         json 404 (Error "Label not found or unauthorized")
                       else json 200 (Message "Label updated successfully")
                 end
               else json 400 (Error "Label name is required")
           | None => json 400 (Error "Label name is required")
           end
       end)
      (fun err => log ("Update label error: " +++ err) ;;; json 500 (Error "Server error"))).

(** GET /labels *)
Definition getLabels (caller : User.t) : M Answer :=
  verifiedEmail caller (fun _ =>
    try_catch
      (all <- Label_find (fun x => Label.userId x =? User.id caller) ;;
       answer 200 (LabelList all))
      (fun err =>
         log ("Get labels error: " +++ err) ;;;
         answer 500 (Plain (Error "Server error")))).

(** The message of the body of POST /auto-reply: undefined, a string,
    or a truthy value that is no string (null, 0 and false are left
    out). *)
Inductive MessageField :=
| NoMessage
| Text (s : string)
| NotText.

(** POST /auto-reply; [enabled] is [None] when the body holds no
    boolean. The save is taken to reach the database also when the
    document is as it was. *)
Definition setAutoReply (caller : User.t) (enabled : option bool)
    (message : MessageField) : M Answer :=
  verifiedEmail caller (fun _ =>
    try_catch
      (match enabled, message with
       | None, _ => answer 400 (Plain (Error "Enabled must be a boolean"))
       | Some _, NotText => answer 400 (Plain (Error "Message must be a string"))
       | Some enabled, _ =>
           found <- AutoReply_findOne (fun a => AutoReply.userId a =? User.id caller) ;;
           match found with
           | None =>
               i <- fresh ;;
               t <- newDate ;;
               let autoReply :=
                 AutoReply.mk i (User.id caller) enabled
                              (match message with
                               | Text s => s
                               | _ => defaultMessage
                               end) t in
               AutoReply_save autoReply ;;;
               answer 200 (AutoReplyUpdated "Auto reply settings updated" autoReply)
           | Some old =>
               t <- newDate ;;
               let autoReply :=
                 AutoReply.mk (AutoReply.id old) (AutoReply.userId old) enabled
                              (match message with
                               | Text s => if Js.truthy s then s else AutoReply.message old
                               | _ => AutoReply.message old
                               end) t in
               AutoReply_saveExisting autoReply ;;;
               answer 200 (AutoReplyUpdated "Auto reply settings updated" autoReply)
           end
       end)
      (fun err =>
         log ("Auto reply error: " +++ err) ;;;
         answer 500 (Plain (Error "Server error")))).

(** All the routes modelled, with one type of answer. *)
Inductive Route :=
| Mail (r : Request)
| GetEmail (caller : User.t) (emailId : option ObjectId)
| DeleteEmail (caller : User.t) (emailId : option ObjectId)
| SaveDraft (caller : User.t) (req : DraftReq.t)
| CreateLabel (caller : User.t) (name : option string)
| RenameLabel (caller : User.t) (labelId : option ObjectId) (name : option string)
| GetLabels (caller : User.t)
| SetAutoReply (caller : User.t) (enabled : option bool) (message : MessageField).

Definition plain (m : M Response) : M Answer :=
  resp <- m ;; answer (status resp) (Plain (payload resp)).

Definition route (r : Route) : M Answer :=
  match r with
  | Mail r => plain (handle r)
  | GetEmail caller emailId => plain (getEmail caller emailId)
  | DeleteEmail caller emailId => plain (deleteEmail caller emailId)
  | SaveDraft caller req => saveDraft caller req
  | CreateLabel caller name => createLabel caller name
  | RenameLabel caller labelId name => plain (renameLabel caller labelId name)
  | GetLabels caller => getLabels caller
  | SetAutoReply caller enabled message => setAutoReply caller enabled message
  end.

(** [req.user] of a request. *)
Definition callerOf (r : Route) : User.t :=
  match r with
  | Mail (Send c _) | Mail (Reply c _) | Mail (Forward c _)
  | Mail (MarkRead c _ _) | Mail (Star c _ _) | Mail (MoveToTrash c _)
  | Mail (EmailLabels c _ _ _) | Mail (DeleteLabel c _)
  | GetEmail c _ | DeleteEmail c _ | SaveDraft c _ | CreateLabel c _
  | RenameLabel c _ _ | GetLabels c | SetAutoReply c _ _ => c
  end.

(** ** What the theorems on the other routes speak of *)

(** The filter of the routes on one message: its _id, and the caller
    among its sender, recipients, cc and bcc. *)
Definition mine (me : string) (i : ObjectId) (e : Email.t) : bool :=
  (Email.id e =? i) && Email.participant me e.

(** The label documents that the path [ids] holds once populated from
    the labels of [w]. *)
Definition populated (w : World) (ids : list ObjectId) : list Label.t :=
  labelsOfIds (filter (fun x => existsb (Nat.eqb (Label.id x)) ids) (labels w)) ids.

(** The routes that may write the emails, the labels, the auto-reply
    settings. *)
Definition writesEmails (r : Route) : bool :=
  match r with
  | Mail _ | DeleteEmail _ _ | SaveDraft _ _ => true
  | _ => false
  end.

Definition writesLabels (r : Route) : bool :=
  match r with
  | Mail (Send _ _) | Mail (Reply _ _) | Mail (Forward _ _) | Mail (DeleteLabel _ _)
  | CreateLabel _ _ | RenameLabel _ _ _ => true
  | _ => false
  end.

Definition writesAutoReplies (r : Route) : bool :=
  match r with
  | SetAutoReply _ _ _ => true
  | _ => false
  end.

(** The routes that fan a message out. *)
Definition fansOutRoute (r : Route) : bool :=
  match r with
  | Mail r => fansOut r
  | _ => false
  end.

(** The system labels of a world, in order. *)
Definition systemLabels (w : World) : list Label.t :=
  filter Label.isSystemLabel (labels w).

(** The owner and the name of a label. *)
Definition labelKey (l : Label.t) : ObjectId * string :=
  (Label.userId l, Label.name l).

(** No user has two labels of one name. *)
Definition NamesUnique (w : World) : Prop := NoDup (map labelKey (labels w)).

(** A list field that the array checks of the draft route let through:
    a falsy value or an array. *)
Definition Listed {A} (f : Field A) : Prop :=
  f = Falsy \/ exists items, f = Array items.

(** The email addresses that the users have, in order. *)
Definition addressBook (us : list User.t) : list string :=
  flat_map (fun u => match User.email u with Some e => [e] | None => [] end) us.

(* ================================================================== *)
(** * Regular expressions *)
(* ================================================================== *)

(** The regular expressions of the repository, as far as their syntax
    goes: classes, sequences, alternatives, the greedy quantifiers and
    the lookahead. [exec] is the backtracking matcher of the language:
    it tries [r] at the head of [s] and hands what is left to the
    continuation [k]. An iteration of [*] that consumes nothing is not
    repeated. *)
Module Regex.

Inductive t :=
| Eps
| Chars (p : ascii -> bool)   (* a literal, an escape or a class *)
| Cat (a b : t)
| Alt (a b : t)
| Opt (a : t)                 (* a? *)
| Star (a : t)                (* a* *)
| Ahead (a : t).              (* (?=a) *)

Fixpoint exec (fuel : nat) : t -> list ascii -> (list ascii -> bool) -> bool :=
  fix go (r : t) (s : list ascii) (k : list ascii -> bool) : bool :=
    match r with
    | Eps => k s
    | Chars p =>
        match s with
        | c :: rest => p c && k rest
        | [] => false
        end
    | Cat a b => go a s (fun rest => go b rest k)
    | Alt a b => go a s k || go b s k
    | Opt a => go a s k || k s
    | Star a =>
        match fuel with
        | 0 => k s
        | S fuel' =>
            go a s (fun rest =>
                      (List.length rest <? List.length s)
                      && exec fuel' (Star a) rest k)
            || k s
        end
    | Ahead a => go a s (fun _ => true) && k s
    end.

(** [a{n}] *)
Fixpoint times (n : nat) (a : t) : t :=
  match n with
  | 0 => Eps
  | S n' => Cat a (times n' a)
  end.

(** [a{n,}] *)
Definition atLeast (n : nat) (a : t) : t := Cat (times n a) (Star a).

(** [a{0,n}] *)
Fixpoint upTo (n : nat) (a : t) : t :=
  match n with
  | 0 => Eps
  | S n' => Opt (Cat a (upTo n' a))
  end.

(** [a{n,m}] *)
Definition range (n m : nat) (a : t) : t := Cat (times n a) (upTo (m - n) a).

Definition atEnd (s : list ascii) : bool :=
  match s with [] => true | _ :: _ => false end.

(** [/^r$/.test(s)] *)
Definition testAnchored (r : t) (s : string) : bool :=
  let l := list_ascii_of_string s in exec (S (List.length l)) r l atEnd.

(** [/r/.test(s)]: a match that starts anywhere. *)
Fixpoint searchFrom (fuel : nat) (r : t) (l : list ascii) : bool :=
  exec fuel r l (fun _ => true)
  || match l with
     | _ :: rest => searchFrom fuel r rest
     | [] => false
     end.

Definition test (r : t) (s : string) : bool :=
  let l := list_ascii_of_string s in searchFrom (S (List.length l)) r l.

(** The classes in use. *)
Definition digit (c : ascii) : bool := Js.between 48 57 (Js.code c).
Definition lower (c : ascii) : bool := Js.between 97 122 (Js.code c).
Definition upper (c : ascii) : bool := Js.between 65 90 (Js.code c).
Definition oneOf (set : string) (c : ascii) : bool :=
  existsb (Ascii.eqb c) (list_ascii_of_string set).
(** [.]: anything but a line terminator. *)
Definition dot (c : ascii) : bool :=
  negb ((Js.code c =? 10) || (Js.code c =? 13)).

(** A literal word. *)
Fixpoint word (l : list ascii) : t :=
  match l with
  | [] => Eps
  | c :: rest => Cat (Chars (Ascii.eqb c)) (word rest)
  end.

Definition lit (s : string) : t := word (list_ascii_of_string s).

End Regex.

(* ================================================================== *)
(** * The upload filter of the email routes *)
(* ================================================================== *)

(** [/jpeg|jpg|png|pdf/] *)
Definition filetypes : Regex.t :=
  Regex.Alt (Regex.lit "jpeg")
    (Regex.Alt (Regex.lit "jpg") (Regex.Alt (Regex.lit "png") (Regex.lit "pdf"))).

(** The [fileFilter] of multer in src/models/Email.js: whether the file
    is let through. *)
Definition fileFilter (mimetype originalname : string) : bool :=
  let mimetypeOk := Regex.test filetypes mimetype in
  let extname := Regex.test filetypes (Js.splitDotPop (Js.toLowerCase originalname)) in
  mimetypeOk && extname.

(* ================================================================== *)
(** * The accounts: the router in src/routes/auth.js *)
(* ================================================================== *)

(** A path of a stored document: never set, set to null, or set. *)
Inductive Stored (A : Type) :=
| Unset
| Null
| Value (a : A).
Arguments Unset {A}.
Arguments Null {A}.
Arguments Value {A} a.

(** models/User.js, all its paths. *)
Module Account.
Record t := mk {
  id : ObjectId;
  phone : string;
  password : string;
  email : option string;
  name : option string;
  picture : option string;
  twoFactorEnabled : bool;
  isEmailVerified : bool;
  otp : Stored string;
  otpExpires : Stored nat
}.

(** [{ otp: o, otpExpires: t }] as an update. *)
Definition set_otp (o : string) (expires : nat) (a : t) : t :=
  mk (id a) (phone a) (password a) (email a) (name a) (picture a)
     (twoFactorEnabled a) (isEmailVerified a) (Value o) (Value expires).

(** [{ password: h, otp: null, otpExpires: null }] as an update. *)
Definition reset (h : string) (a : t) : t :=
  mk (id a) (phone a) h (email a) (name a) (picture a)
     (twoFactorEnabled a) (isEmailVerified a) Null Null.

(** The [required: true] paths: phone and password. *)
Definition valid (a : t) : bool :=
  Js.truthy (phone a) && Js.truthy (password a).
End Account.

Module Auth.

(** ** The validators *)

(** What [regex.test] sees of a field of the body: its text, and the
    text undefined when the field is absent. *)
Definition textOf (field : option string) : string :=
  match field with
  | Some s => s
  | None => "undefined"
  end.

(** [/^\+?[0-9]{10,12}$/] *)
Definition phoneRegex : Regex.t :=
  Regex.Cat (Regex.Opt (Regex.Chars (Ascii.eqb "+")))
            (Regex.range 10 12 (Regex.Chars Regex.digit)).

Definition validatePhone (phone : option string) : bool :=
  Regex.testAnchored phoneRegex (textOf phone).

Definition validatePassword (password : string) : bool :=
  8 <=? String.length password.

Definition special : string := "@$!%*?&".

(** [[A-Za-z\d@$!%*?&]] *)
Definition allowed (c : ascii) : bool :=
  Regex.upper c || Regex.lower c || Regex.digit c || Regex.oneOf special c.

(** [(?=.*c)] *)
Definition somewhere (p : ascii -> bool) : Regex.t :=
  Regex.Ahead (Regex.Cat (Regex.Star (Regex.Chars Regex.dot)) (Regex.Chars p)).

(** [/^(?=.*[a-z])(?=.*[A-Z])(?=.*\d)(?=.*[@$!%*?&])[A-Za-z\d@$!%*?&]{8,}$/] *)
Definition strongRegex : Regex.t :=
  Regex.Cat (somewhere Regex.lower)
    (Regex.Cat (somewhere Regex.upper)
       (Regex.Cat (somewhere Regex.digit)
          (Regex.Cat (somewhere (Regex.oneOf special))
             (Regex.atLeast 8 (Regex.Chars allowed))))).

Definition checkPasswordStrength (password : string) : string :=
  if Regex.testAnchored strongRegex password then "Strong"
  else "Weak, add uppercase, number, and special character".

(** ** The world of the router *)

(** What [transporter.sendMail] is given, the sender apart (it is a
    setting of the deployment). *)
Record Mail := mkMail { to : string; subject : string; text : string }.

(** The accounts, the clock, the schedule of faults of the
    collaborators and the count of the calls made to them, the values
    that [Math.floor(100000 + Math.random() * 900000).toString()] takes
    draw after draw and the count of the draws, the mails handed to the
    transporter and the lines of [console.error]. *)
Record World := mkWorld {
  accounts : list Account.t;
  nextId : ObjectId;
  now : nat;
  faults : nat -> option string;
  calls : nat;
  codes : nat -> string;
  drawn : nat;
  outbox : list Mail;
  console : list string
}.

Definition set_accounts (l : list Account.t) (w : World) : World :=
  mkWorld l (nextId w) (now w) (faults w) (calls w) (codes w) (drawn w)
          (outbox w) (console w).

Definition set_nextId (i : ObjectId) (w : World) : World :=
  mkWorld (accounts w) i (now w) (faults w) (calls w) (codes w) (drawn w)
          (outbox w) (console w).

Definition set_calls (c : nat) (w : World) : World :=
  mkWorld (accounts w) (nextId w) (now w) (faults w) c (codes w) (drawn w)
          (outbox w) (console w).

Definition set_drawn (d : nat) (w : World) : World :=
  mkWorld (accounts w) (nextId w) (now w) (faults w) (calls w) (codes w) d
          (outbox w) (console w).

Definition set_outbox (l : list Mail) (w : World) : World :=
  mkWorld (accounts w) (nextId w) (now w) (faults w) (calls w) (codes w)
          (drawn w) l (console w).

Definition set_console (l : list string) (w : World) : World :=
  mkWorld (accounts w) (nextId w) (now w) (faults w) (calls w) (codes w)
          (drawn w) (outbox w) l.

(** The clock moves on between two requests. *)
Definition later (t : nat) (w : World) : World :=
  mkWorld (accounts w) (nextId w) t (faults w) (calls w) (codes w) (drawn w)
          (outbox w) (console w).

Definition M (A : Type) : Type := World -> Outcome A * World.

Definition ret {A} (a : A) : M A := fun w => (Returned a, w).

Definition bind {A B} (m : M A) (k : A -> M B) : M B :=
  fun w =>
    match m w with
    | (Returned a, w1) => k a w1
    | (Thrown err, w1) => (Thrown err, w1)
    end.

Definition throw {A} (err : string) : M A := fun w => (Thrown err, w).

(** [try { m } catch (err) { h err }] *)
Definition try_catch {A} (m : M A) (h : string -> M A) : M A :=
  fun w =>
    match m w with
    | (Returned a, w1) => (Returned a, w1)
    | (Thrown err, w1) => h err w1
    end.

Declare Scope auth_scope.
Notation "x <- m ;; k" := (bind m (fun x => k))
  (at level 61, m at next level, right associativity) : auth_scope.
Notation "m ;;; k" := (bind m (fun _ => k))
  (at level 61, right associativity) : auth_scope.
Local Open Scope auth_scope.

Definition get_world : M World := fun w => (Returned w, w).

(** A call to a collaborator: it counts, and throws when the schedule of
    faults says so. *)
Definition external : M unit :=
  fun w =>
    let w1 := set_calls (S (calls w)) w in
    match faults w (calls w) with
    | Some err => (Thrown err, w1)
    | None => (Returned tt, w1)
    end.

(** The _id that [new User(...)] gives the document. *)
Definition fresh : M ObjectId :=
  fun w => (Returned (nextId w), set_nextId (S (nextId w)) w).

(** [Date.now()] *)
Definition dateNow : M nat := fun w => (Returned (now w), w).

(** [Math.floor(100000 + Math.random() * 900000).toString()] *)
Definition randomCode : M string :=
  fun w => (Returned (codes w (drawn w)), set_drawn (S (drawn w)) w).

(** [console.error(err)] *)
Definition consoleError (err : string) : M unit :=
  fun w => (Returned tt, set_console (console w ++ [err]) w).

(** [transporter.sendMail(mail)] *)
Definition sendMail (mail : Mail) : M unit :=
  external ;;; (fun w => (Returned tt, set_outbox (outbox w ++ [mail]) w)).

(** [{ phone }] *)
Definition hasPhone (phone : string) (a : Account.t) : bool :=
  String.eqb (Account.phone a) phone.

Definition User_findOne (p : Account.t -> bool) : M (option Account.t) :=
  external ;;; w <- get_world ;; ret (find p (accounts w)).

(** [User.updateOne(filter, update)]: the first match is updated, and
    nothing when there is none. *)
Definition User_updateOne (p : Account.t -> bool) (f : Account.t -> Account.t)
    : M unit :=
  external ;;;
  (fun w => (Returned tt, set_accounts (fst (updateFirst p f (accounts w))) w)).

(** [new User({ phone, password })]: the defaults of the schema. *)
Definition User_new (phone password : string) : M Account.t :=
  i <- fresh ;;
  ret (Account.mk i phone password None None None false false Unset Unset).

(** [user.save()] of a new document: validation, then the insert. The
    pre-save hook of the schema acts on a modified, non-empty email
    only, and a new account has none. *)
Definition User_save (a : Account.t) : M unit :=
  if Account.valid a
  then external ;;; (fun w => (Returned tt, set_accounts (accounts w ++ [a]) w))
  else throw "User validation failed".

(** ** Requests and responses *)

Inductive Reply :=
| Token (userId : ObjectId)   (* { token: jwt.sign({ userId }, secret, { expiresIn: 1h }) }, the secret being set *)
| Message (s : string)        (* { message: s } *)
| Error (s : string).         (* { error: s } *)

Record Response := mkResponse { status : nat; reply : Reply }.

Definition json (st : nat) (r : Reply) : M Response := ret (mkResponse st r).

(** The fields of a body are strings or absent. *)
Module RegisterReq.
Record t := mk {
  phone : option string;
  password : option string;
  confirmPassword : option string
}.
End RegisterReq.

Module LoginReq.
Record t := mk {
  phone : option string;
  password : option string;
  otp : option string
}.
End LoginReq.

Module ResetReq.
Record t := mk {
  phone : option string;
  otp : option string;
  newPassword : option string;
  confirmPassword : option string
}.
End ResetReq.

(** [password !== confirmPassword], the password being a string. *)
Definition differs (password : string) (confirmPassword : option string) : bool :=
  match confirmPassword with
  | Some c => negb (String.eqb password c)
  | None => true
  end.

(** [!otp] *)
Definition noOtp (otp : option string) : bool :=
  match otp with
  | Some s => negb (Js.truthy s)
  | None => true
  end.

(** [otp !== user.otp]: the otp of the body against the stored path. An
    absent field and a path never set are both undefined. *)
Definition otpDiffers (otp : option string) (stored : Stored string) : bool :=
  match otp, stored with
  | None, Unset => false
  | Some s, Value s' => negb (String.eqb s s')
  | _, _ => true
  end.

(** [Date.now() > user.otpExpires]: no number is above undefined, and
    null counts as zero. *)
Definition expired (t : nat) (stored : Stored nat) : bool :=
  match stored with
  | Unset => false
  | Null => 0 <? t
  | Value e => e <? t
  end.

Definition otpText (code : string) : string :=
  "Your OTP is " +++ code +++ ". It expires in 5 minutes.".

Definition serverError (err : string) : M Response :=
  consoleError err ;;; json 500 (Error "Server error").

(** The text that [password.length] throws on an absent password; the
    handler has no try around it. *)
Definition noLength : string :=
  "TypeError: Cannot read properties of undefined (reading 'length')".

Section Bcrypt.

(** [bcrypt.hash(data, 10)], the second argument standing for the salt
    it draws, and [bcrypt.compare(data, hash)]. *)
Variable bcrypt_hash : string -> nat -> string.
Variable bcrypt_compare : string -> string -> bool.

Definition hash (data : string) : M string :=
  w <- get_world ;; external ;;; ret (bcrypt_hash data (calls w)).

(** [bcrypt.compare] rejects when the data is missing. *)
Definition compare (data : option string) (hashed : string) : M bool :=
  match data with
  | Some d => external ;;; ret (bcrypt_compare d hashed)
  | None => throw "data and hash arguments required"
  end.

(** POST /register *)
Definition register (req : RegisterReq.t) : M Response :=
  if negb (validatePhone (RegisterReq.phone req))
  then json 400 (Error "Invalid phone number")
  else
    match RegisterReq.password req with
    | None => throw noLength
    | Some password =>
        if negb (validatePassword password)
        then json 400 (Error "Password must be at least 8 characters")
        else if differs password (RegisterReq.confirmPassword req)
        then json 400 (Error "Passwords do not match")
        else
          let strength := checkPasswordStrength password in
          if negb (String.eqb strength "Strong")
          then json 400 (Error strength)
          else
            let phone := textOf (RegisterReq.phone req) in
            try_catch
              (existingUser <- User_findOne (hasPhone phone) ;;
               match existingUser with
               | Some _ => json 400 (Error "Phone number already registered")
               | None =>
                   hashedPassword <- hash password ;;
                   user <- User_new phone hashedPassword ;;
                   User_save user ;;;
                   json 200 (Token (Account.id user))
               end)
              serverError
    end.

(** POST /login *)
Definition login (req : LoginReq.t) : M Response :=
  if negb (validatePhone (LoginReq.phone req))
  then json 400 (Error "Invalid phone number")
  else
    let phone := textOf (LoginReq.phone req) in
    let otp := LoginReq.otp req in
    try_catch
      (found <- User_findOne (hasPhone phone) ;;
       match found with
       | None => json 404 (Error "User not found")
       | Some user =>
           validPassword <- compare (LoginReq.password req) (Account.password user) ;;
           if negb validPassword
           then json 401 (Error "Invalid password")
           else if Account.twoFactorEnabled user && noOtp otp
           then
             match Account.email user with
             | Some email =>
                 if negb (Js.truthy email)
                 then json 400 (Error "Email required for 2FA")
                 else
                   otpCode <- randomCode ;;
                   t <- dateNow ;;
                   let otpExpires := t + 5 * 60 * 1000 in
                   User_updateOne (hasPhone phone)
                                  (Account.set_otp otpCode otpExpires) ;;;
                   sendMail (mkMail email "Login OTP" (otpText otpCode)) ;;;
                   json 200 (Message "OTP sent to your email")
             | None => json 400 (Error "Email required for 2FA")
             end
           else
             t <- dateNow ;;
             if Account.twoFactorEnabled user
                && (otpDiffers otp (Account.otp user)
                    || expired t (Account.otpExpires user))
             then json 401 (Error "Invalid or expired OTP")
             else json 200 (Token (Account.id user))
       end)
      serverError.

(** POST /forgot-password *)
Definition forgotPassword (phone : option string) : M Response :=
  if negb (validatePhone phone)
  then json 400 (Error "Invalid phone number")
  else
    let phone := textOf phone in
    try_catch
      (found <- User_findOne (hasPhone phone) ;;
       match found with
       | None => json 404 (Error "User or verified email not found")
       | Some user =>
           match Account.email user with
           | None => json 404 (Error "User or verified email not found")
           | Some email =>
               if negb (Js.truthy email) || negb (Account.isEmailVerified user)
               then json 404 (Error "User or verified email not found")
               else
                 otp <- randomCode ;;
                 t <- dateNow ;;
                 let otpExpires := t + 5 * 60 * 1000 in
                 User_updateOne (hasPhone phone) (Account.set_otp otp otpExpires) ;;;
                 sendMail (mkMail email "Password Reset OTP" (otpText otp)) ;;;
                 json 200 (Message "OTP sent to your email")
           end
       end)
      serverError.

(** POST /reset-password *)
Definition resetPassword (req : ResetReq.t) : M Response :=
  if negb (validatePhone (ResetReq.phone req))
  then json 400 (Error "Invalid phone number")
  else
    match ResetReq.newPassword req with
    | None => throw noLength
    | Some newPassword =>
        if negb (validatePassword newPassword)
        then json 400 (Error "Password must be at least 8 characters")
        else if differs newPassword (ResetReq.confirmPassword req)
        then json 400 (Error "Passwords do not match")
        else
          let strength := checkPasswordStrength newPassword in
          if negb (String.eqb strength "Strong")
          then json 400 (Error strength)
          else
            let phone := textOf (ResetReq.phone req) in
            try_catch
              (found <- User_findOne (hasPhone phone) ;;
               match found with
               | None => json 404 (Error "User not found")
               | Some user =>
                   t <- dateNow ;;
                   if otpDiffers (ResetReq.otp req) (Account.otp user)
                      || expired t (Account.otpExpires user)
                   then json 401 (Error "Invalid or expired OTP")
                   else
                     hashedPassword <- hash newPassword ;;
                     User_updateOne (hasPhone phone) (Account.reset hashedPassword) ;;;
                     json 200 (Message "Password reset successfully")
               end)
              serverError
    end.

(** The four routes that need no token. *)
Inductive Request :=
| Register (req : RegisterReq.t)
| Login (req : LoginReq.t)
| ForgotPassword (phone : option string)
| ResetPassword (req : ResetReq.t).

Definition handle (r : Request) : M Response :=
  match r with
  | Register req => register req
  | Login req => login req
  | ForgotPassword phone => forgotPassword phone
  | ResetPassword req => resetPassword req
  end.

End Bcrypt.

(** The phone numbers on record. *)
Definition phones (w : World) : list string := map Account.phone (accounts w).

End Auth.

(** [s] contains one of the words of [filetypes]. *)
Definition mentionsFiletype (s : string) : bool :=
  existsb (Js.includes s) [ "jpeg"; "jpg"; "png"; "pdf" ].

(** Every character of [s] is of the class [p], and one is. *)
Definition everyChar (p : ascii -> bool) (s : string) : bool :=
  forallb p (list_ascii_of_string s).

Definition someChar (p : ascii -> bool) (s : string) : bool :=
  existsb p (list_ascii_of_string s).

(** ** What the theorems on the account routes speak of *)

Module AuthSpec.
Import Auth.

(** No call to a collaborator fails. *)
Definition noFaults (w : World) : Prop := forall k, faults w k = None.

(** The account that a query by phone finds. *)
Definition accountOf (phone : string) (w : World) : option Account.t :=
  find (hasPhone phone) (accounts w).

(** The account of [phone] is [a] with its otp and its expiry set. *)
Definition otpStored (phone code : string) (expires : nat) (a : Account.t)
    (w : World) : Prop :=
  accountOf phone w = Some (Account.set_otp code expires a).

End AuthSpec.

(** A bcrypt to run the examples with, and an account. *)
Module AuthScenario.

Definition toyHash (data : string) (salt : nat) : string := "$2b$10$" +++ data.

Definition toyCompare (data hashed : string) : bool :=
  String.eqb hashed ("$2b$10$" +++ data).

(** Dana has a verified address and two-factor authentication on; no
    otp was ever sent to her. *)
Definition dana : Account.t :=
  Account.mk 1 "0123456789" (toyHash "Passw0rd!" 0) (Some "dana@x.com") None None
             true true Unset Unset.

Definition world : Auth.World :=
  Auth.mkWorld [dana] 10 1000 (fun _ => None) 0 (fun _ => "123456") 0 [] [].

End AuthScenario.

(* ================================================================== *)
(** * Strings *)
(* ================================================================== *)

Section StringFacts.

Lemma prefix_spec (kw s : string) :
  prefix kw s = true <-> exists post, s = kw +++ post.
Proof.
  revert s; induction kw as [|a kw IH]; intros s.
  - destruct s; simpl; split; intros; eauto.
  - destruct s as [|b s]; cbn [prefix].
    + split; [discriminate | intros [post H]; discriminate].
    + destruct (ascii_dec a b) as [->|Hne].
      * rewrite IH. split; intros [post H]; exists post.
        -- simpl. now rewrite H.
        -- now inversion H.
      * split; [discriminate | intros [post H]; inversion H; congruence].
Qed.

Lemma includes_spec (s kw : string) :
  Js.includes s kw = true <-> Contains kw s.
Proof.
  unfold Contains. induction s as [|c s IH].
  - cbn [Js.includes]. rewrite orb_false_r, prefix_spec. split.
    + intros [post H]. exists EmptyString, post. exact H.
    + intros [pre [post H]]. destruct pre; simpl in H.
      * eauto.
      * discriminate.
  - cbn [Js.includes]. rewrite orb_true_iff, prefix_spec, IH. split.
    + intros [[post H] | [pre [post H]]].
      * exists EmptyString, post. exact H.
      * exists (String c pre), post. simpl. now rewrite H.
    + intros [pre [post H]]. destruct pre as [|c' pre]; simpl in H.
      * left. eauto.
      * right. inversion H. eauto.
Qed.

Lemma hasSpamKeyword_spec (subject body : string) :
  hasSpamKeyword (Js.toLowerCase subject) (Js.toLowerCase body) = true
  <-> KeywordRule subject body.
Proof.
  unfold hasSpamKeyword, KeywordRule. rewrite existsb_exists.
  split; intros [kw [Hin H]]; exists kw; split; trivial.
  - apply orb_true_iff in H. now rewrite <- !includes_spec.
  - apply orb_true_iff. now rewrite !includes_spec.
Qed.

(** The search for URLs always ends: the fuel given by [matchUrls] is
    enough, more changes nothing. *)
Lemma spanUrl_length (l : list ascii) :
  List.length (snd (Js.spanUrl l)) <= List.length l.
Proof.
  induction l as [|c l IH]; simpl; trivial.
  destruct (Js.urlChar c); simpl; trivial.
  destruct (Js.spanUrl l); simpl in *. lia.
Qed.

Lemma stripPrefix_length (p l r : list ascii) :
  Js.stripPrefix p l = Some r -> List.length l = List.length p + List.length r.
Proof.
  revert l; induction p as [|a p IH]; intros [|b l] H; simpl in *;
    try discriminate; try (injection H as <-; reflexivity).
  destruct (Ascii.eqb a b); [|discriminate].
  now rewrite (IH _ H).
Qed.

Lemma execUrl_shorter (l m rest : list ascii) :
  Js.execUrl l = Some (m, rest) -> l <> [] -> List.length rest < List.length l.
Proof.
  unfold Js.execUrl. intros H Hne.
  assert (forall sch, sch <> [] -> Js.execAfter sch l = Some (m, rest) ->
                      List.length rest < List.length l) as Hgen.
  { intros sch Hsch. unfold Js.execAfter.
    destruct (Js.stripPrefix sch l) as [after|] eqn:Hs; [|discriminate].
    pose proof (spanUrl_length after) as Hl.
    apply stripPrefix_length in Hs.
    destruct (Js.spanUrl after) as [[|c run] r]; [discriminate|].
    intros H'; injection H' as _ <-. simpl in Hl.
    destruct sch; [congruence|]. simpl in Hs. lia. }
  destruct (Js.execAfter _ l) as [r|] eqn:H1.
  - injection H as ->. eapply Hgen; [|exact H1]. discriminate.
  - eapply Hgen; [|exact H]. discriminate.
Qed.

Lemma matchAll_fuel (f : nat) :
  forall l g, List.length l <= f -> List.length l <= g ->
              Js.matchAll f l = Js.matchAll g l.
Proof.
  induction f as [|f IH]; intros l g Hf Hg.
  - destruct l; [|simpl in Hf; lia]. destruct g; reflexivity.
  - destruct g as [|g].
    + destruct l; [reflexivity | simpl in Hg; lia].
    + simpl. destruct l as [|c t]; trivial.
      destruct (Js.execUrl (c :: t)) as [[m rest]|] eqn:He.
      * apply execUrl_shorter in He; [|discriminate].
        f_equal. apply IH; simpl in *; lia.
      * apply IH; simpl in *; lia.
Qed.

End StringFacts.

(* ================================================================== *)
(** * The monad *)
(* ================================================================== *)

Lemma bind_returned {A B} (m : M A) (k : A -> M B) (w w' : World) (b : B) :
  bind m k w = (Returned b, w') ->
  exists a w1, m w = (Returned a, w1) /\ k a w1 = (Returned b, w').
Proof.
  unfold bind. destruct (m w) as [[a|err] w1]; [eauto | discriminate].
Qed.

(** What every step keeps, step by step through the code. *)
Section Keeps.
Variable R : World -> World -> Prop.

Hypothesis R_refl : forall w, R w w.
Hypothesis R_trans : forall a b c, R a b -> R b c -> R a c.

Lemma keeps_ret {A} (a : A) : keeps R (ret a).
Proof. intros w. apply R_refl. Qed.

Lemma keeps_throw {A} (err : string) : keeps R (@throw A err).
Proof. intros w. apply R_refl. Qed.

Lemma keeps_bind {A B} (m : M A) (k : A -> M B) :
  keeps R m -> (forall a, keeps R (k a)) -> keeps R (bind m k).
Proof.
  intros Hm Hk w. unfold bind. specialize (Hm w).
  destruct (m w) as [[a|err] w1]; simpl in *; trivial.
  eapply R_trans; [exact Hm | apply Hk].
Qed.

Lemma keeps_try_catch {A} (m : M A) (h : string -> M A) :
  keeps R m -> (forall err, keeps R (h err)) -> keeps R (try_catch m h).
Proof.
  intros Hm Hh w. unfold try_catch. specialize (Hm w).
  destruct (m w) as [[a|err] w1]; simpl in *; trivial.
  eapply R_trans; [exact Hm | apply Hh].
Qed.

Lemma keeps_get_world : keeps R get_world.
Proof. intros w. apply R_refl. Qed.

Lemma keeps_newDate : keeps R newDate.
Proof. intros w. apply R_refl. Qed.

Lemma keeps_property {A} (o : option A) : keeps R (property o).
Proof. destruct o; [apply keeps_ret | apply keeps_throw]. Qed.

Lemma keeps_json (st : nat) (p : Payload) : keeps R (json st p).
Proof. apply keeps_ret. Qed.

(** Calls to collaborators that only read. *)
Hypothesis R_calls : forall w c, R w (set_calls c w).

Lemma keeps_external : keeps R external.
Proof. intros w. unfold external. destruct (faults w (calls w)); apply R_calls. Qed.

Lemma keeps_read {A} (f : World -> A) :
  keeps R (external ;;; w <- get_world ;; ret (f w)).
Proof.
  apply keeps_bind; [apply keeps_external | intros _].
  apply keeps_bind; [apply keeps_get_world | intros w; apply keeps_ret].
Qed.

Lemma keeps_User_findOne p : keeps R (User_findOne p).
Proof. apply (keeps_read (fun w => find p (users w))). Qed.

Lemma keeps_User_find p : keeps R (User_find p).
Proof. apply (keeps_read (fun w => filter p (users w))). Qed.

Lemma keeps_Email_findOne p : keeps R (Email_findOne p).
Proof. apply (keeps_read (fun w => find p (emails w))). Qed.

Lemma keeps_Email_findById i : keeps R (Email_findById i).
Proof. destruct i; [apply keeps_Email_findOne | apply keeps_throw]. Qed.

Lemma keeps_Label_findOne p : keeps R (Label_findOne p).
Proof. apply (keeps_read (fun w => find p (labels w))). Qed.

Lemma keeps_Label_find p : keeps R (Label_find p).
Proof. apply (keeps_read (fun w => filter p (labels w))). Qed.

Lemma keeps_populateLabels ids : keeps R (populateLabels ids).
Proof.
  unfold populateLabels. destruct ids as [|i ids]; [apply keeps_ret|].
  apply keeps_bind; [apply keeps_Label_find | intros found; apply keeps_ret].
Qed.

Lemma keeps_AutoReply_findOne p : keeps R (AutoReply_findOne p).
Proof. apply (keeps_read (fun w => find p (autoReplies w))). Qed.

Lemma keeps_uploadAll files : keeps R (uploadAll files).
Proof.
  induction files as [|f files IH]; simpl.
  - apply keeps_ret.
  - apply keeps_bind; [apply keeps_external | intros _].
    apply keeps_bind; [exact IH | intros more; apply keeps_ret].
Qed.

Lemma keeps_suspiciousAttachment a : keeps R (suspiciousAttachment a).
Proof.
  unfold suspiciousAttachment. destruct (tooLarge a); [apply keeps_ret|].
  apply keeps_bind; [apply keeps_property | intros fn; apply keeps_ret].
Qed.

Lemma keeps_someM {A} (p : A -> M bool) (l : list A) :
  (forall x, keeps R (p x)) -> keeps R (someM p l).
Proof.
  intros Hp. induction l as [|x l IH]; simpl.
  - apply keeps_ret.
  - apply keeps_bind; [apply Hp | intros [|]; [apply keeps_ret | exact IH]].
Qed.

Lemma keeps_detectSpam_try email sender : keeps R (detectSpam_try email sender).
Proof.
  unfold detectSpam_try.
  apply keeps_bind; [apply keeps_property | intros subject].
  apply keeps_bind; [apply keeps_property | intros body].
  destruct (hasSpamKeyword _ _); [apply keeps_ret|].
  destruct (5 <? _); [apply keeps_ret|].
  apply keeps_bind; [apply keeps_User_findOne | intros [u|]; [|apply keeps_ret]].
  apply keeps_bind; [apply keeps_property | intros recipients].
  destruct (10 <? _); [apply keeps_ret|].
  destruct (si_attachments email) as [[|a rest]|]; try apply keeps_ret.
  apply keeps_bind; [|intros [|]; apply keeps_ret].
  apply keeps_someM. apply keeps_suspiciousAttachment.
Qed.

(** The log and the notifications. *)
Hypothesis R_event :
  forall w e, classified [e] = 0 -> R w (set_trace (trace w ++ [e]) w).

Lemma keeps_log msg : keeps R (log msg).
Proof. intros w. apply R_event. reflexivity. Qed.

Lemma keeps_emit room n : keeps R (emit_event (Emit room n)).
Proof. intros w. apply R_event. reflexivity. Qed.

Lemma keeps_notify what room n : keeps R (notify what room n).
Proof.
  unfold notify. apply keeps_bind; [apply keeps_get_world | intros w].
  destruct (io w); [|apply keeps_log].
  apply keeps_try_catch; [|intros err; apply keeps_log].
  apply keeps_bind; [apply keeps_external | intros _; apply keeps_emit].
Qed.

(** New documents and the labels. *)
Hypothesis R_nextId : forall w i, R w (set_nextId i w).

Lemma keeps_fresh : keeps R fresh.
Proof. intros w. apply R_nextId. Qed.

Lemma keeps_Email_new sender recipients cc bcc subject body atts folder isSpam lbls sentAt :
  keeps R (Email_new sender recipients cc bcc subject body atts folder isSpam lbls sentAt).
Proof.
  unfold Email_new.
  apply keeps_bind; [apply keeps_fresh | intros i].
  apply keeps_bind; [apply keeps_newDate | intros t; apply keeps_ret].
Qed.

Hypothesis R_labels : forall w l, R w (set_labels l w).

Lemma keeps_Label_save l : keeps R (Label_save l).
Proof.
  unfold Label_save. destruct (Js.truthy _); [|apply keeps_throw].
  apply keeps_bind; [apply keeps_external | intros _].
  intros w. apply R_labels.
Qed.

Lemma keeps_Label_deleteOne p : keeps R (Label_deleteOne p).
Proof.
  unfold Label_deleteOne.
  apply keeps_bind; [apply keeps_external | intros _].
  intros w. destruct (removeFirst p (labels w)). apply R_labels.
Qed.

Lemma keeps_ensureSpamLabel userId : keeps R (ensureSpamLabel userId).
Proof.
  unfold ensureSpamLabel.
  apply keeps_bind; [apply keeps_Label_findOne | intros [l|]; [apply keeps_ret|]].
  apply keeps_bind; [apply keeps_fresh | intros i].
  apply keeps_bind; [apply keeps_newDate | intros t].
  apply keeps_bind; [apply keeps_Label_save | intros _; apply keeps_ret].
Qed.

Lemma keeps_spamLabelFor isSpam recipientUser :
  keeps R (spamLabelFor isSpam recipientUser).
Proof.
  unfold spamLabelFor. destruct recipientUser as [u|]; [|apply keeps_ret].
  destruct isSpam; [|apply keeps_ret].
  apply keeps_bind; [apply keeps_ensureSpamLabel | intros l; apply keeps_ret].
Qed.

End Keeps.

(* ================================================================== *)
(** * Three relations that the code keeps *)
(* ================================================================== *)

Lemma classified_app (t u : list Event) :
  classified (t ++ u) = classified t + classified u.
Proof.
  induction t as [|e t IH]; simpl; trivial.
  destruct e; simpl; rewrite IH; reflexivity.
Qed.

Lemma sameStores_refl w : sameStores w w.
Proof. now constructor. Qed.

Lemma inert_refl w : inert w w.
Proof. constructor; trivial. apply sameStores_refl. Qed.

Lemma inert_trans a b c : inert a b -> inert b c -> inert a c.
Proof.
  intros [[? ? ? ?] ? ? ? ?] [[? ? ? ?] ? ? ? ?].
  repeat constructor; congruence.
Qed.

Lemma inert_calls w c : inert w (set_calls c w).
Proof. repeat constructor. Qed.

Lemma inert_trace w t : inert w (set_trace t w).
Proof. repeat constructor. Qed.

Lemma untouched_refl w : untouched w w.
Proof. now constructor. Qed.

Lemma untouched_trans a b c : untouched a b -> untouched b c -> untouched a c.
Proof. intros [] []. constructor; congruence. Qed.

Lemma untouched_calls w c : untouched w (set_calls c w).
Proof. now constructor. Qed.

Lemma untouched_event w e :
  classified [e] = 0 -> untouched w (set_trace (trace w ++ [e]) w).
Proof.
  intros H. constructor; trivial. simpl. rewrite classified_app, H. lia.
Qed.

Lemma untouched_nextId w i : untouched w (set_nextId i w).
Proof. now constructor. Qed.

Lemma untouched_labels w l : untouched w (set_labels l w).
Proof. now constructor. Qed.

Lemma carries_refl I w : carries I w w.
Proof. intros H; exact H. Qed.

Lemma carries_trans I a b c : carries I a b -> carries I b c -> carries I a c.
Proof. unfold carries; auto. Qed.

(* ================================================================== *)
(** * The classifier *)
(* ================================================================== *)

Lemma someM_suspicious (atts : list Attachment.t) (w : World) :
  (forall a, In a atts -> Attachment.filename a <> None) ->
  someM suspiciousAttachment atts w = (Returned (existsb suspicious atts), w).
Proof.
  induction atts as [|a atts IH]; intros Hfn; simpl; trivial.
  unfold bind, suspiciousAttachment, suspicious at 1.
  destruct (tooLarge a); simpl; trivial.
  destruct (Attachment.filename a) as [fn|] eqn:Ha.
  - simpl. unfold bind. simpl.
    destruct (allowedExtension fn); simpl; trivial.
    apply IH. intros b Hb. apply Hfn. now right.
  - exfalso. apply (Hfn a); [now left | exact Ha].
Qed.

Lemma suspicious_spec (atts : list Attachment.t) :
  (forall a, In a atts -> Attachment.filename a <> None) ->
  existsb suspicious atts = true <-> AttachmentRule atts.
Proof.
  intros Hfn. unfold AttachmentRule. rewrite existsb_exists.
  split; intros [a [Hin H]]; exists a; split; trivial.
  - unfold suspicious, tooLarge in H. apply orb_true_iff in H.
    destruct H as [H|H].
    + left. destruct (Attachment.size a) as [n|]; [|discriminate].
      exists n. split; trivial. now apply Z.ltb_lt.
    + right. destruct (Attachment.filename a) as [fn|]; [|discriminate].
      exists fn. split; trivial. unfold allowedExtension in H.
      intros Hin'. apply negb_true_iff in H.
      assert (existsb (String.eqb (extensionOf fn)) allowedExtensions = true) as E.
      { apply existsb_exists. exists (extensionOf fn). split; trivial.
        apply String.eqb_refl. }
      congruence.
  - unfold suspicious, tooLarge. apply orb_true_iff.
    destruct H as [[n [Hn Hlt]] | [fn [Hf Hout]]].
    + left. rewrite Hn. now apply Z.ltb_lt.
    + right. rewrite Hf. apply negb_true_iff. unfold allowedExtension.
      destruct (existsb _ allowedExtensions) eqn:E; trivial.
      apply existsb_exists in E. destruct E as [x [Hx Heq]].
      apply String.eqb_eq in Heq. subst x. contradiction.
Qed.

Lemma find_verified_none (us : list User.t) (sender : string) :
  find (verifiedWithEmail sender) us = None <-> SenderRule us sender.
Proof.
  unfold SenderRule. split.
  - intros H u Hin [He Hv].
    apply (find_none _ _ H) in Hin. unfold verifiedWithEmail in Hin.
    rewrite He, Hv, String.eqb_refl in Hin. discriminate.
  - intros H. destruct (find _ us) as [u|] eqn:E; trivial.
    apply find_some in E. destruct E as [Hin Hp]. exfalso.
    apply (H u Hin). unfold verifiedWithEmail in Hp.
    apply andb_true_iff in Hp. destruct Hp as [He Hv].
    destruct (User.email u) as [e|]; [|discriminate].
    apply String.eqb_eq in He. subst. auto.
Qed.

Lemma detectSpam_run (w : World) (sender subject body : string)
    (recipients : list string) (atts : list Attachment.t) :
  (decidedEarly subject body = false -> faults w (calls w) = None) ->
  (forall a, In a atts -> Attachment.filename a <> None) ->
  detectSpam (mkSpamInput (Some subject) (Some body) (Some recipients) (Some atts))
             sender w
  = (Returned (verdict (users w) sender subject body recipients atts),
     let w0 := set_trace (trace w ++ [Classify sender]) w in
     if decidedEarly subject body then w0 else set_calls (S (calls w)) w0).
Proof.
  intros Hfault Hfn.
  unfold detectSpam, detectSpam_try, verdict, decidedEarly in *.
  unfold bind at 1. unfold emit_event at 1. unfold try_catch.
  cbn [property si_subject si_body si_recipients si_attachments].
  unfold bind at 1. unfold ret at 1. unfold bind at 1. unfold ret at 1.
  destruct (hasSpamKeyword _ _); [reflexivity|].
  destruct (5 <? _); [reflexivity|]. cbn [orb] in *.
  specialize (Hfault eq_refl).
  unfold User_findOne, external, get_world, bind, ret. cbn -[Nat.ltb].
  rewrite Hfault. cbn -[Nat.ltb].
  destruct (find (verifiedWithEmail sender) (users w)); [|reflexivity].
  destruct (10 <? List.length recipients); [reflexivity|]. cbn [orb].
  destruct atts as [|a rest]; [reflexivity|]. cbv beta iota.
  change (b <- suspiciousAttachment a ;;
          (if b then ret true else someM suspiciousAttachment rest))
    with (someM suspiciousAttachment (a :: rest)).
  rewrite someM_suspicious by exact Hfn.
  destruct (existsb suspicious (a :: rest)); reflexivity.
Qed.

(** The classifier always returns, and changes nothing but the trace and
    the count of calls; it is entered once. *)
Lemma detectSpam_returns (email : SpamInput) (sender : string) (w : World) :
  exists v, fst (detectSpam email sender w) = Returned v.
Proof.
  unfold detectSpam, bind, emit_event, try_catch.
  destruct (detectSpam_try email sender _) as [[v|err] w1]; simpl; eauto.
Qed.

Lemma detectSpam_inert (email : SpamInput) (sender : string) :
  keeps inert (detectSpam email sender).
Proof.
  unfold detectSpam.
  apply keeps_bind; [apply inert_trans | intros w; apply inert_trace | intros _].
  apply keeps_try_catch; [apply inert_trans | |].
  - apply keeps_detectSpam_try; [apply inert_refl | apply inert_trans | apply inert_calls].
  - intros err. apply keeps_bind; [apply inert_trans | intros w; apply inert_trace |].
    intros _. apply keeps_ret. apply inert_refl.
Qed.

Lemma detectSpam_classified (email : SpamInput) (sender : string) (w : World) :
  classified (trace (snd (detectSpam email sender w))) = S (classified (trace w)).
Proof.
  set (w0 := set_trace (trace w ++ [Classify sender]) w).
  change (detectSpam email sender w)
    with (try_catch (detectSpam_try email sender)
            (fun err => log ("Spam detection error: " +++ err) ;;; ret false) w0).
  assert (keeps untouched
            (try_catch (detectSpam_try email sender)
               (fun err => log ("Spam detection error: " +++ err) ;;; ret false))) as K.
  { apply keeps_try_catch; [apply untouched_trans | |].
    - apply keeps_detectSpam_try;
        [apply untouched_refl | apply untouched_trans | apply untouched_calls].
    - intros err. apply keeps_bind; [apply untouched_trans | | intros _].
      + intros x. apply untouched_event. reflexivity.
      + apply keeps_ret. apply untouched_refl. }
  rewrite (un_classified (K w0)). unfold w0. simpl.
  rewrite classified_app. simpl. lia.
Qed.

(** Two causes of a fault: an absent subject or body, and a Directory
    lookup that throws. *)
Lemma absent_text_faults (email : SpamInput) (sender : string) (w : World) :
  si_subject email = None \/ si_body email = None ->
  faultsDuring email sender w.
Proof.
  intros H. unfold faultsDuring, detectSpam_try.
  destruct (si_subject email) as [s|].
  - destruct H as [H|H]; [discriminate|]. rewrite H.
    unfold bind, property, ret, throw. eauto.
  - unfold bind, property, throw. eauto.
Qed.

Lemma lookup_fault_faults (email : SpamInput) (sender subject body err : string)
    (w : World) :
  si_subject email = Some subject -> si_body email = Some body ->
  decidedEarly subject body = false ->
  faults w (calls w) = Some err ->
  faultsDuring email sender w.
Proof.
  intros Hs Hb Hd Hf. unfold faultsDuring, detectSpam_try.
  rewrite Hs, Hb. unfold decidedEarly in Hd. apply orb_false_iff in Hd.
  destruct Hd as [Hk Hl].
  unfold bind at 1. unfold property at 1. unfold ret at 1.
  unfold bind at 1. unfold property at 1. unfold ret at 1.
  rewrite Hk, Hl.
  unfold bind at 1. unfold User_findOne, bind, external. cbn [faults calls set_trace].
  rewrite Hf. eauto.
Qed.

(** C1. [detectSpam] answers true exactly when one of the five rules
    holds: (1) the lowered subject or body contains a keyword of the
    list, (2) the lowered body has more than five matches of the URL
    expression, (3) no verified user has the address of the sender,
    (4) there are more than ten To-recipients, (5) an attachment is
    larger than 5 MiB or has an extension (what follows the last dot of
    the file name, lowered) outside jpg, jpeg, png, pdf. The rules are
    tried in this order and the first that holds decides: when rule 1
    or 2 holds the Directory is not consulted at all, otherwise it is
    consulted once. The message has its four fields and its attachments
    their file names, and the Directory lookup, if made, answers. *)
Theorem detectSpam_policy (w : World) (sender subject body : string)
    (recipients : list string) (atts : list Attachment.t) :
  (~ KeywordRule subject body -> ~ LinkRule body -> faults w (calls w) = None) ->
  (forall a, In a atts -> Attachment.filename a <> None) ->
  exists v w',
    detectSpam (mkSpamInput (Some subject) (Some body) (Some recipients) (Some atts))
               sender w = (Returned v, w')
    /\ (v = true <->
        KeywordRule subject body \/ LinkRule body \/ SenderRule (users w) sender
        \/ RecipientRule recipients \/ AttachmentRule atts)
    /\ (KeywordRule subject body \/ LinkRule body -> calls w' = calls w)
    /\ (~ (KeywordRule subject body \/ LinkRule body) -> calls w' = S (calls w)).
Proof.
  intros Hfault Hfn.
  assert (decidedEarly subject body = true <-> KeywordRule subject body \/ LinkRule body)
    as Hearly.
  { unfold decidedEarly, LinkRule. rewrite orb_true_iff, hasSpamKeyword_spec, Nat.ltb_lt.
    reflexivity. }
  assert (decidedEarly subject body = false -> faults w (calls w) = None) as Hf.
  { intros Hd. apply Hfault; intros H;
      (assert (decidedEarly subject body = true) as E by (apply Hearly; auto));
      congruence. }
  rewrite (@detectSpam_run w sender subject body recipients atts Hf Hfn).
  eexists. eexists. split; [reflexivity|]. split; [|split].
  - unfold verdict. fold (decidedEarly subject body).
    rewrite orb_true_iff, Hearly.
    pose proof (find_verified_none (users w) sender) as Hs.
    pose proof (@suspicious_spec atts Hfn) as Ha.
    destruct (find (verifiedWithEmail sender) (users w)) as [u|].
    + rewrite orb_true_iff, Nat.ltb_lt, Ha. unfold RecipientRule.
      assert (~ SenderRule (users w) sender) as Hn.
      { intros H. apply Hs in H. discriminate. }
      tauto.
    + assert (SenderRule (users w) sender) by (now apply Hs). tauto.
  - intros H. apply Hearly in H. rewrite H. reflexivity.
  - intros H. destruct (decidedEarly subject body) eqn:E.
    + exfalso. apply H. now apply Hearly.
    + reflexivity.
Qed.

(** The policy at work: Alice, verified, writes two lines to Bob and
    Carol; the Directory answers. *)
Lemma detectSpam_policy_witness :
  exists v w',
    detectSpam (mkSpamInput (Some "Hello") (Some "See you at noon")
                            (Some ["bob@x.com"; "carol@x.com"]) (Some []))
               "alice@x.com" Scenario.healthy = (Returned v, w')
    /\ (v = true <->
        KeywordRule "Hello" "See you at noon" \/ LinkRule "See you at noon"
        \/ SenderRule (users Scenario.healthy) "alice@x.com"
        \/ RecipientRule ["bob@x.com"; "carol@x.com"] \/ AttachmentRule [])
    /\ (KeywordRule "Hello" "See you at noon" \/ LinkRule "See you at noon" ->
        calls w' = calls Scenario.healthy)
    /\ (~ (KeywordRule "Hello" "See you at noon" \/ LinkRule "See you at noon") ->
        calls w' = S (calls Scenario.healthy)).
Proof.
  apply detectSpam_policy.
  - intros _ _. reflexivity.
  - intros a [].
Defined.

(** C8. When an internal fault occurs during classification (the
    Directory lookup throws, a field of the message is absent, ...),
    [detectSpam] returns false instead of throwing, and no collection is
    written. *)
Theorem detectSpam_fails_open (email : SpamInput) (sender : string) (w : World) :
  faultsDuring email sender w ->
  exists w', detectSpam email sender w = (Returned false, w') /\ sameStores w w'.
Proof.
  intros [err [w1 H]].
  pose proof (detectSpam_inert email sender w) as Hin.
  unfold detectSpam in *. unfold bind at 1 in Hin. unfold bind at 1.
  unfold emit_event at 1 in Hin. unfold emit_event at 1.
  unfold try_catch in *. rewrite H in *.
  eexists. split; [reflexivity|]. exact (in_stores Hin).
Qed.

(** The failure at work: every call to the Directory is refused. *)
Lemma detectSpam_fails_open_witness :
  exists w',
    detectSpam (mkSpamInput (Some "Hello") (Some "See you at noon")
                            (Some ["bob@x.com"]) (Some []))
               "alice@x.com" (Scenario.world (fun _ => Some "db down"))
    = (Returned false, w')
    /\ sameStores (Scenario.world (fun _ => Some "db down")) w'.
Proof.
  apply detectSpam_fails_open.
  unfold faultsDuring. eexists. eexists. vm_compute. reflexivity.
Defined.

(* ================================================================== *)
(** * The fan-out of a send *)
(* ================================================================== *)

Ltac untouched_side :=
  first [ exact untouched_refl | exact untouched_trans | exact untouched_calls
        | exact untouched_event | exact untouched_nextId | exact untouched_labels ].

Ltac quiet_by lem := apply lem; untouched_side.

Lemma quiet_step {A} (m : M A) (w w' : World) (o : Outcome A) :
  keeps untouched m -> m w = (o, w') -> sentMore w w' [].
Proof.
  intros K H. specialize (K w). rewrite H in K. simpl in K.
  destruct K. split; [constructor; trivial | rewrite app_nil_r; trivial].
Qed.

Lemma sentMore_trans (w w1 w2 : World) (n1 n2 : list Email.t) :
  sentMore w w1 n1 -> sentMore w1 w2 n2 -> sentMore w w2 (n1 ++ n2).
Proof.
  intros [[] E1] [[] E2]. simpl in *. split.
  - constructor; simpl; congruence.
  - rewrite E2, E1, app_assoc. reflexivity.
Qed.

Lemma sentMore_refl (w : World) : sentMore w w [].
Proof. split; [now constructor | now rewrite app_nil_r]. Qed.

Lemma Email_save_ok (e : Email.t) (w w' : World) :
  Email_save e w = (Returned tt, w') -> sentMore w w' [e].
Proof.
  unfold Email_save. destruct (Email.valid e); [|discriminate].
  unfold bind, external. destruct (faults w (calls w)); [discriminate|].
  intros H. injection H as <-. split; [now constructor | reflexivity].
Qed.

Lemma Email_new_ok sender recipients cc bcc subject body atts folder isSpam lbls sentAt
    (w w' : World) (e : Email.t) :
  Email_new sender recipients cc bcc subject body atts folder isSpam lbls sentAt w
  = (Returned e, w') ->
  sentMore w w' [] /\
  e = Email.mk (nextId w) sender recipients cc bcc subject body atts folder lbls
               false false isSpam
               (match sentAt with Some s => s | None => now w end) None.
Proof.
  intros H. split.
  - eapply quiet_step; [|exact H]. quiet_by keeps_Email_new.
  - unfold Email_new, bind, fresh, newDate, ret in H. simpl in H. congruence.
Qed.

Lemma uploadAll_ok (files : list File.t) (w w' : World) (atts : list Attachment.t) :
  uploadAll files w = (Returned atts, w') -> atts = attachmentsOf files.
Proof.
  revert w w' atts. induction files as [|f files IH]; intros w w' atts H; simpl in H.
  - unfold ret in H. injection H as <- _. reflexivity.
  - apply bind_returned in H. destruct H as [[] [w1 [_ H]]].
    apply bind_returned in H. destruct H as [more [w2 [Hm H]]].
    unfold ret in H. injection H as <- _. simpl. f_equal. eapply IH, Hm.
Qed.

Section SendFacts.
Variables (me subject body : string) (cc bcc : list string)
          (atts : list Attachment.t) (t : nat) (v : bool)
          (rus : list User.t).

Lemma deliverCopy_ok (what addr : string) (w w' : World) (ru : option User.t) :
  deliverCopy me subject body cc bcc atts t v rus what addr w = (Returned ru, w') ->
  ru = find (hasEmail addr) rus /\
  exists e, sentMore w w' [e] /\ shape e = copyDoc me subject body cc bcc atts t v addr.
Proof.
  unfold deliverCopy. intros H.
  apply bind_returned in H. destruct H as [lbl [w1 [H1 H]]].
  apply bind_returned in H. destruct H as [e [w2 [H2 H]]].
  apply bind_returned in H. destruct H as [[] [w3 [H3 H]]].
  apply bind_returned in H. destruct H as [[] [w4 [H4 H]]].
  unfold ret in H. injection H as <- <-. split; trivial.
  apply quiet_step in H1; [|quiet_by keeps_spamLabelFor].
  apply Email_new_ok in H2. destruct H2 as [H2 He].
  apply Email_save_ok in H3.
  apply quiet_step in H4; [|quiet_by keeps_notify].
  exists e. split.
  - change [e] with (([] ++ []) ++ [e] ++ []).
    eapply sentMore_trans; [eapply sentMore_trans; eassumption|].
    eapply sentMore_trans; eassumption.
  - rewrite He. reflexivity.
Qed.

Lemma sentMore_now (w w' : World) (n : list Email.t) :
  sentMore w w' n -> now w' = now w.
Proof. intros [[] _]. assumption. Qed.

Lemma sentMore_autoReplies (w w' : World) (n : list Email.t) :
  sentMore w w' n -> autoReplies w' = autoReplies w.
Proof. intros [[] _]. assumption. Qed.

Lemma sentMore_users (w w' : World) (n : list Email.t) :
  sentMore w w' n -> users w' = users w.
Proof. intros [[] _]. assumption. Qed.

Lemma sentMore_classified (w w' : World) (n : list Email.t) :
  sentMore w w' n -> classified (trace w') = classified (trace w).
Proof. intros [[] _]. assumption. Qed.

End SendFacts.

Lemma flat_map_singleton {A B} (g : A -> B) (l : list A) :
  flat_map (fun x => [g x]) l = map g l.
Proof. induction l; simpl; congruence. Qed.

Lemma forallb_guard (p : string -> bool) (l : list string) :
  (0 <? List.length l) && negb (forallb p l) = false -> forallb p l = true.
Proof.
  destruct l as [|x l]; [reflexivity|]. simpl Nat.ltb. cbn [andb].
  intros H. apply negb_false_iff in H. exact H.
Qed.

(** ** Runs that throw: what was stored stays *)

Lemma Prefix_nil (l : list Email.t) : Prefix [] l.
Proof. exists l. reflexivity. Qed.

Lemma Prefix_app (l l1 l2 : list Email.t) : Prefix l1 l2 -> Prefix (l ++ l1) (l ++ l2).
Proof. intros [r ->]. exists r. now rewrite app_assoc. Qed.

Lemma Prefix_weaken (l1 l2 l3 : list Email.t) : Prefix l1 l2 -> Prefix l1 (l2 ++ l3).
Proof. intros [r ->]. exists (r ++ l3). now rewrite app_assoc. Qed.

Lemma stores_quiet {A} (m : M A) (w : World) :
  keeps untouched m -> stores m w [].
Proof.
  intros K o w' H. exists []. split; [eapply quiet_step; eassumption|].
  destruct o; simpl; [reflexivity | apply Prefix_nil].
Qed.

Lemma stores_ret {A} (a : A) (w : World) : stores (ret a) w [].
Proof. apply stores_quiet. apply keeps_ret. exact untouched_refl. Qed.

Lemma stores_save (e : Email.t) (w : World) : stores (Email_save e) w [shape e].
Proof.
  intros o w' H. destruct o as [[]|err].
  - exists [e]. split; [now apply Email_save_ok | reflexivity].
  - exists []. split; [|apply Prefix_nil].
    unfold Email_save in H. destruct (Email.valid e).
    + unfold bind, external in H. destruct (faults w (calls w)); [|discriminate].
      injection H as _ <-. split; [now constructor | now rewrite app_nil_r].
    + unfold throw in H. injection H as _ <-. apply sentMore_refl.
Qed.

Lemma stores_bind {A B} (m : M A) (k : A -> M B) (w : World) (d1 d2 : list Email.t) :
  stores m w d1 ->
  (forall a w1, m w = (Returned a, w1) -> stores (k a) w1 d2) ->
  stores (bind m k) w (d1 ++ d2).
Proof.
  intros Hm Hk o w' H. unfold bind in H.
  destruct (m w) as [[a|err] w1] eqn:E.
  - destruct (Hm _ _ E) as [n1 [S1 E1]]. simpl in E1.
    destruct (Hk a w1 eq_refl _ _ H) as [n2 [S2 E2]].
    exists (n1 ++ n2). split; [eapply sentMore_trans; eassumption|].
    rewrite map_app, E1. destruct o; [now rewrite E2 | now apply Prefix_app].
  - injection H as <- <-.
    destruct (Hm _ _ E) as [n1 [S1 E1]]. simpl in E1.
    exists n1. split; trivial. now apply Prefix_weaken.
Qed.

Lemma stores_forEach {A} (f : A -> M unit) (G : A -> list Email.t) (P : World -> Prop) :
  (forall w w' n, sentMore w w' n -> P w -> P w') ->
  (forall x w, P w -> stores (f x) w (G x)) ->
  forall l w, P w -> stores (forEach l f) w (flat_map G l).
Proof.
  intros HP Hf. induction l as [|x l IH]; intros w Pw; simpl.
  - apply stores_ret.
  - apply stores_bind; [now apply Hf|].
    intros [] w1 H1. apply IH.
    destruct (Hf x w Pw _ _ H1) as [n [S _]]. eapply HP; eassumption.
Qed.

Section FanOutFaults.
Variables (me subject body : string) (cc bcc : list string)
          (atts : list Attachment.t) (t : nat) (v : bool)
          (rus : list User.t).

Lemma stores_Email_new_save {B} sender recipients cc' bcc' subject' body' atts' folder
    isSpam lbls sentAt (k : Email.t -> M B) (w : World) (d : list Email.t) :
  (forall e w1, sentMore w w1 [e] ->
                shape e = Email.mk 0 sender recipients cc' bcc' subject' body' atts'
                            folder [] false false isSpam
                            (match sentAt with Some s => s | None => now w end) None ->
                stores (k e) w1 d) ->
  stores (e <- Email_new sender recipients cc' bcc' subject' body' atts' folder
                 isSpam lbls sentAt ;;
          Email_save e ;;; k e) w
         (Email.mk 0 sender recipients cc' bcc' subject' body' atts' folder [] false
                   false isSpam (match sentAt with Some s => s | None => now w end)
                   None :: d).
Proof.
  intros Hk.
  change (?x :: d) with ([] ++ [x] ++ d).
  apply stores_bind; [apply stores_quiet; quiet_by keeps_Email_new|].
  intros e w1 H1. apply Email_new_ok in H1. destruct H1 as [S1 E1].
  assert (shape e = Email.mk 0 sender recipients cc' bcc' subject' body' atts'
                      folder [] false false isSpam
                      (match sentAt with Some s => s | None => now w end) None) as Es.
  { rewrite E1. reflexivity. }
  rewrite <- Es.
  apply stores_bind; [apply stores_save|].
  intros [] w2 H2. apply Email_save_ok in H2. apply Hk; trivial.
  change [e] with ([] ++ [e]). eapply sentMore_trans; eassumption.
Qed.

Lemma stores_deliverCopy (what addr : string) (w : World) :
  stores (deliverCopy me subject body cc bcc atts t v rus what addr) w
         [copyDoc me subject body cc bcc atts t v addr].
Proof.
  unfold deliverCopy.
  change [?x] with ([] ++ [x]).
  apply stores_bind; [apply stores_quiet; quiet_by keeps_spamLabelFor|].
  intros lbl w1 _.
  pose proof (@stores_Email_new_save _ me [addr] cc bcc subject body atts
                (if v then spam else inbox) v (labelsOf v lbl) (Some t)
                (fun inboxEmail =>
                   notify (what +++ " " +++ addr) addr
                     (mkNotification me subject (Email.sentAt inboxEmail) (Some v)) ;;;
                   ret (find (hasEmail addr) rus)) w1 []) as L.
  apply L. clear L. intros e w2 _ _.
  change (@nil Email.t) with (@nil Email.t ++ []).
  apply stores_bind; [apply stores_quiet; quiet_by keeps_notify|].
  intros [] w3 _. apply stores_ret.
Qed.

Lemma stores_autoReplyOf (recipient : string) (ru : option User.t) (w : World) :
  now w = t ->
  stores (autoReplyOf me subject v recipient ru) w
         (replyDocs me subject t v (autoReplies w) ru recipient).
Proof.
  intros Ht. unfold autoReplyOf, replyDocs, autoReplyFor.
  destruct ru as [u|]; [|apply stores_ret].
  destruct v; simpl negb; cbv iota; [apply stores_ret|].
  match goal with |- stores _ _ ?d => change d with ([] ++ d) end.
  apply stores_bind; [apply stores_quiet; quiet_by keeps_AutoReply_findOne|].
  intros ar w1 H1.
  assert (ar = find (fun a => AutoReply.userId a =? User.id u) (autoReplies w)) as Har.
  { unfold AutoReply_findOne, bind, external, get_world, ret in H1.
    destruct (faults w (calls w)); [discriminate|]. simpl in H1. congruence. }
  apply quiet_step in H1; [|quiet_by keeps_AutoReply_findOne].
  rewrite <- Har. destruct ar as [ar|]; [|apply stores_ret].
  destruct (AutoReply.enabled ar && User.isEmailVerified u); [|apply stores_ret].
  unfold autoReplyDocs. rewrite <- Ht, <- (sentMore_now H1).
  apply (@stores_Email_new_save _ recipient [me] [] [] ("Auto Reply: " +++ subject)
           (AutoReply.message ar) [] sent false [] None).
  intros e1 w2 S2 E2.
  assert (Email.sentAt e1 = now w1) as Et.
  { change (Email.sentAt e1) with (Email.sentAt (shape e1)). now rewrite E2. }
  rewrite <- Et.
  pose proof (@stores_Email_new_save _ recipient [me] [] [] ("Auto Reply: " +++ subject)
                (AutoReply.message ar) [] inbox false [] (Some (Email.sentAt e1))
                (fun senderInboxEmail =>
                   notify ("auto-reply " +++ me) me
                     (mkNotification recipient ("Auto Reply: " +++ subject)
                        (Email.sentAt senderInboxEmail) None)) w2 []) as L.
  apply L. clear L. intros e2 w3 _ _.
  apply stores_quiet; quiet_by keeps_notify.
Qed.

Lemma stores_deliverRecipient (ars : list AutoReply.t) (addr : string) (w : World) :
  now w = t /\ autoReplies w = ars ->
  stores (deliverRecipient me subject body cc bcc atts t v rus addr) w
         (recipientDocs me subject body cc bcc atts t v ars rus addr).
Proof.
  intros [Ht Ha]. unfold deliverRecipient, recipientDocs.
  change (?x :: ?d) with ([x] ++ d).
  apply stores_bind; [apply stores_deliverCopy|].
  intros ru w1 H1. apply deliverCopy_ok in H1. destruct H1 as [-> [e [S1 _]]].
  rewrite <- Ha, <- (sentMore_autoReplies S1).
  apply stores_autoReplyOf. rewrite (sentMore_now S1). exact Ht.
Qed.

Lemma stores_deliverCc (addr : string) (w : World) :
  stores (deliverCc me subject body cc bcc atts t v rus addr) w
         [copyDoc me subject body cc bcc atts t v addr].
Proof.
  unfold deliverCc. change [?x] with ([x] ++ []).
  apply stores_bind; [apply stores_deliverCopy | intros; apply stores_ret].
Qed.

Lemma stores_deliverBcc (addr : string) (w : World) :
  stores (deliverBcc me subject body cc bcc atts t v rus addr) w
         [copyDoc me subject body cc bcc atts t v addr].
Proof.
  unfold deliverBcc. change [?x] with ([x] ++ []).
  apply stores_bind; [apply stores_deliverCopy | intros; apply stores_ret].
Qed.
End FanOutFaults.

Lemma bind_cases {A B} (m : M A) (k : A -> M B) (w w' : World) (o : Outcome B) :
  bind m k w = (o, w') ->
  (exists err, m w = (Thrown err, w') /\ o = Thrown err) \/
  (exists a w1, m w = (Returned a, w1) /\ k a w1 = (o, w')).
Proof.
  unfold bind. destruct (m w) as [[a|err] w1]; intros H.
  - right. eauto.
  - left. injection H as <- <-. eauto.
Qed.

(** The three loops and the answer. *)
Lemma loops_answer (f g h : string -> M unit) (l1 l2 l3 : list string)
    (w w' : World) (resp : Response) :
  (forEach l1 f ;;; forEach l2 g ;;; forEach l3 h ;;; ret sendSuccess) w
  = (Returned resp, w') -> resp = sendSuccess.
Proof.
  intros H.
  apply bind_returned in H. destruct H as [[] [w1 [_ H]]].
  apply bind_returned in H. destruct H as [[] [w2 [_ H]]].
  apply bind_returned in H. destruct H as [[] [w3 [_ H]]].
  unfold ret in H. congruence.
Qed.

Lemma User_find_then (p : User.t -> bool) (w w' : World) (us : list User.t) :
  User_find p w = (Returned us, w') -> w' = set_calls (S (calls w)) w.
Proof.
  unfold User_find, bind, external, get_world, ret.
  destruct (faults w (calls w)); [discriminate|]. cbn. intros H.
  now injection H as _ <-.
Qed.

Lemma uploadAll_then (files : list File.t) (w w' : World) (atts : list Attachment.t) :
  uploadAll files w = (Returned atts, w') ->
  w' = set_calls (calls w + List.length files) w.
Proof.
  revert w atts. induction files as [|f files IH]; intros w atts H.
  - cbn in H. unfold ret in H. injection H as _ <-.
    destruct w; unfold set_calls; cbn. now rewrite Nat.add_0_r.
  - cbn [uploadAll] in H. apply bind_cases in H.
    destruct H as [[err [_ H]] | [[] [w1 [H1 H]]]]; [discriminate|].
    unfold external in H1. destruct (faults w (calls w)); [discriminate|].
    injection H1 as <-.
    apply bind_cases in H. destruct H as [[err [_ H]] | [more [w2 [H2 H]]]]; [discriminate|].
    unfold ret in H. injection H as _ <-. apply IH in H2. rewrite H2.
    destruct w; unfold set_calls; cbn. f_equal; lia.
Qed.

Lemma Email_new_then sender recipients cc bcc subject body atts folder isSpam lbls sentAt
    (w w' : World) (e : Email.t) :
  Email_new sender recipients cc bcc subject body atts folder isSpam lbls sentAt w
  = (Returned e, w') ->
  w' = set_nextId (S (nextId w)) w /\ Email.id e = nextId w.
Proof.
  unfold Email_new, bind, fresh, newDate, ret. cbn. intros H.
  injection H as <- <-. split; reflexivity.
Qed.

Lemma Email_save_then (e : Email.t) (w w' : World) :
  Email_save e w = (Returned tt, w') ->
  w' = set_emails (emails w ++ [e]) (set_calls (S (calls w)) w).
Proof.
  unfold Email_save. destruct (Email.valid e); [|discriminate].
  unfold bind, external. destruct (faults w (calls w)); [discriminate|].
  intros H. now injection H as <-.
Qed.

(** Every outcome of the [try] block of a send. *)
Lemma send_try_outcomes (me : string) (recipients cc bcc : list string)
    (subject body : string) (files : list File.t) (w w' : World) (o : Outcome Response) :
  send_try me recipients cc bcc subject body files w = (o, w') ->
  let rus := resolved (users w) recipients cc bcc in
  let docs := fun v => sendDocs me subject body recipients cc bcc (attachmentsOf files)
                                (now w) v (autoReplies w) rus in
  exists news,
    sentMore w (set_trace (trace w) w') news /\
    match o with
    | Returned resp =>
        (resp = sendSuccess /\
         (forallb (hasValid rus) recipients = true /\ forallb (hasValid rus) cc = true
          /\ forallb (hasValid rus) bcc = true) /\
         exists v, map shape news = docs v /\
                   classified (trace w') = S (classified (trace w)) /\
                   exists sentCopy rest,
                     news = sentCopy :: rest /\
                     Classifies (sendAsks w files sentCopy) sentCopy v)
        \/ (status resp = 400 /\ news = [])
    | Thrown _ => exists v, Prefix (map shape news) (docs v)
    end.
Proof.
  intros H rus docs. unfold send_try in H.
  assert (forall a b n, sentMore a b n -> sentMore a (set_trace (trace a) b) n) as Hsm.
  { intros a b n [[] E]. split; [constructor|]; simpl in *; trivial. }
  apply bind_cases in H. destruct H as [[err [H1 ->]] | [rus0 [w1 [H1 H]]]].
  { exists []. split; [|exists false; apply Prefix_nil].
    apply Hsm. eapply quiet_step; [|exact H1]. quiet_by keeps_User_find. }
  assert (rus0 = rus) as ->.
  { unfold User_find, bind, external, get_world, ret in H1.
    destruct (faults w (calls w)); [discriminate|]. simpl in H1.
    injection H1 as <- _. reflexivity. }
  pose proof (@User_find_then _ _ _ _ H1) as W1.
  apply quiet_step in H1; [|quiet_by keeps_User_find].
  destruct (negb (forallb (hasValid rus) recipients)) eqn:V1.
  { unfold json, ret in H. injection H as <- <-. exists []. split; [now apply Hsm|].
    right. auto. }
  destruct ((0 <? List.length cc) && negb (forallb (hasValid rus) cc)) eqn:V2.
  { unfold json, ret in H. injection H as <- <-. exists []. split; [now apply Hsm|].
    right. auto. }
  destruct ((0 <? List.length bcc) && negb (forallb (hasValid rus) bcc)) eqn:V3.
  { unfold json, ret in H. injection H as <- <-. exists []. split; [now apply Hsm|].
    right. auto. }
  apply negb_false_iff in V1. apply forallb_guard in V2. apply forallb_guard in V3.
  apply bind_cases in H. destruct H as [[err [H2 ->]] | [atts [w2 [H2 H]]]].
  { exists []. split; [|exists false; apply Prefix_nil]. apply Hsm.
    apply quiet_step in H2; [|quiet_by keeps_uploadAll].
    change (@nil Email.t) with (@nil Email.t ++ []). eapply sentMore_trans; eassumption. }
  pose proof (uploadAll_ok _ _ H2) as ->.
  pose proof (@uploadAll_then _ _ _ _ H2) as W2.
  apply quiet_step in H2; [|quiet_by keeps_uploadAll].
  pose proof (sentMore_trans H1 H2) as S02. simpl in S02.
  apply bind_cases in H. destruct H as [[err [H3 _]] | [t [w3 [H3 H]]]].
  { unfold newDate in H3. discriminate. }
  unfold newDate in H3. injection H3 as <- <-.
  rewrite (sentMore_now S02) in H.
  apply bind_cases in H. destruct H as [[err [H4 _]] | [sentEmail [w4 [H4 H]]]].
  { unfold Email_new, bind, fresh, newDate, ret in H4. discriminate. }
  pose proof (@Email_new_then _ _ _ _ _ _ _ _ _ _ _ _ _ _ H4) as [W4 _].
  apply Email_new_ok in H4. destruct H4 as [S4 E4].
  assert (shape sentEmail
          = sentDoc me subject body recipients cc bcc (attachmentsOf files) (now w)) as Es.
  { rewrite E4. reflexivity. }
  pose proof (sentMore_trans S02 S4) as S04. simpl in S04.
  apply bind_cases in H. destruct H as [[err [H5 ->]] | [[] [w5 [H5 H]]]].
  { destruct (@stores_save sentEmail w4 _ _ H5) as [n [S5 E5]].
    exists (@nil Email.t ++ n). split; [apply Hsm; eapply sentMore_trans; eassumption|].
    exists false. simpl. unfold docs, sendDocs. rewrite <- Es.
    change (?x :: ?l) with ([x] ++ l). apply Prefix_weaken. exact E5. }
  pose proof (@Email_save_then _ _ _ H5) as W5.
  apply Email_save_ok in H5.
  pose proof (sentMore_trans S04 H5) as S05. simpl in S05.
  apply bind_cases in H. destruct H as [[err [H6 _]] | [v [w6 [H6 H]]]].
  { destruct (detectSpam_returns (Email_view sentEmail) me w5) as [v Hv].
    rewrite H6 in Hv. discriminate. }
  pose proof (detectSpam_inert (Email_view sentEmail) me w5) as I6.
  pose proof (detectSpam_classified (Email_view sentEmail) me w5) as C6.
  assert (Classifies (sendAsks w files sentEmail) sentEmail v) as Hv.
  { unfold Classifies, sendAsks.
    replace (Email.sender sentEmail) with me
      by (change (Email.sender sentEmail) with (Email.sender (shape sentEmail));
          now rewrite Es).
    replace (advanced w (2 + List.length files) 1 [sentEmail]) with w5;
      [now rewrite H6|].
    rewrite W5, W4, W2, W1.
    destruct w; unfold advanced, set_emails, set_nextId, set_calls; cbn.
    f_equal; lia. }
  rewrite H6 in I6, C6. simpl in I6, C6. clear H6.
  assert (Email.sentAt sentEmail = now w) as Et.
  { change (Email.sentAt sentEmail) with (Email.sentAt (shape sentEmail)). now rewrite Es. }
  rewrite Et in H.
  set (P := fun x : World => now x = now w /\ autoReplies x = autoReplies w).
  assert (forall a b n, sentMore a b n -> P a -> P b) as HP.
  { intros a b n Sab [Pa1 Pa2]. split.
    - rewrite (sentMore_now Sab). exact Pa1.
    - rewrite (sentMore_autoReplies Sab). exact Pa2. }
  assert (P w6) as P6.
  { destruct I6 as [[] ? ? ? ?]. split.
    - rewrite <- (sentMore_now S05). congruence.
    - rewrite <- (sentMore_autoReplies S05). congruence. }
  assert (stores
            (forEach recipients
               (deliverRecipient me subject body cc bcc (attachmentsOf files) (now w) v rus) ;;;
             forEach cc
               (deliverCc me subject body cc bcc (attachmentsOf files) (now w) v rus) ;;;
             forEach bcc
               (deliverBcc me subject body cc bcc (attachmentsOf files) (now w) v rus) ;;;
             ret sendSuccess) w6
            (flat_map (recipientDocs me subject body cc bcc (attachmentsOf files)
                                     (now w) v (autoReplies w) rus) recipients
             ++ map (copyDoc me subject body cc bcc (attachmentsOf files) (now w) v) cc
             ++ map (copyDoc me subject body cc bcc (attachmentsOf files) (now w) v) bcc
             ++ [])) as St.
  { apply stores_bind.
    - apply (@stores_forEach _ _ _ P HP); [|exact P6].
      intros x a Pa. now apply stores_deliverRecipient.
    - intros [] w7 _. apply stores_bind.
      + rewrite <- flat_map_singleton.
        apply (@stores_forEach _ _ _ (fun _ => True)); auto.
        intros x a _. apply stores_deliverCc.
      + intros [] w8 _. apply stores_bind.
        * rewrite <- flat_map_singleton.
          apply (@stores_forEach _ _ _ (fun _ => True)); auto.
          intros x a _. apply stores_deliverBcc.
        * intros [] w9 _. apply stores_ret. }
  rewrite app_nil_r in St.
  destruct (St _ _ H) as [n [S6 E6]].
  assert (sentMore w (set_trace (trace w) w') (sentEmail :: n)) as Sall.
  { destruct S05 as [[] E05]. destruct S6 as [[] E6'].
    destruct I6 as [[] ? ? ? ?]. simpl in *.
    split; [constructor; simpl; congruence|]. simpl.
    rewrite E6'. replace (emails w6) with (emails w5) by congruence.
    rewrite E05. simpl. rewrite <- app_assoc. reflexivity. }
  exists (sentEmail :: n). split; [exact Sall|].
  destruct o as [resp|err].
  - left. split; [eapply loops_answer; exact H|]. split; [auto|].
    exists v. split; [|split].
    + simpl. rewrite Es, E6. reflexivity.
    + rewrite (sentMore_classified S6), C6, (sentMore_classified S05). reflexivity.
    + exists sentEmail, n. split; [reflexivity | exact Hv].
  - exists v. simpl. rewrite Es. unfold docs, sendDocs.
    change (?x :: ?l) with ([x] ++ l). now apply Prefix_app.
Qed.

(** Every outcome of POST /send: the handler answers, and either it
    answers success and stored the whole fan-out, or it answers 400 and
    stored nothing, or it answers 500 and stored a beginning of the
    fan-out. *)
Lemma send_outcomes (caller : User.t) (req : SendReq.t) (w w' : World)
    (o : Outcome Response) :
  send caller req w = (o, w') ->
  exists resp news,
    o = Returned resp /\
    emails w' = emails w ++ news /\ users w' = users w /\
    autoReplies w' = autoReplies w /\
    ((resp = sendSuccess /\
      exists me subject body v,
        Composed caller req me subject body /\
        forallb (hasValid (resolvedFor w req)) (addressesOf req) = true /\
        map shape news = fanOutDocs w req me subject body v /\
        classified (trace w') = S (classified (trace w)) /\
        exists sentCopy rest,
          news = sentCopy :: rest /\
          Classifies (sendAsks w (SendReq.files req) sentCopy) sentCopy v)
     \/ (status resp = 400 /\ news = [])
     \/ (status resp = 500 /\
         exists me subject body v,
           Composed caller req me subject body /\
           Prefix (map shape news) (fanOutDocs w req me subject body v))).
Proof.
  intros H.
  assert (forall st p, json st p w = (o, w') -> st = 400 ->
            exists resp news, o = Returned resp /\
              emails w' = emails w ++ news /\ users w' = users w /\
              autoReplies w' = autoReplies w /\
              ((resp = sendSuccess /\
                exists me subject body v,
                  Composed caller req me subject body /\
                  forallb (hasValid (resolvedFor w req)) (addressesOf req) = true /\
                  map shape news = fanOutDocs w req me subject body v /\
                  classified (trace w') = S (classified (trace w)) /\
                  exists sentCopy rest,
                    news = sentCopy :: rest /\
                    Classifies (sendAsks w (SendReq.files req) sentCopy) sentCopy v)
               \/ (status resp = 400 /\ news = [])
               \/ (status resp = 500 /\
                   exists me subject body v,
                     Composed caller req me subject body /\
                     Prefix (map shape news) (fanOutDocs w req me subject body v)))) as J.
  { intros st p Hj ->. unfold json, ret in Hj. injection Hj as <- <-.
    exists (mkResponse 400 p), []. rewrite app_nil_r. intuition. }
  unfold send, ensureEmailVerified in H.
  destruct (User.email caller) as [me|] eqn:Eme; [|eapply J; eauto].
  destruct (Js.truthy me && User.isEmailVerified caller); [|eapply J; eauto].
  destruct (unparsable (SendReq.recipients req) || unparsable (SendReq.cc req)
            || unparsable (SendReq.bcc req)).
  { unfold bind, log, emit_event, json, ret in H. injection H as <- <-.
    eexists (mkResponse 400 _), []. rewrite app_nil_r. cbn. intuition. }
  destruct (SendReq.recipients req) as [| | |[|r rs]] eqn:Er; try (eapply J; eauto; fail).
  destruct (SendReq.subject req) as [subject|] eqn:Es; [|eapply J; eauto].
  destruct (SendReq.body req) as [body|] eqn:Eb; [|eapply J; eauto].
  destruct (negb (Js.truthy subject && Js.truthy body)); [eapply J; eauto|].
  assert (toOf req = keepAddresses (r :: rs)) as Eto by (unfold toOf; now rewrite Er).
  assert (Composed caller req me subject body) as Hc by (repeat split; assumption).
  rewrite <- Eto in H.
  assert (match toOf req with
          | [] => json 400 (Error "At least one valid recipient is required")
          | _ :: _ =>
              try_catch
                (send_try me (toOf req) (ccOf req) (bccOf req) subject body
                          (SendReq.files req))
                (fun err => log ("Send email error: " +++ err) ;;;
                            json 500 (ErrorDetails "Server error" err))
          end w = (o, w') ->
          exists resp news, o = Returned resp /\
              emails w' = emails w ++ news /\ users w' = users w /\
              autoReplies w' = autoReplies w /\
              ((resp = sendSuccess /\
                exists me subject body v,
                  Composed caller req me subject body /\
                  forallb (hasValid (resolvedFor w req)) (addressesOf req) = true /\
                  map shape news = fanOutDocs w req me subject body v /\
                  classified (trace w') = S (classified (trace w)) /\
                  exists sentCopy rest,
                    news = sentCopy :: rest /\
                    Classifies (sendAsks w (SendReq.files req) sentCopy) sentCopy v)
               \/ (status resp = 400 /\ news = [])
               \/ (status resp = 500 /\
                   exists me subject body v,
                     Composed caller req me subject body /\
                     Prefix (map shape news) (fanOutDocs w req me subject body v)))) as T.
  { clear H. intros H. destruct (toOf req) as [|a l] eqn:El; [eapply J; eauto|].
    rewrite <- El in *. unfold try_catch in H.
    destruct (send_try me (toOf req) (ccOf req) (bccOf req) subject body
                       (SendReq.files req) w) as [[resp|err] w1] eqn:E;
      apply send_try_outcomes in E; destruct E as [news [[[] En] E]]; simpl in *.
    - injection H as <- <-. exists resp, news. repeat (split; trivial).
      destruct E as [[-> [[V1 [V2 V3]] [v [Ed [Ec Ev]]]]] | [E1 E2]];
        [left | right; left; auto].
      split; trivial. exists me, subject, body, v. repeat (split; trivial).
      unfold addressesOf, resolvedFor. rewrite !forallb_app, V1, V2, V3. reflexivity.
    - unfold bind, log, emit_event, json, ret in H. injection H as <- <-. simpl.
      exists (mkResponse 500 (ErrorDetails "Server error" err)), news.
      repeat (split; trivial). right. right. split; trivial.
      destruct E as [v E]. exists me, subject, body, v. split; trivial. }
  unfold ccOf, bccOf in T.
  destruct (SendReq.cc req) eqn:Ecc; destruct (SendReq.bcc req) eqn:Ebcc;
    first [ eapply J; eauto; fail | apply T; exact H ].
Qed.

(* ================================================================== *)
(** * The documents of a fan-out *)
(* ================================================================== *)

Lemma cons_inj {A} (a b : A) (l l' : list A) : a :: l = b :: l' -> a = b /\ l = l'.
Proof. intros H. injection H. auto. Qed.

Lemma flat_map_same {A B} (f g : A -> list B) (l : list A) :
  (forall a, In a l -> f a = g a) -> flat_map f l = flat_map g l.
Proof.
  induction l as [|x l IH]; intros H; simpl; trivial.
  rewrite (H x), IH; trivial; [|now left]. intros a Ha. apply H. now right.
Qed.

Lemma shape_exists (news docs : list Email.t) (d : Email.t) :
  map shape news = docs -> In d docs -> exists e, In e news /\ shape e = d.
Proof.
  intros <- H. apply in_map_iff in H. destruct H as [e [E I]]. eauto.
Qed.

Lemma shape_in (news docs : list Email.t) (e : Email.t) :
  map shape news = docs -> In e news -> In (shape e) docs.
Proof. intros <- H. now apply in_map. Qed.

Lemma hasEmail_eq (a : string) (u : User.t) :
  hasEmail a u = true -> User.email u = Some a.
Proof.
  unfold hasEmail. destruct (User.email u) as [e|]; [|discriminate].
  intros H. apply String.eqb_eq in H. now subst.
Qed.

Lemma success_only (resp : Response) (news : list Email.t) (P Q : Prop) :
  resp = sendSuccess ->
  (resp = sendSuccess /\ P) \/ (status resp = 400 /\ news = []) \/ (status resp = 500 /\ Q) ->
  P.
Proof.
  intros -> [[_ H] | [[H _] | [H _]]]; trivial; discriminate.
Qed.

(** A successful send, as [send_outcomes] tells it. *)
Lemma send_success (caller : User.t) (req : SendReq.t) (w w' : World) :
  send caller req w = (Returned sendSuccess, w') ->
  exists news me subject body v,
    emails w' = emails w ++ news /\
    Composed caller req me subject body /\
    forallb (hasValid (resolvedFor w req)) (addressesOf req) = true /\
    map shape news = fanOutDocs w req me subject body v /\
    classified (trace w') = S (classified (trace w)) /\
    exists sentCopy rest,
      news = sentCopy :: rest /\
      Classifies (sendAsks w (SendReq.files req) sentCopy) sentCopy v.
Proof.
  intros H. apply send_outcomes in H.
  destruct H as [resp [news [Hr [He [_ [_ H]]]]]]. injection Hr as <-.
  apply success_only in H; trivial.
  destruct H as [me [subject [body [v H]]]].
  exists news, me, subject, body, v. tauto.
Qed.

Lemma no_reply (w : World) (req : SendReq.t) (me subject : string) (v : bool)
    (a : string) :
  ~ autoReplyEnabled w a ->
  replyDocs me subject (now w) v (autoReplies w)
            (find (hasEmail a) (resolvedFor w req)) a = [].
Proof.
  intros Hno. unfold replyDocs, autoReplyFor.
  destruct (find (hasEmail a) (resolvedFor w req)) as [u|] eqn:Eu; trivial.
  destruct v; trivial.
  destruct (find _ (autoReplies w)) as [ar|] eqn:Ear; trivial.
  destruct (AutoReply.enabled ar) eqn:En; trivial.
  exfalso. apply Hno. apply find_some in Eu. destruct Eu as [Iu Hu].
  apply find_some in Ear. destruct Ear as [Iar Har].
  exists u, ar. repeat split; trivial.
  - unfold resolvedFor, resolved in Iu. apply filter_In in Iu. tauto.
  - now apply hasEmail_eq.
  - now apply Nat.eqb_eq.
Qed.

Lemma copies_count (me subject body : string) (cc bcc : list string)
    (atts : list Attachment.t) (t : nat) (v : bool) (a : string) :
  forall (l : list string) (copies : list Email.t),
    map shape copies = map (copyDoc me subject body cc bcc atts t v) l ->
    List.length (filter (copyOf a) copies) = count_occ string_dec l a.
Proof.
  induction l as [|x l IH]; intros [|e copies] H; cbn [map] in H; try discriminate; trivial.
  apply cons_inj in H. destruct H as [He Hl]. simpl.
  assert (copyOf a e = String.eqb x a) as ->.
  { unfold copyOf. change (Email.recipients e) with (Email.recipients (shape e)).
    rewrite He. reflexivity. }
  destruct (string_dec x a) as [->|Hne].
  - rewrite String.eqb_refl. simpl. now rewrite (IH _ Hl).
  - apply String.eqb_neq in Hne. rewrite Hne. apply IH, Hl.
Qed.

(** C2. A successful send to N To-recipients, M cc and K bcc addresses,
    all distinct and none with an enabled auto-reply, stores after what
    was there one sent-folder copy of the sender and then N + M + K
    copies, one for each address; each copy is in the spam folder with
    isSpam true, or in the inbox with isSpam false, by one verdict
    shared by all: the answer of the classifier for the sent copy and
    its sender, asked where the handler asks it, once the addresses are
    looked up, the files uploaded and the sent copy stored. The
    classifier was entered once. *)
Theorem send_fan_out (caller : User.t) (req : SendReq.t) (w w' : World) :
  send caller req w = (Returned sendSuccess, w') ->
  NoDup (addressesOf req) ->
  (forall a, In a (addressesOf req) -> ~ autoReplyEnabled w a) ->
  exists (v : bool) (sentCopy : Email.t) (copies : list Email.t),
    emails w' = emails w ++ sentCopy :: copies /\
    Email.folder sentCopy = sent /\
    User.email caller = Some (Email.sender sentCopy) /\
    List.length copies
    = List.length (toOf req) + List.length (ccOf req) + List.length (bccOf req) /\
    (forall e, In e copies ->
               Email.folder e = (if v then spam else inbox) /\ Email.isSpam e = v) /\
    (forall a, In a (addressesOf req) -> List.length (filter (copyOf a) copies) = 1) /\
    Classifies (sendAsks w (SendReq.files req) sentCopy) sentCopy v /\
    classified (trace w') = S (classified (trace w)).
Proof.
  intros H Hnd Hno. apply send_success in H.
  destruct H as [news [me [subject [body [v [He [[Hme _] [_ [Hd [Hc Hv]]]]]]]]]].
  assert (fanOutDocs w req me subject body v
          = sentDoc me subject body (toOf req) (ccOf req) (bccOf req)
                    (attachmentsOf (SendReq.files req)) (now w)
            :: map (copyDoc me subject body (ccOf req) (bccOf req)
                            (attachmentsOf (SendReq.files req)) (now w) v)
                   (addressesOf req)) as Ed.
  { unfold fanOutDocs, sendDocs, addressesOf. f_equal. rewrite !map_app. f_equal.
    rewrite <- flat_map_singleton. apply flat_map_same. intros a Ha.
    unfold recipientDocs. fold (resolvedFor w req). rewrite no_reply; trivial.
    apply Hno. unfold addressesOf. apply in_or_app. now left. }
  rewrite Ed in Hd. destruct news as [|s copies]; [discriminate|].
  cbn [map] in Hd. apply cons_inj in Hd. destruct Hd as [Hs Hcs].
  exists v, s, copies. split; [exact He|].
  split. { change (Email.folder s) with (Email.folder (shape s)). now rewrite Hs. }
  split. { change (Email.sender s) with (Email.sender (shape s)). now rewrite Hs. }
  split.
  { rewrite <- (length_map shape), Hcs, length_map. unfold addressesOf.
    rewrite !length_app. lia. }
  split.
  { intros e Ie. eapply shape_in in Ie; [|exact Hcs]. apply in_map_iff in Ie.
    destruct Ie as [a [Ea _]].
    change (Email.folder e) with (Email.folder (shape e)).
    change (Email.isSpam e) with (Email.isSpam (shape e)).
    rewrite <- Ea. split; reflexivity. }
  split; [|split; [|exact Hc]].
  - intros a Ia. erewrite copies_count; [|exact Hcs].
    apply NoDup_count_occ'; assumption.
  - destruct Hv as [s0 [rest [En Hv]]]. injection En as <- _. exact Hv.
Qed.

(** The fan-out at work: Alice writes to Bob and Carol. *)
Lemma send_fan_out_witness :
  exists (v : bool) (sentCopy : Email.t) (copies : list Email.t),
    emails (snd (send Scenario.alice Scenario.hello Scenario.healthy))
    = emails Scenario.healthy ++ sentCopy :: copies /\
    Email.folder sentCopy = sent /\
    User.email Scenario.alice = Some (Email.sender sentCopy) /\
    List.length copies
    = List.length (toOf Scenario.hello) + List.length (ccOf Scenario.hello)
      + List.length (bccOf Scenario.hello) /\
    (forall e, In e copies ->
               Email.folder e = (if v then spam else inbox) /\ Email.isSpam e = v) /\
    (forall a, In a (addressesOf Scenario.hello) ->
               List.length (filter (copyOf a) copies) = 1) /\
    Classifies (sendAsks Scenario.healthy (SendReq.files Scenario.hello) sentCopy)
               sentCopy v /\
    classified (trace (snd (send Scenario.alice Scenario.hello Scenario.healthy)))
    = S (classified (trace Scenario.healthy)).
Proof.
  apply send_fan_out.
  - vm_compute. reflexivity.
  - vm_compute. repeat constructor; simpl; intuition discriminate.
  - intros a _ [u [ar [_ [_ [H _]]]]]. exact H.
Defined.

(** ** The identity of an address *)

Lemma uniq_In (a : string) (l : list string) : In a (uniq l) <-> In a l.
Proof.
  induction l as [|x l IH]; simpl; [tauto|].
  rewrite filter_In, IH. split.
  - intros [H | [H _]]; auto.
  - intros [H | H]; auto.
    destruct (string_dec x a) as [E|N]; auto.
    right. split; trivial. apply negb_true_iff. now apply String.eqb_neq.
Qed.

Lemma existsb_eqb_In (e : string) (l : list string) :
  existsb (String.eqb e) l = true <-> In e l.
Proof.
  rewrite existsb_exists. split.
  - intros [x [Hx E]]. apply String.eqb_eq in E. now subst.
  - intros H. exists e. split; trivial. apply String.eqb_refl.
Qed.

Lemma find_among (us : list User.t) (all : list string) (a : string) :
  In a all ->
  find (hasEmail a) (filter (verifiedAmong all) us) = find (verifiedWithEmail a) us.
Proof.
  intros Ha. induction us as [|u us IH]; trivial.
  assert (verifiedWithEmail a u = hasEmail a u && User.isEmailVerified u) as Ew
    by reflexivity.
  assert (hasEmail a u = true -> verifiedAmong all u = User.isEmailVerified u) as Ea.
  { intros H. apply hasEmail_eq in H. unfold verifiedAmong. rewrite H.
    assert (existsb (String.eqb a) all = true) as ->; trivial.
    now apply existsb_eqb_In. }
  assert (verifiedAmong all u = true -> User.isEmailVerified u = true) as Ev.
  { unfold verifiedAmong. intros H. apply andb_true_iff in H. tauto. }
  cbn [filter find]. rewrite Ew.
  destruct (verifiedAmong all u) eqn:VA; cbn [find];
    destruct (hasEmail a u) eqn:HE; cbn [andb]; trivial.
  - now rewrite Ev.
  - rewrite <- (Ea eq_refl). exact IH.
Qed.

Lemma find_resolved (us : list User.t) (to cc bcc : list string) (a : string) :
  In a (to ++ cc ++ bcc) ->
  find (hasEmail a) (resolved us to cc bcc) = find (verifiedWithEmail a) us.
Proof. intros Ha. apply find_among. now apply uniq_In. Qed.

Lemma find_resolvedFor (w : World) (req : SendReq.t) (a : string) :
  In a (addressesOf req) ->
  find (hasEmail a) (resolvedFor w req) = identityOf w a.
Proof. apply find_resolved. Qed.

Lemma autoReplyFor_spec (w : World) (v : bool) (a : string) (ar : AutoReply.t) :
  autoReplyFor v (autoReplies w) (identityOf w a) = Some ar <->
  v = false /\
  exists u, identityOf w a = Some u /\ configOf w u = Some ar /\
            AutoReply.enabled ar = true /\ User.isEmailVerified u = true.
Proof.
  unfold autoReplyFor, configOf. split.
  - destruct (identityOf w a) as [u|]; [|discriminate].
    destruct v; [discriminate|].
    destruct (find _ (autoReplies w)) as [x|] eqn:Ef; [|discriminate].
    destruct (AutoReply.enabled x) eqn:En; [|discriminate].
    destruct (User.isEmailVerified u) eqn:Ev; [|discriminate].
    simpl. intros H. injection H as ->. split; trivial. exists u. repeat split; trivial.
  - intros [-> [u [-> [-> [-> ->]]]]]. reflexivity.
Qed.

(** ** Which documents of a fan-out are auto-replies *)

Lemma length_append (s1 s2 : string) :
  String.length (s1 +++ s2) = String.length s1 + String.length s2.
Proof. induction s1 as [|c s1 IH]; simpl; congruence. Qed.

Lemma not_own_reply (subject : string) :
  String.eqb subject ("Auto Reply: " +++ subject) = false.
Proof.
  apply String.eqb_neq. intros H. apply (f_equal String.length) in H.
  rewrite length_append in H. simpl in H. lia.
Qed.

Section AutoReplyDocs.
Variables (w : World) (req : SendReq.t) (me subject body : string) (v : bool).

Let to := toOf req.
Let docs := fanOutDocs w req me subject body v.

Lemma copy_in_fan_out (a : string) :
  In a (addressesOf req) ->
  In (copyDoc me subject body (ccOf req) (bccOf req)
              (attachmentsOf (SendReq.files req)) (now w) v a) docs.
Proof.
  unfold docs, fanOutDocs, sendDocs, addressesOf. intros H. right.
  apply in_app_or in H. destruct H as [H|H].
  - apply in_or_app. left. apply in_flat_map. exists a. split; trivial.
    left. reflexivity.
  - apply in_or_app. right. rewrite <- map_app. now apply in_map.
Qed.

Lemma replies_in_fan_out (a : string) (ar : AutoReply.t) (d : Email.t) :
  In a to ->
  autoReplyFor v (autoReplies w) (identityOf w a) = Some ar ->
  In d (autoReplyDocs me subject (now w) a (AutoReply.message ar)) ->
  In d docs.
Proof.
  intros Ha Hr Hd. unfold docs, fanOutDocs, sendDocs. right.
  apply in_or_app. left. apply in_flat_map. exists a. split; [exact Ha|].
  right. unfold replyDocs. rewrite find_resolvedFor, Hr; trivial.
  unfold addressesOf. apply in_or_app. now left.
Qed.

Lemma reply_of_fan_out (d : Email.t) :
  In d docs -> isAutoReply subject d = true ->
  exists a ar, In a to /\
               autoReplyFor v (autoReplies w) (identityOf w a) = Some ar /\
               In d (autoReplyDocs me subject (now w) a (AutoReply.message ar)).
Proof.
  unfold docs, fanOutDocs, sendDocs, isAutoReply. intros [<- | H] Hs.
  { simpl in Hs. now rewrite not_own_reply in Hs. }
  apply in_app_or in H. destruct H as [H|H].
  - apply in_flat_map in H. destruct H as [a [Ha [<- | H]]].
    { simpl in Hs. now rewrite not_own_reply in Hs. }
    unfold replyDocs in H. rewrite find_resolvedFor in H.
    2:{ unfold addressesOf. apply in_or_app. now left. }
    destruct (autoReplyFor v (autoReplies w) (identityOf w a)) as [ar|] eqn:E;
      [|contradiction].
    exists a, ar. auto.
  - rewrite <- map_app in H. apply in_map_iff in H. destruct H as [a [<- _]].
    simpl in Hs. now rewrite not_own_reply in Hs.
Qed.

End AutoReplyDocs.


(** C3, as the code has it. After a successful send the sender's sent
    copy carries the full To, cc and bcc lists; the copy stored for an
    address of To, cc or bcc carries the full cc and bcc lists, the
    sender, subject, body and attachments of the message, and as its
    recipients the receiving address alone. *)
Theorem send_copy_metadata (caller : User.t) (req : SendReq.t) (w w' : World) :
  send caller req w = (Returned sendSuccess, w') ->
  exists (me subject body : string) (v : bool) (news : list Email.t),
    Composed caller req me subject body /\
    emails w' = emails w ++ news /\
    (exists s, In s news /\ Email.folder s = sent /\ Email.sender s = me /\
               Email.recipients s = toOf req /\ Email.cc s = ccOf req /\
               Email.bcc s = bccOf req) /\
    forall a, In a (addressesOf req) ->
      exists e, In e news /\
                Email.folder e = (if v then spam else inbox) /\
                Email.sender e = me /\ Email.subject e = subject /\
                Email.body e = body /\
                Email.attachments e = attachmentsOf (SendReq.files req) /\
                Email.recipients e = [a] /\
                Email.cc e = ccOf req /\ Email.bcc e = bccOf req.
Proof.
  intros H. apply send_success in H.
  destruct H as [news [me [subject [body [v [He [Hc [_ [Hd _]]]]]]]]].
  exists me, subject, body, v, news. split; [exact Hc|]. split; [exact He|]. split.
  - destruct (@shape_exists news _
                (sentDoc me subject body (toOf req) (ccOf req) (bccOf req)
                         (attachmentsOf (SendReq.files req)) (now w)) Hd)
      as [s [Is Es]]; [now left|].
    exists s. split; trivial.
    change (Email.folder s) with (Email.folder (shape s)).
    change (Email.sender s) with (Email.sender (shape s)).
    change (Email.recipients s) with (Email.recipients (shape s)).
    change (Email.cc s) with (Email.cc (shape s)).
    change (Email.bcc s) with (Email.bcc (shape s)).
    rewrite Es. repeat split.
  - intros a Ha.
    pose proof (@copy_in_fan_out w req me subject body v a Ha) as Hin.
    destruct (@shape_exists news _ _ Hd Hin) as [e [Ie Ee]].
    exists e. split; trivial.
    change (Email.folder e) with (Email.folder (shape e)).
    change (Email.sender e) with (Email.sender (shape e)).
    change (Email.subject e) with (Email.subject (shape e)).
    change (Email.body e) with (Email.body (shape e)).
    change (Email.attachments e) with (Email.attachments (shape e)).
    change (Email.recipients e) with (Email.recipients (shape e)).
    change (Email.cc e) with (Email.cc (shape e)).
    change (Email.bcc e) with (Email.bcc (shape e)).
    rewrite Ee. repeat split.
Qed.

(** The copies of the message of Alice to Bob and Carol. *)
Lemma send_copy_metadata_witness :
  exists (me subject body : string) (v : bool) (news : list Email.t),
    Composed Scenario.alice Scenario.hello me subject body /\
    emails (snd (send Scenario.alice Scenario.hello Scenario.healthy))
    = emails Scenario.healthy ++ news /\
    (exists s, In s news /\ Email.folder s = sent /\ Email.sender s = me /\
               Email.recipients s = toOf Scenario.hello /\
               Email.cc s = ccOf Scenario.hello /\
               Email.bcc s = bccOf Scenario.hello) /\
    forall a, In a (addressesOf Scenario.hello) ->
      exists e, In e news /\
                Email.folder e = (if v then spam else inbox) /\
                Email.sender e = me /\ Email.subject e = subject /\
                Email.body e = body /\
                Email.attachments e = attachmentsOf (SendReq.files Scenario.hello) /\
                Email.recipients e = [a] /\
                Email.cc e = ccOf Scenario.hello /\ Email.bcc e = bccOf Scenario.hello.
Proof.
  apply send_copy_metadata. vm_compute. reflexivity.
Defined.

(** C3 as stated fails: Alice writes to Bob and Carol; the copy stored
    for Bob has Bob alone as its recipients, not the To list. *)
Lemma copy_recipients_counterexample :
  fst (send Scenario.alice Scenario.hello Scenario.healthy) = Returned sendSuccess /\
  toOf Scenario.hello = ["bob@x.com"; "carol@x.com"] /\
  exists e,
    nth_error (emails (snd (send Scenario.alice Scenario.hello Scenario.healthy))) 1
    = Some e /\
    Email.folder e = inbox /\
    Email.recipients e = ["bob@x.com"] /\
    Email.recipients e <> toOf Scenario.hello.
Proof.
  split; [vm_compute; reflexivity|]. split; [vm_compute; reflexivity|].
  eexists. split; [vm_compute; reflexivity|].
  split; [reflexivity|]. split; [reflexivity|]. vm_compute. discriminate.
Qed.

(** The auto-replies among the documents of a fan-out. *)
Lemma fan_out_reply_shape (w : World) (req : SendReq.t) (me subject body : string)
    (v : bool) (news : list Email.t) :
  map shape news = fanOutDocs w req me subject body v ->
  forall e, In e news -> isAutoReply subject e = true ->
    exists ar, AutoReplies w req v (Email.sender e) ar /\
               Email.subject e = "Auto Reply: " +++ subject /\
               Email.body e = AutoReply.message ar /\
               Email.recipients e = [me] /\
               Email.isSpam e = false /\
               (Email.folder e = sent \/ Email.folder e = inbox).
Proof.
  intros Hd e Ie Hs. eapply shape_in in Ie; [|exact Hd].
  apply reply_of_fan_out in Ie; [|exact Hs].
  destruct Ie as [a [ar [Ia [Har Hin]]]].
  apply autoReplyFor_spec in Har. destruct Har as [Hv Hu].
  exists ar.
  change (Email.sender e) with (Email.sender (shape e)).
  change (Email.subject e) with (Email.subject (shape e)).
  change (Email.body e) with (Email.body (shape e)).
  change (Email.recipients e) with (Email.recipients (shape e)).
  change (Email.isSpam e) with (Email.isSpam (shape e)).
  change (Email.folder e) with (Email.folder (shape e)).
  destruct Hin as [<- | [<- | []]]; simpl; repeat split; auto.
Qed.

Lemma fan_out_reply_iff (w : World) (req : SendReq.t) (me subject body : string)
    (v : bool) (news : list Email.t) :
  map shape news = fanOutDocs w req me subject body v ->
  forall a, (exists e, In e news /\ isAutoReply subject e = true /\ Email.sender e = a)
            <-> (exists ar, AutoReplies w req v a ar).
Proof.
  intros Hd a. split.
  - intros [e [Ie [Hs <-]]].
    destruct (@fan_out_reply_shape _ _ _ _ _ _ _ Hd e Ie Hs) as [ar [Har _]]. eauto.
  - intros [ar [Hv [Ia Hu]]].
    assert (autoReplyFor v (autoReplies w) (identityOf w a) = Some ar) as Har
      by (apply autoReplyFor_spec; auto).
    destruct (@shape_exists news _
                (Email.mk 0 a [me] [] [] ("Auto Reply: " +++ subject)
                          (AutoReply.message ar) [] sent [] false false false
                          (now w) None) Hd) as [e [Ie Ee]].
    { eapply replies_in_fan_out; [exact Ia | exact Har | now left]. }
    exists e. split; trivial.
    change (Email.sender e) with (Email.sender (shape e)).
    change (isAutoReply subject e) with (isAutoReply subject (shape e)).
    rewrite Ee. split; [|reflexivity]. unfold isAutoReply. simpl.
    apply String.eqb_refl.
Qed.



(** C6, as the code has it. A send always answers. It answers success
    only when the whole fan-out is stored. Otherwise nothing is skipped:
    either it answers 400 and nothing is stored, or it answers 500 and
    what is stored is a beginning of the fan-out (the sent copy, then
    the To, cc and bcc copies in order): once a copy is not stored, no
    later one is. *)
Theorem send_all_or_beginning (caller : User.t) (req : SendReq.t) (w w' : World)
    (o : Outcome Response) :
  send caller req w = (o, w') ->
  exists resp news,
    o = Returned resp /\
    emails w' = emails w ++ news /\
    ((resp = sendSuccess /\
      exists me subject body v,
        Composed caller req me subject body /\
        map shape news = fanOutDocs w req me subject body v)
     \/ (status resp = 400 /\ news = [])
     \/ (status resp = 500 /\
         exists me subject body v,
           Composed caller req me subject body /\
           Prefix (map shape news) (fanOutDocs w req me subject body v))).
Proof.
  intros H. apply send_outcomes in H.
  destruct H as [resp [news [Hr [He [_ [_ H]]]]]].
  exists resp, news. split; [exact Hr|]. split; [exact He|].
  destruct H as [[Hs [me [subject [body [v [Hc [_ [Hd _]]]]]]]] | [H | H]];
    [left | right; left; exact H | right; right; exact H].
  split; [exact Hs|]. exists me, subject, body, v. auto.
Qed.

(** The send of Alice when the save of the copy of Bob is refused. *)
Lemma send_all_or_beginning_witness :
  exists resp news,
    Returned (mkResponse 500 (ErrorDetails "Server error" "db down")) = Returned resp /\
    emails (snd (send Scenario.alice Scenario.hello Scenario.fourthFails))
    = emails Scenario.fourthFails ++ news /\
    ((resp = sendSuccess /\
      exists me subject body v,
        Composed Scenario.alice Scenario.hello me subject body /\
        map shape news = fanOutDocs Scenario.fourthFails Scenario.hello me subject body v)
     \/ (status resp = 400 /\ news = [])
     \/ (status resp = 500 /\
         exists me subject body v,
           Composed Scenario.alice Scenario.hello me subject body /\
           Prefix (map shape news)
                  (fanOutDocs Scenario.fourthFails Scenario.hello me subject body v))).
Proof.
  apply (@send_all_or_beginning Scenario.alice Scenario.hello Scenario.fourthFails).
  vm_compute. reflexivity.
Defined.

(** C6 as stated fails: Alice writes to Bob and Carol, and the fourth
    call to a collaborator, which is the save of Bob's copy (after the
    Directory lookup of the handler, the save of the sent copy and the
    Directory lookup of the classifier), fails. The handler answers 500,
    and only the sent copy is stored: Carol has no copy. *)
Lemma recipient_fault_counterexample :
  fst (send Scenario.alice Scenario.hello Scenario.fourthFails)
  = Returned (mkResponse 500 (ErrorDetails "Server error" "db down")) /\
  map Email.folder (emails (snd (send Scenario.alice Scenario.hello Scenario.fourthFails)))
  = [sent] /\
  map Email.folder (emails (snd (send Scenario.alice Scenario.hello Scenario.healthy)))
  = [sent; inbox; inbox].
Proof. repeat split; vm_compute; reflexivity. Qed.

(* ================================================================== *)
(** * The verification of the addresses *)
(* ================================================================== *)

Lemma existsb_find {A} (p : A -> bool) (l : list A) :
  existsb p l = false <-> find p l = None.
Proof.
  induction l as [|x l IH]; simpl; [tauto|].
  destruct (p x); simpl; [split; discriminate | exact IH].
Qed.

Lemma hasValid_spec (w : World) (req : SendReq.t) (a : string) :
  In a (addressesOf req) ->
  hasValid (resolvedFor w req) a = false <-> SenderRule (users w) a.
Proof.
  intros Ha. unfold hasValid.
  rewrite existsb_find, find_resolvedFor by exact Ha.
  apply find_verified_none.
Qed.

Lemma forallb_false {A} (p : A -> bool) (l : list A) :
  forallb p l = false <-> exists a, In a l /\ p a = false.
Proof.
  induction l as [|x l IH]; simpl.
  - split; [discriminate | intros [a [[] _]]].
  - rewrite andb_false_iff, IH. split.
    + intros [H | [a [Ha Hp]]]; eauto.
    + intros [a [[<- | Ha] Hp]]; eauto.
Qed.

Lemma unresolved_spec (w : World) (req : SendReq.t) (l : list string) :
  incl l (addressesOf req) ->
  forallb (hasValid (resolvedFor w req)) l = false <-> Unresolved w l.
Proof.
  intros Hin. unfold Unresolved. rewrite forallb_false.
  split; intros [a [Ha H]]; exists a; split; trivial;
    apply (@hasValid_spec w req a (Hin a Ha)); exact H.
Qed.

Lemma send_accepted (caller : User.t) (req : SendReq.t) :
  Accepted caller req ->
  exists me subject body,
    Composed caller req me subject body /\
    send caller req
    = try_catch (send_try me (toOf req) (ccOf req) (bccOf req) subject body
                          (SendReq.files req))
                (fun err => log ("Send email error: " +++ err) ;;;
                            json 500 (ErrorDetails "Server error" err)).
Proof.
  intros [[me [Eme Tme]] [Hv [[items Er] [Hcc [Hbcc [[s [Es Ts]] [[b [Eb Tb]] Hto]]]]]]].
  exists me, s, b. split; [repeat split; assumption|].
  unfold send, ensureEmailVerified. rewrite Eme, Tme, Hv, Er, Es, Eb, Ts, Tb.
  cbn [andb negb unparsable orb].
  assert (toOf req = keepAddresses items) as Eto by (unfold toOf; now rewrite Er).
  destruct items as [|r rs].
  { exfalso. apply Hto. rewrite Eto. reflexivity. }
  unfold ccOf, bccOf.
  destruct Hcc as [Ecc | [ci Ecc]]; destruct Hbcc as [Ebcc | [bi Ebcc]];
    rewrite Ecc, Ebcc; cbn [unparsable orb]; rewrite <- Eto;
    (destruct (toOf req) as [|x l] eqn:El; [congruence | reflexivity]).
Qed.

(** C7. A send that has passed the checks of its form while an address
    of To, cc or bcc does not resolve to a verified identity answers 400
    with the error that names the first list, in the order To, cc, bcc,
    that holds such an address; no email, label or auto-reply is
    written, and nothing is emitted or logged. (The Directory lookup
    answers.) *)
Theorem send_validation (caller : User.t) (req : SendReq.t) (w : World) :
  Accepted caller req ->
  faults w (calls w) = None ->
  Unresolved w (addressesOf req) ->
  exists msg w',
    send caller req w = (Returned (mkResponse 400 (Error msg)), w') /\
    sameStores w w' /\ trace w' = trace w /\
    (Unresolved w (toOf req) -> msg = "Some recipients not found or unverified") /\
    (~ Unresolved w (toOf req) -> Unresolved w (ccOf req) ->
     msg = "Some CC recipients not found or unverified") /\
    (~ Unresolved w (toOf req) -> ~ Unresolved w (ccOf req) ->
     msg = "Some BCC recipients not found or unverified").
Proof.
  intros Hacc Hf Hun.
  destruct (@send_accepted caller req Hacc) as [me [subject [body [_ ->]]]].
  unfold try_catch, send_try.
  unfold bind at 1. unfold User_find, bind, external, get_world, ret. rewrite Hf.
  cbv beta iota. cbn [users set_calls].
  fold (resolved (users w) (toOf req) (ccOf req) (bccOf req)).
  fold (resolvedFor w req).
  assert (incl (toOf req) (addressesOf req)) as I1.
  { intros x Hx. unfold addressesOf. apply in_or_app. now left. }
  assert (incl (ccOf req) (addressesOf req)) as I2.
  { intros x Hx. unfold addressesOf. apply in_or_app. right. apply in_or_app. now left. }
  assert (incl (bccOf req) (addressesOf req)) as I3.
  { intros x Hx. unfold addressesOf. apply in_or_app. right. apply in_or_app. now right. }
  pose proof (@unresolved_spec w req _ I1) as U1.
  pose proof (@unresolved_spec w req _ I2) as U2.
  pose proof (@unresolved_spec w req _ I3) as U3.
  destruct (forallb (hasValid (resolvedFor w req)) (toOf req)) eqn:V1; cbn [negb].
  2:{ unfold json, ret. eexists. eexists. split; [reflexivity|].
      split; [repeat constructor|]. split; [reflexivity|].
      assert (Unresolved w (toOf req)) by (now apply U1). tauto. }
  assert (~ Unresolved w (toOf req)) as N1.
  { intros H. apply U1 in H. discriminate. }
  destruct (forallb (hasValid (resolvedFor w req)) (ccOf req)) eqn:V2.
  2:{ assert ((0 <? List.length (ccOf req)) = true) as ->.
      { destruct (ccOf req); [discriminate | reflexivity]. }
      cbn [negb andb]. unfold json, ret. eexists. eexists. split; [reflexivity|].
      split; [repeat constructor|]. split; [reflexivity|].
      assert (Unresolved w (ccOf req)) by (now apply U2). tauto. }
  rewrite andb_false_r.
  assert (~ Unresolved w (ccOf req)) as N2.
  { intros H. apply U2 in H. discriminate. }
  destruct (forallb (hasValid (resolvedFor w req)) (bccOf req)) eqn:V3.
  { exfalso. destruct Hun as [a [Ha Hs]]. unfold addressesOf in Ha.
    apply in_app_or in Ha. destruct Ha as [Ha | Ha].
    - apply N1. exists a. auto.
    - apply in_app_or in Ha. destruct Ha as [Ha | Ha].
      + apply N2. exists a. auto.
      + assert (Unresolved w (bccOf req)) as H by (exists a; auto).
        apply U3 in H. discriminate. }
  assert ((0 <? List.length (bccOf req)) = true) as ->.
  { destruct (bccOf req); [discriminate | reflexivity]. }
  cbn [negb andb]. unfold json, ret. eexists. eexists. split; [reflexivity|].
  split; [repeat constructor|]. split; [reflexivity|]. tauto.
Qed.

(** The validation at work: the blind copy goes to an unknown address. *)
Lemma send_validation_witness :
  exists msg w',
    send Scenario.alice Scenario.stranger Scenario.healthy
    = (Returned (mkResponse 400 (Error msg)), w') /\
    sameStores Scenario.healthy w' /\ trace w' = trace Scenario.healthy /\
    (Unresolved Scenario.healthy (toOf Scenario.stranger) ->
     msg = "Some recipients not found or unverified") /\
    (~ Unresolved Scenario.healthy (toOf Scenario.stranger) ->
     Unresolved Scenario.healthy (ccOf Scenario.stranger) ->
     msg = "Some CC recipients not found or unverified") /\
    (~ Unresolved Scenario.healthy (toOf Scenario.stranger) ->
     ~ Unresolved Scenario.healthy (ccOf Scenario.stranger) ->
     msg = "Some BCC recipients not found or unverified").
Proof.
  apply send_validation.
  - unfold Accepted. simpl. repeat split; eauto. discriminate.
  - reflexivity.
  - exists "nobody@x.com". split.
    + vm_compute. tauto.
    + intros u Hu. simpl in Hu. unfold SenderRule.
      decompose [or] Hu; subst; vm_compute; intuition discriminate.
Defined.

(* ================================================================== *)
(** * The deletion of a label *)
(* ================================================================== *)

Lemma removeFirst_spec {A} (p : A -> bool) (l : list A) (x : A) :
  find p l = Some x ->
  exists before after, l = before ++ x :: after /\ removeFirst p l = (before ++ after, 1).
Proof.
  induction l as [|y l IH]; simpl; [discriminate|].
  destruct (p y) eqn:Ep.
  - intros H. injection H as ->. exists [], l. auto.
  - intros H. destruct (IH H) as [b [a [-> Hr]]]. rewrite Hr.
    exists (y :: b), a. auto.
Qed.

Lemma filter_absent (l : ObjectId) (ls : list ObjectId) :
  existsb (Nat.eqb l) ls = false -> filter (fun x => negb (x =? l)) ls = ls.
Proof.
  induction ls as [|x ls IH]; simpl; trivial.
  intros H. apply orb_false_iff in H. destruct H as [Hx Hls].
  rewrite Nat.eqb_sym, Hx. simpl. now rewrite IH.
Qed.

Lemma pullLabel_detached (l : ObjectId) (e : Email.t) : pullLabel l e = detached l e.
Proof.
  unfold pullLabel, detached. destruct (existsb (Nat.eqb l) (Email.labels e)) eqn:E; trivial.
  rewrite filter_absent by exact E. destruct e; reflexivity.
Qed.

Lemma detached_absent (l : ObjectId) (e : Email.t) :
  ~ In l (Email.labels e) -> detached l e = e.
Proof.
  intros H. unfold detached. rewrite filter_absent; [destruct e; reflexivity|].
  destruct (existsb (Nat.eqb l) (Email.labels e)) eqn:E; trivial.
  apply existsb_exists in E. destruct E as [x [Hx Ex]].
  apply Nat.eqb_eq in Ex. subst. contradiction.
Qed.

Lemma detached_clean (l : ObjectId) (e : Email.t) : ~ In l (Email.labels (detached l e)).
Proof.
  unfold detached. simpl. intros H. apply filter_In in H. destruct H as [_ H].
  rewrite Nat.eqb_refl in H. discriminate.
Qed.

(** C9. The owner of a label deletes it, and the three calls to the
    database succeed. When the label is not a system label, the answer
    is success, the label is removed from the labels, and every email
    stays, the same but for its labels, which lose the deleted label:
    an email that does not carry it is unchanged. When the label is a
    system label, the answer is the error 400 that refuses it, and no
    label and no email changes. *)
Theorem delete_label_cascade (caller : User.t) (me : string) (l : ObjectId)
    (lab : Label.t) (w : World) :
  Verified caller me ->
  (forall k, k < 3 -> faults w (calls w + k) = None) ->
  find (ownedBy caller l) (labels w) = Some lab ->
  (Label.isSystemLabel lab = false ->
   exists w',
     deleteLabel caller (Some l) w
     = (Returned (mkResponse 200 (Message "Label deleted successfully")), w') /\
     (exists before after,
        labels w = before ++ lab :: after /\ labels w' = before ++ after) /\
     Forall2 (fun e e' => e' = detached l e) (emails w) (emails w') /\
     (forall e', In e' (emails w') -> ~ In l (Email.labels e')) /\
     (forall e, In e (emails w) -> ~ In l (Email.labels e) -> In e (emails w')) /\
     users w' = users w /\ autoReplies w' = autoReplies w) /\
  (Label.isSystemLabel lab = true ->
   exists w',
     deleteLabel caller (Some l) w
     = (Returned (mkResponse 400 (Error "Cannot delete system label")), w') /\
     sameStores w w').
Proof.
  intros [Eme [Tme Hv]] Hf Hfind.
  pose proof (Hf 0 ltac:(lia)) as F0. pose proof (Hf 1 ltac:(lia)) as F1.
  pose proof (Hf 2 ltac:(lia)) as F2.
  rewrite Nat.add_0_r in F0. rewrite Nat.add_1_r in F1.
  replace (calls w + 2) with (S (S (calls w))) in F2 by lia.
  unfold deleteLabel, ensureEmailVerified. rewrite Eme, Tme, Hv. cbn [andb].
  unfold try_catch. unfold bind at 1.
  unfold Label_findOne, bind, external, get_world, ret. rewrite F0.
  cbv beta iota. cbn [labels set_calls]. fold (ownedBy caller l). rewrite Hfind.
  split; intros Hsys; rewrite Hsys.
  - unfold Label_deleteOne, bind, external. cbn [faults calls set_calls labels].
    rewrite F1. cbv beta iota. cbn [labels set_calls].
    destruct (removeFirst_spec _ _ Hfind) as [before [after [El Er]]].
    rewrite Er. cbv beta iota. cbn [Nat.eqb].
    unfold Email_pullLabelEverywhere, bind, external, json, ret.
    cbn [faults calls set_calls set_labels]. rewrite F2. cbv beta iota.
    eexists. split; [reflexivity|]. cbn [labels emails users autoReplies set_emails set_labels set_calls].
    split; [eauto|].
    assert (Forall2 (fun e e' => e' = detached l e) (emails w)
                    (map (pullLabel l) (emails w))) as HF.
    { induction (emails w) as [|e es IH]; simpl; constructor; trivial.
      apply pullLabel_detached. }
    split; [exact HF|]. split; [|split; [|split; reflexivity]].
    + intros e' He'. apply in_map_iff in He'. destruct He' as [e [<- _]].
      rewrite pullLabel_detached. apply detached_clean.
    + intros e He Hn. apply in_map_iff. exists e. split; trivial.
      rewrite pullLabel_detached. now apply detached_absent.
  - unfold json, ret. eexists. split; [reflexivity|]. repeat constructor.
Qed.

(** The deletion at work: Bob deletes his label Work, which the message
    of Alice carries. *)
Lemma delete_label_cascade_witness :
  (Label.isSystemLabel Scenario.work = false ->
   exists w',
     deleteLabel Scenario.bob (Some 60) Scenario.mailbox
     = (Returned (mkResponse 200 (Message "Label deleted successfully")), w') /\
     (exists before after,
        labels Scenario.mailbox = before ++ Scenario.work :: after /\
        labels w' = before ++ after) /\
     Forall2 (fun e e' => e' = detached 60 e) (emails Scenario.mailbox) (emails w') /\
     (forall e', In e' (emails w') -> ~ In 60 (Email.labels e')) /\
     (forall e, In e (emails Scenario.mailbox) -> ~ In 60 (Email.labels e) ->
                In e (emails w')) /\
     users w' = users Scenario.mailbox /\ autoReplies w' = autoReplies Scenario.mailbox) /\
  (Label.isSystemLabel Scenario.work = true ->
   exists w',
     deleteLabel Scenario.bob (Some 60) Scenario.mailbox
     = (Returned (mkResponse 400 (Error "Cannot delete system label")), w') /\
     sameStores Scenario.mailbox w').
Proof.
  apply (@delete_label_cascade Scenario.bob "bob@x.com" 60 Scenario.work Scenario.mailbox).
  - repeat split.
  - intros k _. reflexivity.
  - reflexivity.
Defined.

(* ================================================================== *)
(** * Runs in which no collaborator fails *)
(* ================================================================== *)











Lemma read_returns {A} (f : World -> A) (w : World) :
  noFaults w ->
  (external ;;; x <- get_world ;; ret (f x)) w
  = (Returned (f (set_calls (S (calls w)) w)), set_calls (S (calls w)) w).
Proof. intros F. unfold bind, external, get_world, ret. now rewrite F. Qed.


Lemma ensureSpamLabel_returns (userId : ObjectId) (w : World) :
  noFaults w -> exists l w', ensureSpamLabel userId w = (Returned l, w').
Proof.
  intros F. unfold ensureSpamLabel. unfold bind at 1.
  unfold Label_findOne. rewrite read_returns by exact F. cbn [labels set_calls].
  destruct (find (isSpamLabelOf userId) (labels w)) as [l|].
  - unfold ret. eauto.
  - unfold fresh, newDate, Label_save. simpl. unfold bind, external, ret. simpl.
    rewrite F. eauto.
Qed.

Lemma spamLabelFor_returns (isSpam : bool) (ru : option User.t) (w : World) :
  noFaults w -> exists l w', spamLabelFor isSpam ru w = (Returned l, w').
Proof.
  intros F. unfold spamLabelFor. destruct ru as [u|]; [|unfold ret; eauto].
  destruct isSpam; [|unfold ret; eauto].
  destruct (ensureSpamLabel_returns (User.id u) F) as [l [w' E]].
  unfold bind. rewrite E. unfold ret. eauto.
Qed.

Lemma notify_returns (what room : string) (n : Notification) (w : World) :
  exists w', notify what room n w = (Returned tt, w').
Proof.
  unfold notify, bind, get_world, ret. destruct (io w).
  - unfold try_catch, bind, external. destruct (faults w (calls w)).
    + unfold log, emit_event. eauto.
    + unfold emit_event. eauto.
  - unfold log, emit_event. eauto.
Qed.




Lemma truthy_append (a b : string) :
  Js.truthy b = true -> Js.truthy (a +++ b) = true.
Proof. destruct a; simpl; trivial. Qed.







Lemma valid_inv (e : Email.t) :
  Email.valid e = true ->
  Js.truthy (Email.sender e) = true /\ Js.truthy (Email.subject e) = true /\
  Js.truthy (Email.body e) = true.
Proof.
  unfold Email.valid. intros H. repeat (apply andb_true_iff in H; destruct H as [H ?]).
  auto.
Qed.





(* ================================================================== *)
(** * The spam flag and the folder *)
(* ================================================================== *)

(** Step by step through one run. *)
Section Pointwise.
Variable R : World -> World -> Prop.
Hypothesis R_refl : forall w, R w w.
Hypothesis R_trans : forall a b c, R a b -> R b c -> R a c.

Lemma at_bind {A B} (m : M A) (k : A -> M B) (w : World) :
  R w (snd (m w)) ->
  (forall a w1, m w = (Returned a, w1) -> R w1 (snd (k a w1))) ->
  R w (snd (bind m k w)).
Proof.
  intros Hm Hk. unfold bind. destruct (m w) as [[a|err] w1]; simpl in *; trivial.
  eapply R_trans; [exact Hm | now apply Hk].
Qed.

Lemma at_try {A} (m : M A) (h : string -> M A) (w : World) :
  R w (snd (m w)) ->
  (forall err w1, m w = (Thrown err, w1) -> R w1 (snd (h err w1))) ->
  R w (snd (try_catch m h w)).
Proof.
  intros Hm Hh. unfold try_catch. destruct (m w) as [[a|err] w1]; simpl in *; trivial.
  eapply R_trans; [exact Hm | now apply Hh].
Qed.

Lemma at_forEach {A} (f : A -> M unit) (P : World -> Prop) (l : list A) :
  (forall a b, R a b -> P a -> P b) ->
  (forall x w, In x l -> P w -> R w (snd (f x w))) ->
  forall w, P w -> R w (snd (forEach l f w)).
Proof.
  intros HP. induction l as [|x l IH]; intros Hf w Pw; simpl.
  - apply R_refl.
  - apply at_bind; [apply Hf; [now left | exact Pw]|].
    intros [] w1 H1. apply IH.
    + intros y w2 Hy. apply Hf. now right.
    + eapply HP; [|exact Pw]. specialize (Hf x w (or_introl eq_refl) Pw).
      now rewrite H1 in Hf.
Qed.
End Pointwise.

Lemma identityOf_users (w w' : World) (a : string) :
  users w' = users w -> identityOf w' a = identityOf w a.
Proof. unfold identityOf. now intros ->. Qed.

Lemma Made_mono (w w' : World) (e : Email.t) :
  users w' = users w -> incl (labels w) (labels w') -> Made w e -> Made w' e.
Proof.
  intros Hu Hl [H | [Hs [Hf [a [Ha H]]]]]; [now left | right].
  split; trivial. split; trivial. exists a. split; trivial.
  rewrite (@identityOf_users w w' a Hu).
  destruct (identityOf w a) as [u|]; trivial.
  destruct H as [lab [Hin H]]. exists lab. split; [now apply Hl | exact H].
Qed.

Lemma adds_refl (w : World) : adds w w.
Proof.
  split; trivial. split; [apply incl_refl|]. exists []. split; [now rewrite app_nil_r|].
  constructor.
Qed.

Lemma adds_trans (a b c : World) : adds a b -> adds b c -> adds a c.
Proof.
  intros [U1 [L1 [n1 [E1 M1]]]] [U2 [L2 [n2 [E2 M2]]]].
  split; [congruence|]. split; [eapply incl_tran; eassumption|].
  exists (n1 ++ n2). split; [rewrite E2, E1, app_assoc; reflexivity|].
  apply Forall_app. split; trivial.
  eapply Forall_impl; [|exact M1]. intros e. now apply Made_mono.
Qed.

(** A step that leaves the users and the emails, and keeps the labels. *)
Lemma adds_same (w w' : World) :
  users w' = users w -> emails w' = emails w -> incl (labels w) (labels w') ->
  adds w w'.
Proof.
  intros U E L. split; trivial. split; trivial. exists [].
  split; [now rewrite app_nil_r | constructor].
Qed.

Lemma adds_calls (w : World) (c : nat) : adds w (set_calls c w).
Proof. apply adds_same; trivial. apply incl_refl. Qed.

Lemma adds_event (w : World) (e : Event) :
  classified [e] = 0 -> adds w (set_trace (trace w ++ [e]) w).
Proof. intros _. apply adds_same; trivial. apply incl_refl. Qed.

Lemma adds_nextId (w : World) (i : ObjectId) : adds w (set_nextId i w).
Proof. apply adds_same; trivial. apply incl_refl. Qed.

Lemma adds_inert (w w' : World) : inert w w' -> adds w w'.
Proof.
  intros [[] _ _ _ _]. apply adds_same; trivial.
  replace (labels w') with (labels w) by congruence. apply incl_refl.
Qed.

Ltac adds_side :=
  first [ exact adds_refl | exact adds_trans | exact adds_calls
        | exact adds_event | exact adds_nextId ].

Ltac adds_by lem := apply lem; adds_side.

(** The save of an email that is made as the handlers make them. *)
Lemma adds_save (e : Email.t) (w : World) :
  (forall w', users w' = users w -> labels w' = labels w -> Made w' e) ->
  adds w (snd (Email_save e w)).
Proof.
  intros HM. unfold Email_save. destruct (Email.valid e); [|apply adds_refl].
  unfold bind, external. destruct (faults w (calls w)); simpl.
  - apply adds_calls.
  - split; trivial. split; [apply incl_refl|]. exists [e]. split; trivial.
    constructor; [|constructor]. now apply HM.
Qed.

Lemma Email_new_world sender recipients cc bcc subject body atts folder isSpam lbls sentAt
    (w w' : World) (e : Email.t) :
  Email_new sender recipients cc bcc subject body atts folder isSpam lbls sentAt w
  = (Returned e, w') ->
  users w' = users w /\ labels w' = labels w /\
  Email.isSpam e = isSpam /\ Email.folder e = folder /\ Email.labels e = lbls /\
  Email.recipients e = recipients.
Proof.
  unfold Email_new, bind, fresh, newDate, ret. simpl. intros H.
  injection H as <- <-. repeat split.
Qed.

(** A new email that is not flagged, out of the spam folder and without
    label, saved, and what follows. *)
Lemma adds_new_plain {B} sender recipients cc bcc subject body atts folder sentAt
    (k : Email.t -> M B) (w : World) :
  folder <> spam ->
  (forall e w1, users w1 = users w -> adds w1 (snd (k e w1))) ->
  adds w (snd ((e <- Email_new sender recipients cc bcc subject body atts folder
                               false [] sentAt ;;
                Email_save e ;;; k e) w)).
Proof.
  intros Hf Hk. apply at_bind; [exact adds_trans | adds_by keeps_Email_new |].
  intros e w1 H1. apply Email_new_world in H1.
  destruct H1 as [U1 [_ [Hs [Hfo [Hl _]]]]].
  apply at_bind; [exact adds_trans | |].
  - apply adds_save. intros w' _ _. left. rewrite Hs, Hfo, Hl. auto.
  - intros [] w2 H2. apply Hk. apply Email_save_ok in H2.
    rewrite (sentMore_users H2). exact U1.
Qed.

Lemma ensureSpamLabel_result (userId : ObjectId) (w w' : World) (l : Label.t) :
  ensureSpamLabel userId w = (Returned l, w') ->
  users w' = users w /\ In l (labels w') /\ isSpamLabelOf userId l = true.
Proof.
  unfold ensureSpamLabel. intros H.
  apply bind_returned in H. destruct H as [found [w1 [H1 H]]].
  unfold Label_findOne, bind, external, get_world, ret in H1.
  destruct (faults w (calls w)); [discriminate|]. simpl in H1.
  injection H1 as <- <-. destruct (find (isSpamLabelOf userId) (labels w)) as [x|] eqn:Ef.
  - unfold ret in H. injection H as <- <-. apply find_some in Ef. simpl. tauto.
  - unfold fresh, newDate, Label_save in H. simpl in H.
    unfold bind, external, ret in H. simpl in H.
    destruct (faults w (S (calls w))); [discriminate|]. injection H as <- <-. simpl.
    split; trivial. split; [apply in_or_app; right; now left|].
    unfold isSpamLabelOf. simpl. now rewrite Nat.eqb_refl.
Qed.

Lemma ensureSpamLabel_adds (userId : ObjectId) (w : World) :
  adds w (snd (ensureSpamLabel userId w)).
Proof.
  unfold ensureSpamLabel.
  apply at_bind; [exact adds_trans | adds_by keeps_Label_findOne |].
  intros [l|] w1 _; [apply adds_refl|].
  apply at_bind; [exact adds_trans | adds_by keeps_fresh |]. intros i w2 _.
  apply at_bind; [exact adds_trans | adds_by keeps_newDate |]. intros t w3 _.
  apply at_bind; [exact adds_trans | | intros; apply adds_refl].
  unfold Label_save. simpl. unfold bind, external.
  destruct (faults w3 (calls w3)); simpl; [apply adds_calls|].
  apply adds_same; trivial. simpl. apply incl_appl, incl_refl.
Qed.

Lemma spamLabelFor_adds (isSpam : bool) (ru : option User.t) (w : World) :
  adds w (snd (spamLabelFor isSpam ru w)).
Proof.
  unfold spamLabelFor. destruct ru as [u|]; [|apply adds_refl].
  destruct isSpam; [|apply adds_refl].
  apply at_bind; [exact adds_trans | apply ensureSpamLabel_adds |].
  intros; apply adds_refl.
Qed.

Lemma spamLabelFor_result (isSpam : bool) (ru : option User.t) (w w' : World)
    (lbl : option Label.t) :
  spamLabelFor isSpam ru w = (Returned lbl, w') ->
  users w' = users w /\
  match ru with
  | Some u =>
      if isSpam
      then exists lab, lbl = Some lab /\ In lab (labels w') /\
                       isSpamLabelOf (User.id u) lab = true
      else True
  | None => lbl = None
  end.
Proof.
  unfold spamLabelFor. destruct ru as [u|].
  2:{ unfold ret. intros H. injection H as <- <-. auto. }
  destruct isSpam.
  2:{ unfold ret. intros H. injection H as <- <-. auto. }
  intros H. apply bind_returned in H. destruct H as [lab [w1 [H1 H]]].
  unfold ret in H. injection H as <- <-.
  apply ensureSpamLabel_result in H1. destruct H1 as [U [I S]].
  split; trivial. exists lab. auto.
Qed.

(** The copy of one address, saved, and what follows. *)
Lemma adds_new_copy {B} (sender addr : string) (cc bcc : list string)
    (subject body : string) (atts : list Attachment.t) (isSpam : bool)
    (lbl : option Label.t) (sentAt : option nat)
    (k : Email.t -> M B) (w : World) :
  match identityOf w addr with
  | Some u =>
      if isSpam
      then exists lab, lbl = Some lab /\ In lab (labels w) /\
                       isSpamLabelOf (User.id u) lab = true
      else True
  | None => lbl = None
  end ->
  (forall e w1, users w1 = users w -> adds w1 (snd (k e w1))) ->
  adds w (snd ((e <- Email_new sender [addr] cc bcc subject body atts
                               (if isSpam then spam else inbox) isSpam
                               (labelsOf isSpam lbl) sentAt ;;
                Email_save e ;;; k e) w)).
Proof.
  intros Hl Hk. apply at_bind; [exact adds_trans | adds_by keeps_Email_new |].
  intros e w1 H1. apply Email_new_world in H1.
  destruct H1 as [U1 [L1 [Hs [Hfo [Hlb Hr]]]]].
  apply at_bind; [exact adds_trans | |].
  2:{ intros [] w2 H2. apply Hk. apply Email_save_ok in H2.
      rewrite (sentMore_users H2). exact U1. }
  apply adds_save. intros w' U L. destruct isSpam.
  - right. split; trivial. split; trivial. exists addr. split; trivial.
    rewrite (@identityOf_users w w' addr) by congruence.
    destruct (identityOf w addr) as [u|].
    + destruct Hl as [lab [-> [Hin Hp]]]. exists lab.
      split; [rewrite L, L1; exact Hin|]. split; trivial.
    + subst lbl. exact Hlb.
  - left. split; trivial. split; [rewrite Hfo; discriminate|].
    rewrite Hlb. unfold labelsOf. destruct lbl; reflexivity.
Qed.

Section SendAdds.
Variables (me subject body : string) (cc bcc : list string)
          (atts : list Attachment.t) (t : nat) (isSpam : bool)
          (rus : list User.t).

Lemma deliverCopy_adds (what addr : string) (w : World) :
  find (hasEmail addr) rus = identityOf w addr ->
  adds w (snd (deliverCopy me subject body cc bcc atts t isSpam rus what addr w)).
Proof.
  intros Hid. unfold deliverCopy.
  apply at_bind; [exact adds_trans | apply spamLabelFor_adds |].
  intros lbl w1 H1. apply spamLabelFor_result in H1. destruct H1 as [U1 H1].
  apply (@adds_new_copy _ me addr cc bcc subject body atts isSpam lbl (Some t)).
  - rewrite (@identityOf_users w w1 addr U1), <- Hid.
    destruct (find (hasEmail addr) rus); exact H1.
  - intros e w2 _. apply at_bind; [exact adds_trans | adds_by keeps_notify |].
    intros; apply adds_refl.
Qed.

Lemma autoReplyOf_adds (recipient : string) (ru : option User.t) (w : World) :
  adds w (snd (autoReplyOf me subject isSpam recipient ru w)).
Proof.
  unfold autoReplyOf. destruct ru as [u|]; [|apply adds_refl].
  destruct (negb isSpam); [|apply adds_refl].
  apply at_bind; [exact adds_trans | adds_by keeps_AutoReply_findOne |].
  intros [ar|] w1 _; [|apply adds_refl].
  destruct (AutoReply.enabled ar && User.isEmailVerified u); [|apply adds_refl].
  apply adds_new_plain; [discriminate|]. intros e1 w2 _.
  apply adds_new_plain; [discriminate|]. intros e2 w3 _.
  adds_by keeps_notify.
Qed.

Lemma deliverRecipient_adds (addr : string) (w : World) :
  find (hasEmail addr) rus = identityOf w addr ->
  adds w (snd (deliverRecipient me subject body cc bcc atts t isSpam rus addr w)).
Proof.
  intros Hid. unfold deliverRecipient.
  apply at_bind; [exact adds_trans | now apply deliverCopy_adds |].
  intros ru w1 _. apply autoReplyOf_adds.
Qed.

Lemma deliverCc_adds (addr : string) (w : World) :
  find (hasEmail addr) rus = identityOf w addr ->
  adds w (snd (deliverCc me subject body cc bcc atts t isSpam rus addr w)).
Proof.
  intros Hid. unfold deliverCc.
  apply at_bind; [exact adds_trans | now apply deliverCopy_adds |].
  intros; apply adds_refl.
Qed.

Lemma deliverBcc_adds (addr : string) (w : World) :
  find (hasEmail addr) rus = identityOf w addr ->
  adds w (snd (deliverBcc me subject body cc bcc atts t isSpam rus addr w)).
Proof.
  intros Hid. unfold deliverBcc.
  apply at_bind; [exact adds_trans | now apply deliverCopy_adds |].
  intros; apply adds_refl.
Qed.
End SendAdds.

Lemma quiet_users {A} (m : M A) (w w' : World) (o : Outcome A) :
  keeps untouched m -> m w = (o, w') -> users w' = users w.
Proof. intros K H. eapply sentMore_users. eapply quiet_step; eassumption. Qed.

Lemma detectSpam_adds (email : SpamInput) (sender : string) (w : World) :
  adds w (snd (detectSpam email sender w)).
Proof. apply adds_inert. apply detectSpam_inert. Qed.

Lemma detectSpam_users (email : SpamInput) (sender : string) (w w' : World)
    (o : Outcome bool) :
  detectSpam email sender w = (o, w') -> users w' = users w.
Proof.
  intros H. pose proof (detectSpam_inert email sender w) as I. rewrite H in I.
  destruct I as [[] _ _ _ _]. assumption.
Qed.

Lemma User_find_result (p : User.t -> bool) (w w' : World) (l : list User.t) :
  User_find p w = (Returned l, w') -> l = filter p (users w) /\ users w' = users w.
Proof.
  unfold User_find, bind, external, get_world, ret.
  destruct (faults w (calls w)); [discriminate|]. simpl. intros H.
  injection H as <- <-. auto.
Qed.

Lemma User_findOne_result (p : User.t -> bool) (w w' : World) (r : option User.t) :
  User_findOne p w = (Returned r, w') -> r = find p (users w) /\ users w' = users w.
Proof.
  unfold User_findOne, bind, external, get_world, ret.
  destruct (faults w (calls w)); [discriminate|]. simpl. intros H.
  injection H as <- <-. auto.
Qed.

Lemma send_try_adds (me : string) (recipients cc bcc : list string)
    (subject body : string) (files : list File.t) (w : World) :
  adds w (snd (send_try me recipients cc bcc subject body files w)).
Proof.
  unfold send_try.
  apply at_bind; [exact adds_trans | adds_by keeps_User_find |].
  intros rus w1 H1. apply User_find_result in H1. destruct H1 as [Er U1].
  fold (resolved (users w) recipients cc bcc) in Er.
  destruct (negb _); [apply adds_refl|].
  destruct (_ && _); [apply adds_refl|].
  destruct (_ && _); [apply adds_refl|].
  apply at_bind; [exact adds_trans | adds_by keeps_uploadAll |].
  intros atts w2 H2. apply quiet_users in H2; [|quiet_by keeps_uploadAll].
  apply at_bind; [exact adds_trans | adds_by keeps_newDate |].
  intros t w3 H3. unfold newDate in H3. injection H3 as _ <-.
  apply adds_new_plain; [discriminate|]. intros sentEmail w4 U4.
  apply at_bind; [exact adds_trans | apply detectSpam_adds |].
  intros isSpam w5 H5. apply detectSpam_users in H5.
  assert (users w5 = users w) as U5 by congruence.
  set (P := fun x : World => users x = users w).
  assert (forall a b, adds a b -> P a -> P b) as HP.
  { intros a b [U _] Pa. unfold P in *. congruence. }
  assert (forall x x', In x (recipients ++ cc ++ bcc) -> P x' ->
                       find (hasEmail x) rus = identityOf x' x) as Hid.
  { intros x x' Hx Px. rewrite Er. unfold identityOf. rewrite Px.
    now apply find_resolved. }
  apply at_bind; [exact adds_trans | |].
  { apply (@at_forEach adds adds_refl adds_trans _ _ P); trivial.
    intros x x' Hx Px. apply deliverRecipient_adds. apply Hid; trivial.
    apply in_or_app. now left. }
  intros [] w6 H6.
  assert (P w6) as P6.
  { pose proof (@at_forEach adds adds_refl adds_trans _
                  (deliverRecipient me subject body cc bcc atts
                     (Email.sentAt sentEmail) isSpam rus) P recipients HP) as L.
    eapply HP; [|exact U5].
    assert (adds w5 (snd (forEach recipients
                            (deliverRecipient me subject body cc bcc atts
                               (Email.sentAt sentEmail) isSpam rus) w5))) as X.
    { apply L; trivial.
      intros x x' Hx Px. apply deliverRecipient_adds. apply Hid; trivial.
      apply in_or_app. now left. }
    rewrite H6 in X. exact X. }
  apply at_bind; [exact adds_trans | |].
  { apply (@at_forEach adds adds_refl adds_trans _ _ P); trivial.
    intros x x' Hx Px. apply deliverCc_adds. apply Hid; trivial.
    apply in_or_app. right. apply in_or_app. now left. }
  intros [] w7 H7.
  assert (P w7) as P7.
  { pose proof (@at_forEach adds adds_refl adds_trans _
                  (deliverCc me subject body cc bcc atts
                     (Email.sentAt sentEmail) isSpam rus) P cc HP) as L.
    eapply HP; [|exact P6].
    assert (adds w6 (snd (forEach cc
                            (deliverCc me subject body cc bcc atts
                               (Email.sentAt sentEmail) isSpam rus) w6))) as X.
    { apply L; trivial.
      intros x x' Hx Px. apply deliverCc_adds. apply Hid; trivial.
      apply in_or_app. right. apply in_or_app. now left. }
    rewrite H7 in X. exact X. }
  apply at_bind; [exact adds_trans | | intros; apply adds_refl].
  apply (@at_forEach adds adds_refl adds_trans _ _ P); trivial.
  intros x x' Hx Px. apply deliverBcc_adds. apply Hid; trivial.
  apply in_or_app. right. apply in_or_app. now right.
Qed.

Lemma handler_adds (caller : User.t) (body : string -> M Response) (w : World) :
  (forall me w1, adds w1 (snd (body me w1))) ->
  adds w (snd (ensureEmailVerified caller body w)).
Proof.
  intros H. unfold ensureEmailVerified.
  destruct (User.email caller) as [me|]; [|apply adds_refl].
  destruct (_ && _); [apply H | apply adds_refl].
Qed.

Lemma catch_adds (m : M Response) (h : string -> M Response) (w : World) :
  adds w (snd (m w)) ->
  (forall err, keeps adds (h err)) ->
  adds w (snd (try_catch m h w)).
Proof.
  intros Hm Hh. apply at_try; [exact adds_trans | exact Hm |]. intros err w1 _. apply Hh.
Qed.

Lemma log_json_adds (msg : string) (st : nat) (p : Payload) :
  keeps adds (log msg ;;; json st p).
Proof.
  apply keeps_bind; [exact adds_trans | adds_by keeps_log |].
  intros _. adds_by keeps_json.
Qed.

Lemma send_adds (caller : User.t) (req : SendReq.t) (w : World) :
  adds w (snd (send caller req w)).
Proof.
  unfold send. apply handler_adds. intros me w1.
  destruct (_ || _); [apply log_json_adds|].
  destruct (SendReq.recipients req) as [| | |[|r rs]]; try apply adds_refl.
  destruct (SendReq.subject req) as [subject|]; [|apply adds_refl].
  destruct (SendReq.body req) as [body|]; [|apply adds_refl].
  destruct (negb _); [apply adds_refl|].
  destruct (SendReq.cc req); destruct (SendReq.bcc req); try apply adds_refl;
    (destruct (keepAddresses (r :: rs)); [apply adds_refl|];
     apply catch_adds; [apply send_try_adds | intros err; apply log_json_adds]).
Qed.

Lemma Email_save_world (e : Email.t) (w w' : World) :
  Email_save e w = (Returned tt, w') -> users w' = users w /\ labels w' = labels w.
Proof.
  unfold Email_save. destruct (Email.valid e); [|discriminate].
  unfold bind, external. destruct (faults w (calls w)); [discriminate|].
  intros H. injection H as <-. auto.
Qed.

Lemma reply_adds (caller : User.t) (req : ReplyReq.t) (w : World) :
  adds w (snd (reply caller req w)).
Proof.
  unfold reply. apply handler_adds. intros me w0.
  apply catch_adds; [|intros err; apply log_json_adds].
  apply at_bind; [exact adds_trans | adds_by keeps_Email_findById |].
  intros [orig|] w1 _; [|apply adds_refl].
  apply at_bind; [exact adds_trans | adds_by keeps_User_findOne |].
  intros ru w2 H2. apply User_findOne_result in H2. destruct H2 as [Er U2].
  destruct ru as [ru|]; [|apply adds_refl].
  assert (identityOf w2 (Email.sender orig) = Some ru) as Hid.
  { unfold identityOf. rewrite U2. now symmetry. }
  apply at_bind; [exact adds_trans | adds_by keeps_uploadAll |].
  intros atts w3 H3. apply quiet_users in H3; [|quiet_by keeps_uploadAll].
  apply at_bind; [exact adds_trans | adds_by keeps_Email_new |].
  intros replyEmail w4 H4. apply Email_new_world in H4.
  destruct H4 as [U4 [_ [Hs [Hf [Hl _]]]]].
  apply at_bind; [exact adds_trans | apply detectSpam_adds |].
  intros isSpam w5 H5. apply detectSpam_users in H5.
  change (if isSpam
          then l <- ensureSpamLabel (User.id ru) ;; ret (Some l)
          else ret None)
    with (spamLabelFor isSpam (Some ru)).
  apply at_bind; [exact adds_trans | apply spamLabelFor_adds |].
  intros lbl w6 H6. apply spamLabelFor_result in H6. destruct H6 as [U6 H6].
  apply at_bind; [exact adds_trans | |].
  { apply adds_save. intros w' _ _. left. rewrite Hs, Hf, Hl.
    split; trivial. split; [discriminate | trivial]. }
  intros [] w7 H7. apply Email_save_world in H7. destruct H7 as [U7 L7].
  apply (@adds_new_copy _ me (Email.sender orig) [] []).
  - rewrite (@identityOf_users w2 w7 (Email.sender orig)) by congruence.
    rewrite Hid. destruct isSpam; trivial.
    destruct H6 as [lab [-> [Hin Hp]]]. exists lab. rewrite L7. auto.
  - intros e w8 _.
    apply at_bind; [exact adds_trans | adds_by keeps_get_world |].
    intros x w9 _. apply at_bind; [exact adds_trans | | intros; apply adds_refl].
    destruct (io x).
    + apply keeps_bind; [exact adds_trans | adds_by keeps_external |].
      intros _. adds_by keeps_emit.
    + adds_by keeps_log.
Qed.

Lemma forwardTo_adds (me fwSubject fwBody : string) (atts : list Attachment.t)
    (isSpam : bool) (rus : list User.t) (recipient : string) (w : World) :
  find (hasEmail recipient) rus = identityOf w recipient ->
  adds w (snd (forwardTo me fwSubject fwBody atts isSpam rus recipient w)).
Proof.
  intros Hid. unfold forwardTo.
  apply at_bind; [exact adds_trans | apply spamLabelFor_adds |].
  intros lbl w1 H1. apply spamLabelFor_result in H1. destruct H1 as [U1 H1].
  apply (@adds_new_copy _ me recipient [] [] fwSubject fwBody atts isSpam lbl None).
  - rewrite (@identityOf_users w w1 recipient U1), <- Hid.
    destruct (find (hasEmail recipient) rus); exact H1.
  - intros e w2 _. adds_by keeps_notify.
Qed.

Lemma forward_adds (caller : User.t) (req : ForwardReq.t) (w : World) :
  adds w (snd (forward caller req w)).
Proof.
  unfold forward. apply handler_adds. intros me w0.
  destruct (ForwardReq.recipients req) as [| | |[|r rs]];
    try apply adds_refl; try apply log_json_adds.
  apply catch_adds; [|intros err; apply log_json_adds].
  apply at_bind; [exact adds_trans | adds_by keeps_Email_findById |].
  intros [orig|] w1 _; [|apply adds_refl].
  apply at_bind; [exact adds_trans | adds_by keeps_User_find |].
  intros rus w2 H2. apply User_find_result in H2. destruct H2 as [Er U2].
  destruct (negb _); [apply adds_refl|].
  apply at_bind; [exact adds_trans | adds_by keeps_uploadAll |].
  intros uploaded w3 H3. apply quiet_users in H3; [|quiet_by keeps_uploadAll].
  apply at_bind; [exact adds_trans | adds_by keeps_Email_new |].
  intros forwardEmail w4 H4. apply Email_new_world in H4.
  destruct H4 as [U4 [_ [Hs [Hf [Hl _]]]]].
  apply at_bind; [exact adds_trans | apply detectSpam_adds |].
  intros isSpam w5 H5. apply detectSpam_users in H5.
  apply at_bind; [exact adds_trans | |].
  { apply adds_save. intros w' _ _. left. rewrite Hs, Hf, Hl.
    split; trivial. split; [discriminate | trivial]. }
  intros [] w6 H6. apply Email_save_world in H6. destruct H6 as [U6 _].
  apply at_bind; [exact adds_trans | | intros; apply adds_refl].
  apply (@at_forEach adds adds_refl adds_trans _ _ (fun x => users x = users w1)).
  - intros a b [U _] Pa. congruence.
  - intros x x' Hx Px. apply forwardTo_adds. rewrite Er. unfold identityOf.
    rewrite Px. now apply find_among.
  - congruence.
Qed.

Lemma fan_out_adds (r : Request) (w : World) :
  fansOut r = true -> adds w (snd (handle r w)).
Proof.
  destruct r; try discriminate; intros _; simpl.
  - apply send_adds.
  - apply reply_adds.
  - apply forward_adds.
Qed.

(** ** The requests that only update *)

Lemma Made_Consistent (w : World) (e : Email.t) : Made w e -> Consistent e.
Proof.
  intros [[Hs [Hf _]] | [Hs [Hf _]]]; split; intros H; auto; congruence.
Qed.

Lemma adds_consistent (w w' : World) : adds w w' -> AllConsistent w -> AllConsistent w'.
Proof.
  intros [_ [_ [news [E M]]]] H. unfold AllConsistent in *. rewrite E.
  apply Forall_app. split; trivial.
  eapply Forall_impl; [|exact M]. intros e. apply Made_Consistent.
Qed.

Lemma consistent_same (w w' : World) :
  emails w' = emails w -> carries AllConsistent w w'.
Proof. intros E H. unfold AllConsistent in *. now rewrite E. Qed.

Ltac consistent_side :=
  first [ exact (carries_refl AllConsistent) | exact (@carries_trans AllConsistent)
        | intros; apply consistent_same; reflexivity ].

Ltac consistent_by lem := apply lem; consistent_side.

Lemma updateFirst_Forall {A} (P : A -> Prop) (p : A -> bool) (f : A -> A) (l : list A) :
  (forall x, P x -> P (f x)) -> Forall P l -> Forall P (fst (updateFirst p f l)).
Proof.
  intros Hf. induction l as [|x l IH]; intros H; simpl; trivial.
  inversion H as [|? ? Hx Hl]; subst.
  destruct (p x); simpl; [constructor; auto|].
  destruct (updateFirst p f l) as [l' r]. simpl in *. constructor; auto.
Qed.

Lemma update_consistent (p : Email.t -> bool) (f : Email.t -> Email.t) :
  (forall e, Consistent e -> Consistent (f e)) ->
  keeps (carries AllConsistent) (Email_findOneAndUpdate p f).
Proof.
  intros Hf. unfold Email_findOneAndUpdate.
  apply keeps_bind; [exact (@carries_trans AllConsistent) | consistent_by keeps_external |].
  intros _ w H. unfold AllConsistent in *.
  pose proof (@updateFirst_Forall _ Consistent p f (emails w) Hf H) as L.
  destruct (updateFirst p f (emails w)) as [l r]. exact L.
Qed.

Lemma log_json_consistent (msg : string) (st : nat) (p : Payload) :
  keeps (carries AllConsistent) (log msg ;;; json st p).
Proof.
  apply keeps_bind; [exact (@carries_trans AllConsistent) | consistent_by keeps_log |].
  intros _. consistent_by keeps_json.
Qed.

Lemma handler_consistent (caller : User.t) (body : string -> M Response) :
  (forall me, keeps (carries AllConsistent) (body me)) ->
  keeps (carries AllConsistent) (ensureEmailVerified caller body).
Proof.
  intros H. unfold ensureEmailVerified.
  destruct (User.email caller) as [me|]; [|consistent_by keeps_json].
  destruct (_ && _); [apply H | consistent_by keeps_json].
Qed.

Lemma update_route_consistent (p : Email.t -> bool) (f : Email.t -> Email.t)
    (none : Response) (k : Email.t -> Response) :
  (forall e, Consistent e -> Consistent (f e)) ->
  keeps (carries AllConsistent)
        (updated <- Email_findOneAndUpdate p f ;;
         match updated with
         | None => ret none
         | Some e => ret (k e)
         end).
Proof.
  intros Hf. apply keeps_bind;
    [exact (@carries_trans AllConsistent) | now apply update_consistent |].
  intros [e|]; consistent_by keeps_ret.
Qed.

Lemma markRead_consistent caller emailId isRead :
  keeps (carries AllConsistent) (markRead caller emailId isRead).
Proof.
  unfold markRead. apply handler_consistent. intros me.
  apply keeps_try_catch; [exact (@carries_trans AllConsistent) | |
                          intros; apply log_json_consistent].
  destruct emailId as [i|]; [|consistent_by keeps_json].
  destruct isRead as [b|]; [|consistent_by keeps_json].
  apply (@update_route_consistent _ _
           (mkResponse 404 (Error "Email not found or unauthorized"))
           (fun _ => mkResponse 200 (Message "Email read status updated"))).
  intros e H. exact H.
Qed.

Lemma star_consistent caller emailId isStarred :
  keeps (carries AllConsistent) (star caller emailId isStarred).
Proof.
  unfold star. apply handler_consistent. intros me.
  apply keeps_try_catch; [exact (@carries_trans AllConsistent) | |
                          intros; apply log_json_consistent].
  destruct emailId as [i|]; [|consistent_by keeps_json].
  destruct isStarred as [b|]; [|consistent_by keeps_json].
  apply keeps_bind; [exact (@carries_trans AllConsistent) | |].
  { apply update_consistent. intros e H. exact H. }
  intros [e|]; [|consistent_by keeps_json].
  apply keeps_bind;
    [exact (@carries_trans AllConsistent) | consistent_by keeps_populateLabels |].
  intros found. consistent_by keeps_json.
Qed.

Lemma moveToTrash_consistent caller emailId :
  keeps (carries AllConsistent) (moveToTrash caller emailId).
Proof.
  unfold moveToTrash. apply handler_consistent. intros me.
  apply keeps_try_catch; [exact (@carries_trans AllConsistent) | |
                          intros; apply log_json_consistent].
  destruct emailId as [i|]; [|consistent_by keeps_json].
  apply (@update_route_consistent _ _
           (mkResponse 404 (Error "Email not found or unauthorized"))
           (fun _ => mkResponse 200 (Message "Email moved to trash"))).
  intros e [_ H]. split; simpl; [discriminate | auto].
Qed.

Lemma Email_findOne_result (p : Email.t -> bool) (w w' : World) (r : option Email.t) :
  Email_findOne p w = (Returned r, w') -> r = find p (emails w) /\ emails w' = emails w.
Proof.
  unfold Email_findOne, bind, external, get_world, ret.
  destruct (faults w (calls w)); [discriminate|]. simpl. intros H.
  injection H as <- <-. auto.
Qed.

Lemma Label_findOne_emails (p : Label.t -> bool) (w w' : World) (o : Outcome (option Label.t)) :
  Label_findOne p w = (o, w') -> emails w' = emails w.
Proof.
  unfold Label_findOne, bind, external, get_world, ret.
  destruct (faults w (calls w)); simpl; intros H; injection H as _ <-; reflexivity.
Qed.

Lemma saveExisting_consistent (e : Email.t) (w : World) :
  Consistent e -> carries AllConsistent w (snd (Email_saveExisting e w)).
Proof.
  intros He. unfold Email_saveExisting. destruct (Email.valid e); [|apply carries_refl].
  unfold bind, external. destruct (faults w (calls w)); simpl.
  - now apply consistent_same.
  - intros H. unfold AllConsistent in *. simpl. apply updateFirst_Forall; auto.
Qed.

Lemma emailLabels_consistent caller emailId labelId action :
  keeps (carries AllConsistent) (emailLabels caller emailId labelId action).
Proof.
  unfold emailLabels. apply handler_consistent. intros me.
  apply keeps_try_catch; [exact (@carries_trans AllConsistent) | |
                          intros; apply log_json_consistent].
  destruct emailId as [i|]; [|consistent_by keeps_json].
  destruct labelId as [l|]; [|consistent_by keeps_json].
  destruct (negb _); [consistent_by keeps_json|].
  intros w. apply at_bind;
    [exact (@carries_trans AllConsistent) | consistent_by keeps_Email_findOne |].
  intros email w1 H1. apply Email_findOne_result in H1. destruct H1 as [Ef E1].
  destruct email as [email|]; [|apply carries_refl].
  apply at_bind;
    [exact (@carries_trans AllConsistent) | consistent_by keeps_Label_findOne |].
  intros label w2 H2. apply Label_findOne_emails in H2.
  destruct label as [label|]; [|apply carries_refl].
  apply at_bind; [exact (@carries_trans AllConsistent) | | intros; apply carries_refl].
  intros Hall.
  assert (Consistent email) as Hc.
  { unfold AllConsistent in Hall. rewrite H2, E1 in Hall.
    symmetry in Ef. apply find_some in Ef. destruct Ef as [Hin _].
    exact (proj1 (Forall_forall _ _) Hall email Hin). }
  apply saveExisting_consistent; trivial.
  destruct (String.eqb action "add").
  - destruct (existsb _ _); exact Hc.
  - exact Hc.
Qed.

Lemma pull_consistent (l : ObjectId) :
  keeps (carries AllConsistent) (Email_pullLabelEverywhere l).
Proof.
  unfold Email_pullLabelEverywhere.
  apply keeps_bind; [exact (@carries_trans AllConsistent) | consistent_by keeps_external |].
  intros _ w H. unfold AllConsistent in *. simpl.
  apply Forall_map. eapply Forall_impl; [|exact H].
  intros e He. unfold pullLabel. destruct (existsb _ _); exact He.
Qed.

Lemma deleteLabel_consistent caller labelId :
  keeps (carries AllConsistent) (deleteLabel caller labelId).
Proof.
  unfold deleteLabel. apply handler_consistent. intros me.
  apply keeps_try_catch; [exact (@carries_trans AllConsistent) | |
                          intros; apply log_json_consistent].
  destruct labelId as [l|]; [|consistent_by keeps_json].
  apply keeps_bind;
    [exact (@carries_trans AllConsistent) | consistent_by keeps_Label_findOne |].
  intros [label|]; [|consistent_by keeps_json].
  destruct (Label.isSystemLabel label); [consistent_by keeps_json|].
  apply keeps_bind;
    [exact (@carries_trans AllConsistent) | consistent_by keeps_Label_deleteOne |].
  intros deleted. destruct (deleted =? 0); [consistent_by keeps_json|].
  apply keeps_bind; [exact (@carries_trans AllConsistent) | apply pull_consistent |].
  intros _. consistent_by keeps_json.
Qed.

Lemma handle_consistent (r : Request) (w : World) :
  AllConsistent w -> AllConsistent (snd (handle r w)).
Proof.
  destruct r; simpl.
  - apply adds_consistent, send_adds.
  - apply adds_consistent, reply_adds.
  - apply adds_consistent, forward_adds.
  - apply markRead_consistent.
  - apply star_consistent.
  - apply moveToTrash_consistent.
  - apply emailLabels_consistent.
  - apply deleteLabel_consistent.
Qed.

Lemma reachable_consistent (w : World) : Reachable w -> AllConsistent w.
Proof.
  induction 1 as [w E | w r _ IH | w w' _ IH E].
  - unfold AllConsistent. rewrite E. constructor.
  - now apply handle_consistent.
  - unfold AllConsistent in *. now rewrite E.
Qed.

(** C4, as the code has it. In every world that the requests (send,
    reply, forward, mark-read, star, move-to-trash, label assign and
    remove, label delete) lead to, an email in the spam folder has
    isSpam true and an email with isSpam true is in the spam folder or,
    once moved there, in the trash. Every email that a send, reply or
    forward stores has, as stored, isSpam true exactly when its folder
    is spam; and when it is addressed to one address that has a verified
    identity, it carries the Spam label of that identity exactly when
    its isSpam is true. *)
Theorem spam_flag_invariant (w : World) :
  Reachable w ->
  (forall e, In e (emails w) -> Consistent e) /\
  (forall r, fansOut r = true ->
     exists news,
       emails (snd (handle r w)) = emails w ++ news /\
       forall e, In e news ->
         (Email.isSpam e = true <-> Email.folder e = spam) /\
         (forall a, Email.recipients e = [a] -> identityOf w a <> None ->
                    (Email.isSpam e = true <-> CarriesSpamLabel (snd (handle r w)) e))).
Proof.
  intros Hr. split.
  - apply Forall_forall. now apply reachable_consistent.
  - intros r Hf. destruct (@fan_out_adds r w Hf) as [U [_ [news [E M]]]].
    exists news. split; trivial. intros e He.
    pose proof (proj1 (Forall_forall _ _) M e He) as Hm. split.
    + destruct Hm as [[Hs [Hfo _]] | [Hs [Hfo _]]]; split; intros H; congruence.
    + intros a Ha Hid.
      destruct Hm as [[Hs [_ Hl]] | [Hs [_ [a' [Ha' H]]]]].
      * split; [congruence|]. intros [x [u [lab [_ [_ [_ [_ Hin]]]]]]].
        rewrite Hl in Hin. contradiction.
      * split; trivial. intros _.
        assert (a' = a) as -> by congruence.
        rewrite (@identityOf_users w (snd (handle r w)) a U) in H.
        destruct (identityOf w a) as [u|] eqn:Eu; [|congruence].
        destruct H as [lab [Hin [Hp Hl]]].
        exists a, u, lab. split; trivial.
        split; [rewrite (@identityOf_users w (snd (handle r w)) a U); exact Eu|].
        split; trivial. split; trivial. rewrite Hl. now left.
Qed.

(** The invariant at work, in the world after the offer of Alice. *)
Lemma spam_flag_invariant_witness :
  (forall e, In e (emails (snd (handle (Send Scenario.alice Scenario.offer)
                                       Scenario.healthy))) -> Consistent e) /\
  (forall r, fansOut r = true ->
     exists news,
       emails (snd (handle r (snd (handle (Send Scenario.alice Scenario.offer)
                                          Scenario.healthy))))
       = emails (snd (handle (Send Scenario.alice Scenario.offer) Scenario.healthy))
         ++ news /\
       forall e, In e news ->
         (Email.isSpam e = true <-> Email.folder e = spam) /\
         (forall a, Email.recipients e = [a] ->
                    identityOf (snd (handle (Send Scenario.alice Scenario.offer)
                                            Scenario.healthy)) a <> None ->
                    (Email.isSpam e = true <->
                     CarriesSpamLabel
                       (snd (handle r (snd (handle (Send Scenario.alice Scenario.offer)
                                                   Scenario.healthy)))) e))).
Proof.
  apply spam_flag_invariant.
  apply reach_request. apply reach_empty. reflexivity.
Defined.

(** C4 as stated fails. Alice sends Bob and Carol a message that the
    classifier flags: Bob's copy has the _id 102 and carries his Spam
    label, of _id 101. When Bob moves it to the trash, it is flagged
    and not in the spam folder; when Bob removes the label from it,
    naming the label by the text of its _id, it is flagged and carries
    no label. *)
Lemma spam_in_trash_counterexample :
  let delivered := snd (handle (Send Scenario.alice Scenario.offer) Scenario.healthy) in
  let trashed := snd (handle (MoveToTrash Scenario.bob (Some 102)) delivered) in
  let unlabelled :=
    snd (handle (EmailLabels Scenario.bob (Some 102) (Some (IdText.mk 101 true))
                             "remove") delivered) in
  Reachable trashed /\ Reachable unlabelled /\
  (exists e, nth_error (emails delivered) 1 = Some e /\ Email.id e = 102 /\
             Email.isSpam e = true /\ Email.folder e = spam /\ Email.labels e = [101]) /\
  (exists e, nth_error (emails trashed) 1 = Some e /\ Email.id e = 102 /\
             Email.isSpam e = true /\ Email.folder e = trash) /\
  (exists e, nth_error (emails unlabelled) 1 = Some e /\ Email.id e = 102 /\
             Email.isSpam e = true /\ Email.labels e = []).
Proof.
  intros delivered trashed unlabelled.
  assert (Reachable delivered) as Hd.
  { apply reach_request. apply reach_empty. reflexivity. }
  split; [apply reach_request; exact Hd|].
  split; [apply reach_request; exact Hd|].
  split; [|split].
  - eexists. split; [vm_compute; reflexivity|]. repeat split.
  - eexists. split; [vm_compute; reflexivity|]. repeat split.
  - eexists. split; [vm_compute; reflexivity|]. repeat split.
Qed.
(* ================================================================== *)
(** * More of the classifier *)
(* ================================================================== *)

(** The calls a computation makes, between two bounds. *)
Lemma someM_suspicious_still (atts : list Attachment.t) (w : World) :
  snd (someM suspiciousAttachment atts w) = w.
Proof.
  apply (@keeps_someM (fun a b => b = a)); try congruence.
  intros a. apply keeps_suspiciousAttachment; congruence.
Qed.

Lemma detectSpam_try_calls (email : SpamInput) (sender : string) (w : World) :
  calls (snd (detectSpam_try email sender w)) = calls w \/
  calls (snd (detectSpam_try email sender w)) = S (calls w).
Proof.
  unfold detectSpam_try, User_findOne.
  unfold bind, property, ret, throw, external, get_world.
  destruct (si_subject email) as [subject|]; [|left; reflexivity].
  destruct (si_body email) as [body|]; [|left; reflexivity].
  destruct (hasSpamKeyword _ _); [left; reflexivity|].
  destruct (5 <? _); [left; reflexivity|].
  right.
  destruct (faults w (calls w)); [reflexivity|]. cbn [users set_calls].
  destruct (find _ (users w)); [|reflexivity].
  destruct (si_recipients email) as [recipients|]; [|reflexivity].
  destruct (10 <? _); [reflexivity|].
  destruct (si_attachments email) as [[|a rest]|]; try reflexivity.
  pose proof (someM_suspicious_still (a :: rest) (set_calls (S (calls w)) w)) as H.
  destruct (someM suspiciousAttachment (a :: rest) _) as [[[|]|err] w1];
    simpl in *; subst; reflexivity.
Qed.

(** X1. [detectSpam] is total and reads only: whatever the message, the
    sender and the faults to come, it returns a verdict, it leaves the
    users, the emails, the labels and the auto-reply settings as they
    were, and it calls the Directory at most once. *)
Theorem detectSpam_reads_only (email : SpamInput) (sender : string) (w : World) :
  exists v w',
    detectSpam email sender w = (Returned v, w') /\
    sameStores w w' /\ nextId w' = nextId w /\
    (calls w' = calls w \/ calls w' = S (calls w)).
Proof.
  destruct (detectSpam_returns email sender w) as [v Hv].
  pose proof (detectSpam_inert email sender w) as I.
  assert (calls (snd (detectSpam email sender w)) = calls w \/
          calls (snd (detectSpam email sender w)) = S (calls w)) as C.
  { unfold detectSpam, bind, emit_event, try_catch.
    pose proof (detectSpam_try_calls email sender
                  (set_trace (trace w ++ [Classify sender]) w)) as H.
    destruct (detectSpam_try email sender _) as [[b|err] w1]; simpl in *; exact H. }
  destruct (detectSpam email sender w) as [o w']. simpl in *. subst o.
  exists v, w'. destruct I. auto.
Qed.

(** X2. The classifier reads the subject and the body through
    [toLowerCase] only: two messages that differ by the case of their
    letters get the same verdict, by the same steps. *)
Theorem detectSpam_case_blind (subject subject' body body' : string)
    (recipients : option (list string)) (atts : option (list Attachment.t))
    (sender : string) (w : World) :
  Js.toLowerCase subject = Js.toLowerCase subject' ->
  Js.toLowerCase body = Js.toLowerCase body' ->
  detectSpam (mkSpamInput (Some subject) (Some body) recipients atts) sender w
  = detectSpam (mkSpamInput (Some subject') (Some body') recipients atts) sender w.
Proof.
  intros Hs Hb. unfold detectSpam, detectSpam_try.
  cbn [si_subject si_body si_recipients si_attachments].
  unfold bind, try_catch, property, ret, emit_event. now rewrite Hs, Hb.
Qed.

(** The same message in capitals. *)
Lemma detectSpam_case_blind_witness :
  detectSpam (mkSpamInput (Some "URGENT") (Some "Call Me") (Some ["bob@x.com"]) (Some []))
             "alice@x.com" Scenario.healthy
  = detectSpam (mkSpamInput (Some "urgent") (Some "call me") (Some ["bob@x.com"]) (Some []))
               "alice@x.com" Scenario.healthy.
Proof. apply detectSpam_case_blind; reflexivity. Defined.

Lemma suspicious_more (atts more : list Attachment.t) :
  existsb suspicious atts = true -> existsb suspicious (atts ++ more) = true.
Proof. intros H. rewrite existsb_app, H. reflexivity. Qed.

Lemma verdict_more (us : list User.t) (sender subject body : string)
    (recipients more : list string) (atts moreAtts : list Attachment.t) :
  verdict us sender subject body recipients atts = true ->
  verdict us sender subject body (recipients ++ more) (atts ++ moreAtts) = true.
Proof.
  unfold verdict. intros H.
  destruct (hasSpamKeyword _ _); [reflexivity|].
  destruct (5 <? _); [reflexivity|]. cbn [orb] in *.
  destruct (find _ us); [|reflexivity].
  apply orb_true_iff in H. apply orb_true_iff. destruct H as [H|H].
  - left. apply Nat.ltb_lt in H. apply Nat.ltb_lt. rewrite length_app. lia.
  - right. now apply suspicious_more.
Qed.

(** X3. More recipients and more attachments never clear a message: when a
    message is classified as spam, the same message to more
    To-recipients and with more attachments is classified as spam too.
    (The attachments have their file names and the Directory lookup, if
    made, answers.) *)
Theorem detectSpam_monotone (w w1 : World) (sender subject body : string)
    (recipients more : list string) (atts moreAtts : list Attachment.t) :
  faults w (calls w) = None ->
  (forall a, In a (atts ++ moreAtts) -> Attachment.filename a <> None) ->
  detectSpam (mkSpamInput (Some subject) (Some body) (Some recipients) (Some atts))
             sender w = (Returned true, w1) ->
  exists w2,
    detectSpam (mkSpamInput (Some subject) (Some body) (Some (recipients ++ more))
                            (Some (atts ++ moreAtts)))
               sender w = (Returned true, w2).
Proof.
  intros F Hfn H.
  rewrite detectSpam_run in H; trivial.
  2:{ intros a Ha. apply Hfn. apply in_or_app. now left. }
  rewrite detectSpam_run; trivial.
  injection H as Hv _. rewrite (verdict_more _ _ _ _ _ _ _ _ Hv). eauto.
Qed.

(** Eleven recipients make spam; a twelfth and a picture change nothing. *)
Lemma detectSpam_monotone_witness :
  exists w2,
    detectSpam
      (mkSpamInput (Some "Hello") (Some "See you at noon")
         (Some (repeat "bob@x.com" 11 ++ ["carol@x.com"]))
         (Some ([] ++ [Attachment.mk None (Some "a.png") (Some 10%Z)])))
      "alice@x.com" Scenario.healthy = (Returned true, w2).
Proof.
  apply (@detectSpam_monotone Scenario.healthy
           (snd (detectSpam (mkSpamInput (Some "Hello") (Some "See you at noon")
                               (Some (repeat "bob@x.com" 11)) (Some []))
                            "alice@x.com" Scenario.healthy))).
  - reflexivity.
  - intros a [<-|[]]. discriminate.
  - vm_compute. reflexivity.
Defined.
(* ================================================================== *)
(** * The verified-email check before every route *)
(* ================================================================== *)

Lemma ensureEmailVerified_refuses (caller : User.t) (next : string -> M Response) :
  (forall me, ~ Verified caller me) ->
  ensureEmailVerified caller next
  = json 400 (Error "Verified email required to perform this action").
Proof.
  intros H. unfold ensureEmailVerified.
  destruct (User.email caller) as [me|] eqn:E; [|reflexivity].
  destruct (Js.truthy me && User.isEmailVerified caller) eqn:T; [|reflexivity].
  apply andb_true_iff in T. exfalso. apply (H me). unfold Verified. tauto.
Qed.

Lemma verifiedEmail_refuses (caller : User.t) (next : string -> M Answer) :
  (forall me, ~ Verified caller me) ->
  verifiedEmail caller next
  = answer 400 (Plain (Error "Verified email required to perform this action")).
Proof.
  intros H. unfold verifiedEmail.
  destruct (User.email caller) as [me|] eqn:E; [|reflexivity].
  destruct (Js.truthy me && User.isEmailVerified caller) eqn:T; [|reflexivity].
  apply andb_true_iff in T. exfalso. apply (H me). unfold Verified. tauto.
Qed.

Lemma ensureEmailVerified_passes (caller : User.t) (me : string)
    (next : string -> M Response) :
  Verified caller me -> ensureEmailVerified caller next = next me.
Proof.
  intros [E [T V]]. unfold ensureEmailVerified. now rewrite E, T, V.
Qed.

Lemma verifiedEmail_passes (caller : User.t) (me : string)
    (next : string -> M Answer) :
  Verified caller me -> verifiedEmail caller next = next me.
Proof.
  intros [E [T V]]. unfold verifiedEmail. now rewrite E, T, V.
Qed.

(** X4. No route serves a caller without a verified email: whatever the
    request, the answer is the error 400 of [ensureEmailVerified], and
    the world is as it was: no collaborator is called, nothing is
    stored and nothing is logged. *)
Theorem unverified_caller_refused (r : Route) (w : World) :
  (forall me, ~ Verified (callerOf r) me) ->
  route r w
  = (Returned (mkAnswer 400 (Plain (Error "Verified email required to perform this action"))),
     w).
Proof.
  intros H.
  destruct r as [[]| | | | | | |]; cbn [callerOf] in H; cbn [route handle];
    unfold send, reply, forward, markRead, star, moveToTrash, emailLabels,
      deleteLabel, getEmail, deleteEmail, saveDraft, createLabel, renameLabel,
      getLabels, setAutoReply;
    first [ rewrite (ensureEmailVerified_refuses _ H)
          | rewrite (verifiedEmail_refuses _ H) ];
    reflexivity.
Qed.

(** Dave has an email that is not verified. *)
Lemma unverified_caller_refused_witness :
  route (Mail (MoveToTrash (User.mk 9 (Some "dave@x.com") false) (Some 30)))
        Scenario.mailbox
  = (Returned (mkAnswer 400 (Plain (Error "Verified email required to perform this action"))),
     Scenario.mailbox).
Proof.
  apply unverified_caller_refused.
  intros me [_ [_ H]]. discriminate H.
Defined.

(** The first call to a collaborator, when it does not fail. *)
Lemma external_ok (w : World) :
  faults w (calls w) = None -> external w = (Returned tt, set_calls (S (calls w)) w).
Proof. intros F. unfold external. now rewrite F. Qed.

Lemma sameStores_calls (w : World) (c : nat) : sameStores w (set_calls c w).
Proof. now constructor. Qed.

(** X5. A send whose form is refused: the caller is verified and the request
    does not pass the checks that come before the Directory lookup. The
    answer is one of the five errors 400 of the form, no collaborator
    is called and nothing is stored. *)
Theorem send_malformed_refused (caller : User.t) (me : string) (req : SendReq.t)
    (w : World) :
  Verified caller me -> ~ Accepted caller req ->
  exists msg w',
    send caller req w = (Returned (mkResponse 400 (Error msg)), w') /\
    sameStores w w' /\ calls w' = calls w /\
    In msg [ "Invalid JSON format in recipients, cc, or bcc";
             "Recipients (array), subject (string), and body (string) are required";
             "CC must be an array"; "BCC must be an array";
             "At least one valid recipient is required" ].
Proof.
  intros V H. pose proof V as [Eme [Tme Hv]].
  assert (forall msg,
            In msg [ "Invalid JSON format in recipients, cc, or bcc";
                     "Recipients (array), subject (string), and body (string) are required";
                     "CC must be an array"; "BCC must be an array";
                     "At least one valid recipient is required" ] ->
            exists msg' w',
              json 400 (Error msg) w = (Returned (mkResponse 400 (Error msg')), w') /\
              sameStores w w' /\ calls w' = calls w /\
              In msg' [ "Invalid JSON format in recipients, cc, or bcc";
                        "Recipients (array), subject (string), and body (string) are required";
                        "CC must be an array"; "BCC must be an array";
                        "At least one valid recipient is required" ]) as Done.
  { intros msg Hin. exists msg, w. repeat split; trivial. }
  assert (exists msg' w',
            (log "JSON parse error:" ;;;
             json 400 (Error "Invalid JSON format in recipients, cc, or bcc")) w
            = (Returned (mkResponse 400 (Error msg')), w') /\
            sameStores w w' /\ calls w' = calls w /\
            In msg' [ "Invalid JSON format in recipients, cc, or bcc";
                      "Recipients (array), subject (string), and body (string) are required";
                      "CC must be an array"; "BCC must be an array";
                      "At least one valid recipient is required" ]) as Logged.
  { eexists. eexists. split; [reflexivity|]. repeat split. now left. }
  unfold send. rewrite (ensureEmailVerified_passes _ V).
  destruct req as [rf cf bf subj bod files]. cbn [SendReq.recipients SendReq.cc
    SendReq.bcc SendReq.subject SendReq.body SendReq.files] in *.
  assert (forall items s b,
            rf = Array items -> subj = Some s -> bod = Some b ->
            Js.truthy s = true -> Js.truthy b = true ->
            (cf = Falsy \/ exists ci, cf = Array ci) ->
            (bf = Falsy \/ exists bi, bf = Array bi) ->
            keepAddresses items <> [] -> False) as No.
  { intros items s b -> -> -> Ts Tb Hc Hb Hk. apply H. unfold Accepted, toOf.
    cbn [SendReq.recipients SendReq.cc SendReq.bcc SendReq.subject SendReq.body].
    repeat split; eauto. }
  destruct rf as [| | |[|r rs]]; cbn [unparsable orb];
    try exact Logged; try (apply Done; simpl; tauto);
    destruct cf as [| | |ci]; cbn [unparsable orb];
    try exact Logged; try (apply Done; simpl; tauto);
    destruct bf as [| | |bi]; cbn [unparsable orb];
    try exact Logged; try (apply Done; simpl; tauto);
    destruct subj as [s|]; try (apply Done; simpl; tauto);
    destruct bod as [b|]; try (apply Done; simpl; tauto);
    destruct (Js.truthy s) eqn:Ts; cbn [andb negb]; try (apply Done; simpl; tauto);
    destruct (Js.truthy b) eqn:Tb; cbn [andb negb]; try (apply Done; simpl; tauto);
    try (destruct (keepAddresses (r :: rs)) as [|x l] eqn:K;
         [ apply Done; simpl; tauto
         | exfalso; eapply (No (r :: rs) s b); eauto; rewrite K; discriminate ]).
Qed.

(** Alice sends a message whose only recipient is blank. *)
Lemma send_malformed_refused_witness :
  exists msg w',
    send Scenario.alice
         (SendReq.mk (Array [JString " "]) Falsy Falsy (Some "Hello") (Some "Hi") [])
         Scenario.healthy
    = (Returned (mkResponse 400 (Error msg)), w') /\
    sameStores Scenario.healthy w' /\ calls w' = calls Scenario.healthy /\
    In msg [ "Invalid JSON format in recipients, cc, or bcc";
             "Recipients (array), subject (string), and body (string) are required";
             "CC must be an array"; "BCC must be an array";
             "At least one valid recipient is required" ].
Proof.
  apply (@send_malformed_refused Scenario.alice "alice@x.com").
  - repeat split.
  - intros [_ [_ [_ [_ [_ [_ [_ H]]]]]]]. apply H. reflexivity.
Defined.
(* ================================================================== *)
(** * The routes on one stored message *)
(* ================================================================== *)

Lemma updateFirst_none {A} (p : A -> bool) (f : A -> A) (l : list A) :
  find p l = None -> updateFirst p f l = (l, None).
Proof.
  induction l as [|x l IH]; simpl; trivial.
  destruct (p x); [discriminate|]. intros H. now rewrite (IH H).
Qed.

Lemma updateFirst_found {A} (p : A -> bool) (f : A -> A) (l : list A) (x : A) :
  find p l = Some x ->
  exists before after,
    l = before ++ x :: after /\ find p before = None /\
    updateFirst p f l = (before ++ f x :: after, Some (f x)).
Proof.
  induction l as [|y l IH]; simpl; [discriminate|].
  destruct (p y) eqn:Ep.
  - intros H. injection H as ->. exists [], l. auto.
  - intros H. destruct (IH H) as [b [a [-> [Hb Hr]]]]. rewrite Hr.
    exists (y :: b), a. simpl. rewrite Ep. auto.
Qed.

Lemma removeFirst_none {A} (p : A -> bool) (l : list A) :
  find p l = None -> removeFirst p l = (l, 0).
Proof.
  induction l as [|x l IH]; simpl; trivial.
  destruct (p x); [discriminate|]. intros H. now rewrite (IH H).
Qed.

Lemma updateFirst_at {A} (p : A -> bool) (f : A -> A) (before after : list A) (x : A) :
  find p before = None -> p x = true ->
  updateFirst p f (before ++ x :: after) = (before ++ f x :: after, Some (f x)).
Proof.
  intros Hb Hx. induction before as [|y before IH]; simpl.
  - now rewrite Hx.
  - simpl in Hb. destruct (p y); [discriminate|]. now rewrite (IH Hb).
Qed.

Lemma removeFirst_at {A} (p : A -> bool) (before after : list A) (x : A) :
  find p before = None -> p x = true ->
  removeFirst p (before ++ x :: after) = (before ++ after, 1).
Proof.
  intros Hb Hx. induction before as [|y before IH]; simpl.
  - now rewrite Hx.
  - simpl in Hb. destruct (p y); [discriminate|]. now rewrite (IH Hb).
Qed.

Lemma find_app_none {A} (p : A -> bool) (l1 l2 : list A) :
  find p l1 = None -> find p (l1 ++ l2) = find p l2.
Proof.
  induction l1 as [|x l1 IH]; simpl; trivial.
  destruct (p x); [discriminate | exact IH].
Qed.

Lemma read_returns_first {A} (f : World -> A) (w : World) :
  faults w (calls w) = None ->
  (external ;;; x <- get_world ;; ret (f x)) w
  = (Returned (f (set_calls (S (calls w)) w)), set_calls (S (calls w)) w).
Proof. intros F. unfold bind, external, get_world, ret. now rewrite F. Qed.

Lemma findOneAndUpdate_none (p : Email.t -> bool) (f : Email.t -> Email.t) (w : World) :
  faults w (calls w) = None -> find p (emails w) = None ->
  Email_findOneAndUpdate p f w = (Returned None, set_calls (S (calls w)) w).
Proof.
  intros F H. unfold Email_findOneAndUpdate, bind. rewrite external_ok by assumption.
  cbn [emails set_calls]. rewrite updateFirst_none by assumption. reflexivity.
Qed.

Lemma findOneAndUpdate_found (p : Email.t -> bool) (f : Email.t -> Email.t)
    (w : World) (before after : list Email.t) (e : Email.t) :
  faults w (calls w) = None ->
  emails w = before ++ e :: after -> find p before = None -> p e = true ->
  Email_findOneAndUpdate p f w
  = (Returned (Some (f e)),
     set_emails (before ++ f e :: after) (set_calls (S (calls w)) w)).
Proof.
  intros F E Hb He. unfold Email_findOneAndUpdate, bind. rewrite external_ok by assumption.
  cbn [emails set_calls]. rewrite E.
  rewrite (@updateFirst_at _ p f before after e Hb He). reflexivity.
Qed.

Lemma find_split {A} (p : A -> bool) (l : list A) (x : A) :
  find p l = Some x ->
  exists before after, l = before ++ x :: after /\ find p before = None /\ p x = true.
Proof.
  intros H. destruct (updateFirst_found p (fun y => y) l H) as [b [a [E [Hb _]]]].
  exists b, a. repeat split; trivial. now apply find_some in H.
Qed.

(** X6. A caller who is not among the participants of a message (or gives
    an _id that no message has) is answered 404 by every route on one
    message -- mark-read, star, move-to-trash, read, delete, label
    assign and remove -- and no collection changes. (The lookup does
    not fail.) *)
Theorem stranger_gets_404 (caller : User.t) (me : string) (i : ObjectId) (w : World) :
  Verified caller me ->
  faults w (calls w) = None ->
  find (mine me i) (emails w) = None ->
  (forall b, exists w',
     markRead caller (Some i) (Some b) w
     = (Returned (mkResponse 404 (Error "Email not found or unauthorized")), w') /\
     sameStores w w') /\
  (forall b, exists w',
     star caller (Some i) (Some b) w
     = (Returned (mkResponse 404
                    (Error "Email not found or you are not authorized to modify it")), w') /\
     sameStores w w') /\
  (exists w',
     moveToTrash caller (Some i) w
     = (Returned (mkResponse 404 (Error "Email not found or unauthorized")), w') /\
     sameStores w w') /\
  (exists w',
     getEmail caller (Some i) w
     = (Returned (mkResponse 404 (Error "Email not found or unauthorized")), w') /\
     sameStores w w') /\
  (exists w',
     deleteEmail caller (Some i) w
     = (Returned (mkResponse 404
                    (Error "Email not found or you are not authorized to delete it")), w') /\
     sameStores w w') /\
  (forall l action, action = "add" \/ action = "remove" ->
     exists w',
       emailLabels caller (Some i) (Some l) action w
       = (Returned (mkResponse 404 (Error "Email not found or unauthorized")), w') /\
       sameStores w w').
Proof.
  intros V F H. unfold mine in H.
  repeat split.
  - intros b. unfold markRead. rewrite (ensureEmailVerified_passes _ V).
    unfold try_catch, bind. rewrite findOneAndUpdate_none by assumption.
    eexists. split; [reflexivity | apply sameStores_calls].
  - intros b. unfold star. rewrite (ensureEmailVerified_passes _ V).
    unfold try_catch, bind. rewrite findOneAndUpdate_none by assumption.
    eexists. split; [reflexivity | apply sameStores_calls].
  - unfold moveToTrash. rewrite (ensureEmailVerified_passes _ V).
    unfold try_catch, bind. rewrite findOneAndUpdate_none by assumption.
    eexists. split; [reflexivity | apply sameStores_calls].
  - unfold getEmail. rewrite (ensureEmailVerified_passes _ V).
    unfold try_catch, bind at 1. unfold Email_findOne.
    rewrite read_returns_first by assumption. cbn [emails set_calls]. rewrite H.
    eexists. split; [reflexivity | apply sameStores_calls].
  - unfold deleteEmail. rewrite (ensureEmailVerified_passes _ V).
    unfold try_catch, bind at 1. unfold Email_deleteOne, bind.
    rewrite external_ok by assumption. cbn [emails set_calls].
    rewrite removeFirst_none by assumption. cbn [Nat.eqb].
    eexists. split; [reflexivity | now constructor].
  - intros l action Ha. unfold emailLabels. rewrite (ensureEmailVerified_passes _ V).
    assert (negb (String.eqb action "add" || String.eqb action "remove") = false) as ->.
    { destruct Ha as [-> | ->]; reflexivity. }
    unfold try_catch, bind at 1. unfold Email_findOne.
    rewrite read_returns_first by assumption. cbn [emails set_calls]. rewrite H.
    eexists. split; [reflexivity | apply sameStores_calls].
Qed.

(** Mallory asks for the message of Alice to Bob. *)
Lemma stranger_gets_404_witness :
  (forall b, exists w',
     markRead Scenario.mallory (Some 30) (Some b) Scenario.mailbox
     = (Returned (mkResponse 404 (Error "Email not found or unauthorized")), w') /\
     sameStores Scenario.mailbox w') /\
  (forall b, exists w',
     star Scenario.mallory (Some 30) (Some b) Scenario.mailbox
     = (Returned (mkResponse 404
                    (Error "Email not found or you are not authorized to modify it")), w') /\
     sameStores Scenario.mailbox w') /\
  (exists w',
     moveToTrash Scenario.mallory (Some 30) Scenario.mailbox
     = (Returned (mkResponse 404 (Error "Email not found or unauthorized")), w') /\
     sameStores Scenario.mailbox w') /\
  (exists w',
     getEmail Scenario.mallory (Some 30) Scenario.mailbox
     = (Returned (mkResponse 404 (Error "Email not found or unauthorized")), w') /\
     sameStores Scenario.mailbox w') /\
  (exists w',
     deleteEmail Scenario.mallory (Some 30) Scenario.mailbox
     = (Returned (mkResponse 404
                    (Error "Email not found or you are not authorized to delete it")), w') /\
     sameStores Scenario.mailbox w') /\
  (forall l action, action = "add" \/ action = "remove" ->
     exists w',
       emailLabels Scenario.mallory (Some 30) (Some l) action Scenario.mailbox
       = (Returned (mkResponse 404 (Error "Email not found or unauthorized")), w') /\
       sameStores Scenario.mailbox w').
Proof.
  apply (@stranger_gets_404 Scenario.mallory "mallory@x.com" 30 Scenario.mailbox).
  - repeat split.
  - reflexivity.
  - reflexivity.
Defined.

Lemma populate_none (w : World) : populateLabels [] w = (Returned [], w).
Proof. reflexivity. Qed.

Lemma populate_ok (ids : list ObjectId) (w : World) :
  ids <> [] -> faults w (calls w) = None ->
  populateLabels ids w = (Returned (populated w ids), set_calls (S (calls w)) w).
Proof.
  intros N F. destruct ids as [|i ids]; [congruence|].
  unfold populateLabels, bind at 1, Label_find.
  rewrite read_returns_first by assumption. reflexivity.
Qed.

Lemma populate_fails (ids : list ObjectId) (w : World) (err : string) :
  ids <> [] -> faults w (calls w) = Some err ->
  populateLabels ids w = (Thrown err, set_calls (S (calls w)) w).
Proof.
  intros N F. destruct ids as [|i ids]; [congruence|].
  unfold populateLabels, Label_find, bind, external. now rewrite F.
Qed.

(** X7. The three routes that set a field -- mark-read, star and
    move-to-trash -- change, for a participant, the first stored message
    of the given _id of which the caller is a participant, and in it the
    one field: isRead, isStarred or the folder. The other messages and
    the other collections stay as they were. (The update does not
    fail.) The star route then asks for the labels of the message, when
    it has some: it answers the selected paths of the message with
    these labels, or, when that query fails, 500 -- the field being
    set all the same. *)
Theorem flag_routes_set_one_field (caller : User.t) (me : string) (i : ObjectId)
    (e : Email.t) (w : World) :
  Verified caller me ->
  faults w (calls w) = None ->
  find (mine me i) (emails w) = Some e ->
  exists before after,
    emails w = before ++ e :: after /\ find (mine me i) before = None /\
    (forall b, exists w',
       markRead caller (Some i) (Some b) w
       = (Returned (mkResponse 200 (Message "Email read status updated")), w') /\
       emails w' = before ++ Email.set_isRead b e :: after /\
       users w' = users w /\ labels w' = labels w /\ autoReplies w' = autoReplies w) /\
    (forall b, exists resp w',
       star caller (Some i) (Some b) w = (Returned resp, w') /\
       emails w' = before ++ Email.set_isStarred b e :: after /\
       users w' = users w /\ labels w' = labels w /\ autoReplies w' = autoReplies w /\
       (Email.labels e = [] \/ faults w (S (calls w)) = None ->
        resp = mkResponse 200
                 (Selection (selected (Email.set_isStarred b e)
                                      (populated w (Email.labels e))))) /\
       (Email.labels e <> [] -> faults w (S (calls w)) <> None ->
        resp = mkResponse 500 (Error "Server error"))) /\
    (exists w',
       moveToTrash caller (Some i) w
       = (Returned (mkResponse 200 (Message "Email moved to trash")), w') /\
       emails w' = before ++ Email.set_folder trash e :: after /\
       users w' = users w /\ labels w' = labels w /\ autoReplies w' = autoReplies w).
Proof.
  intros V F H. destruct (find_split _ _ H) as [before [after [E [Hb He]]]].
  exists before, after. split; [exact E|]. split; [exact Hb|].
  unfold mine in *. split; [|split].
  - intros b. unfold markRead. rewrite (ensureEmailVerified_passes _ V).
    unfold try_catch, bind.
    rewrite (@findOneAndUpdate_found _ (Email.set_isRead b) w before after e F E Hb He).
    eexists. repeat split.
  - intros b. unfold star. rewrite (ensureEmailVerified_passes _ V).
    unfold try_catch. unfold bind at 1.
    rewrite (@findOneAndUpdate_found _ (Email.set_isStarred b) w before after e F E Hb He).
    cbn [Email.labels Email.set_isStarred].
    set (w1 := set_emails _ _).
    destruct (Email.labels e) as [|x ids] eqn:El.
    + unfold bind. rewrite populate_none. eexists. eexists.
      do 5 (split; [reflexivity|]). split.
      * intros _. reflexivity.
      * intros X. congruence.
    + assert (x :: ids <> []) as Nn by discriminate.
      destruct (faults w (S (calls w))) as [err|] eqn:F1.
      * unfold bind at 1. rewrite (@populate_fails (x :: ids) w1 err Nn) by exact F1.
        eexists. eexists. do 5 (split; [reflexivity|]). split.
        -- intros [X|X]; discriminate.
        -- intros _ _. reflexivity.
      * unfold bind. rewrite (@populate_ok (x :: ids) w1 Nn) by exact F1.
        eexists. eexists. do 5 (split; [reflexivity|]). split.
        -- intros _. reflexivity.
        -- intros _ X. congruence.
  - unfold moveToTrash. rewrite (ensureEmailVerified_passes _ V).
    unfold try_catch, bind.
    rewrite (@findOneAndUpdate_found _ (Email.set_folder trash) w before after e F E Hb He).
    eexists. repeat split.
Qed.

(** Bob, on the message of Alice, which carries one of his labels. *)
Lemma flag_routes_set_one_field_witness :
  exists before after,
    emails Scenario.mailbox = before ++ Scenario.note :: after /\
    find (mine "bob@x.com" 30) before = None /\
    (forall b, exists w',
       markRead Scenario.bob (Some 30) (Some b) Scenario.mailbox
       = (Returned (mkResponse 200 (Message "Email read status updated")), w') /\
       emails w' = before ++ Email.set_isRead b Scenario.note :: after /\
       users w' = users Scenario.mailbox /\ labels w' = labels Scenario.mailbox /\
       autoReplies w' = autoReplies Scenario.mailbox) /\
    (forall b, exists resp w',
       star Scenario.bob (Some 30) (Some b) Scenario.mailbox = (Returned resp, w') /\
       emails w' = before ++ Email.set_isStarred b Scenario.note :: after /\
       users w' = users Scenario.mailbox /\ labels w' = labels Scenario.mailbox /\
       autoReplies w' = autoReplies Scenario.mailbox /\
       (Email.labels Scenario.note = []
        \/ faults Scenario.mailbox (S (calls Scenario.mailbox)) = None ->
        resp = mkResponse 200
                 (Selection (selected (Email.set_isStarred b Scenario.note)
                                      (populated Scenario.mailbox
                                                 (Email.labels Scenario.note))))) /\
       (Email.labels Scenario.note <> [] ->
        faults Scenario.mailbox (S (calls Scenario.mailbox)) <> None ->
        resp = mkResponse 500 (Error "Server error"))) /\
    (exists w',
       moveToTrash Scenario.bob (Some 30) Scenario.mailbox
       = (Returned (mkResponse 200 (Message "Email moved to trash")), w') /\
       emails w' = before ++ Email.set_folder trash Scenario.note :: after /\
       users w' = users Scenario.mailbox /\ labels w' = labels Scenario.mailbox /\
       autoReplies w' = autoReplies Scenario.mailbox).
Proof.
  apply (@flag_routes_set_one_field Scenario.bob "bob@x.com" 30 Scenario.note
                                    Scenario.mailbox).
  - repeat split.
  - reflexivity.
  - reflexivity.
Defined.

(** X8. A message in the trash is still there: after a move-to-trash the
    same caller reads the message, with the label documents of its
    labels, its folder is the trash and nothing else of it has changed,
    and a second move-to-trash changes nothing more. (The calls do not
    fail: that of each move, and the two of the read, the second being
    the query for the labels.) *)
Theorem trash_keeps_message (caller : User.t) (me : string) (i : ObjectId)
    (e : Email.t) (w : World) :
  Verified caller me ->
  (forall k, k < 3 -> faults w (calls w + k) = None) ->
  find (mine me i) (emails w) = Some e ->
  exists w1,
    moveToTrash caller (Some i) w
    = (Returned (mkResponse 200 (Message "Email moved to trash")), w1) /\
    List.length (emails w1) = List.length (emails w) /\
    (exists w2,
       getEmail caller (Some i) w1
       = (Returned (mkResponse 200 (Document (Email.set_folder trash e)
                                             (populated w (Email.labels e)))), w2)) /\
    (exists w2,
       moveToTrash caller (Some i) w1
       = (Returned (mkResponse 200 (Message "Email moved to trash")), w2) /\
       emails w2 = emails w1).
Proof.
  intros V F H.
  pose proof (F 0 ltac:(lia)) as F0. pose proof (F 1 ltac:(lia)) as F1.
  pose proof (F 2 ltac:(lia)) as F2.
  rewrite Nat.add_0_r in F0. rewrite Nat.add_1_r in F1.
  replace (calls w + 2) with (S (S (calls w))) in F2 by lia.
  destruct (find_split _ _ H) as [before [after [E [Hb He]]]]. unfold mine in *.
  set (w1 := set_emails (before ++ Email.set_folder trash e :: after)
                        (set_calls (S (calls w)) w)).
  assert (moveToTrash caller (Some i) w
          = (Returned (mkResponse 200 (Message "Email moved to trash")), w1)) as R1.
  { unfold moveToTrash. rewrite (ensureEmailVerified_passes _ V).
    unfold try_catch, bind.
    rewrite (@findOneAndUpdate_found _ (Email.set_folder trash) w before after e F0 E Hb He).
    reflexivity. }
  exists w1. split; [exact R1|]. split.
  { subst w1. cbn [emails set_emails]. rewrite E, !length_app. reflexivity. }
  assert (faults w1 (calls w1) = None) as F1' by exact F1.
  assert (emails w1 = before ++ Email.set_folder trash e :: after) as E1 by reflexivity.
  assert ((fun x => (Email.id x =? i) && Email.participant me x)
            (Email.set_folder trash e) = true) as He' by exact He.
  split.
  - unfold getEmail. rewrite (ensureEmailVerified_passes _ V).
    unfold try_catch, bind at 1. unfold Email_findOne.
    rewrite read_returns_first by assumption. cbn [emails set_calls]. rewrite E1.
    rewrite find_app_none by assumption. cbn [find]. rewrite He'.
    cbn [Email.labels Email.set_folder].
    destruct (Email.labels e) as [|x ids] eqn:El.
    + unfold bind. rewrite populate_none. eexists. reflexivity.
    + unfold bind. rewrite populate_ok; [|discriminate|exact F2].
      eexists. reflexivity.
  - unfold moveToTrash. rewrite (ensureEmailVerified_passes _ V).
    unfold try_catch, bind.
    rewrite (@findOneAndUpdate_found _ (Email.set_folder trash) w1 before after
               (Email.set_folder trash e) F1' E1 Hb He').
    eexists. split; [reflexivity|]. reflexivity.
Qed.

Lemma trash_keeps_message_witness :
  exists w1,
    moveToTrash Scenario.bob (Some 30) Scenario.mailbox
    = (Returned (mkResponse 200 (Message "Email moved to trash")), w1) /\
    List.length (emails w1) = List.length (emails Scenario.mailbox) /\
    (exists w2,
       getEmail Scenario.bob (Some 30) w1
       = (Returned (mkResponse 200
                      (Document (Email.set_folder trash Scenario.note)
                                (populated Scenario.mailbox
                                           (Email.labels Scenario.note)))), w2)) /\
    (exists w2,
       moveToTrash Scenario.bob (Some 30) w1
       = (Returned (mkResponse 200 (Message "Email moved to trash")), w2) /\
       emails w2 = emails w1).
Proof.
  apply (@trash_keeps_message Scenario.bob "bob@x.com" 30 Scenario.note Scenario.mailbox).
  - repeat split.
  - intros k _. reflexivity.
  - reflexivity.
Defined.

Lemma find_none_iff {A} (p : A -> bool) (l : list A) :
  find p l = None <-> forall x, In x l -> p x = false.
Proof.
  split.
  - intros H x Hx. exact (find_none p l H x Hx).
  - intros H. induction l as [|y l IH]; simpl; trivial.
    rewrite (H y (or_introl eq_refl)). apply IH. intros x Hx. apply H. now right.
Qed.

Lemma id_gone (before after : list Email.t) (e : Email.t) :
  NoDup (map Email.id (before ++ e :: after)) ->
  find (fun x => Email.id x =? Email.id e) (before ++ after) = None.
Proof.
  intros N. rewrite map_app in N. cbn [map] in N. apply NoDup_remove_2 in N.
  apply find_none_iff. intros x Hx. apply Nat.eqb_neq. intros Heq.
  apply N. rewrite <- map_app, <- Heq. now apply in_map.
Qed.

(** X9. The delete route removes, for a participant, the first stored
    message of the given _id of which the caller is a participant --
    that one document and no other -- and leaves the other collections
    as they were. When the _ids of the stored messages are distinct, no
    message has that _id afterwards: the read of it is answered 404.
    The caller need not be the owner of the copy: any of its sender,
    recipients, cc and bcc deletes it. (The two calls do not fail.) *)
Theorem delete_removes_one_message (caller : User.t) (me : string) (i : ObjectId)
    (e : Email.t) (w : World) :
  Verified caller me ->
  (forall k, k < 2 -> faults w (calls w + k) = None) ->
  find (mine me i) (emails w) = Some e ->
  exists before after w1,
    emails w = before ++ e :: after /\
    deleteEmail caller (Some i) w
    = (Returned (mkResponse 200 (Message "Email permanently deleted")), w1) /\
    emails w1 = before ++ after /\
    users w1 = users w /\ labels w1 = labels w /\ autoReplies w1 = autoReplies w /\
    (NoDup (map Email.id (emails w)) ->
     find (fun x => Email.id x =? i) (emails w1) = None /\
     exists w2,
       getEmail caller (Some i) w1
       = (Returned (mkResponse 404 (Error "Email not found or unauthorized")), w2)).
Proof.
  intros V F H.
  pose proof (F 0 ltac:(lia)) as F0. pose proof (F 1 ltac:(lia)) as F1.
  rewrite Nat.add_0_r in F0. rewrite Nat.add_1_r in F1.
  destruct (find_split _ _ H) as [before [after [E [Hb He]]]]. unfold mine in *.
  exists before, after. eexists. split; [exact E|].
  split.
  { unfold deleteEmail. rewrite (ensureEmailVerified_passes _ V).
    unfold try_catch, bind at 1. unfold Email_deleteOne, bind.
    rewrite external_ok by assumption. cbn [emails set_calls]. rewrite E.
    rewrite (@removeFirst_at _ _ before after e Hb He). cbn [Nat.eqb]. reflexivity. }
  cbn [emails users labels autoReplies set_emails set_calls].
  split; [reflexivity|]. split; [reflexivity|]. split; [reflexivity|].
  split; [reflexivity|]. intros H0. split.
  - rewrite E in H0. apply andb_true_iff in He. destruct He as [Hi _].
    apply Nat.eqb_eq in Hi. subst i. now apply id_gone.
  - assert (find (fun x => (Email.id x =? i) && Email.participant me x) (before ++ after)
            = None) as Hn.
    { rewrite E in H0. apply andb_true_iff in He. destruct He as [Hi _].
      apply Nat.eqb_eq in Hi. subst i. apply find_none_iff. intros x Hx.
      pose proof (id_gone _ _ _ H0) as G.
      rewrite (proj1 (find_none_iff _ _) G x Hx). reflexivity. }
    unfold getEmail. rewrite (ensureEmailVerified_passes _ V).
    unfold try_catch, bind at 1. unfold Email_findOne.
    rewrite read_returns_first by exact F1. cbn [emails set_calls set_emails].
    rewrite Hn. eexists. reflexivity.
Qed.

(** Bob deletes the message of Alice. *)
Lemma delete_removes_one_message_witness :
  exists before after w1,
    emails Scenario.mailbox = before ++ Scenario.note :: after /\
    deleteEmail Scenario.bob (Some 30) Scenario.mailbox
    = (Returned (mkResponse 200 (Message "Email permanently deleted")), w1) /\
    emails w1 = before ++ after /\
    users w1 = users Scenario.mailbox /\ labels w1 = labels Scenario.mailbox /\
    autoReplies w1 = autoReplies Scenario.mailbox /\
    (NoDup (map Email.id (emails Scenario.mailbox)) ->
     find (fun x => Email.id x =? 30) (emails w1) = None /\
     exists w2,
       getEmail Scenario.bob (Some 30) w1
       = (Returned (mkResponse 404 (Error "Email not found or unauthorized")), w2)).
Proof.
  apply (@delete_removes_one_message Scenario.bob "bob@x.com" 30 Scenario.note
                                     Scenario.mailbox).
  - repeat split.
  - intros k _. reflexivity.
  - reflexivity.
Defined.

(* ================================================================== *)
(** * The labels of a message *)
(* ================================================================== *)

Lemma saveExisting_at (e' : Email.t) (w : World) (before after : list Email.t)
    (e : Email.t) :
  faults w (calls w) = None -> Email.valid e' = true ->
  emails w = before ++ e :: after -> Email.id e' = Email.id e ->
  find (fun x => Email.id x =? Email.id e) before = None ->
  Email_saveExisting e' w
  = (Returned tt, set_emails (before ++ e' :: after) (set_calls (S (calls w)) w)).
Proof.
  intros F V E Hid Hb. unfold Email_saveExisting. rewrite V. unfold bind.
  rewrite external_ok by assumption. cbn [emails set_calls]. rewrite E, Hid.
  rewrite (@updateFirst_at _ _ (fun _ => e') before after e Hb (Nat.eqb_refl _)).
  reflexivity.
Qed.

Lemma ids_before (before after : list Email.t) (e : Email.t) :
  NoDup (map Email.id (before ++ e :: after)) ->
  find (fun x => Email.id x =? Email.id e) before = None.
Proof.
  intros N. pose proof (id_gone _ _ _ N) as G.
  apply find_none_iff. intros x Hx.
  apply (proj1 (find_none_iff _ _) G x). apply in_or_app. now left.
Qed.

(** One run of the label route on a message that the caller takes part
    in, with a label of the caller. *)
Lemma emailLabels_run (caller : User.t) (me : string) (i : ObjectId)
    (labelId : IdText.t) (action : string) (e : Email.t) (lab : Label.t) (w : World)
    (before after : list Email.t) :
  Verified caller me ->
  (forall k, k < 3 -> faults w (calls w + k) = None) ->
  action = "add" \/ action = "remove" ->
  emails w = before ++ e :: after ->
  find (mine me i) before = None -> mine me i e = true ->
  find (fun x => Email.id x =? Email.id e) before = None ->
  find (ownedBy caller (IdText.cast labelId)) (labels w) = Some lab ->
  Email.valid e = true ->
  emailLabels caller (Some i) (Some labelId) action w
  = (Returned (mkResponse 200 (Message "Label updated successfully")),
     set_emails
       (before ++
        (if String.eqb action "add" then
           if existsb (spells labelId) (Email.labels e) then e
           else Email.set_labels (Email.labels e ++ [IdText.cast labelId]) e
         else Email.set_labels
                (filter (fun id => negb (spells labelId id)) (Email.labels e)) e)
        :: after)
       (set_calls (3 + calls w) w)).
Proof.
  intros V F Ha E Hb He Hid Hl Hv.
  pose proof (F 0 ltac:(lia)) as F0. pose proof (F 1 ltac:(lia)) as F1.
  pose proof (F 2 ltac:(lia)) as F2.
  rewrite Nat.add_0_r in F0. rewrite Nat.add_1_r in F1.
  replace (calls w + 2) with (S (S (calls w))) in F2 by lia.
  unfold mine in *. unfold ownedBy in Hl.
  unfold emailLabels. rewrite (ensureEmailVerified_passes _ V).
  assert (negb (String.eqb action "add" || String.eqb action "remove") = false) as ->.
  { destruct Ha as [-> | ->]; reflexivity. }
  unfold try_catch. unfold bind at 1. unfold Email_findOne.
  rewrite read_returns_first by assumption. cbn [emails set_calls]. rewrite E.
  rewrite find_app_none by assumption. cbn [find]. rewrite He.
  unfold bind at 1. unfold Label_findOne.
  rewrite read_returns_first by exact F1. cbn [labels set_calls]. rewrite Hl.
  set (e' := if String.eqb action "add" then _ else _).
  assert (Email.valid e' = true /\ Email.id e' = Email.id e) as [Hv' Hid'].
  { subst e'. destruct (String.eqb action "add");
      [destruct (existsb _ _)|]; split; trivial. }
  unfold bind.
  rewrite (@saveExisting_at e' _ before after e); trivial.
Qed.

Lemma spells_canonical (l x : ObjectId) : spells (IdText.mk l true) x = (x =? l).
Proof. unfold spells. cbn. apply andb_true_r. Qed.

Lemma existsb_spells (l : ObjectId) (ls : list ObjectId) :
  existsb (spells (IdText.mk l true)) ls = existsb (Nat.eqb l) ls.
Proof.
  induction ls as [|x ls IH]; trivial. cbn [existsb].
  now rewrite spells_canonical, IH, (Nat.eqb_sym x l).
Qed.

Lemma filter_spells (l : ObjectId) (ls : list ObjectId) :
  filter (fun id => negb (spells (IdText.mk l true) id)) ls
  = filter (fun x => negb (x =? l)) ls.
Proof.
  induction ls as [|x ls IH]; trivial. cbn [filter].
  now rewrite spells_canonical, IH.
Qed.

Lemma existsb_misspelt (l : ObjectId) (ls : list ObjectId) :
  existsb (spells (IdText.mk l false)) ls = false.
Proof.
  induction ls as [|x ls IH]; trivial. cbn [existsb]. rewrite IH.
  unfold spells. cbn. now rewrite andb_false_r.
Qed.

Lemma filter_misspelt (l : ObjectId) (ls : list ObjectId) :
  filter (fun id => negb (spells (IdText.mk l false) id)) ls = ls.
Proof.
  induction ls as [|x ls IH]; trivial. cbn [filter].
  unfold spells at 1. cbn. rewrite andb_false_r. cbn. now rewrite IH.
Qed.

Lemma existsb_last (l : ObjectId) (ls : list ObjectId) :
  existsb (Nat.eqb l) (ls ++ [l]) = true.
Proof. rewrite existsb_app. simpl. rewrite Nat.eqb_refl. apply orb_true_r. Qed.

Lemma filter_last (l : ObjectId) (ls : list ObjectId) :
  existsb (Nat.eqb l) ls = false ->
  filter (fun x => negb (x =? l)) (ls ++ [l]) = ls.
Proof.
  intros H. rewrite filter_app. simpl. rewrite Nat.eqb_refl. simpl.
  rewrite app_nil_r. now apply filter_absent.
Qed.

(** X10. The label route compares the text of the label _id of the
    request
    with the text of each _id that the message carries. The caller
    takes part in the message and owns the label. When the request
    names the label by the text of its _id as the database writes it,
    to assign the label twice is to assign it once, and to remove a
    label that was just assigned gives the message back: after add the
    message carries the label, a second add stores the same emails, and
    when the message did not carry the label before, add and then
    remove store the emails that were there at first. When the request
    spells the same _id in another way (a capital letter), add puts the
    _id after the labels of the message whether it is among them or
    not, and remove removes nothing. (The _ids of the stored messages
    are distinct, the message is valid for the schema and the six calls
    to the database do not fail.) *)
Theorem label_add_twice_and_back (caller : User.t) (me : string) (i l : ObjectId)
    (e : Email.t) (lab : Label.t) (w : World) :
  Verified caller me ->
  (forall k, k < 6 -> faults w (calls w + k) = None) ->
  NoDup (map Email.id (emails w)) ->
  find (mine me i) (emails w) = Some e ->
  find (ownedBy caller l) (labels w) = Some lab ->
  Email.valid e = true ->
  let text := IdText.mk l true in
  let other := IdText.mk l false in
  exists before after,
    emails w = before ++ e :: after /\
    (exists w1 e1,
       emailLabels caller (Some i) (Some text) "add" w
       = (Returned (mkResponse 200 (Message "Label updated successfully")), w1) /\
       emails w1 = before ++ e1 :: after /\
       In l (Email.labels e1) /\
       (exists w2,
          emailLabels caller (Some i) (Some text) "add" w1
          = (Returned (mkResponse 200 (Message "Label updated successfully")), w2) /\
          emails w2 = emails w1) /\
       (exists w2,
          emailLabels caller (Some i) (Some text) "remove" w1
          = (Returned (mkResponse 200 (Message "Label updated successfully")), w2) /\
          (forall e2, In e2 (emails w2) -> Email.id e2 = Email.id e ->
                      ~ In l (Email.labels e2)) /\
          (~ In l (Email.labels e) -> emails w2 = emails w))) /\
    (exists w1,
       emailLabels caller (Some i) (Some other) "add" w
       = (Returned (mkResponse 200 (Message "Label updated successfully")), w1) /\
       emails w1 = before ++ Email.set_labels (Email.labels e ++ [l]) e :: after /\
       (exists w2,
          emailLabels caller (Some i) (Some other) "remove" w1
          = (Returned (mkResponse 200 (Message "Label updated successfully")), w2) /\
          emails w2 = emails w1)).
Proof.
  intros V F N H Hl Hv text other.
  destruct (find_split _ _ H) as [before [after [E [Hb He]]]].
  exists before, after. split; [exact E|].
  assert (find (fun x => Email.id x =? Email.id e) before = None) as Hid.
  { apply (@ids_before before after). now rewrite <- E. }
  assert (forall k, k < 3 -> faults w (calls w + k) = None) as Fa.
  { intros k Hk. apply F. lia. }
  assert (forall (e1 : Email.t) (w1 : World),
            w1 = set_emails (before ++ e1 :: after) (set_calls (3 + calls w) w) ->
            forall k, k < 3 -> faults w1 (calls w1 + k) = None) as Fnext.
  { intros e1 w1 -> k Hk. cbn [faults calls set_emails set_calls].
    replace (3 + calls w + k) with (calls w + (3 + k)) by lia. apply F. lia. }
  split.
  - pose proof (@emailLabels_run caller me i text "add" e lab w before after V Fa
                  (or_introl eq_refl) E Hb He Hid Hl Hv) as R1.
    cbn [String.eqb Ascii.eqb Bool.eqb] in R1.
    unfold text in R1 at 2 3. rewrite existsb_spells in R1. cbn [IdText.cast] in R1.
    set (e1 := if existsb (Nat.eqb l) (Email.labels e) then e
               else Email.set_labels (Email.labels e ++ [l]) e) in *.
    set (w1 := set_emails (before ++ e1 :: after) (set_calls (3 + calls w) w)) in *.
    assert (existsb (Nat.eqb l) (Email.labels e1) = true) as Hin.
    { subst e1. destruct (existsb (Nat.eqb l) (Email.labels e)) eqn:X; trivial.
      cbn [Email.labels Email.set_labels]. apply existsb_last. }
    assert (Email.id e1 = Email.id e /\ mine me i e1 = true /\ Email.valid e1 = true)
      as [Hid1 [He1 Hv1]].
    { subst e1. destruct (existsb (Nat.eqb l) (Email.labels e)); repeat split; trivial. }
    pose proof (Fnext e1 w1 eq_refl) as Fb.
    assert (find (fun x => Email.id x =? Email.id e1) before = None) as Hidb
      by now rewrite Hid1.
    exists w1, e1.
    split; [exact R1|]. split; [reflexivity|]. split.
    { apply existsb_exists in Hin. destruct Hin as [x [Hx Hxl]].
      apply Nat.eqb_eq in Hxl. now subst. }
    split.
    + pose proof (@emailLabels_run caller me i text "add" e1 lab w1 before after V Fb
                    (or_introl eq_refl) eq_refl Hb He1 Hidb Hl Hv1) as R2.
      cbn [String.eqb Ascii.eqb Bool.eqb] in R2.
      unfold text in R2 at 2 3. rewrite existsb_spells, Hin in R2.
      eexists. split; [exact R2|]. reflexivity.
    + pose proof (@emailLabels_run caller me i text "remove" e1 lab w1 before after V Fb
                    (or_intror eq_refl) eq_refl Hb He1 Hidb Hl Hv1) as R3.
      cbn [String.eqb Ascii.eqb Bool.eqb] in R3.
      unfold text in R3 at 2. rewrite filter_spells in R3.
      eexists. split; [exact R3|]. cbn [emails set_emails]. split.
      * intros e2 Hin2 Hid2.
        assert (e2 = Email.set_labels
                       (filter (fun x => negb (x =? l)) (Email.labels e1)) e1) as ->.
        { apply in_app_or in Hin2. destruct Hin2 as [Hin2 | [<- | Hin2]]; trivial.
          - exfalso. pose proof (proj1 (find_none_iff _ _) Hid e2 Hin2) as X.
            simpl in X. rewrite Hid2, Nat.eqb_refl in X. discriminate.
          - exfalso. rewrite E in N. pose proof (id_gone _ _ _ N) as G.
            pose proof (proj1 (find_none_iff _ _) G e2
                          (in_or_app _ _ _ (or_intror Hin2))) as X.
            simpl in X. rewrite Hid2, Nat.eqb_refl in X. discriminate. }
        cbn [Email.labels Email.set_labels]. intros X. apply filter_In in X.
        destruct X as [_ X]. rewrite Nat.eqb_refl in X. discriminate.
      * intros Hnot. rewrite E. f_equal. f_equal.
        assert (existsb (Nat.eqb l) (Email.labels e) = false) as X.
        { destruct (existsb (Nat.eqb l) (Email.labels e)) eqn:X; trivial.
          exfalso. apply Hnot. apply existsb_exists in X. destruct X as [x [Hx Hxl]].
          apply Nat.eqb_eq in Hxl. now subst. }
        subst e1. rewrite X. cbn [Email.labels Email.set_labels].
        rewrite (filter_last _ _ X). destruct e; reflexivity.
  - pose proof (@emailLabels_run caller me i other "add" e lab w before after V Fa
                  (or_introl eq_refl) E Hb He Hid Hl Hv) as R1.
    cbn [String.eqb Ascii.eqb Bool.eqb] in R1.
    unfold other in R1 at 2 3. rewrite existsb_misspelt in R1. cbn [IdText.cast] in R1.
    set (e1 := Email.set_labels (Email.labels e ++ [l]) e) in *.
    set (w1 := set_emails (before ++ e1 :: after) (set_calls (3 + calls w) w)) in *.
    pose proof (Fnext e1 w1 eq_refl) as Fb.
    assert (find (fun x => Email.id x =? Email.id e1) before = None) as Hidb
      by exact Hid.
    exists w1. split; [exact R1|]. split; [reflexivity|].
    pose proof (@emailLabels_run caller me i other "remove" e1 lab w1 before after V Fb
                  (or_intror eq_refl) eq_refl Hb He Hidb Hl Hv) as R3.
    cbn [String.eqb Ascii.eqb Bool.eqb] in R3.
    unfold other in R3 at 2. rewrite filter_misspelt in R3.
    eexists. split; [exact R3|]. subst w1 e1. destruct e; reflexivity.
Qed.

(** Bob puts his Spam label on the message of Alice, and takes it off. *)
Lemma label_add_twice_and_back_witness :
  let text := IdText.mk 61 true in
  let other := IdText.mk 61 false in
  exists before after,
    emails Scenario.mailbox = before ++ Scenario.note :: after /\
    (exists w1 e1,
       emailLabels Scenario.bob (Some 30) (Some text) "add" Scenario.mailbox
       = (Returned (mkResponse 200 (Message "Label updated successfully")), w1) /\
       emails w1 = before ++ e1 :: after /\
       In 61 (Email.labels e1) /\
       (exists w2,
          emailLabels Scenario.bob (Some 30) (Some text) "add" w1
          = (Returned (mkResponse 200 (Message "Label updated successfully")), w2) /\
          emails w2 = emails w1) /\
       (exists w2,
          emailLabels Scenario.bob (Some 30) (Some text) "remove" w1
          = (Returned (mkResponse 200 (Message "Label updated successfully")), w2) /\
          (forall e2, In e2 (emails w2) -> Email.id e2 = Email.id Scenario.note ->
                      ~ In 61 (Email.labels e2)) /\
          (~ In 61 (Email.labels Scenario.note) -> emails w2 = emails Scenario.mailbox))) /\
    (exists w1,
       emailLabels Scenario.bob (Some 30) (Some other) "add" Scenario.mailbox
       = (Returned (mkResponse 200 (Message "Label updated successfully")), w1) /\
       emails w1
       = before ++ Email.set_labels (Email.labels Scenario.note ++ [61]) Scenario.note
                   :: after /\
       (exists w2,
          emailLabels Scenario.bob (Some 30) (Some other) "remove" w1
          = (Returned (mkResponse 200 (Message "Label updated successfully")), w2) /\
          emails w2 = emails w1)).
Proof.
  apply (@label_add_twice_and_back Scenario.bob "bob@x.com" 30 61 Scenario.note
           Scenario.junk Scenario.mailbox).
  - repeat split.
  - intros k _. reflexivity.
  - vm_compute. repeat constructor. intros [].
  - reflexivity.
  - reflexivity.
  - reflexivity.
Defined.

(* ================================================================== *)
(** * What each route may write *)
(* ================================================================== *)

(** The relations of [Keeps], through the handlers. *)
Section KeepsRoutes.
Variable R : World -> World -> Prop.
Hypothesis R_refl : forall w, R w w.
Hypothesis R_trans : forall a b c, R a b -> R b c -> R a c.
Hypothesis R_calls : forall w c, R w (set_calls c w).
Hypothesis R_event :
  forall w e, classified [e] = 0 -> R w (set_trace (trace w ++ [e]) w).
Hypothesis R_classify :
  forall w s, R w (set_trace (trace w ++ [Classify s]) w).
Hypothesis R_nextId : forall w i, R w (set_nextId i w).
Hypothesis R_labels : forall w l, R w (set_labels l w).
Hypothesis R_emails : forall w l, R w (set_emails l w).
Hypothesis R_autoReplies : forall w l, R w (set_autoReplies l w).

Local Ltac side :=
  lazymatch goal with
  | |- forall _ : World, _ =>
      first [ exact R_refl | exact R_trans | exact R_calls | exact R_event
            | exact R_nextId | exact R_labels | exact R_emails
            | exact R_autoReplies ]
  end.

Local Ltac by_ lem := apply lem; try side.

Lemma keeps_forEach {A} (f : A -> M unit) (l : list A) :
  (forall x, keeps R (f x)) -> keeps R (forEach l f).
Proof.
  intros Hf. induction l as [|x l IH]; simpl.
  - by_ keeps_ret.
  - by_ keeps_bind; auto.
Qed.

Lemma keeps_Email_save e : keeps R (Email_save e).
Proof.
  unfold Email_save. destruct (Email.valid e); [|by_ keeps_throw].
  by_ keeps_bind; [by_ keeps_external | intros _]. intros w. apply R_emails.
Qed.

Lemma keeps_Email_saveExisting e : keeps R (Email_saveExisting e).
Proof.
  unfold Email_saveExisting. destruct (Email.valid e); [|by_ keeps_throw].
  by_ keeps_bind; [by_ keeps_external | intros _]. intros w. apply R_emails.
Qed.

Lemma keeps_Email_findOneAndUpdate p f : keeps R (Email_findOneAndUpdate p f).
Proof.
  unfold Email_findOneAndUpdate.
  by_ keeps_bind; [by_ keeps_external | intros _].
  intros w. destruct (updateFirst p f (emails w)). apply R_emails.
Qed.

Lemma keeps_Email_deleteOne p : keeps R (Email_deleteOne p).
Proof.
  unfold Email_deleteOne.
  by_ keeps_bind; [by_ keeps_external | intros _].
  intros w. destruct (removeFirst p (emails w)). apply R_emails.
Qed.

Lemma keeps_Email_pullLabelEverywhere l : keeps R (Email_pullLabelEverywhere l).
Proof.
  unfold Email_pullLabelEverywhere.
  by_ keeps_bind; [by_ keeps_external | intros _]. intros w. apply R_emails.
Qed.

Lemma keeps_Label_updateOne p f : keeps R (Label_updateOne p f).
Proof.
  unfold Label_updateOne.
  by_ keeps_bind; [by_ keeps_external | intros _].
  intros w. destruct (updateFirst p f (labels w)). apply R_labels.
Qed.

Lemma keeps_AutoReply_save ar : keeps R (AutoReply_save ar).
Proof.
  unfold AutoReply_save.
  by_ keeps_bind; [by_ keeps_external | intros _]. intros w. apply R_autoReplies.
Qed.

Lemma keeps_AutoReply_saveExisting ar : keeps R (AutoReply_saveExisting ar).
Proof.
  unfold AutoReply_saveExisting.
  by_ keeps_bind; [by_ keeps_external | intros _]. intros w. apply R_autoReplies.
Qed.

Lemma keeps_detectSpam email sender : keeps R (detectSpam email sender).
Proof.
  unfold detectSpam.
  by_ keeps_bind; [intros w; apply R_classify | intros _].
  by_ keeps_try_catch; [by_ keeps_detectSpam_try | intros err].
  by_ keeps_bind; [by_ keeps_log | intros _; by_ keeps_ret].
Qed.

Lemma keeps_ensureEmailVerified caller next :
  (forall me, keeps R (next me)) -> keeps R (ensureEmailVerified caller next).
Proof.
  intros H. unfold ensureEmailVerified.
  destruct (User.email caller) as [me|]; [|by_ keeps_json].
  destruct (Js.truthy me && User.isEmailVerified caller); [apply H | by_ keeps_json].
Qed.

Lemma keeps_verifiedEmail caller next :
  (forall me, keeps R (next me)) -> keeps R (verifiedEmail caller next).
Proof.
  intros H. unfold verifiedEmail, answer.
  destruct (User.email caller) as [me|]; [|by_ keeps_ret].
  destruct (Js.truthy me && User.isEmailVerified caller); [apply H | by_ keeps_ret].
Qed.

Lemma keeps_logged {A} (msg : string) (m : M A) :
  keeps R m -> keeps R (log msg ;;; m).
Proof. intros H. by_ keeps_bind; [by_ keeps_log | intros _; exact H]. Qed.

Lemma keeps_markRead caller emailId isRead : keeps R (markRead caller emailId isRead).
Proof.
  unfold markRead. apply keeps_ensureEmailVerified. intros me.
  by_ keeps_try_catch; [|intros err; apply keeps_logged; by_ keeps_json].
  destruct emailId as [i|]; [|by_ keeps_json].
  destruct isRead as [b|]; [|by_ keeps_json].
  by_ keeps_bind; [apply keeps_Email_findOneAndUpdate | intros [e|]; by_ keeps_json].
Qed.

Lemma keeps_star caller emailId isStarred : keeps R (star caller emailId isStarred).
Proof.
  unfold star. apply keeps_ensureEmailVerified. intros me.
  by_ keeps_try_catch; [|intros err; apply keeps_logged; by_ keeps_json].
  destruct emailId as [i|]; [|by_ keeps_json].
  destruct isStarred as [b|]; [|by_ keeps_json].
  by_ keeps_bind; [apply keeps_Email_findOneAndUpdate | intros [e|]; [|by_ keeps_json]].
  by_ keeps_bind; [by_ keeps_populateLabels | intros found; by_ keeps_json].
Qed.

Lemma keeps_moveToTrash caller emailId : keeps R (moveToTrash caller emailId).
Proof.
  unfold moveToTrash. apply keeps_ensureEmailVerified. intros me.
  by_ keeps_try_catch; [|intros err; apply keeps_logged; by_ keeps_json].
  destruct emailId as [i|]; [|by_ keeps_json].
  by_ keeps_bind; [apply keeps_Email_findOneAndUpdate | intros [e|]; by_ keeps_json].
Qed.

Lemma keeps_getEmail caller emailId : keeps R (getEmail caller emailId).
Proof.
  unfold getEmail. apply keeps_ensureEmailVerified. intros me.
  by_ keeps_try_catch; [|intros err; apply keeps_logged; by_ keeps_json].
  destruct emailId as [i|]; [|by_ keeps_json].
  by_ keeps_bind; [by_ keeps_Email_findOne | intros [e|]; [|by_ keeps_json]].
  by_ keeps_bind; [by_ keeps_populateLabels | intros found; by_ keeps_json].
Qed.

Lemma keeps_deleteEmail caller emailId : keeps R (deleteEmail caller emailId).
Proof.
  unfold deleteEmail. apply keeps_ensureEmailVerified. intros me.
  by_ keeps_try_catch; [|intros err; apply keeps_logged; by_ keeps_json].
  destruct emailId as [i|]; [|by_ keeps_json].
  by_ keeps_bind; [apply keeps_Email_deleteOne | intros n].
  destruct (n =? 0); by_ keeps_json.
Qed.

Lemma keeps_emailLabels caller emailId labelId action :
  keeps R (emailLabels caller emailId labelId action).
Proof.
  unfold emailLabels. apply keeps_ensureEmailVerified. intros me.
  by_ keeps_try_catch; [|intros err; apply keeps_logged; by_ keeps_json].
  destruct emailId as [i|]; [|by_ keeps_json].
  destruct labelId as [l|]; [|by_ keeps_json].
  destruct (negb _); [by_ keeps_json|].
  by_ keeps_bind; [by_ keeps_Email_findOne | intros [e|]; [|by_ keeps_json]].
  by_ keeps_bind; [by_ keeps_Label_findOne | intros [lab|]; [|by_ keeps_json]].
  by_ keeps_bind; [apply keeps_Email_saveExisting | intros _; by_ keeps_json].
Qed.

Lemma keeps_saveDraft caller req : keeps R (saveDraft caller req).
Proof.
  unfold saveDraft, answer. apply keeps_verifiedEmail. intros me.
  destruct (unparsable _ || _ || _); [apply keeps_logged; by_ keeps_ret|].
  by_ keeps_try_catch; [|intros err; apply keeps_logged; by_ keeps_ret].
  assert (keeps R
            (attachments <- uploadAll (DraftReq.files req) ;;
             savedAt <- newDate ;;
             e <- Email_new me (arrayOrEmpty (DraftReq.recipients req))
                    (arrayOrEmpty (DraftReq.cc req)) (arrayOrEmpty (DraftReq.bcc req))
                    (textOrEmpty (DraftReq.subject req)) (textOrEmpty (DraftReq.body req))
                    attachments draft false [] None ;;
             Email_save (set_draftSavedAt (Some savedAt) e) ;;;
             ret (mkAnswer 200
                    (DraftSaved "Draft saved successfully"
                       (Email.id (set_draftSavedAt (Some savedAt) e)))))) as K.
  { by_ keeps_bind; [by_ keeps_uploadAll | intros atts].
    by_ keeps_bind; [by_ keeps_newDate | intros t].
    by_ keeps_bind; [by_ keeps_Email_new | intros e].
    by_ keeps_bind; [apply keeps_Email_save | intros _; by_ keeps_ret]. }
  destruct (DraftReq.recipients req), (DraftReq.cc req), (DraftReq.bcc req);
    first [ exact K | by_ keeps_ret ].
Qed.

Lemma keeps_getLabels caller : keeps R (getLabels caller).
Proof.
  unfold getLabels, answer. apply keeps_verifiedEmail. intros me.
  by_ keeps_try_catch; [|intros err; apply keeps_logged; by_ keeps_ret].
  by_ keeps_bind; [by_ keeps_Label_find | intros all; by_ keeps_ret].
Qed.

Lemma keeps_setAutoReply caller enabled message :
  keeps R (setAutoReply caller enabled message).
Proof.
  unfold setAutoReply, answer. apply keeps_verifiedEmail. intros me.
  by_ keeps_try_catch; [|intros err; apply keeps_logged; by_ keeps_ret].
  destruct enabled as [b|]; [|by_ keeps_ret].
  assert (keeps R
            (found <- AutoReply_findOne (fun a => AutoReply.userId a =? User.id caller) ;;
             match found with
             | None =>
                 i <- fresh ;;
                 t <- newDate ;;
                 AutoReply_save
                   (AutoReply.mk i (User.id caller) b
                      (match message with Text s => s | _ => defaultMessage end) t) ;;;
                 ret (mkAnswer 200
                        (AutoReplyUpdated "Auto reply settings updated"
                           (AutoReply.mk i (User.id caller) b
                              (match message with Text s => s | _ => defaultMessage end)
                              t)))
             | Some old =>
                 t <- newDate ;;
                 AutoReply_saveExisting
                   (AutoReply.mk (AutoReply.id old) (AutoReply.userId old) b
                      (match message with
                       | Text s => if Js.truthy s then s else AutoReply.message old
                       | _ => AutoReply.message old
                       end) t) ;;;
                 ret (mkAnswer 200
                        (AutoReplyUpdated "Auto reply settings updated"
                           (AutoReply.mk (AutoReply.id old) (AutoReply.userId old) b
                              (match message with
                               | Text s => if Js.truthy s then s else AutoReply.message old
                               | _ => AutoReply.message old
                               end) t)))
             end)) as K.
  { by_ keeps_bind; [by_ keeps_AutoReply_findOne | intros [old|]].
    - by_ keeps_bind; [by_ keeps_newDate | intros t].
      by_ keeps_bind; [apply keeps_AutoReply_saveExisting | intros _; by_ keeps_ret].
    - by_ keeps_bind; [by_ keeps_fresh | intros i].
      by_ keeps_bind; [by_ keeps_newDate | intros t].
      by_ keeps_bind; [apply keeps_AutoReply_save | intros _; by_ keeps_ret]. }
  destruct message; first [ exact K | by_ keeps_ret ].
Qed.

Lemma keeps_createLabel caller name : keeps R (createLabel caller name).
Proof.
  unfold createLabel, answer. apply keeps_verifiedEmail. intros me.
  destruct name as [name|]; [|by_ keeps_ret].
  destruct (Js.truthy name); [|by_ keeps_ret].
  by_ keeps_try_catch; [|intros err; apply keeps_logged; by_ keeps_ret].
  by_ keeps_bind; [by_ keeps_Label_findOne | intros [old|]; [by_ keeps_ret|]].
  by_ keeps_bind; [by_ keeps_fresh | intros i].
  by_ keeps_bind; [by_ keeps_newDate | intros t].
  by_ keeps_bind; [by_ keeps_Label_save | intros _; by_ keeps_ret].
Qed.

Lemma keeps_renameLabel caller labelId name : keeps R (renameLabel caller labelId name).
Proof.
  unfold renameLabel. apply keeps_ensureEmailVerified. intros me.
  by_ keeps_try_catch; [|intros err; apply keeps_logged; by_ keeps_json].
  destruct labelId as [l|]; [|by_ keeps_json].
  destruct name as [name|]; [|by_ keeps_json].
  destruct (Js.truthy name); [|by_ keeps_json].
  by_ keeps_bind; [by_ keeps_Label_findOne | intros [lab|]; [|by_ keeps_json]].
  destruct (Label.isSystemLabel lab); [by_ keeps_json|].
  by_ keeps_bind; [apply keeps_Label_updateOne | intros n].
  destruct (n =? 0); by_ keeps_json.
Qed.

Lemma keeps_deleteLabel caller labelId : keeps R (deleteLabel caller labelId).
Proof.
  unfold deleteLabel. apply keeps_ensureEmailVerified. intros me.
  by_ keeps_try_catch; [|intros err; apply keeps_logged; by_ keeps_json].
  destruct labelId as [l|]; [|by_ keeps_json].
  by_ keeps_bind; [by_ keeps_Label_findOne | intros [lab|]; [|by_ keeps_json]].
  destruct (Label.isSystemLabel lab); [by_ keeps_json|].
  by_ keeps_bind; [by_ keeps_Label_deleteOne | intros n].
  destruct (n =? 0); [by_ keeps_json|].
  by_ keeps_bind; [apply keeps_Email_pullLabelEverywhere | intros _; by_ keeps_json].
Qed.

Lemma keeps_new_saved {B} sender recipients cc bcc subject body atts folder isSpam
    lbls sentAt (k : Email.t -> M B) :
  (forall e, keeps R (k e)) ->
  keeps R (e <- Email_new sender recipients cc bcc subject body atts folder isSpam
                  lbls sentAt ;;
           Email_save e ;;; k e).
Proof.
  intros H. by_ keeps_bind; [by_ keeps_Email_new | intros e].
  by_ keeps_bind; [apply keeps_Email_save | intros _; apply H].
Qed.

Lemma keeps_deliverCopy me subject body cc bcc atts sentAt isSpam rus what addr :
  keeps R (deliverCopy me subject body cc bcc atts sentAt isSpam rus what addr).
Proof.
  unfold deliverCopy.
  by_ keeps_bind; [by_ keeps_spamLabelFor | intros lbl].
  apply keeps_new_saved. intros e.
  by_ keeps_bind; [by_ keeps_notify | intros _; by_ keeps_ret].
Qed.

Lemma keeps_autoReplyOf me subject isSpam recipient ru :
  keeps R (autoReplyOf me subject isSpam recipient ru).
Proof.
  unfold autoReplyOf. destruct ru as [u|]; [|by_ keeps_ret].
  destruct (negb isSpam); [|by_ keeps_ret].
  by_ keeps_bind; [by_ keeps_AutoReply_findOne | intros [ar|]; [|by_ keeps_ret]].
  destruct (AutoReply.enabled ar && User.isEmailVerified u); [|by_ keeps_ret].
  apply keeps_new_saved. intros e1. apply keeps_new_saved. intros e2.
  by_ keeps_notify.
Qed.

Lemma keeps_send_try me recipients cc bcc subject body files :
  keeps R (send_try me recipients cc bcc subject body files).
Proof.
  unfold send_try.
  by_ keeps_bind; [by_ keeps_User_find | intros rus].
  destruct (negb _); [by_ keeps_json|].
  destruct (_ && _); [by_ keeps_json|].
  destruct (_ && _); [by_ keeps_json|].
  by_ keeps_bind; [by_ keeps_uploadAll | intros atts].
  by_ keeps_bind; [by_ keeps_newDate | intros t].
  apply keeps_new_saved. intros e.
  by_ keeps_bind; [apply keeps_detectSpam | intros v].
  by_ keeps_bind.
  { apply keeps_forEach. intros a. unfold deliverRecipient.
    by_ keeps_bind; [apply keeps_deliverCopy | intros ru; apply keeps_autoReplyOf]. }
  intros _. by_ keeps_bind.
  { apply keeps_forEach. intros a. unfold deliverCc.
    by_ keeps_bind; [apply keeps_deliverCopy | intros ru; by_ keeps_ret]. }
  intros _. by_ keeps_bind.
  { apply keeps_forEach. intros a. unfold deliverBcc.
    by_ keeps_bind; [apply keeps_deliverCopy | intros ru; by_ keeps_ret]. }
  intros _. by_ keeps_ret.
Qed.

Lemma keeps_send caller req : keeps R (send caller req).
Proof.
  unfold send. apply keeps_ensureEmailVerified. intros me.
  assert (forall recipients cc bcc subject body,
            keeps R
              (try_catch
                 (send_try me recipients cc bcc subject body (SendReq.files req))
                 (fun err => log ("Send email error: " +++ err) ;;;
                             json 500 (ErrorDetails "Server error" err)))) as K.
  { intros. by_ keeps_try_catch; [apply keeps_send_try | intros err].
    apply keeps_logged. by_ keeps_json. }
  destruct (unparsable _ || _ || _); [apply keeps_logged; by_ keeps_json|].
  destruct (SendReq.recipients req) as [| | |[|r rs]]; try by_ keeps_json.
  destruct (SendReq.subject req) as [subject|]; [|by_ keeps_json].
  destruct (SendReq.body req) as [body|]; [|by_ keeps_json].
  destruct (negb _); [by_ keeps_json|].
  destruct (SendReq.cc req), (SendReq.bcc req); try by_ keeps_json;
    (destruct (keepAddresses (r :: rs)); [by_ keeps_json | apply K]).
Qed.

Lemma keeps_reply caller req : keeps R (reply caller req).
Proof.
  unfold reply. apply keeps_ensureEmailVerified. intros me.
  by_ keeps_try_catch; [|intros err; apply keeps_logged; by_ keeps_json].
  by_ keeps_bind; [by_ keeps_Email_findById | intros [orig|]; [|by_ keeps_json]].
  by_ keeps_bind; [by_ keeps_User_findOne | intros [ru|]; [|by_ keeps_json]].
  by_ keeps_bind; [by_ keeps_uploadAll | intros atts].
  by_ keeps_bind; [by_ keeps_Email_new | intros e1].
  by_ keeps_bind; [apply keeps_detectSpam | intros v].
  by_ keeps_bind.
  { destruct v; [|by_ keeps_ret].
    by_ keeps_bind; [by_ keeps_ensureSpamLabel | intros l; by_ keeps_ret]. }
  intros lbl. by_ keeps_bind; [apply keeps_Email_save | intros _].
  apply keeps_new_saved. intros e2.
  by_ keeps_bind; [by_ keeps_get_world | intros w].
  by_ keeps_bind; [|intros _; by_ keeps_ret].
  destruct (io w); [|by_ keeps_log].
  by_ keeps_bind; [by_ keeps_external | intros _; by_ keeps_emit].
Qed.

Lemma keeps_forward caller req : keeps R (forward caller req).
Proof.
  unfold forward. apply keeps_ensureEmailVerified. intros me.
  destruct (ForwardReq.recipients req) as [| | |[|r rs]];
    try by_ keeps_json; try (apply keeps_logged; by_ keeps_json).
  by_ keeps_try_catch; [|intros err; apply keeps_logged; by_ keeps_json].
  by_ keeps_bind; [by_ keeps_Email_findById | intros [orig|]; [|by_ keeps_json]].
  by_ keeps_bind; [by_ keeps_User_find | intros rus].
  destruct (negb _); [by_ keeps_json|].
  by_ keeps_bind; [by_ keeps_uploadAll | intros atts].
  by_ keeps_bind; [by_ keeps_Email_new | intros e1].
  by_ keeps_bind; [apply keeps_detectSpam | intros v].
  by_ keeps_bind; [apply keeps_Email_save | intros _].
  by_ keeps_bind; [|intros _; by_ keeps_ret].
  apply keeps_forEach. intros a. unfold forwardTo.
  by_ keeps_bind; [by_ keeps_spamLabelFor | intros lbl].
  apply keeps_new_saved. intros e. by_ keeps_notify.
Qed.

Lemma keeps_handle r : keeps R (handle r).
Proof.
  destruct r; cbn [handle];
    [ apply keeps_send | apply keeps_reply | apply keeps_forward | apply keeps_markRead
    | apply keeps_star | apply keeps_moveToTrash | apply keeps_emailLabels
    | apply keeps_deleteLabel ].
Qed.

Lemma keeps_plain (m : M Response) : keeps R m -> keeps R (plain m).
Proof.
  intros H. unfold plain, answer. by_ keeps_bind; [exact H | intros resp; by_ keeps_ret].
Qed.

Lemma keeps_route r : keeps R (route r).
Proof.
  destruct r; cbn [route];
    [ apply keeps_plain, keeps_handle | apply keeps_plain, keeps_getEmail
    | apply keeps_plain, keeps_deleteEmail | apply keeps_saveDraft
    | apply keeps_createLabel | apply keeps_plain, keeps_renameLabel
    | apply keeps_getLabels | apply keeps_setAutoReply ].
Qed.

End KeepsRoutes.

Ltac frame :=
  first [ now intros
        | intros; simpl in *; congruence ].

Lemma route_keeps_users (r : Route) : keeps (fun w w' => users w' = users w) (route r).
Proof. apply keeps_route; frame. Qed.

Lemma route_keeps_emails (r : Route) :
  writesEmails r = false -> keeps (fun w w' => emails w' = emails w) (route r).
Proof.
  destruct r; cbn [writesEmails route]; try discriminate; intros _;
    [ (apply keeps_plain; first [apply keeps_getEmail; frame | frame])
    | apply keeps_createLabel; frame
    | (apply keeps_plain; first [apply keeps_renameLabel; frame | frame])
    | apply keeps_getLabels; frame
    | apply keeps_setAutoReply; frame ].
Qed.

Lemma route_keeps_labels (r : Route) :
  writesLabels r = false -> keeps (fun w w' => labels w' = labels w) (route r).
Proof.
  destruct r as [[]| | | | | | |]; cbn [writesLabels route handle];
    try discriminate; intros _;
    [ (apply keeps_plain; first [apply keeps_markRead; frame | frame])
    | (apply keeps_plain; first [apply keeps_star; frame | frame])
    | (apply keeps_plain; first [apply keeps_moveToTrash; frame | frame])
    | (apply keeps_plain; first [apply keeps_emailLabels; frame | frame])
    | (apply keeps_plain; first [apply keeps_getEmail; frame | frame])
    | (apply keeps_plain; first [apply keeps_deleteEmail; frame | frame])
    | apply keeps_saveDraft; frame
    | apply keeps_getLabels; frame
    | apply keeps_setAutoReply; frame ].
Qed.

Lemma route_keeps_autoReplies (r : Route) :
  writesAutoReplies r = false ->
  keeps (fun w w' => autoReplies w' = autoReplies w) (route r).
Proof.
  destruct r; cbn [writesAutoReplies route]; try discriminate; intros _;
    [ (apply keeps_plain; first [apply keeps_handle; frame | frame])
    | (apply keeps_plain; first [apply keeps_getEmail; frame | frame])
    | (apply keeps_plain; first [apply keeps_deleteEmail; frame | frame])
    | apply keeps_saveDraft; frame
    | apply keeps_createLabel; frame
    | (apply keeps_plain; first [apply keeps_renameLabel; frame | frame])
    | apply keeps_getLabels; frame ].
Qed.

(** X11. What a route may write, whatever the request, the outcome and the
    faults of the collaborators. No route writes the users. The
    auto-reply settings are written by POST /auto-reply alone. The
    labels are written by the label routes (create, rename, delete) and
    by the fan-out of send, reply and forward alone. The emails are not
    written by the reads (of a message, of the labels), nor by the
    creation and the renaming of a label, nor by POST /auto-reply. *)
Theorem write_footprint (r : Route) (w : World) :
  users (snd (route r w)) = users w /\
  (writesAutoReplies r = false -> autoReplies (snd (route r w)) = autoReplies w) /\
  (writesLabels r = false -> labels (snd (route r w)) = labels w) /\
  (writesEmails r = false -> emails (snd (route r w)) = emails w).
Proof.
  split; [apply (route_keeps_users r w)|].
  split; [intros H; apply (route_keeps_autoReplies r H w)|].
  split; [intros H; apply (route_keeps_labels r H w)|].
  intros H; apply (route_keeps_emails r H w).
Qed.

(* ================================================================== *)
(** * The label routes *)
(* ================================================================== *)

Lemma filter_system_at (before after : list Label.t) (a b : Label.t) :
  Label.isSystemLabel a = false -> Label.isSystemLabel b = false ->
  filter Label.isSystemLabel (before ++ a :: after)
  = filter Label.isSystemLabel (before ++ b :: after).
Proof. intros Ha Hb. rewrite !filter_app. simpl. now rewrite Ha, Hb. Qed.

Lemma filter_system_without (before after : list Label.t) (a : Label.t) :
  Label.isSystemLabel a = false ->
  filter Label.isSystemLabel (before ++ a :: after)
  = filter Label.isSystemLabel (before ++ after).
Proof. intros Ha. rewrite !filter_app. simpl. now rewrite Ha. Qed.

Lemma createLabel_system (caller : User.t) (name : option string) (w : World) :
  systemLabels (snd (createLabel caller name w)) = systemLabels w.
Proof.
  unfold systemLabels, createLabel, verifiedEmail, answer, ret.
  destruct (User.email caller) as [me|]; [|reflexivity].
  destruct (Js.truthy me && User.isEmailVerified caller); [|reflexivity].
  destruct name as [name|]; [|reflexivity].
  destruct (Js.truthy name) eqn:T; [|reflexivity].
  unfold try_catch, Label_findOne, Label_save, fresh, newDate, log, emit_event.
  unfold bind, external, get_world, ret. cbn [Label.name]. rewrite T.
  destruct (faults w (calls w)); [reflexivity|]. cbn.
  destruct (find _ (labels w)); [reflexivity|]. cbn.
  destruct (faults w (S (calls w))); [reflexivity|]. cbn.
  rewrite filter_app. simpl. apply app_nil_r.
Qed.

Lemma renameLabel_system (caller : User.t) (labelId : option ObjectId)
    (name : option string) (w : World) :
  systemLabels (snd (renameLabel caller labelId name w)) = systemLabels w.
Proof.
  unfold systemLabels, renameLabel, ensureEmailVerified, json, ret.
  destruct (User.email caller) as [me|]; [|reflexivity].
  destruct (Js.truthy me && User.isEmailVerified caller); [|reflexivity].
  destruct labelId as [l|]; [|reflexivity].
  destruct name as [name|]; [|reflexivity].
  destruct (Js.truthy name) eqn:T; [|reflexivity].
  unfold try_catch, Label_findOne, Label_updateOne, log, emit_event.
  unfold bind, external, get_world, ret.
  destruct (faults w (calls w)); [reflexivity|]. cbn [labels set_calls calls faults].
  destruct (find (ownedBy caller l) (labels w)) as [lab|] eqn:Hf; [|reflexivity].
  destruct (Label.isSystemLabel lab) eqn:Hs; [reflexivity|].
  destruct (find_split _ _ Hf) as [before [after [E [Hb Hl]]]].
  cbn [faults calls set_calls].
  destruct (faults w (S (calls w))); [reflexivity|]. cbn [labels set_calls].
  rewrite E.
  rewrite (@updateFirst_at _ (ownedBy caller l) (renamed name) before after lab Hb Hl).
  cbn. now apply filter_system_at.
Qed.

Lemma deleteLabel_system (caller : User.t) (labelId : option ObjectId) (w : World) :
  systemLabels (snd (deleteLabel caller labelId w)) = systemLabels w.
Proof.
  unfold systemLabels, deleteLabel, ensureEmailVerified, json, ret.
  destruct (User.email caller) as [me|]; [|reflexivity].
  destruct (Js.truthy me && User.isEmailVerified caller); [|reflexivity].
  destruct labelId as [l|]; [|reflexivity].
  unfold try_catch, Label_findOne, Label_deleteOne, Email_pullLabelEverywhere,
    log, emit_event.
  unfold bind, external, get_world, ret.
  destruct (faults w (calls w)); [reflexivity|]. cbn [labels set_calls calls faults].
  change (fun x : Label.t => (Label.id x =? l) && (Label.userId x =? User.id caller))
    with (ownedBy caller l).
  destruct (find (ownedBy caller l) (labels w)) as [lab|] eqn:Hf; [|reflexivity].
  destruct (Label.isSystemLabel lab) eqn:Hs; [reflexivity|].
  destruct (find_split _ _ Hf) as [before [after [E [Hb Hl]]]].
  cbn [faults calls set_calls].
  destruct (faults w (S (calls w))); [reflexivity|]. cbn [labels set_calls].
  rewrite E.
  rewrite (@removeFirst_at _ (ownedBy caller l) before after lab Hb Hl).
  cbn. destruct (faults w (S (S (calls w)))); cbn; symmetry;
    now apply filter_system_without.
Qed.

(** X12. The system labels are out of reach of the routes: but for the
    fan-out of send, reply and forward, which may add the Spam label of
    a recipient, no request -- whatever its outcome and the faults of
    the collaborators -- adds, removes, renames or reorders a system
    label. *)
Theorem system_labels_fixed (r : Route) (w : World) :
  fansOutRoute r = false ->
  systemLabels (snd (route r w)) = systemLabels w.
Proof.
  intros H. destruct (writesLabels r) eqn:W.
  - destruct r as [[]| | | | | | |]; try discriminate; cbn [route handle plain].
    + unfold plain, bind, answer, ret.
      pose proof (deleteLabel_system caller labelId w) as X.
      destruct (deleteLabel caller labelId w) as [[resp|err] w']; exact X.
    + apply createLabel_system.
    + unfold plain, bind, answer, ret.
      pose proof (renameLabel_system caller labelId name w) as X.
      destruct (renameLabel caller labelId name w) as [[resp|err] w']; exact X.
  - unfold systemLabels. now rewrite (route_keeps_labels r W w).
Qed.

(** Bob tries to rename his Spam label. *)
Lemma system_labels_fixed_witness :
  systemLabels (snd (route (RenameLabel Scenario.bob (Some 61) (Some "Ham"))
                           Scenario.mailbox))
  = systemLabels Scenario.mailbox.
Proof. apply system_labels_fixed. reflexivity. Defined.

Lemma namedBy_key (caller : User.t) (name : string) (x : Label.t) :
  namedBy caller name x = false -> labelKey x <> (User.id caller, name).
Proof.
  unfold namedBy, labelKey. intros H E. injection E as E1 E2.
  rewrite E1, E2, Nat.eqb_refl, String.eqb_refl in H. discriminate.
Qed.

(** X13. The creation of a label: the name is not empty and the two calls
    to the database do not fail. When the caller has no label of that
    name, a label of that name, owned by the caller, not a system
    label, with a fresh _id, is stored after the others, and no user has
    two labels of one name afterwards if none had before. When the
    caller has a label of that name -- a system label too -- the answer
    is the error 400 and no label is stored. *)
Theorem create_label_once (caller : User.t) (me name : string) (w : World) :
  Verified caller me -> Js.truthy name = true ->
  (forall k, k < 2 -> faults w (calls w + k) = None) ->
  (find (namedBy caller name) (labels w) = None ->
   exists w',
     createLabel caller (Some name) w
     = (Returned (mkAnswer 200
                    (LabelCreated "Label created successfully"
                       (Label.mk (nextId w) (User.id caller) name false (now w)))), w') /\
     labels w' = labels w ++ [Label.mk (nextId w) (User.id caller) name false (now w)] /\
     (NamesUnique w -> NamesUnique w')) /\
  (forall old, find (namedBy caller name) (labels w) = Some old ->
   exists w',
     createLabel caller (Some name) w
     = (Returned (mkAnswer 400 (Plain (Error "Label name already exists"))), w') /\
     sameStores w w').
Proof.
  intros V T F.
  pose proof (F 0 ltac:(lia)) as F0. pose proof (F 1 ltac:(lia)) as F1.
  rewrite Nat.add_0_r in F0. rewrite Nat.add_1_r in F1.
  assert (forall found,
            find (namedBy caller name) (labels w) = found ->
            createLabel caller (Some name) w
            = try_catch
                (match found with
                 | Some _ => answer 400 (Plain (Error "Label name already exists"))
                 | None =>
                     i <- fresh ;;
                     t <- newDate ;;
                     Label_save (Label.mk i (User.id caller) name false t) ;;;
                     answer 200 (LabelCreated "Label created successfully"
                                   (Label.mk i (User.id caller) name false t))
                 end)
                (fun err => log ("Create label error: " +++ err) ;;;
                            answer 500 (Plain (Error "Server error")))
                (set_calls (S (calls w)) w)) as Run.
  { intros found Hf. unfold createLabel. rewrite (verifiedEmail_passes _ V). rewrite T.
    unfold try_catch. unfold bind at 1. unfold Label_findOne.
    rewrite read_returns_first by assumption. cbn [labels set_calls].
    now rewrite Hf. }
  split.
  - intros Hn. rewrite (Run _ Hn). unfold try_catch. unfold Label_save. cbn [Label.name]. rewrite T.
    unfold fresh, newDate, bind, external, answer, ret.
    cbn [nextId now faults calls set_calls set_nextId]. rewrite F1.
    eexists. split; [reflexivity|]. cbn [labels set_labels set_nextId set_calls].
    split; [reflexivity|].
    unfold NamesUnique. cbn [labels set_labels set_nextId set_calls].
    intros N. rewrite map_app. cbn [map].
    apply NoDup_app; trivial.
    + constructor; [intros []|constructor].
    + intros k Hk [<-|[]]. apply in_map_iff in Hk. destruct Hk as [x [Hx Hin]].
      apply (@namedBy_key caller name x); trivial.
      exact (find_none _ _ Hn x Hin).
  - intros old Ho. rewrite (Run _ Ho). unfold try_catch, answer, ret.
    eexists. split; [reflexivity|]. apply sameStores_calls.
Qed.

(** Bob has a label Work, and none called Later. *)
Lemma create_label_once_witness :
  (find (namedBy Scenario.bob "Later") (labels Scenario.mailbox) = None ->
   exists w',
     createLabel Scenario.bob (Some "Later") Scenario.mailbox
     = (Returned (mkAnswer 200
                    (LabelCreated "Label created successfully"
                       (Label.mk (nextId Scenario.mailbox) (User.id Scenario.bob)
                                 "Later" false (now Scenario.mailbox)))), w') /\
     labels w'
     = labels Scenario.mailbox
       ++ [Label.mk (nextId Scenario.mailbox) (User.id Scenario.bob) "Later" false
                    (now Scenario.mailbox)] /\
     (NamesUnique Scenario.mailbox -> NamesUnique w')) /\
  (forall old, find (namedBy Scenario.bob "Later") (labels Scenario.mailbox) = Some old ->
   exists w',
     createLabel Scenario.bob (Some "Later") Scenario.mailbox
     = (Returned (mkAnswer 400 (Plain (Error "Label name already exists"))), w') /\
     sameStores Scenario.mailbox w').
Proof.
  apply (@create_label_once Scenario.bob "bob@x.com").
  - repeat split.
  - reflexivity.
  - intros k _. reflexivity.
Defined.

(** X14. The renaming of a label by its owner: the name is not empty and the
    two calls to the database do not fail. A label that is not a system
    label gets the name, and nothing else changes: it keeps its _id, so
    that the emails that carry it still do. The name is not compared
    with the other labels of the owner. A system label is refused with
    the error 400, and a label of another user, or no label, with 404;
    nothing changes then. *)
Theorem rename_label_in_place (caller : User.t) (me name : string) (l : ObjectId)
    (w : World) :
  Verified caller me -> Js.truthy name = true ->
  (forall k, k < 2 -> faults w (calls w + k) = None) ->
  (forall lab, find (ownedBy caller l) (labels w) = Some lab ->
     Label.isSystemLabel lab = false ->
     exists before after w',
       labels w = before ++ lab :: after /\
       renameLabel caller (Some l) (Some name) w
       = (Returned (mkResponse 200 (Message "Label updated successfully")), w') /\
       labels w' = before ++ renamed name lab :: after /\
       emails w' = emails w) /\
  (forall lab, find (ownedBy caller l) (labels w) = Some lab ->
     Label.isSystemLabel lab = true ->
     exists w',
       renameLabel caller (Some l) (Some name) w
       = (Returned (mkResponse 400 (Error "Cannot modify system label")), w') /\
       sameStores w w') /\
  (find (ownedBy caller l) (labels w) = None ->
   exists w',
     renameLabel caller (Some l) (Some name) w
     = (Returned (mkResponse 404 (Error "Label not found or unauthorized")), w') /\
     sameStores w w').
Proof.
  intros V T F.
  pose proof (F 0 ltac:(lia)) as F0. pose proof (F 1 ltac:(lia)) as F1.
  rewrite Nat.add_0_r in F0. rewrite Nat.add_1_r in F1.
  assert (forall found,
            find (ownedBy caller l) (labels w) = found ->
            renameLabel caller (Some l) (Some name) w
            = try_catch
                (match found with
                 | None => json 404 (Error "Label not found or unauthorized")
                 | Some label =>
                     if Label.isSystemLabel label then
                       json 400 (Error "Cannot modify system label")
                     else
                       matched <- Label_updateOne (ownedBy caller l) (renamed name) ;;
                       if matched =? 0 then
                         json 404 (Error "Label not found or unauthorized")
                       else json 200 (Message "Label updated successfully")
                 end)
                (fun err => log ("Update label error: " +++ err) ;;;
                            json 500 (Error "Server error"))
                (set_calls (S (calls w)) w)) as Run.
  { intros found Hf. unfold renameLabel. rewrite (ensureEmailVerified_passes _ V).
    rewrite T. unfold try_catch. unfold bind at 1. unfold Label_findOne.
    rewrite read_returns_first by assumption. cbn [labels set_calls].
    now rewrite Hf. }
  repeat split.
  - intros lab Hf Hs. rewrite (Run _ Hf), Hs. unfold try_catch.
    destruct (find_split _ _ Hf) as [before [after [E [Hb Hl]]]].
    exists before, after. eexists. split; [exact E|].
    unfold Label_updateOne, bind, external. cbn [faults calls set_calls].
    rewrite F1. cbn [labels set_calls]. rewrite E.
    rewrite (@updateFirst_at _ (ownedBy caller l) (renamed name) before after lab Hb Hl).
    cbn. repeat split.
  - intros lab Hf Hs. rewrite (Run _ Hf), Hs. eexists. split; [reflexivity|].
    apply sameStores_calls.
  - intros Hf. rewrite (Run _ Hf). eexists. split; [reflexivity|].
    apply sameStores_calls.
Qed.

(** Bob renames his label Work, tries his Spam label, and a label he
    does not have. *)
Lemma rename_label_in_place_witness :
  (forall lab, find (ownedBy Scenario.bob 60) (labels Scenario.mailbox) = Some lab ->
     Label.isSystemLabel lab = false ->
     exists before after w',
       labels Scenario.mailbox = before ++ lab :: after /\
       renameLabel Scenario.bob (Some 60) (Some "Job") Scenario.mailbox
       = (Returned (mkResponse 200 (Message "Label updated successfully")), w') /\
       labels w' = before ++ renamed "Job" lab :: after /\
       emails w' = emails Scenario.mailbox) /\
  (forall lab, find (ownedBy Scenario.bob 60) (labels Scenario.mailbox) = Some lab ->
     Label.isSystemLabel lab = true ->
     exists w',
       renameLabel Scenario.bob (Some 60) (Some "Job") Scenario.mailbox
       = (Returned (mkResponse 400 (Error "Cannot modify system label")), w') /\
       sameStores Scenario.mailbox w') /\
  (find (ownedBy Scenario.bob 60) (labels Scenario.mailbox) = None ->
   exists w',
     renameLabel Scenario.bob (Some 60) (Some "Job") Scenario.mailbox
     = (Returned (mkResponse 404 (Error "Label not found or unauthorized")), w') /\
     sameStores Scenario.mailbox w').
Proof.
  apply (@rename_label_in_place Scenario.bob "bob@x.com").
  - repeat split.
  - reflexivity.
  - intros k _. reflexivity.
Defined.

(* ================================================================== *)
(** * Label.ensureSpamLabel *)
(* ================================================================== *)

(** X15. [ensureSpamLabel] gives each user one Spam label: when the two calls
    to the database do not fail it returns a system label named Spam of
    the user, which is stored; it stores a label only when the user had
    none, and then one, after the others; and once it has returned, a
    second call returns the same label and stores nothing. *)
Theorem ensureSpamLabel_once (userId : ObjectId) (w : World) :
  (forall k, k < 3 -> faults w (calls w + k) = None) ->
  exists l w1,
    ensureSpamLabel userId w = (Returned l, w1) /\
    isSpamLabelOf userId l = true /\
    find (isSpamLabelOf userId) (labels w1) = Some l /\
    (find (isSpamLabelOf userId) (labels w) = Some l /\ labels w1 = labels w
     \/ find (isSpamLabelOf userId) (labels w) = None /\ labels w1 = labels w ++ [l]) /\
    exists w2, ensureSpamLabel userId w1 = (Returned l, w2) /\ labels w2 = labels w1.
Proof.
  intros F.
  pose proof (F 0 ltac:(lia)) as F0. pose proof (F 1 ltac:(lia)) as F1.
  pose proof (F 2 ltac:(lia)) as F2.
  rewrite Nat.add_0_r in F0. rewrite Nat.add_1_r in F1.
  replace (calls w + 2) with (S (S (calls w))) in F2 by lia.
  unfold ensureSpamLabel at 1. unfold bind at 1. unfold Label_findOne.
  rewrite read_returns_first by assumption. cbn [labels set_calls].
  destruct (find (isSpamLabelOf userId) (labels w)) as [l|] eqn:Hf.
  - exists l. eexists. split; [reflexivity|]. cbn [labels set_calls].
    split; [exact (proj2 (find_some _ _ Hf))|]. split; [exact Hf|].
    split; [left; auto|].
    unfold ensureSpamLabel, bind, Label_findOne.
    rewrite read_returns_first by exact F1. cbn [labels set_calls]. rewrite Hf.
    eexists. split; reflexivity.
  - set (l := Label.mk (nextId w) userId "Spam" true (now w)).
    assert (isSpamLabelOf userId l = true) as Hl.
    { unfold isSpamLabelOf, l. simpl. now rewrite Nat.eqb_refl. }
    exists l. eexists. split.
    { unfold fresh, newDate, Label_save, bind, external, ret.
      cbn [Label.name Js.truthy faults calls set_calls set_nextId nextId now].
      rewrite F1. reflexivity. }
    cbn [labels set_labels set_calls set_nextId].
    assert (find (isSpamLabelOf userId) (labels w ++ [l]) = Some l) as Hf'.
    { rewrite find_app_none by assumption. simpl. now rewrite Hl. }
    split; [exact Hl|]. split; [exact Hf'|]. split; [right; auto|].
    unfold ensureSpamLabel, bind, Label_findOne.
    rewrite read_returns_first by exact F2.
    cbn [labels set_labels set_calls set_nextId]. fold l. rewrite Hf'.
    eexists. split; reflexivity.
Qed.

(** Carol has no Spam label yet. *)
Lemma ensureSpamLabel_once_witness :
  exists l w1,
    ensureSpamLabel 3 Scenario.mailbox = (Returned l, w1) /\
    isSpamLabelOf 3 l = true /\
    find (isSpamLabelOf 3) (labels w1) = Some l /\
    (find (isSpamLabelOf 3) (labels Scenario.mailbox) = Some l /\
     labels w1 = labels Scenario.mailbox
     \/ find (isSpamLabelOf 3) (labels Scenario.mailbox) = None /\
        labels w1 = labels Scenario.mailbox ++ [l]) /\
    exists w2, ensureSpamLabel 3 w1 = (Returned l, w2) /\ labels w2 = labels w1.
Proof.
  apply ensureSpamLabel_once. intros k _. reflexivity.
Defined.

(* ================================================================== *)
(** * The auto-reply settings *)
(* ================================================================== *)

Lemma find_at {A} (p : A -> bool) (before after : list A) (x : A) :
  find p before = None -> p x = true -> find p (before ++ x :: after) = Some x.
Proof. intros Hb Hx. rewrite find_app_none by exact Hb. simpl. now rewrite Hx. Qed.

Lemma find_app_split {A} (p : A -> bool) (l1 l2 : list A) :
  find p (l1 ++ l2) = match find p l1 with Some x => Some x | None => find p l2 end.
Proof. induction l1 as [|x l1 IH]; simpl; trivial. destruct (p x); trivial. Qed.

Lemma find_skip {A} (p : A -> bool) (before after : list A) (x y : A) :
  p x = false -> p y = false ->
  find p (before ++ x :: after) = find p (before ++ y :: after).
Proof.
  intros Hx Hy. induction before as [|b before IH]; simpl.
  - now rewrite Hx, Hy.
  - destruct (p b); trivial.
Qed.

Lemma ids_before_gen {A} (key : A -> nat) (before after : list A) (e : A) :
  NoDup (map key (before ++ e :: after)) ->
  find (fun x => key x =? key e) before = None.
Proof.
  intros N. rewrite map_app in N. cbn [map] in N. apply NoDup_remove_2 in N.
  apply find_none_iff. intros x Hx. apply Nat.eqb_neq. intros Heq.
  apply N. apply in_or_app. left. rewrite <- Heq. now apply in_map.
Qed.

Lemma setAutoReply_upserts (caller : User.t) (me : string) (b : bool)
    (message : MessageField) (w : World) :
  Verified caller me -> message <> NotText ->
  (forall k, k < 2 -> faults w (calls w + k) = None) ->
  NoDup (map AutoReply.id (autoReplies w)) ->
  exists ar w',
    setAutoReply caller (Some b) message w
    = (Returned (mkAnswer 200 (AutoReplyUpdated "Auto reply settings updated" ar)), w') /\
    configOf w' caller = Some ar /\
    AutoReply.enabled ar = b /\ AutoReply.userId ar = User.id caller /\
    match configOf w caller with
    | Some old =>
        AutoReply.id ar = AutoReply.id old /\
        AutoReply.message ar
        = match message with
          | Text s => if Js.truthy s then s else AutoReply.message old
          | _ => AutoReply.message old
          end /\
        List.length (autoReplies w') = List.length (autoReplies w)
    | None =>
        AutoReply.message ar
        = match message with Text s => s | _ => defaultMessage end /\
        autoReplies w' = autoReplies w ++ [ar]
    end /\
    (forall u, User.id u <> User.id caller -> configOf w' u = configOf w u).
Proof.
  intros V Hm F N.
  pose proof (F 0 ltac:(lia)) as F0. pose proof (F 1 ltac:(lia)) as F1.
  rewrite Nat.add_0_r in F0. rewrite Nat.add_1_r in F1.
  unfold configOf.
  set (p := fun a => AutoReply.userId a =? User.id caller).
  assert (setAutoReply caller (Some b) message w
          = try_catch
              (match find p (autoReplies w) with
               | None =>
                   i <- fresh ;;
                   t <- newDate ;;
                   let autoReply :=
                     AutoReply.mk i (User.id caller) b
                       (match message with Text s => s | _ => defaultMessage end) t in
                   AutoReply_save autoReply ;;;
                   answer 200 (AutoReplyUpdated "Auto reply settings updated" autoReply)
               | Some old =>
                   t <- newDate ;;
                   let autoReply :=
                     AutoReply.mk (AutoReply.id old) (AutoReply.userId old) b
                       (match message with
                        | Text s => if Js.truthy s then s else AutoReply.message old
                        | _ => AutoReply.message old
                        end) t in
                   AutoReply_saveExisting autoReply ;;;
                   answer 200 (AutoReplyUpdated "Auto reply settings updated" autoReply)
               end)
              (fun err => log ("Auto reply error: " +++ err) ;;;
                          answer 500 (Plain (Error "Server error")))
              (set_calls (S (calls w)) w)) as Run.
  { unfold setAutoReply. rewrite (verifiedEmail_passes _ V).
    unfold try_catch.
    destruct message; try congruence; unfold bind at 1; unfold AutoReply_findOne;
      rewrite read_returns_first by assumption; reflexivity. }
  rewrite Run. clear Run. unfold try_catch.
  destruct (find p (autoReplies w)) as [old|] eqn:Hf.
  - destruct (find_split _ _ Hf) as [before [after [E [Hb Ho]]]].
    assert (find (fun x => AutoReply.id x =? AutoReply.id old) before = None) as Hid.
    { apply (@ids_before_gen _ AutoReply.id before after). now rewrite <- E. }
    assert (AutoReply.userId old = User.id caller) as Hu.
    { unfold p in Ho. now apply Nat.eqb_eq in Ho. }
    set (ar := AutoReply.mk (AutoReply.id old) (AutoReply.userId old) b
                 (match message with
                  | Text s => if Js.truthy s then s else AutoReply.message old
                  | _ => AutoReply.message old
                  end) (now w)).
    exists ar. eexists. split.
    { unfold newDate, AutoReply_saveExisting, bind, external, answer, ret.
      cbn [faults calls set_calls now]. rewrite F1.
      cbn [autoReplies set_calls AutoReply.id]. rewrite E. fold ar.
      rewrite (@updateFirst_at _ (fun x => AutoReply.id x =? AutoReply.id old)
                 (fun _ => ar) before after old Hid (Nat.eqb_refl _)).
      reflexivity. }
    cbn [autoReplies set_autoReplies set_calls fst].
    assert (p ar = true) as Hp by exact Ho.
    split; [now apply find_at|]. split; [reflexivity|]. split; [exact Hu|].
    split.
    { split; [reflexivity|]. split; [reflexivity|]. rewrite E, !length_app. reflexivity. }
    intros u Hne. rewrite E. apply find_skip; simpl; rewrite Hu;
      apply Nat.eqb_neq; congruence.
  - set (ar := AutoReply.mk (nextId w) (User.id caller) b
                 (match message with Text s => s | _ => defaultMessage end) (now w)).
    exists ar. eexists. split.
    { unfold fresh, newDate, AutoReply_save, bind, external, answer, ret.
      cbn [faults calls set_calls set_nextId now nextId]. rewrite F1. reflexivity. }
    cbn [autoReplies set_autoReplies set_calls set_nextId].
    split.
    { rewrite find_app_none by exact Hf. simpl. unfold p. simpl.
      now rewrite Nat.eqb_refl. }
    split; [reflexivity|]. split; [reflexivity|]. split; [split; reflexivity|].
    intros u Hne. rewrite find_app_split.
    destruct (find (fun x => AutoReply.userId x =? User.id u) (autoReplies w)); trivial.
    simpl. assert ((User.id caller =? User.id u) = false) as ->; [|reflexivity].
    apply Nat.eqb_neq. congruence.
Qed.

(** X16. POST /auto-reply writes the one setting of the caller: enabled is a
    boolean, the message is a string or absent, the _ids of the stored
    settings are distinct and the two calls to the database do not
    fail. When the caller has a setting it is updated where it is:
    enabled as given, the message as given when it is a string that is
    not empty and as it was otherwise. When the caller has none, one is
    stored after the others: enabled as given, the message as given
    when it is a string (the empty string too) and the default of the
    schema otherwise. Afterwards the setting of the caller is the one
    answered, and the settings of the other users are as they were. *)
Theorem auto_reply_upsert (caller : User.t) (me : string) (b : bool)
    (message : MessageField) (w : World) :
  Verified caller me -> message <> NotText ->
  (forall k, k < 2 -> faults w (calls w + k) = None) ->
  NoDup (map AutoReply.id (autoReplies w)) ->
  exists ar w',
    setAutoReply caller (Some b) message w
    = (Returned (mkAnswer 200 (AutoReplyUpdated "Auto reply settings updated" ar)), w') /\
    configOf w' caller = Some ar /\
    AutoReply.enabled ar = b /\ AutoReply.userId ar = User.id caller /\
    match configOf w caller with
    | Some old =>
        AutoReply.id ar = AutoReply.id old /\
        AutoReply.message ar
        = match message with
          | Text s => if Js.truthy s then s else AutoReply.message old
          | _ => AutoReply.message old
          end /\
        List.length (autoReplies w') = List.length (autoReplies w)
    | None =>
        AutoReply.message ar
        = match message with Text s => s | _ => defaultMessage end /\
        autoReplies w' = autoReplies w ++ [ar]
    end /\
    (forall u, User.id u <> User.id caller -> configOf w' u = configOf w u).
Proof. apply setAutoReply_upserts. Qed.

(** Bob, who is away, turns his auto-reply off and gives no message. *)
Lemma auto_reply_upsert_witness :
  exists ar w',
    setAutoReply Scenario.bob (Some false) NoMessage Scenario.bobAway
    = (Returned (mkAnswer 200 (AutoReplyUpdated "Auto reply settings updated" ar)), w') /\
    configOf w' Scenario.bob = Some ar /\
    AutoReply.enabled ar = false /\ AutoReply.userId ar = User.id Scenario.bob /\
    match configOf Scenario.bobAway Scenario.bob with
    | Some old =>
        AutoReply.id ar = AutoReply.id old /\
        AutoReply.message ar
        = match NoMessage with
          | Text s => if Js.truthy s then s else AutoReply.message old
          | _ => AutoReply.message old
          end /\
        List.length (autoReplies w') = List.length (autoReplies Scenario.bobAway)
    | None =>
        AutoReply.message ar
        = match NoMessage with Text s => s | _ => defaultMessage end /\
        autoReplies w' = autoReplies Scenario.bobAway ++ [ar]
    end /\
    (forall u, User.id u <> User.id Scenario.bob ->
               configOf w' u = configOf Scenario.bobAway u).
Proof.
  apply (@auto_reply_upsert Scenario.bob "bob@x.com").
  - repeat split.
  - discriminate.
  - intros k _. reflexivity.
  - vm_compute. repeat constructor. intros [].
Defined.

(** X17. The switch works on the sends that follow. A user who is the
    identity of an address sets enabled by POST /auto-reply (enabled a
    boolean, the message a string or absent, the _ids of the stored
    settings distinct, the two calls to the database not failing), and
    then a send succeeds. That send stores an auto-reply in the name of
    the address exactly when enabled was set to true, the classifier has
    answered false for the sent copy, and the address is among the
    To-recipients: after enabled is set to false no send is answered in
    the name of the address. The body of such an auto-reply is the
    message just given when that is a string that is not empty. *)
Theorem auto_reply_switch (caller : User.t) (me : string) (b : bool)
    (message : MessageField) (w : World) (a : string)
    (sender : User.t) (req : SendReq.t) (w2 : World) :
  Verified caller me -> message <> NotText ->
  (forall k, k < 2 -> faults w (calls w + k) = None) ->
  NoDup (map AutoReply.id (autoReplies w)) ->
  identityOf w a = Some caller ->
  send sender req (snd (setAutoReply caller (Some b) message w))
  = (Returned sendSuccess, w2) ->
  exists subject v sentCopy rest,
    SendReq.subject req = Some subject /\
    emails w2
    = emails (snd (setAutoReply caller (Some b) message w)) ++ sentCopy :: rest /\
    Classifies (sendAsks (snd (setAutoReply caller (Some b) message w))
                         (SendReq.files req) sentCopy) sentCopy v /\
    ((exists e, In e rest /\ isAutoReply subject e = true /\ Email.sender e = a)
     <-> (b = true /\ v = false /\ In a (toOf req))) /\
    (forall e, In e rest -> isAutoReply subject e = true -> Email.sender e = a ->
       forall s, message = Text s -> Js.truthy s = true -> Email.body e = s).
Proof.
  intros V Hm F N Hid.
  destruct (@setAutoReply_upserts caller me b message w V Hm F N)
    as [ar [w' [Run [Hc [He [Hu [Hold _]]]]]]].
  rewrite Run. cbn [snd]. intros H.
  assert (users w' = users w) as U.
  { pose proof (@keeps_setAutoReply (fun x y => users y = users x)) as K.
    specialize (K ltac:(frame) ltac:(frame) ltac:(frame) ltac:(frame) ltac:(frame)
                  ltac:(frame) caller (Some b) message w).
    now rewrite Run in K. }
  assert (identityOf w' a = Some caller) as Hid'.
  { unfold identityOf in *. now rewrite U. }
  assert (forall v ar', AutoReplies w' req v a ar' -> ar' = ar /\ b = true) as Hone.
  { intros v ar' [_ [_ [u [Hi [Hcf [Hen _]]]]]].
    rewrite Hid' in Hi. injection Hi as <-. rewrite Hc in Hcf. injection Hcf as <-.
    split; [reflexivity|]. now rewrite <- He. }
  apply send_success in H.
  destruct H as [news [me' [subject [body [v [Hem [Hcomp [_ [Hd [_ Hv]]]]]]]]]].
  destruct Hv as [sc [rest [-> Hv]]].
  exists subject, v, sc, rest.
  split; [apply Hcomp|]. split; [exact Hem|]. split; [exact Hv|].
  assert (isAutoReply subject sc = false) as Hs.
  { change (isAutoReply subject sc) with (isAutoReply subject (shape sc)).
    pose proof Hd as Hd'. cbn [map] in Hd'. unfold fanOutDocs, sendDocs in Hd'.
    apply cons_inj in Hd'. destruct Hd' as [Hd1 _]. rewrite Hd1.
    unfold isAutoReply. cbn [Email.subject sentDoc]. apply not_own_reply. }
  split.
  - split.
    + intros [e [Ie [R E]]].
      destruct (proj1 (@fan_out_reply_iff _ _ _ _ _ _ _ Hd a)) as [ar' Har].
      { exists e. split; [now right | auto]. }
      destruct (Hone _ _ Har) as [_ Hb]. destruct Har as [Hvf [Ha _]]. auto.
    + intros [Hb [Hvf Ha]].
      destruct (proj2 (@fan_out_reply_iff _ _ _ _ _ _ _ Hd a)) as [e [Ie [R E]]].
      { exists ar. split; [exact Hvf|]. split; [exact Ha|]. exists caller.
        destruct V as [_ [_ Hver]]. rewrite He. auto. }
      exists e. split; [|auto].
      destruct Ie as [<-|Ie]; [congruence | exact Ie].
  - intros e Ie R E s -> Ts.
    destruct (@fan_out_reply_shape _ _ _ _ _ _ _ Hd e (or_intror Ie) R)
      as [ar' [Har [_ [Hbody _]]]].
    rewrite E in Har. destruct (Hone _ _ Har) as [-> _]. rewrite Hbody.
    destruct (configOf w caller) as [old|].
    + destruct Hold as [_ [Hmsg _]]. now rewrite Hmsg, Ts.
    + destruct Hold as [Hmsg _]. exact Hmsg.
Qed.

(** Bob turns his auto-reply on with a message of his own, and then
    Alice writes to Bob and Carol. *)
Lemma auto_reply_switch_witness :
  exists subject v sentCopy rest,
    SendReq.subject Scenario.hello = Some subject /\
    emails (snd (send Scenario.alice Scenario.hello
                   (snd (setAutoReply Scenario.bob (Some true) (Text "Back on Monday")
                                      Scenario.mailbox))))
    = emails (snd (setAutoReply Scenario.bob (Some true) (Text "Back on Monday")
                                Scenario.mailbox)) ++ sentCopy :: rest /\
    Classifies (sendAsks (snd (setAutoReply Scenario.bob (Some true)
                                            (Text "Back on Monday") Scenario.mailbox))
                         (SendReq.files Scenario.hello) sentCopy) sentCopy v /\
    ((exists e, In e rest /\ isAutoReply subject e = true /\ Email.sender e = "bob@x.com")
     <-> (true = true /\ v = false /\ In "bob@x.com" (toOf Scenario.hello))) /\
    (forall e, In e rest -> isAutoReply subject e = true -> Email.sender e = "bob@x.com" ->
       forall s, Text "Back on Monday" = Text s -> Js.truthy s = true ->
                 Email.body e = s).
Proof.
  apply (@auto_reply_switch Scenario.bob "bob@x.com" true (Text "Back on Monday")
           Scenario.mailbox "bob@x.com" Scenario.alice Scenario.hello).
  - repeat split.
  - discriminate.
  - intros k _. reflexivity.
  - vm_compute. repeat constructor.
  - reflexivity.
  - vm_compute. reflexivity.
Defined.

(* ================================================================== *)
(** * Drafts *)
(* ================================================================== *)

Lemma set_calls_twice (a b : nat) (w : World) :
  set_calls a (set_calls b w) = set_calls a w.
Proof. reflexivity. Qed.

Lemma uploadAll_run (files : list File.t) (w : World) :
  (forall k, k < List.length files -> faults w (calls w + k) = None) ->
  uploadAll files w
  = (Returned (attachmentsOf files), set_calls (calls w + List.length files) w).
Proof.
  revert w. induction files as [|f files IH]; intros w F.
  - simpl. unfold ret. rewrite Nat.add_0_r. now destruct w.
  - cbn [uploadAll]. unfold bind at 1.
    rewrite external_ok.
    2:{ specialize (F 0 ltac:(simpl; lia)). now rewrite Nat.add_0_r in F. }
    unfold bind. rewrite IH.
    2:{ intros k Hk. cbn [faults calls set_calls].
        specialize (F (S k) ltac:(simpl; lia)).
        now replace (S (calls w) + k) with (calls w + S k) by lia. }
    unfold ret. cbn [attachmentsOf map calls set_calls List.length].
    rewrite set_calls_twice. do 2 f_equal. lia.
Qed.



(** X19. A draft without subject or without body is not stored: the subject
    and the body are required by the schema, which refuses the empty
    string that the handler puts for an absent one. The files are
    uploaded, the save is refused, and the answer is the error 500; no
    collection changes. (The caller is verified, the three lists are
    arrays or absent, and the uploads do not fail.) *)
Theorem draft_without_text_fails (caller : User.t) (me : string)
    (req : DraftReq.t) (w : World) :
  Verified caller me ->
  Listed (DraftReq.recipients req) -> Listed (DraftReq.cc req) ->
  Listed (DraftReq.bcc req) ->
  textOrEmpty (DraftReq.subject req) = "" \/ textOrEmpty (DraftReq.body req) = "" ->
  (forall k, k < List.length (DraftReq.files req) -> faults w (calls w + k) = None) ->
  exists w',
    saveDraft caller req w
    = (Returned (mkAnswer 500 (Plain (Error "Server error"))), w') /\
    sameStores w w' /\
    calls w' = calls w + List.length (DraftReq.files req).
Proof.
  intros V Lr Lc Lb Hempty F.
  unfold saveDraft. rewrite (verifiedEmail_passes _ V).
  destruct req as [rf cf bf subj bod files].
  cbn [DraftReq.recipients DraftReq.cc DraftReq.bcc DraftReq.subject DraftReq.body
       DraftReq.files] in *.
  assert (forall rs,
            Js.truthy me && Js.truthy (textOrEmpty subj) && Js.truthy (textOrEmpty bod)
            && forallb Js.truthy rs = false) as Hv.
  { intros rs. destruct Hempty as [-> | ->]; cbn [Js.truthy];
      rewrite ?andb_false_r; reflexivity. }
  destruct Lr as [-> | [rs ->]], Lc as [-> | [cs ->]], Lb as [-> | [bs ->]];
    cbn [unparsable orb arrayOrEmpty] in *;
    unfold try_catch, Email_new, Email_save, set_draftSavedAt;
    unfold bind at 1; (rewrite uploadAll_run by exact F);
    unfold bind, fresh, newDate, ret;
    unfold Email.valid;
    cbn [now nextId set_calls set_nextId Email.sender Email.subject Email.body
         Email.recipients Email.id Email.cc Email.bcc Email.attachments Email.folder
         Email.labels Email.isRead Email.isStarred Email.isSpam Email.sentAt];
    rewrite Hv; unfold throw, log, emit_event, answer, ret;
    (eexists; split; [reflexivity|]; split; [now constructor | reflexivity]).
Qed.

(** Alice saves a draft that has no subject yet. *)
Lemma draft_without_text_fails_witness :
  exists w',
    saveDraft Scenario.alice
      (DraftReq.mk (Array ["bob@x.com"]) Falsy Falsy None (Some "To do") [])
      Scenario.healthy
    = (Returned (mkAnswer 500 (Plain (Error "Server error"))), w') /\
    sameStores Scenario.healthy w' /\
    calls w'
    = calls Scenario.healthy
      + List.length (DraftReq.files
                       (DraftReq.mk (Array ["bob@x.com"]) Falsy Falsy None
                                    (Some "To do") [])).
Proof.
  apply (@draft_without_text_fails Scenario.alice "alice@x.com").
  - repeat split.
  - right. eexists. reflexivity.
  - left. reflexivity.
  - left. reflexivity.
  - left. reflexivity.
  - intros k Hk. simpl in Hk. lia.
Defined.

(* ================================================================== *)
(** * What a reply and a forward store *)
(* ================================================================== *)

Lemma detectSpam_step (email : SpamInput) (sender : string) (w : World) :
  exists v w',
    detectSpam email sender w = (Returned v, w') /\ inert w w' /\
    classified (trace w') = S (classified (trace w)).
Proof.
  destruct (detectSpam_returns email sender w) as [v Hv].
  pose proof (detectSpam_inert email sender w) as I.
  pose proof (detectSpam_classified email sender w) as C.
  destruct (detectSpam email sender w) as [o w']. simpl in *. subst o. eauto.
Qed.

Lemma ensureSpamLabel_step (userId : ObjectId) (w : World) :
  noFaults w ->
  exists l w', ensureSpamLabel userId w = (Returned l, w') /\ untouched w w'.
Proof.
  intros F. destruct (ensureSpamLabel_returns userId F) as [l [w' E]].
  exists l, w'. split; [exact E|].
  assert (keeps untouched (ensureSpamLabel userId)) as K by (quiet_by keeps_ensureSpamLabel).
  specialize (K w). now rewrite E in K.
Qed.

Lemma Email_save_run (e : Email.t) (w : World) :
  faults w (calls w) = None -> Email.valid e = true ->
  Email_save e w
  = (Returned tt, set_emails (emails w ++ [e]) (set_calls (S (calls w)) w)).
Proof.
  intros F V. unfold Email_save. rewrite V. unfold bind. now rewrite external_ok.
Qed.

(** X20. A reply is for the sender of the original alone. A verified caller
    replies to a stored message whose sender resolves to a verified
    identity, and no call fails. Two emails are stored after the others:
    the copy of the caller in the sent folder and the copy of the sender
    of the original, in the spam folder and flagged when the classifier
    says so, in the inbox otherwise: the verdict is the answer of the
    classifier for the copy of the caller and its sender, asked where
    the handler asks it, before anything is stored. Both are from the
    caller, to the
    sender of the original alone -- not to its other recipients, cc or
    bcc --, with the subject after Re: and the text of the request
    before the quoted original (the word undefined when the request has
    no body). The classifier is entered once, and no auto-reply is
    stored, whatever the settings of the sender of the original. *)
Theorem reply_stores_two (caller : User.t) (me : string) (i : ObjectId)
    (orig : Email.t) (body : option string) (files : list File.t) (w : World) :
  Verified caller me -> noFaults w ->
  find (fun e => Email.id e =? i) (emails w) = Some orig ->
  Email.valid orig = true ->
  identityOf w (Email.sender orig) <> None ->
  exists (v : bool) (s c : Email.t) (w' : World),
    reply caller (ReplyReq.mk (Some i) body files) w = (Returned replySuccess, w') /\
    emails w' = emails w ++ [s; c] /\
    shape s
    = Email.mk 0 me [Email.sender orig] [] [] ("Re: " +++ Email.subject orig)
        (interpolate body +++ "<br><br>--- Original Message ---<br>" +++ Email.body orig)
        (attachmentsOf files) sent [] false false false (now w) None /\
    shape c
    = Email.mk 0 me [Email.sender orig] [] [] ("Re: " +++ Email.subject orig)
        (interpolate body +++ "<br><br>--- Original Message ---<br>" +++ Email.body orig)
        (attachmentsOf files) (if v then spam else inbox) [] false false v (now w) None /\
    Classifies (replyAsks w files) s v /\
    classified (trace w') = S (classified (trace w)) /\
    users w' = users w /\ autoReplies w' = autoReplies w.
Proof.
  intros V F Hfind Hvalid Hid.
  destruct (@valid_inv orig Hvalid) as [Ts [Tsub Tbody]].
  pose proof V as [_ [Tme _]].
  unfold reply. rewrite (ensureEmailVerified_passes _ V). cbn [ReplyReq.emailId
    ReplyReq.body ReplyReq.files].
  unfold try_catch. unfold bind at 1. unfold Email_findById, Email_findOne.
  rewrite read_returns_first by apply F. cbn [emails set_calls]. rewrite Hfind.
  unfold bind at 1. unfold User_findOne.
  rewrite read_returns_first by apply F. cbn [users set_calls].
  unfold identityOf in Hid.
  destruct (find (verifiedWithEmail (Email.sender orig)) (users w)) as [ru|];
    [|congruence].
  unfold bind at 1. rewrite uploadAll_run by (intros; apply F).
  cbn [calls set_calls].
  set (reSubject := "Re: " +++ Email.subject orig).
  set (reBody := interpolate body +++ "<br><br>--- Original Message ---<br>"
                   +++ Email.body orig).
  unfold bind at 1. unfold Email_new at 1. unfold bind at 1. unfold fresh at 1.
  unfold bind at 1. unfold newDate at 1. unfold ret at 1.
  cbn [now nextId set_nextId set_calls].
  set (e1 := Email.mk (nextId w) me [Email.sender orig] [] [] reSubject reBody
               (attachmentsOf files) sent [] false false false (now w) None).
  match goal with
  | |- context [bind (detectSpam _ _) _ ?W] => set (w4 := W)
  end.
  destruct (detectSpam_step (Email_view e1) me w4) as [v [w5 [E5 [I5 C5]]]].
  assert (Classifies (replyAsks w files) e1 v) as Hv.
  { unfold Classifies. change (Email.sender e1) with me.
    replace (replyAsks w files) with w4; [now rewrite E5|].
    subst w4. unfold replyAsks, advanced, set_nextId, set_calls.
    destruct w; cbn. rewrite app_nil_r. f_equal; lia. }
  unfold bind at 1. rewrite E5.
  assert (noFaults w5) as F5.
  { intros k. destruct I5 as [_ _ _ _ Hf]. rewrite Hf. apply F. }
  assert (exists lbl w6,
            (if v then l <- ensureSpamLabel (User.id ru) ;; ret (Some l) else ret None) w5
            = (Returned lbl, w6) /\ untouched w5 w6) as [lbl [w6 [E6 U6]]].
  { destruct v.
    - destruct (ensureSpamLabel_step (User.id ru) F5) as [l [w6 [E U]]].
      exists (Some l), w6. unfold bind. rewrite E. auto.
    - exists None, w5. split; [reflexivity | apply untouched_refl]. }
  unfold bind at 1. rewrite E6.
  assert (noFaults w6) as F6.
  { intros k. destruct U6 as [_ _ _ _ _ Hf _]. rewrite Hf. apply F5. }
  assert (Js.truthy reSubject = true) as TS by (apply truthy_append; exact Tsub).
  assert (Js.truthy reBody = true) as TB
    by (apply truthy_append, truthy_append; exact Tbody).
  assert (Email.valid e1 = true) as V1.
  { unfold Email.valid, e1. cbn [Email.sender Email.subject Email.body
      Email.recipients forallb]. now rewrite Tme, Ts, TS, TB. }
  unfold bind at 1. rewrite Email_save_run by (trivial; apply F6).
  set (w7 := set_emails (emails w6 ++ [e1]) (set_calls (S (calls w6)) w6)).
  unfold bind at 1. unfold Email_new at 1. unfold bind at 1. unfold fresh at 1.
  unfold bind at 1. unfold newDate at 1. unfold ret at 1.
  set (w8 := set_nextId (S (nextId w7)) w7).
  set (e2 := Email.mk (nextId w7) me [Email.sender orig] [] [] reSubject reBody
               (attachmentsOf files) (if v then spam else inbox)
               (labelsOf v lbl) false false v (now w8) None).
  assert (Email.valid e2 = true) as V2.
  { unfold Email.valid, e2. cbn [Email.sender Email.subject Email.body
      Email.recipients forallb]. now rewrite Tme, Ts, TS, TB. }
  unfold bind at 1. rewrite Email_save_run by (trivial; apply F6).
  remember (set_emails (emails w8 ++ [e2]) (set_calls (S (calls w8)) w8)) as w9 eqn:Ew9.
  assert (emails w9 = emails w ++ [e1; e2]) as Em.
  { rewrite Ew9. subst w8 w7. cbn [emails set_emails set_calls set_nextId].
    destruct U6 as [_ Ue _ _ _ _ _]. rewrite Ue.
    destruct I5 as [[_ Ie _ _] _ _ _ _]. rewrite Ie.
    subst w4. cbn [emails set_nextId set_calls]. now rewrite <- app_assoc. }
  assert (now w8 = now w) as Hnow.
  { subst w8 w7. cbn [now set_emails set_calls set_nextId].
    destruct U6 as [_ _ _ Un _ _ _]. rewrite Un.
    destruct I5 as [_ _ In5 _ _]. rewrite In5. reflexivity. }
  assert (classified (trace w9) = S (classified (trace w))) as Cl.
  { rewrite Ew9. subst w8 w7. cbn [trace set_emails set_calls set_nextId].
    destruct U6 as [_ _ _ _ _ _ Uc]. rewrite Uc, C5. reflexivity. }
  assert (users w9 = users w /\ autoReplies w9 = autoReplies w) as [Us Ar].
  { rewrite Ew9. subst w8 w7. cbn [users autoReplies set_emails set_calls set_nextId].
    destruct U6 as [Uu _ Ua _ _ _ _]. rewrite Uu, Ua.
    destruct I5 as [[Iu _ _ Ia] _ _ _ _]. rewrite Iu, Ia. split; reflexivity. }
  assert (faults w9 (calls w9) = None) as F9.
  { rewrite Ew9. subst w8 w7. cbn [faults calls set_emails set_calls set_nextId]. apply F6. }
  exists v, e1, e2.
  assert (shape e2
          = Email.mk 0 me [Email.sender orig] [] [] reSubject reBody (attachmentsOf files)
              (if v then spam else inbox) [] false false v (now w) None) as Sh2.
  { unfold shape, e2, Email.set_id, Email.set_labels.
    cbn [Email.id Email.sender Email.recipients Email.cc Email.bcc Email.subject
         Email.body Email.attachments Email.folder Email.labels Email.isRead
         Email.isStarred Email.isSpam Email.sentAt Email.draftSavedAt].
    now rewrite Hnow. }
  unfold bind at 1. unfold get_world at 1. cbn beta iota.
  destruct (io w9) eqn:Io.
  - eexists. split.
    { unfold bind, emit_event, ret. rewrite external_ok by exact F9. reflexivity. }
    cbn [emails users autoReplies trace set_trace set_calls].
    split; [exact Em|]. split; [reflexivity|]. split; [exact Sh2|].
    split; [exact Hv|]. split; [|split; assumption].
    rewrite classified_app. simpl. rewrite Cl. lia.
  - eexists. split.
    { unfold bind, log, emit_event, ret. reflexivity. }
    cbn [emails users autoReplies trace set_trace set_calls].
    split; [exact Em|]. split; [reflexivity|]. split; [exact Sh2|].
    split; [exact Hv|]. split; [|split; assumption].
    rewrite classified_app. simpl. rewrite Cl. lia.
Qed.

(** Mallory replies to the message of Alice to Bob. *)
Lemma reply_stores_two_witness :
  exists (v : bool) (s c : Email.t) (w' : World),
    reply Scenario.mallory (ReplyReq.mk (Some 30) None []) Scenario.mailbox
    = (Returned replySuccess, w') /\
    emails w' = emails Scenario.mailbox ++ [s; c] /\
    shape s
    = Email.mk 0 "mallory@x.com" [Email.sender Scenario.note] [] []
        ("Re: " +++ Email.subject Scenario.note)
        (interpolate None +++ "<br><br>--- Original Message ---<br>"
           +++ Email.body Scenario.note)
        (attachmentsOf []) sent [] false false false (now Scenario.mailbox) None /\
    shape c
    = Email.mk 0 "mallory@x.com" [Email.sender Scenario.note] [] []
        ("Re: " +++ Email.subject Scenario.note)
        (interpolate None +++ "<br><br>--- Original Message ---<br>"
           +++ Email.body Scenario.note)
        (attachmentsOf []) (if v then spam else inbox) [] false false v
        (now Scenario.mailbox) None /\
    Classifies (replyAsks Scenario.mailbox []) s v /\
    classified (trace w') = S (classified (trace Scenario.mailbox)) /\
    users w' = users Scenario.mailbox /\ autoReplies w' = autoReplies Scenario.mailbox.
Proof.
  apply (@reply_stores_two Scenario.mallory "mallory@x.com" 30 Scenario.note None []
                           Scenario.mailbox).
  - repeat split.
  - intros k. reflexivity.
  - reflexivity.
  - reflexivity.
  - vm_compute. discriminate.
Defined.

Lemma sentMore_noFaults (w w' : World) (news : list Email.t) :
  sentMore w w' news -> noFaults w -> noFaults w'.
Proof. intros [[_ _ _ _ _ Hf _] _] F k. simpl in Hf. rewrite Hf. apply F. Qed.

(** One turn of the loop of the forward handler. *)
Lemma forwardTo_step (me fwSubject fwBody : string) (atts : list Attachment.t)
    (v : bool) (rus : list User.t) (a : string) (w : World) :
  noFaults w -> Email.valid (Email.mk 0 me [a] [] [] fwSubject fwBody atts inbox []
                               false false false 0 None) = true ->
  exists e w',
    forwardTo me fwSubject fwBody atts v rus a w = (Returned tt, w') /\
    sentMore w w' [e] /\
    shape e = Email.mk 0 me [a] [] [] fwSubject fwBody atts
                (if v then spam else inbox) [] false false v (now w) None.
Proof.
  intros F Hv. unfold forwardTo.
  destruct (@spamLabelFor_returns v (find (hasEmail a) rus) w F) as [lbl [w1 E1]].
  assert (untouched w w1) as U1.
  { assert (keeps untouched (spamLabelFor v (find (hasEmail a) rus))) as K
      by (quiet_by keeps_spamLabelFor).
    specialize (K w). now rewrite E1 in K. }
  assert (noFaults w1) as F1.
  { intros k. destruct U1 as [_ _ _ _ _ Hf _]. rewrite Hf. apply F. }
  unfold bind at 1. rewrite E1.
  unfold bind at 1. unfold Email_new at 1. unfold bind at 1. unfold fresh at 1.
  unfold bind at 1. unfold newDate at 1. unfold ret at 1.
  set (w2 := set_nextId (S (nextId w1)) w1).
  set (e := Email.mk (nextId w1) me [a] [] [] fwSubject fwBody atts
              (if v then spam else inbox) (labelsOf v lbl) false false v (now w2) None).
  assert (Email.valid e = true) as Ve by exact Hv.
  unfold bind at 1. rewrite Email_save_run by (trivial; apply F1).
  remember (set_emails (emails w2 ++ [e]) (set_calls (S (calls w2)) w2)) as w3 eqn:E3.
  destruct (notify_returns ("recipient " +++ a) a
              (mkNotification me fwSubject (Email.sentAt e) (Some v)) w3) as [w4 E4].
  assert (untouched w3 w4) as U4.
  { assert (keeps untouched (notify ("recipient " +++ a) a
              (mkNotification me fwSubject (Email.sentAt e) (Some v)))) as K
      by (quiet_by keeps_notify).
    specialize (K w3). now rewrite E4 in K. }
  exists e, w4. split; [exact E4|]. split.
  - destruct U1 as [Uu1 Ue1 Ua1 Un1 Ui1 Uf1 Uc1], U4 as [Uu4 Ue4 Ua4 Un4 Ui4 Uf4 Uc4].
    split.
    + constructor; simpl; rewrite ?E3 in *; simpl in *; congruence.
    + rewrite Ue4, E3. simpl. now rewrite Ue1.
  - unfold shape, e, Email.set_id, Email.set_labels.
    cbn [Email.id Email.sender Email.recipients Email.cc Email.bcc Email.subject
         Email.body Email.attachments Email.folder Email.labels Email.isRead
         Email.isStarred Email.isSpam Email.sentAt Email.draftSavedAt].
    subst w2. cbn [now set_nextId]. destruct U1 as [_ _ _ Hn _ _ _]. now rewrite Hn.
Qed.

Lemma forward_loop (me fwSubject fwBody : string) (atts : list Attachment.t)
    (v : bool) (rus : list User.t) (recipients : list string) :
  forall w,
    noFaults w ->
    (forall a, In a recipients ->
       Email.valid (Email.mk 0 me [a] [] [] fwSubject fwBody atts inbox []
                      false false false 0 None) = true) ->
    exists news w',
      forEach recipients (forwardTo me fwSubject fwBody atts v rus) w
      = (Returned tt, w') /\
      sentMore w w' news /\
      map shape news
      = map (fun a => Email.mk 0 me [a] [] [] fwSubject fwBody atts
                        (if v then spam else inbox) [] false false v (now w) None)
            recipients.
Proof.
  induction recipients as [|a rest IH]; intros w F Hv.
  - exists [], w. split; [reflexivity|]. split; [apply sentMore_refl | reflexivity].
  - destruct (@forwardTo_step me fwSubject fwBody atts v rus a w F
                (Hv a (or_introl eq_refl))) as [e [w1 [E1 [S1 Sh1]]]].
    destruct (IH w1 (sentMore_noFaults S1 F) (fun x Hx => Hv x (or_intror Hx)))
      as [news [w2 [E2 [S2 Sh2]]]].
    exists (e :: news), w2. cbn [forEach]. unfold bind. rewrite E1. split; [exact E2|].
    split; [exact (sentMore_trans S1 S2)|].
    cbn [map]. rewrite Sh1, Sh2. rewrite (sentMore_now S1). reflexivity.
Qed.

(** X21. A forward stores the copy of the caller and one copy for each
    recipient. A verified caller forwards a stored message to addresses
    that pass the check of the handler, and no call fails. The emails
    stored after the others are the copy of the caller, in the sent
    folder, to all the recipients, and then, in the order of the
    request, one copy for each recipient, addressed to that recipient
    alone, in the spam folder and flagged when the classifier says so
    and in the inbox otherwise: the one verdict is the answer of the
    classifier for the copy of the caller and its sender, asked where
    the handler asks it, before anything is stored. All carry the
    subject after Fwd:, the
    text of the request before the quoted original, and the attachments
    of the original followed by the uploaded files; none has cc or bcc.
    The classifier is entered once. *)
Theorem forward_stores_copies (caller : User.t) (me : string) (i : ObjectId)
    (orig : Email.t) (recipients : list string) (body : option string)
    (files : list File.t) (w : World) :
  Verified caller me -> noFaults w ->
  find (fun e => Email.id e =? i) (emails w) = Some orig ->
  Email.valid orig = true ->
  recipients <> [] -> forallb Js.truthy recipients = true ->
  List.length (filter (verifiedAmong recipients) (users w)) = List.length recipients ->
  exists (v : bool) (s : Email.t) (copies : list Email.t) (w' : World),
    forward caller (ForwardReq.mk (Some i) (Array recipients) body files) w
    = (Returned forwardSuccess, w') /\
    emails w' = emails w ++ s :: copies /\
    shape s
    = Email.mk 0 me recipients [] [] ("Fwd: " +++ Email.subject orig)
        (match body with Some b => b | None => "" end
           +++ "<br><br>--- Forwarded Message ---<br>" +++ Email.body orig)
        (Email.attachments orig ++ attachmentsOf files) sent [] false false false
        (now w) None /\
    map shape copies
    = map (fun a =>
             Email.mk 0 me [a] [] [] ("Fwd: " +++ Email.subject orig)
               (match body with Some b => b | None => "" end
                  +++ "<br><br>--- Forwarded Message ---<br>" +++ Email.body orig)
               (Email.attachments orig ++ attachmentsOf files)
               (if v then spam else inbox) [] false false v (now w) None)
          recipients /\
    Classifies (replyAsks w files) s v /\
    classified (trace w') = S (classified (trace w)) /\
    users w' = users w /\ autoReplies w' = autoReplies w.
Proof.
  intros V F Hfind Hvalid Hne Htr Hlen.
  destruct (@valid_inv orig Hvalid) as [Ts [Tsub Tbody]].
  pose proof V as [_ [Tme _]].
  unfold forward. rewrite (ensureEmailVerified_passes _ V).
  cbn [ForwardReq.emailId ForwardReq.recipients ForwardReq.body ForwardReq.files].
  destruct recipients as [|r rs]; [congruence|].
  set (recipients := r :: rs) in *.
  unfold try_catch. unfold bind at 1. unfold Email_findById, Email_findOne.
  rewrite read_returns_first by apply F. cbn [emails set_calls]. rewrite Hfind.
  unfold bind at 1. unfold User_find.
  rewrite read_returns_first by apply F. cbn [users set_calls].
  rewrite Hlen, Nat.eqb_refl. cbn [negb].
  unfold bind at 1. rewrite uploadAll_run by (intros; apply F).
  cbn [calls set_calls].
  set (fwSubject := "Fwd: " +++ Email.subject orig).
  set (fwBody := match body with Some b => b | None => "" end
                   +++ "<br><br>--- Forwarded Message ---<br>" +++ Email.body orig).
  set (atts := Email.attachments orig ++ attachmentsOf files).
  set (rus := filter (verifiedAmong recipients) (users w)).
  assert (Js.truthy fwSubject = true) as TS by (apply truthy_append; exact Tsub).
  assert (Js.truthy fwBody = true) as TB
    by (apply truthy_append, truthy_append; exact Tbody).
  unfold bind at 1. unfold Email_new at 1. unfold bind at 1. unfold fresh at 1.
  unfold bind at 1. unfold newDate at 1. unfold ret at 1.
  cbn [now nextId set_nextId set_calls].
  set (e1 := Email.mk (nextId w) me recipients [] [] fwSubject fwBody atts sent []
               false false false (now w) None).
  match goal with
  | |- context [bind (detectSpam _ _) _ ?W] => set (w4 := W)
  end.
  destruct (detectSpam_step (Email_view e1) me w4) as [v [w5 [E5 [I5 C5]]]].
  assert (Classifies (replyAsks w files) e1 v) as Hv.
  { unfold Classifies. change (Email.sender e1) with me.
    replace (replyAsks w files) with w4; [now rewrite E5|].
    subst w4. unfold replyAsks, advanced, set_nextId, set_calls.
    destruct w; cbn. rewrite app_nil_r. f_equal; lia. }
  unfold bind at 1. rewrite E5.
  assert (noFaults w5) as F5.
  { intros k. destruct I5 as [_ _ _ _ Hf]. rewrite Hf. apply F. }
  assert (Email.valid e1 = true) as V1.
  { unfold Email.valid, e1. cbn [Email.sender Email.subject Email.body Email.recipients].
    now rewrite Tme, TS, TB, Htr. }
  unfold bind at 1. rewrite Email_save_run by (trivial; apply F5).
  remember (set_emails (emails w5 ++ [e1]) (set_calls (S (calls w5)) w5)) as w6 eqn:E6.
  assert (noFaults w6) as F6 by (rewrite E6; exact F5).
  destruct (@forward_loop me fwSubject fwBody atts v rus recipients w6 F6)
    as [news [w7 [E7 [S7 Sh7]]]].
  { intros a Ha. unfold Email.valid.
    cbn [Email.sender Email.subject Email.body Email.recipients forallb].
    rewrite Tme, TS, TB. cbn [andb]. rewrite andb_true_r.
    exact (proj1 (forallb_forall Js.truthy recipients) Htr a Ha). }
  unfold bind at 1. rewrite E7. unfold ret.
  assert (now w6 = now w) as Hnow.
  { rewrite E6. cbn [now set_emails set_calls].
    destruct I5 as [_ _ In5 _ _]. now rewrite In5. }
  assert (emails w6 = emails w ++ [e1]) as Em6.
  { rewrite E6. cbn [emails set_emails set_calls].
    destruct I5 as [[_ Ie _ _] _ _ _ _]. now rewrite Ie. }
  exists v, e1, news, w7. split; [reflexivity|].
  destruct S7 as [U7 Em7]. destruct U7 as [Uu _ Ua _ _ _ Uc]. simpl in Uu, Ua, Uc.
  split; [rewrite Em7, Em6, <- app_assoc; reflexivity|].
  split; [reflexivity|].
  split; [rewrite Sh7, Hnow; reflexivity|].
  split; [exact Hv|].
  split.
  { rewrite Uc, E6. cbn [trace set_emails set_calls]. exact C5. }
  split.
  - rewrite Uu, E6. cbn [users set_emails set_calls].
    destruct I5 as [[Iu _ _ _] _ _ _ _]. now rewrite Iu.
  - rewrite Ua, E6. cbn [autoReplies set_emails set_calls].
    destruct I5 as [[_ _ _ Ia] _ _ _ _]. now rewrite Ia.
Qed.

Lemma nodup_length_le (l : list string) :
  List.length (nodup string_dec l) <= List.length l.
Proof.
  induction l as [|a l IH]; simpl; trivial.
  destruct (in_dec string_dec a l); simpl; lia.
Qed.

Lemma nodup_shorter (l : list string) :
  ~ NoDup l -> List.length (nodup string_dec l) < List.length l.
Proof.
  induction l as [|a l IH]; intros H.
  - exfalso. apply H. constructor.
  - simpl. destruct (in_dec string_dec a l) as [Hin|Hout].
    + pose proof (nodup_length_le l). lia.
    + simpl. apply -> Nat.succ_lt_mono. apply IH. intros N. apply H. now constructor.
Qed.

Lemma addressBook_filter (p : User.t -> bool) (us : list User.t) :
  NoDup (addressBook us) -> NoDup (addressBook (filter p us)).
Proof.
  unfold addressBook. induction us as [|u us IH]; simpl; trivial.
  intros N. destruct (User.email u) as [e|] eqn:E.
  - simpl in N. inversion N as [|? ? Hn N']; subst.
    destruct (p u); [|now apply IH]. simpl. rewrite E. simpl. constructor; [|now apply IH].
    intros Hin. apply Hn. apply in_flat_map in Hin. destruct Hin as [x [Hx Hin]].
    apply in_flat_map. exists x. split; trivial.
    apply filter_In in Hx. tauto.
  - simpl in N. destruct (p u); [|now apply IH]. simpl. rewrite E. simpl. now apply IH.
Qed.

Lemma matched_in_book (rs : list string) (us : list User.t) :
  List.length (addressBook (filter (verifiedAmong rs) us))
  = List.length (filter (verifiedAmong rs) us) /\
  incl (addressBook (filter (verifiedAmong rs) us)) rs.
Proof.
  unfold addressBook. induction us as [|u us [IH1 IH2]]; simpl.
  - split; [reflexivity | intros x []].
  - destruct (verifiedAmong rs u) eqn:M; [|split; assumption].
    unfold verifiedAmong in M. destruct (User.email u) as [e|] eqn:E; [|discriminate].
    apply andb_true_iff in M. destruct M as [M _].
    simpl. rewrite E. simpl. split; [f_equal; exact IH1|].
    intros x [<-|Hx]; [|now apply IH2].
    apply existsb_exists in M. destruct M as [y [Hy Hxy]].
    apply String.eqb_eq in Hxy. now subst.
Qed.

(** X22. A forward to a list that names an address twice is refused: the
    handler compares the number of verified users found with the number
    of recipients. When the users have distinct addresses and an
    address occurs twice among the recipients, the answer is the error
    400 of the recipients that are not found, even if every address is
    verified, and nothing is stored. (The two lookups do not fail.) *)
Theorem forward_repeated_recipient_refused (caller : User.t) (me : string)
    (i : ObjectId) (orig : Email.t) (recipients : list string)
    (body : option string) (files : list File.t) (w : World) :
  Verified caller me ->
  (forall k, k < 2 -> faults w (calls w + k) = None) ->
  find (fun e => Email.id e =? i) (emails w) = Some orig ->
  NoDup (addressBook (users w)) ->
  ~ NoDup recipients ->
  exists w',
    forward caller (ForwardReq.mk (Some i) (Array recipients) body files) w
    = (Returned (mkResponse 400 (Error "Some recipients not found or unverified")), w') /\
    sameStores w w'.
Proof.
  intros V F Hfind Hbook Hdup.
  pose proof (F 0 ltac:(lia)) as F0. pose proof (F 1 ltac:(lia)) as F1.
  rewrite Nat.add_0_r in F0. rewrite Nat.add_1_r in F1.
  destruct recipients as [|r rs]; [exfalso; apply Hdup; constructor|].
  set (recipients := r :: rs) in *.
  assert (List.length (filter (verifiedAmong recipients) (users w))
          < List.length recipients) as Hlt.
  { destruct (matched_in_book recipients (users w)) as [L I].
    rewrite <- L.
    apply Nat.le_lt_trans with (List.length (nodup string_dec recipients));
      [|now apply nodup_shorter].
    apply NoDup_incl_length; [now apply addressBook_filter|].
    intros x Hx. apply nodup_In. now apply I. }
  unfold forward. rewrite (ensureEmailVerified_passes _ V).
  subst recipients.
  cbn [ForwardReq.emailId ForwardReq.recipients ForwardReq.body ForwardReq.files].
  unfold try_catch. unfold bind at 1. unfold Email_findById, Email_findOne.
  rewrite read_returns_first by assumption. cbn [emails set_calls]. rewrite Hfind.
  unfold bind at 1. unfold User_find.
  rewrite read_returns_first by exact F1. cbn [users set_calls].
  assert ((List.length (filter (verifiedAmong (r :: rs)) (users w))
           =? List.length (r :: rs)) = false) as ->.
  { apply Nat.eqb_neq. lia. }
  cbn [negb]. eexists. split; [reflexivity|]. now constructor.
Qed.

(** Mallory forwards the message of Alice to Bob, twice to Carol. *)
Lemma forward_repeated_recipient_refused_witness :
  exists w',
    forward Scenario.mallory
      (ForwardReq.mk (Some 30) (Array ["carol@x.com"; "carol@x.com"]) None [])
      Scenario.mailbox
    = (Returned (mkResponse 400 (Error "Some recipients not found or unverified")), w') /\
    sameStores Scenario.mailbox w'.
Proof.
  apply (@forward_repeated_recipient_refused Scenario.mallory "mallory@x.com" 30
           Scenario.note).
  - repeat split.
  - intros k _. reflexivity.
  - reflexivity.
  - vm_compute. repeat constructor; simpl; intuition discriminate.
  - intros N. inversion N as [|? ? Hn _]. apply Hn. now left.
Defined.

(** Mallory forwards the message of Alice to Bob, to Carol and Alice. *)
Lemma forward_stores_copies_witness :
  exists (v : bool) (s : Email.t) (copies : list Email.t) (w' : World),
    forward Scenario.mallory
      (ForwardReq.mk (Some 30) (Array ["carol@x.com"; "alice@x.com"]) (Some "FYI") [])
      Scenario.mailbox
    = (Returned forwardSuccess, w') /\
    emails w' = emails Scenario.mailbox ++ s :: copies /\
    shape s
    = Email.mk 0 "mallory@x.com" ["carol@x.com"; "alice@x.com"] [] []
        ("Fwd: " +++ Email.subject Scenario.note)
        (match Some "FYI" with Some b => b | None => "" end
           +++ "<br><br>--- Forwarded Message ---<br>" +++ Email.body Scenario.note)
        (Email.attachments Scenario.note ++ attachmentsOf []) sent [] false false false
        (now Scenario.mailbox) None /\
    map shape copies
    = map (fun a =>
             Email.mk 0 "mallory@x.com" [a] [] []
               ("Fwd: " +++ Email.subject Scenario.note)
               (match Some "FYI" with Some b => b | None => "" end
                  +++ "<br><br>--- Forwarded Message ---<br>"
                  +++ Email.body Scenario.note)
               (Email.attachments Scenario.note ++ attachmentsOf [])
               (if v then spam else inbox) [] false false v (now Scenario.mailbox) None)
          ["carol@x.com"; "alice@x.com"] /\
    Classifies (replyAsks Scenario.mailbox []) s v /\
    classified (trace w') = S (classified (trace Scenario.mailbox)) /\
    users w' = users Scenario.mailbox /\ autoReplies w' = autoReplies Scenario.mailbox.
Proof.
  apply (@forward_stores_copies Scenario.mallory "mallory@x.com" 30 Scenario.note).
  - repeat split.
  - intros k. reflexivity.
  - reflexivity.
  - reflexivity.
  - discriminate.
  - reflexivity.
  - reflexivity.
Defined.
(* ================================================================== *)
(** * Regular expressions: how the matcher runs *)
(* ================================================================== *)

Lemma exec_Eps (f : nat) (s : list ascii) (k : list ascii -> bool) :
  Regex.exec f Regex.Eps s k = k s.
Proof. destruct f; reflexivity. Qed.

Lemma exec_Chars (f : nat) (p : ascii -> bool) (s : list ascii)
    (k : list ascii -> bool) :
  Regex.exec f (Regex.Chars p) s k
  = match s with c :: rest => p c && k rest | [] => false end.
Proof. destruct f; reflexivity. Qed.

Lemma exec_Cat (f : nat) (a b : Regex.t) (s : list ascii)
    (k : list ascii -> bool) :
  Regex.exec f (Regex.Cat a b) s k
  = Regex.exec f a s (fun rest => Regex.exec f b rest k).
Proof. destruct f; reflexivity. Qed.

Lemma exec_Alt (f : nat) (a b : Regex.t) (s : list ascii)
    (k : list ascii -> bool) :
  Regex.exec f (Regex.Alt a b) s k = Regex.exec f a s k || Regex.exec f b s k.
Proof. destruct f; reflexivity. Qed.

Lemma exec_Opt (f : nat) (a : Regex.t) (s : list ascii)
    (k : list ascii -> bool) :
  Regex.exec f (Regex.Opt a) s k = Regex.exec f a s k || k s.
Proof. destruct f; reflexivity. Qed.

Lemma exec_Ahead (f : nat) (a : Regex.t) (s : list ascii)
    (k : list ascii -> bool) :
  Regex.exec f (Regex.Ahead a) s k
  = Regex.exec f a s (fun _ => true) && k s.
Proof. destruct f; reflexivity. Qed.

Lemma exec_Star_chars (f : nat) (p : ascii -> bool) (s : list ascii)
    (k : list ascii -> bool) :
  Regex.exec (S f) (Regex.Star (Regex.Chars p)) s k
  = match s with
    | c :: rest => p c && Regex.exec f (Regex.Star (Regex.Chars p)) rest k
    | [] => false
    end || k s.
Proof.
  destruct s as [|c rest]; [reflexivity|].
  cbn [Regex.exec]. f_equal. f_equal.
  replace (List.length rest <? List.length (c :: rest)) with true; [reflexivity|].
  symmetry. apply Nat.ltb_lt. simpl. lia.
Qed.

(** [a{n}] of a class takes [n] characters of the class. *)
Lemma exec_times (f : nat) (p : ascii -> bool) (k : list ascii -> bool)
    (n : nat) (s : list ascii) :
  Regex.exec f (Regex.times n (Regex.Chars p)) s k = true
  <-> exists pre post, s = pre ++ post /\ List.length pre = n
                       /\ forallb p pre = true /\ k post = true.
Proof.
  revert s. induction n as [|n IH]; intros s; cbn [Regex.times].
  - rewrite exec_Eps. split.
    + intros H. exists [], s. auto.
    + intros (pre & post & -> & L & _ & K).
      destruct pre; [assumption | discriminate].
  - rewrite exec_Cat, exec_Chars. destruct s as [|c rest].
    + split; [discriminate|].
      intros (pre & post & E & L & _). destruct pre; discriminate.
    + rewrite andb_true_iff, IH. split.
      * intros (Pc & pre & post & -> & L & A & K).
        exists (c :: pre), post. simpl. rewrite Pc, A. auto.
      * intros (pre & post & E & L & A & K).
        destruct pre as [|c' pre]; [discriminate|].
        simpl in E, L, A. injection E as -> ->.
        apply andb_true_iff in A as [Pc A].
        split; [assumption|]. exists pre, post. auto.
Qed.

(** [a{0,n}] of a class takes at most [n] of them. *)
Lemma exec_upTo (f : nat) (p : ascii -> bool) (k : list ascii -> bool)
    (n : nat) (s : list ascii) :
  Regex.exec f (Regex.upTo n (Regex.Chars p)) s k = true
  <-> exists pre post, s = pre ++ post /\ List.length pre <= n
                       /\ forallb p pre = true /\ k post = true.
Proof.
  revert s. induction n as [|n IH]; intros s; cbn [Regex.upTo].
  - rewrite exec_Eps. split.
    + intros H. exists [], s. auto.
    + intros (pre & post & -> & L & _ & K).
      destruct pre; [assumption | simpl in L; lia].
  - rewrite exec_Opt, exec_Cat, exec_Chars, orb_true_iff. split.
    + intros [H|H].
      * destruct s as [|c rest]; [discriminate|].
        apply andb_true_iff in H as [Pc H].
        apply IH in H as (pre & post & -> & L & A & K).
        exists (c :: pre), post. simpl. rewrite Pc, A.
        repeat split; auto. lia.
      * exists [], s. simpl. repeat split; auto. lia.
    + intros (pre & post & -> & L & A & K).
      destruct pre as [|c pre]; [right; assumption|].
      left. simpl in *. apply andb_true_iff in A as [Pc A].
      rewrite Pc. simpl. apply IH. exists pre, post.
      repeat split; auto. lia.
Qed.

(** [a*] of a class takes any number of them, given fuel for the text. *)
Lemma exec_Star (p : ascii -> bool) (k : list ascii -> bool)
    (f : nat) (s : list ascii) :
  List.length s <= f ->
  (Regex.exec f (Regex.Star (Regex.Chars p)) s k = true
   <-> exists pre post, s = pre ++ post /\ forallb p pre = true
                        /\ k post = true).
Proof.
  revert s. induction f as [|f IH]; intros s L.
  - destruct s; [|simpl in L; lia]. cbn [Regex.exec]. split.
    + intros K. exists [], []. auto.
    + intros (pre & post & E & _ & K).
      symmetry in E. apply app_eq_nil in E as [_ ->]. assumption.
  - rewrite exec_Star_chars, orb_true_iff. split.
    + intros [H|H].
      * destruct s as [|c rest]; [discriminate|].
        apply andb_true_iff in H as [Pc H].
        apply IH in H as (pre & post & -> & A & K); [|simpl in L; lia].
        exists (c :: pre), post. simpl. rewrite Pc, A. auto.
      * exists [], s. auto.
    + intros (pre & post & -> & A & K).
      destruct pre as [|c pre]; [right; assumption|].
      left. simpl in *. apply andb_true_iff in A as [Pc A].
      rewrite Pc. simpl. apply IH; [lia|]. exists pre, post. auto.
Qed.

Lemma atEnd_nil (s : list ascii) : Regex.atEnd s = true <-> s = [].
Proof. destruct s; simpl; split; intros; congruence. Qed.

Lemma length_list_ascii (s : string) :
  List.length (list_ascii_of_string s) = String.length s.
Proof. induction s; simpl; congruence. Qed.

(** A literal word matches as [prefix] tells. *)
Lemma exec_word (f : nat) (w l : list ascii) :
  Regex.exec f (Regex.word w) l (fun _ => true)
  = prefix (string_of_list_ascii w) (string_of_list_ascii l).
Proof.
  revert l. induction w as [|c w IH]; intros l; cbn [Regex.word].
  - rewrite exec_Eps. destruct l; reflexivity.
  - rewrite exec_Cat, exec_Chars. destruct l as [|x l]; [reflexivity|].
    simpl. destruct (ascii_dec c x) as [->|N].
    + rewrite Ascii.eqb_refl. apply IH.
    + apply Ascii.eqb_neq in N. rewrite N. reflexivity.
Qed.

Lemma exec_lit (f : nat) (w s : string) :
  Regex.exec f (Regex.lit w) (list_ascii_of_string s) (fun _ => true)
  = prefix w s.
Proof.
  unfold Regex.lit. rewrite exec_word.
  now rewrite !string_of_list_ascii_of_string.
Qed.

Lemma search_filetypes (f : nat) (s : string) :
  Regex.searchFrom f filetypes (list_ascii_of_string s) = mentionsFiletype s.
Proof.
  unfold mentionsFiletype, filetypes. induction s as [|c s IH].
  - cbn [list_ascii_of_string Regex.searchFrom].
    rewrite !exec_Alt.
    change (@nil ascii) with (list_ascii_of_string EmptyString).
    rewrite !exec_lit. reflexivity.
  - cbn [list_ascii_of_string Regex.searchFrom]. rewrite IH.
    rewrite !exec_Alt.
    change (c :: list_ascii_of_string s) with (list_ascii_of_string (String c s)).
    rewrite !exec_lit. cbn [existsb Js.includes].
    repeat match goal with
           | |- context [prefix ?a ?b] => destruct (prefix a b)
           end;
    repeat match goal with
           | |- context [Js.includes ?a ?b] => destruct (Js.includes a b)
           end; reflexivity.
Qed.

(** X23. The pattern of the upload filter has no anchor: the filter lets a
    file through exactly when its MIME type and the last dot-segment of
    its lower-cased name each contain jpeg, jpg, png or pdf somewhere. *)
Theorem upload_filter_is_substring_test (mimetype originalname : string) :
  fileFilter mimetype originalname
  = mentionsFiletype mimetype
    && mentionsFiletype (Js.splitDotPop (Js.toLowerCase originalname)).
Proof.
  unfold fileFilter, Regex.test. now rewrite !search_filetypes.
Qed.

(* ================================================================== *)
(** * The validators of the account routes *)
(* ================================================================== *)

Lemma phoneRegex_digits (f : nat) (l : list ascii) :
  Regex.exec f (Regex.range 10 12 (Regex.Chars Regex.digit)) l Regex.atEnd = true
  <-> 10 <= List.length l <= 12 /\ forallb Regex.digit l = true.
Proof.
  unfold Regex.range. rewrite exec_Cat, exec_times. split.
  - intros (pre & post & -> & L & A & K).
    apply exec_upTo in K as (pre' & post' & -> & L' & A' & K').
    apply atEnd_nil in K'. subst post'. rewrite app_nil_r.
    rewrite length_app, forallb_app, A, A'. simpl in L'. split; [lia|reflexivity].
  - intros [L A].
    exists (firstn 10 l), (skipn 10 l).
    rewrite firstn_skipn. split; [reflexivity|].
    rewrite <- (firstn_skipn 10 l), forallb_app in A.
    apply andb_true_iff in A as [A1 A2].
    split; [rewrite length_firstn; lia|]. split; [assumption|].
    apply exec_upTo. exists (skipn 10 l), []. rewrite app_nil_r.
    repeat split; auto. rewrite length_skipn. simpl. lia.
Qed.

(** X24. [validatePhone] accepts exactly ten to twelve decimal digits with
    at most one plus sign in front; an absent phone is refused. *)
Theorem validatePhone_shape (phone : option string) :
  Auth.validatePhone phone = true
  <-> exists digits,
        (phone = Some digits \/ phone = Some ("+" +++ digits))
        /\ 10 <= String.length digits <= 12
        /\ everyChar Regex.digit digits = true.
Proof.
  unfold Auth.validatePhone, Regex.testAnchored, Auth.phoneRegex, everyChar.
  rewrite exec_Cat, exec_Opt, exec_Chars, orb_true_iff.
  set (f := S _). split.
  - intros H.
    assert (exists digits,
              (Auth.textOf phone = digits \/ Auth.textOf phone = "+" +++ digits)
              /\ 10 <= String.length digits <= 12
              /\ forallb Regex.digit (list_ascii_of_string digits) = true)
      as (d & E & L & A).
    { destruct H as [H|H].
      - destruct (Auth.textOf phone) as [|c rest] eqn:E; [discriminate|].
        cbn [list_ascii_of_string] in H.
        apply andb_true_iff in H as [Pc H].
        apply Ascii.eqb_eq in Pc. subst c.
        apply phoneRegex_digits in H. rewrite length_list_ascii in H.
        exists rest. split; [right; reflexivity | exact H].
      - apply phoneRegex_digits in H. rewrite length_list_ascii in H.
        exists (Auth.textOf phone). split; [left; reflexivity | exact H]. }
    destruct phone as [s|]; cbn [Auth.textOf] in E.
    + exists d. split; [|split; assumption].
      destruct E as [->| ->]; [left|right]; reflexivity.
    + exfalso. destruct E as [E|E].
      * subst d. vm_compute in A. discriminate.
      * cbn in E. discriminate.
  - intros (d & [->| ->] & L & A); cbn [Auth.textOf].
    + right. apply phoneRegex_digits. now rewrite length_list_ascii.
    + left.
      change (list_ascii_of_string ("+" +++ d))
        with ("+"%char :: list_ascii_of_string d).
      cbv beta iota. rewrite Ascii.eqb_refl. cbn [andb].
      apply phoneRegex_digits. now rewrite length_list_ascii.
Qed.

Lemma allowed_dot (c : ascii) : Auth.allowed c = true -> Regex.dot c = true.
Proof.
  destruct c as [[] [] [] [] [] [] [] []]; vm_compute; intros H;
    first [reflexivity | discriminate H].
Qed.

Lemma forallb_allowed_dot (l : list ascii) :
  forallb Auth.allowed l = true -> forallb Regex.dot l = true.
Proof.
  induction l as [|c l IH]; simpl; [trivial|].
  rewrite !andb_true_iff. intros [A B]. split; [now apply allowed_dot | auto].
Qed.

(** [(?=.*c)] on a text without line ends: some character is a [c]. *)
Lemma exec_somewhere (p : ascii -> bool) (k : list ascii -> bool)
    (f : nat) (l : list ascii) :
  List.length l <= f ->
  forallb Regex.dot l = true ->
  Regex.exec f (Auth.somewhere p) l k = existsb p l && k l.
Proof.
  intros L D. unfold Auth.somewhere. rewrite exec_Ahead. f_equal.
  rewrite exec_Cat.
  destruct (existsb p l) eqn:E.
  - apply exec_Star; [assumption|].
    apply existsb_exists in E as (c & I & Pc).
    apply in_split in I as (pre & post & ->).
    exists pre, (c :: post). rewrite forallb_app in D.
    apply andb_true_iff in D as [D _].
    rewrite exec_Chars, Pc. auto.
  - apply not_true_is_false. intros H.
    apply exec_Star in H as (pre & post & -> & _ & K); [|assumption].
    rewrite exec_Chars in K. destruct post as [|c post]; [discriminate|].
    apply andb_true_iff in K as [Pc _].
    rewrite existsb_app in E. simpl in E. rewrite Pc in E.
    rewrite orb_true_r in E. discriminate.
Qed.

Lemma exec_atLeast (p : ascii -> bool) (n f : nat) (l : list ascii) :
  List.length l <= f ->
  (Regex.exec f (Regex.atLeast n (Regex.Chars p)) l Regex.atEnd = true
   <-> n <= List.length l /\ forallb p l = true).
Proof.
  intros L. unfold Regex.atLeast. rewrite exec_Cat, exec_times. split.
  - intros (pre & post & -> & Ln & A & K).
    rewrite length_app in L.
    apply exec_Star in K as (pre' & post' & -> & A' & K'); [|lia].
    apply atEnd_nil in K'. subst post'. rewrite app_nil_r.
    rewrite length_app, forallb_app, A, A'. split; [lia|reflexivity].
  - intros [Ln A].
    exists (firstn n l), (skipn n l). rewrite firstn_skipn.
    split; [reflexivity|].
    rewrite <- (firstn_skipn n l), forallb_app in A.
    apply andb_true_iff in A as [A1 A2].
    split; [rewrite length_firstn; lia|]. split; [assumption|].
    apply exec_Star; [rewrite length_skipn; lia|].
    exists (skipn n l), []. rewrite app_nil_r. auto.
Qed.

Lemma strongRegex_test (s : string) :
  Regex.testAnchored Auth.strongRegex s
  = (8 <=? String.length s) && everyChar Auth.allowed s
    && someChar Regex.lower s && someChar Regex.upper s
    && someChar Regex.digit s && someChar (Regex.oneOf Auth.special) s.
Proof.
  unfold Regex.testAnchored, Auth.strongRegex, everyChar, someChar.
  rewrite <- length_list_ascii.
  set (l := list_ascii_of_string s). set (f := S (List.length l)).
  assert (List.length l <= f) as L by (unfold f; lia).
  destruct (forallb Auth.allowed l) eqn:A.
  - pose proof (forallb_allowed_dot _ A) as D.
    do 4 (rewrite exec_Cat, exec_somewhere by assumption; cbv beta).
    assert (Regex.exec f (Regex.atLeast 8 (Regex.Chars Auth.allowed)) l Regex.atEnd
            = (8 <=? List.length l)) as ->.
    { destruct (8 <=? List.length l) eqn:E.
      - apply exec_atLeast; [assumption|]. apply Nat.leb_le in E. auto.
      - apply not_true_is_false. intros H.
        apply exec_atLeast in H as [H _]; [|assumption].
        apply Nat.leb_gt in E. lia. }
    destruct (existsb Regex.lower l), (existsb Regex.upper l),
      (existsb Regex.digit l), (existsb (Regex.oneOf Auth.special) l),
      (8 <=? List.length l); reflexivity.
  - rewrite andb_false_r. cbn [andb].
    apply not_true_is_false. intros H.
    assert (forall p k, Regex.exec f (Auth.somewhere p) l k = true -> k l = true) as Skip.
    { intros p k. unfold Auth.somewhere. rewrite exec_Ahead.
      intros X. now apply andb_true_iff in X as [_ X]. }
    do 4 (rewrite exec_Cat in H; apply Skip in H; cbv beta in H).
    apply exec_atLeast in H as [_ H]; [|assumption]. congruence.
Qed.

(** X25. A password is rated Strong exactly when it has eight characters or
    more, all of them letters, digits or one of the seven signs, and a
    small letter, a capital, a digit and a sign among them. A password
    with any other character is rated weak. *)
Theorem strong_password_shape (password : string) :
  Auth.checkPasswordStrength password = "Strong"
  <-> 8 <= String.length password
      /\ everyChar Auth.allowed password = true
      /\ someChar Regex.lower password = true
      /\ someChar Regex.upper password = true
      /\ someChar Regex.digit password = true
      /\ someChar (Regex.oneOf Auth.special) password = true.
Proof.
  unfold Auth.checkPasswordStrength. rewrite strongRegex_test.
  destruct (_ && _) eqn:E.
  - split; [intros _ | reflexivity].
    repeat (apply andb_true_iff in E as [E ?]).
    apply Nat.leb_le in E. auto 10.
  - split; [discriminate|].
    intros (L & A & B & C & D & F).
    apply Nat.leb_le in L. rewrite L, A, B, C, D, F in E. discriminate.
Qed.

(* ================================================================== *)
(** * The account routes *)
(* ================================================================== *)

Lemma phones_updateFirst (p : Account.t -> bool) (f : Account.t -> Account.t)
    (l : list Account.t) :
  (forall a, Account.phone (f a) = Account.phone a) ->
  map Account.phone (fst (updateFirst p f l)) = map Account.phone l.
Proof.
  intros Hf. induction l as [|x l IH]; [reflexivity|].
  cbn [updateFirst]. destruct (p x).
  - cbn [fst map]. now rewrite Hf.
  - destruct (updateFirst p f l) as [l' r]. cbn [fst map] in *. now rewrite IH.
Qed.

Lemma find_hasPhone_none (phone : string) (l : list Account.t) :
  find (Auth.hasPhone phone) l = None -> ~ In phone (map Account.phone l).
Proof.
  intros F I. apply in_map_iff in I as (a & E & I).
  apply (find_none _ _ F) in I. unfold Auth.hasPhone in I.
  rewrite E, String.eqb_refl in I. discriminate.
Qed.

(** Case analysis on whatever a handler, once unfolded, branches on. *)
Ltac auth_branch :=
  match goal with
  | |- context [match ?x with _ => _ end] =>
      lazymatch x with
      | context [match _ with _ => _ end] => fail
      | _ => destruct x eqn:?
      end
  end.

Ltac auth_unfold :=
  unfold Auth.handle, Auth.register, Auth.login, Auth.forgotPassword,
    Auth.resetPassword, Auth.serverError, Auth.try_catch, Auth.bind,
    Auth.User_findOne, Auth.User_updateOne, Auth.User_new, Auth.User_save,
    Auth.hash, Auth.compare, Auth.sendMail, Auth.randomCode, Auth.dateNow,
    Auth.consoleError, Auth.fresh, Auth.external, Auth.get_world, Auth.json,
    Auth.ret, Auth.throw.

Ltac auth_cbn :=
  cbn [Auth.accounts Auth.nextId Auth.now Auth.faults Auth.calls Auth.codes
       Auth.drawn Auth.outbox Auth.console Auth.set_accounts Auth.set_nextId
       Auth.set_calls Auth.set_drawn Auth.set_outbox Auth.set_console
       Auth.later fst snd].

Ltac auth_cases :=
  repeat (progress auth_unfold); cbv beta;
  repeat first [progress auth_cbn | auth_branch].

Lemma register_phones (bcrypt_hash : string -> nat -> string)
    (req : Auth.RegisterReq.t) (w : Auth.World) :
  let w' := snd (Auth.register bcrypt_hash req w) in
  Auth.phones w' = Auth.phones w
  \/ (Auth.phones w' = Auth.phones w ++ [Auth.textOf (Auth.RegisterReq.phone req)]
      /\ ~ In (Auth.textOf (Auth.RegisterReq.phone req)) (Auth.phones w)).
Proof.
  cbv zeta. unfold Auth.phones.
  auth_cases; try (left; reflexivity).
  right. rewrite map_app. cbn [map Account.phone]. split; [reflexivity|].
  now apply find_hasPhone_none.
Qed.

Lemma login_phones (bcrypt_compare : string -> string -> bool)
    (req : Auth.LoginReq.t) (w : Auth.World) :
  Auth.phones (snd (Auth.login bcrypt_compare req w)) = Auth.phones w.
Proof.
  unfold Auth.phones.
  auth_cases; try reflexivity; now apply phones_updateFirst.
Qed.

Lemma forgotPassword_phones (phone : option string) (w : Auth.World) :
  Auth.phones (snd (Auth.forgotPassword phone w)) = Auth.phones w.
Proof.
  unfold Auth.phones.
  auth_cases; try reflexivity; now apply phones_updateFirst.
Qed.

Lemma resetPassword_phones (bcrypt_hash : string -> nat -> string)
    (req : Auth.ResetReq.t) (w : Auth.World) :
  Auth.phones (snd (Auth.resetPassword bcrypt_hash req w)) = Auth.phones w.
Proof.
  unfold Auth.phones.
  auth_cases; try reflexivity; now apply phones_updateFirst.
Qed.

(** X26. No account route removes an account or changes a phone number, and
    at most one number is added by a request, after the others and only
    when it is not on record yet: numbers that were pairwise distinct
    stay so, whatever the request, the accounts and the faults of the
    collaborators. *)
Theorem phones_stay_unique (bcrypt_hash : string -> nat -> string)
    (bcrypt_compare : string -> string -> bool) (r : Auth.Request)
    (w : Auth.World) :
  NoDup (Auth.phones w) ->
  let w' := snd (Auth.handle bcrypt_hash bcrypt_compare r w) in
  NoDup (Auth.phones w')
  /\ (Auth.phones w' = Auth.phones w
      \/ exists phone, Auth.phones w' = Auth.phones w ++ [phone]).
Proof.
  intros N. cbv zeta. destruct r as [req|req|phone|req]; cbn [Auth.handle].
  - destruct (register_phones bcrypt_hash req w) as [E|[E I]]; rewrite E.
    + auto.
    + split; [|eauto].
      apply NoDup_app; repeat split; auto.
      * apply NoDup_cons; [intros []|constructor].
      * intros x Hx [<-|[]]. contradiction.
  - rewrite login_phones. auto.
  - rewrite forgotPassword_phones. auto.
  - rewrite resetPassword_phones. auto.
Qed.

Lemma phones_stay_unique_witness :
  let w' :=
    snd (Auth.handle AuthScenario.toyHash AuthScenario.toyCompare
           (Auth.Register
              (Auth.RegisterReq.mk (Some "0987654321") (Some "Str0ng!Pass")
                 (Some "Str0ng!Pass")))
           AuthScenario.world) in
  NoDup (Auth.phones w')
  /\ (Auth.phones w' = Auth.phones AuthScenario.world
      \/ exists phone, Auth.phones w' = Auth.phones AuthScenario.world ++ [phone]).
Proof.
  apply (@phones_stay_unique AuthScenario.toyHash AuthScenario.toyCompare
           (Auth.Register
              (Auth.RegisterReq.mk (Some "0987654321") (Some "Str0ng!Pass")
                 (Some "Str0ng!Pass")))
           AuthScenario.world).
  vm_compute. constructor; [intros [] | constructor].
Defined.

Lemma find_updateFirst {A} (p : A -> bool) (f : A -> A) (l : list A) (u : A) :
  find p l = Some u -> p (f u) = true ->
  find p (fst (updateFirst p f l)) = Some (f u).
Proof.
  intros F P. destruct (find_split p l F) as (before & after & -> & Hb & Hu).
  rewrite (updateFirst_at p f before after u Hb Hu). cbn [fst].
  now apply find_at.
Qed.

Lemma strong_is_long (password : string) :
  Auth.checkPasswordStrength password = "Strong" ->
  Auth.validatePassword password = true.
Proof.
  unfold Auth.checkPasswordStrength, Auth.validatePassword.
  rewrite strongRegex_test.
  destruct (8 <=? String.length password); [trivial|].
  cbn [andb]. discriminate.
Qed.

Lemma differs_same (password : string) :
  Auth.differs password (Some password) = false.
Proof. unfold Auth.differs. now rewrite String.eqb_refl. Qed.

(** Runs a handler on a world where no call fails. *)
Ltac auth_run F :=
  repeat (progress auth_unfold); cbv beta;
  repeat first [progress auth_cbn | rewrite F].

Lemma valid_phone_truthy (phone : string) :
  Auth.validatePhone (Some phone) = true -> Js.truthy phone = true.
Proof.
  destruct phone; [|reflexivity]. vm_compute. discriminate.
Qed.

(** X27. Registering and logging in fit together. A valid phone that is not
    on record and a strong, confirmed password are registered (no call
    fails, and bcrypt gives a non-empty hash that it recognises): the
    answer is a token for the _id of the new account, which is stored
    with the hash in place of the password, two-factor authentication
    off and no address. From then on, at any time and with any otp or
    none, a login with this phone and password is answered by a token
    for the same _id and changes no account. *)
Theorem register_then_login (bcrypt_hash : string -> nat -> string)
    (bcrypt_compare : string -> string -> bool)
    (phone password : string) (w : Auth.World) :
  AuthSpec.noFaults w ->
  Auth.validatePhone (Some phone) = true ->
  Auth.checkPasswordStrength password = "Strong" ->
  AuthSpec.accountOf phone w = None ->
  Js.truthy (bcrypt_hash password (S (Auth.calls w))) = true ->
  bcrypt_compare password (bcrypt_hash password (S (Auth.calls w))) = true ->
  exists w1 : Auth.World,
    Auth.register bcrypt_hash
      (Auth.RegisterReq.mk (Some phone) (Some password) (Some password)) w
    = (Returned (Auth.mkResponse 200 (Auth.Token (Auth.nextId w))), w1)
    /\ Auth.accounts w1
       = Auth.accounts w
         ++ [Account.mk (Auth.nextId w) phone
               (bcrypt_hash password (S (Auth.calls w)))
               None None None false false Unset Unset]
    /\ forall (t : nat) (otp : option string),
         exists w2 : Auth.World,
           Auth.login bcrypt_compare
             (Auth.LoginReq.mk (Some phone) (Some password) otp) (Auth.later t w1)
           = (Returned (Auth.mkResponse 200 (Auth.Token (Auth.nextId w))), w2)
           /\ Auth.accounts w2 = Auth.accounts w1.
Proof.
  intros F V Hs Hnone Hh Hc. unfold AuthSpec.accountOf in *.
  unfold Auth.register.
  cbn [Auth.RegisterReq.phone Auth.RegisterReq.password
       Auth.RegisterReq.confirmPassword Auth.textOf].
  rewrite V, (@strong_is_long password Hs), differs_same, Hs.
  rewrite String.eqb_refl. cbn [negb].
  auth_run F. rewrite Hnone. auth_run F.
  unfold Account.valid. cbn [Account.phone Account.password].
  rewrite (valid_phone_truthy _ V), Hh. cbn [andb]. auth_run F.
  eexists. split; [reflexivity|]. auth_cbn. split; [reflexivity|].
  intros t otp. unfold Auth.login.
  cbn [Auth.LoginReq.phone Auth.LoginReq.password Auth.LoginReq.otp Auth.textOf].
  rewrite V. cbn [negb]. auth_run F.
  rewrite find_app_none by exact Hnone.
  cbn [find]. unfold Auth.hasPhone at 1. cbn [Account.phone].
  rewrite String.eqb_refl.
  cbn [Account.password Account.twoFactorEnabled Account.id andb].
  rewrite Hc. cbn [negb]. auth_run F.
  eexists. split; reflexivity.
Qed.

Lemma register_then_login_witness :
  exists w1 : Auth.World,
    Auth.register AuthScenario.toyHash
      (Auth.RegisterReq.mk (Some "0987654321") (Some "Str0ng!Pass")
         (Some "Str0ng!Pass")) AuthScenario.world
    = (Returned (Auth.mkResponse 200 (Auth.Token (Auth.nextId AuthScenario.world))), w1)
    /\ Auth.accounts w1
       = Auth.accounts AuthScenario.world
         ++ [Account.mk (Auth.nextId AuthScenario.world) "0987654321"
               (AuthScenario.toyHash "Str0ng!Pass" (S (Auth.calls AuthScenario.world)))
               None None None false false Unset Unset]
    /\ forall (t : nat) (otp : option string),
         exists w2 : Auth.World,
           Auth.login AuthScenario.toyCompare
             (Auth.LoginReq.mk (Some "0987654321") (Some "Str0ng!Pass") otp)
             (Auth.later t w1)
           = (Returned
                (Auth.mkResponse 200 (Auth.Token (Auth.nextId AuthScenario.world))),
              w2)
           /\ Auth.accounts w2 = Auth.accounts w1.
Proof.
  apply (@register_then_login AuthScenario.toyHash AuthScenario.toyCompare
           "0987654321" "Str0ng!Pass" AuthScenario.world);
    first [intros k; reflexivity | vm_compute; reflexivity].
Defined.

(** X28. Logging in with two-factor authentication takes two requests. The
    first account of the phone has it on and a non-empty address, the
    password is recognised and no call fails. A login without otp
    draws a code, stores it on the account with an expiry five minutes
    ahead, mails it to the address and gives no token. A later login
    with that code is answered by a token as long as the clock is not
    past the expiry, and leaves the code in place: it serves again
    until it expires. Past the expiry, or with another non-empty code,
    the answer is 401. *)
Theorem two_factor_login (bcrypt_compare : string -> string -> bool)
    (phone password email : string) (u : Account.t) (w : Auth.World) :
  AuthSpec.noFaults w ->
  Auth.validatePhone (Some phone) = true ->
  AuthSpec.accountOf phone w = Some u ->
  Account.twoFactorEnabled u = true ->
  Account.email u = Some email -> Js.truthy email = true ->
  bcrypt_compare password (Account.password u) = true ->
  Js.truthy (Auth.codes w (Auth.drawn w)) = true ->
  let code := Auth.codes w (Auth.drawn w) in
  let expires := Auth.now w + 5 * 60 * 1000 in
  exists w1 : Auth.World,
    Auth.login bcrypt_compare (Auth.LoginReq.mk (Some phone) (Some password) None) w
    = (Returned (Auth.mkResponse 200 (Auth.Message "OTP sent to your email")), w1)
    /\ AuthSpec.otpStored phone code expires u w1
    /\ Auth.outbox w1
       = Auth.outbox w ++ [Auth.mkMail email "Login OTP" (Auth.otpText code)]
    /\ (forall t : nat, t <= expires ->
          exists w2 : Auth.World,
            Auth.login bcrypt_compare
              (Auth.LoginReq.mk (Some phone) (Some password) (Some code))
              (Auth.later t w1)
            = (Returned (Auth.mkResponse 200 (Auth.Token (Account.id u))), w2)
            /\ Auth.accounts w2 = Auth.accounts w1)
    /\ (forall (t : nat) (otp : string),
          Js.truthy otp = true -> expires < t \/ otp <> code ->
          exists w2 : Auth.World,
            Auth.login bcrypt_compare
              (Auth.LoginReq.mk (Some phone) (Some password) (Some otp))
              (Auth.later t w1)
            = (Returned (Auth.mkResponse 401 (Auth.Error "Invalid or expired OTP")), w2)
            /\ Auth.accounts w2 = Auth.accounts w1).
Proof.
  intros F V Hu H2 He Te Hc Tc code expires.
  unfold AuthSpec.otpStored, AuthSpec.accountOf in *.
  assert (Auth.hasPhone phone (Account.set_otp code expires u) = true) as Hp.
  { apply find_some in Hu as [_ Hu]. exact Hu. }
  pose proof (find_updateFirst (Auth.hasPhone phone)
                (Account.set_otp code expires) (Auth.accounts w) Hu Hp) as Hfind.
  assert (exists w1 : Auth.World,
            Auth.login bcrypt_compare
              (Auth.LoginReq.mk (Some phone) (Some password) None) w
            = (Returned (Auth.mkResponse 200 (Auth.Message "OTP sent to your email")), w1)
            /\ AuthSpec.noFaults w1
            /\ Auth.accounts w1
               = fst (updateFirst (Auth.hasPhone phone)
                        (Account.set_otp code expires) (Auth.accounts w))
            /\ Auth.outbox w1
               = Auth.outbox w ++ [Auth.mkMail email "Login OTP" (Auth.otpText code)])
    as (w1 & R1 & F1 & A1 & O1).
  { unfold Auth.login.
    cbn [Auth.LoginReq.phone Auth.LoginReq.password Auth.LoginReq.otp Auth.textOf].
    rewrite V. cbn [negb]. auth_run F. rewrite Hu. auth_run F.
    rewrite Hc, H2, He, Te. cbn [negb Auth.noOtp andb]. auth_run F.
    eexists. split; [reflexivity|]. auth_cbn.
    split; [exact F|]. split; reflexivity. }
  exists w1. split; [exact R1|].
  split; [rewrite A1; exact Hfind|]. split; [exact O1|].
  assert (forall (t : nat) (otp : string),
            Js.truthy otp = true ->
            exists w2,
              Auth.login bcrypt_compare
                (Auth.LoginReq.mk (Some phone) (Some password) (Some otp))
                (Auth.later t w1)
              = (Returned
                   (if negb (String.eqb otp code) || (expires <? t)
                    then Auth.mkResponse 401 (Auth.Error "Invalid or expired OTP")
                    else Auth.mkResponse 200 (Auth.Token (Account.id u))), w2)
              /\ Auth.accounts w2 = Auth.accounts w1)
    as Second.
  { intros t otp To. unfold Auth.login.
    cbn [Auth.LoginReq.phone Auth.LoginReq.password Auth.LoginReq.otp Auth.textOf].
    rewrite V. cbn [negb]. auth_run F1. rewrite A1, Hfind. auth_run F1.
    cbn [Account.set_otp Account.password Account.twoFactorEnabled Account.otp
         Account.otpExpires Account.id].
    rewrite Hc, H2. cbn [negb Auth.noOtp andb]. rewrite To. cbn [negb].
    auth_run F1. cbn [Auth.otpDiffers Auth.expired].
    destruct (negb (String.eqb otp code) || (expires <? t));
      (eexists; split; [reflexivity | auth_cbn; exact A1]). }
  split.
  - intros t Ht. destruct (Second t code Tc) as (w2 & R & A).
    exists w2. split; [|exact A]. rewrite R.
    rewrite String.eqb_refl. cbn [negb orb].
    replace (expires <? t) with false; [reflexivity|].
    symmetry. apply Nat.ltb_ge. exact Ht.
  - intros t otp To Hbad. destruct (Second t otp To) as (w2 & R & A).
    exists w2. split; [|exact A]. rewrite R.
    replace (negb (String.eqb otp code) || (expires <? t)) with true; [reflexivity|].
    symmetry. apply orb_true_iff. destruct Hbad as [Hlate|Hne].
    + right. now apply Nat.ltb_lt.
    + left. apply negb_true_iff. now apply String.eqb_neq.
Qed.

Lemma two_factor_login_witness :
  let code := Auth.codes AuthScenario.world (Auth.drawn AuthScenario.world) in
  let expires := Auth.now AuthScenario.world + 5 * 60 * 1000 in
  exists w1 : Auth.World,
    Auth.login AuthScenario.toyCompare
      (Auth.LoginReq.mk (Some "0123456789") (Some "Passw0rd!") None)
      AuthScenario.world
    = (Returned (Auth.mkResponse 200 (Auth.Message "OTP sent to your email")), w1)
    /\ AuthSpec.otpStored "0123456789" code expires AuthScenario.dana w1
    /\ Auth.outbox w1
       = Auth.outbox AuthScenario.world
         ++ [Auth.mkMail "dana@x.com" "Login OTP" (Auth.otpText code)]
    /\ (forall t : nat, t <= expires ->
          exists w2 : Auth.World,
            Auth.login AuthScenario.toyCompare
              (Auth.LoginReq.mk (Some "0123456789") (Some "Passw0rd!") (Some code))
              (Auth.later t w1)
            = (Returned
                 (Auth.mkResponse 200 (Auth.Token (Account.id AuthScenario.dana))),
               w2)
            /\ Auth.accounts w2 = Auth.accounts w1)
    /\ (forall (t : nat) (otp : string),
          Js.truthy otp = true -> expires < t \/ otp <> code ->
          exists w2 : Auth.World,
            Auth.login AuthScenario.toyCompare
              (Auth.LoginReq.mk (Some "0123456789") (Some "Passw0rd!") (Some otp))
              (Auth.later t w1)
            = (Returned (Auth.mkResponse 401 (Auth.Error "Invalid or expired OTP")), w2)
            /\ Auth.accounts w2 = Auth.accounts w1).
Proof.
  apply (@two_factor_login AuthScenario.toyCompare "0123456789" "Passw0rd!"
           "dana@x.com" AuthScenario.dana AuthScenario.world);
    first [intros k; reflexivity | vm_compute; reflexivity].
Defined.

(** X29. A forgotten password is reset in two requests, and the code serves
    once. The first account of the phone has a verified, non-empty
    address and no call fails. forgot-password draws a code, stores it
    on the account with an expiry five minutes ahead and mails it to the
    address. Until the expiry, reset-password with that code and a
    strong, confirmed password replaces the stored password by the hash
    of the new one and sets the otp and its expiry to null. After that,
    once the clock is past zero, reset-password is refused with 401
    whatever otp it carries, and changes no account. *)
Theorem forgot_then_reset_once (bcrypt_hash : string -> nat -> string)
    (phone password email : string) (u : Account.t) (w : Auth.World) :
  AuthSpec.noFaults w ->
  Auth.validatePhone (Some phone) = true ->
  Auth.checkPasswordStrength password = "Strong" ->
  AuthSpec.accountOf phone w = Some u ->
  Account.email u = Some email -> Js.truthy email = true ->
  Account.isEmailVerified u = true ->
  let code := Auth.codes w (Auth.drawn w) in
  let expires := Auth.now w + 5 * 60 * 1000 in
  exists w1 : Auth.World,
    Auth.forgotPassword (Some phone) w
    = (Returned (Auth.mkResponse 200 (Auth.Message "OTP sent to your email")), w1)
    /\ AuthSpec.otpStored phone code expires u w1
    /\ Auth.outbox w1
       = Auth.outbox w
         ++ [Auth.mkMail email "Password Reset OTP" (Auth.otpText code)]
    /\ forall t : nat, t <= expires ->
         exists (salt : nat) (w2 : Auth.World),
           Auth.resetPassword bcrypt_hash
             (Auth.ResetReq.mk (Some phone) (Some code) (Some password)
                (Some password)) (Auth.later t w1)
           = (Returned
                (Auth.mkResponse 200 (Auth.Message "Password reset successfully")),
              w2)
           /\ AuthSpec.accountOf phone w2
              = Some (Account.reset (bcrypt_hash password salt) u)
           /\ forall (t' : nat) (otp : option string) (again : string),
                0 < t' ->
                Auth.checkPasswordStrength again = "Strong" ->
                exists w3 : Auth.World,
                  Auth.resetPassword bcrypt_hash
                    (Auth.ResetReq.mk (Some phone) otp (Some again) (Some again))
                    (Auth.later t' w2)
                  = (Returned
                       (Auth.mkResponse 401 (Auth.Error "Invalid or expired OTP")),
                     w3)
                  /\ Auth.accounts w3 = Auth.accounts w2.
Proof.
  intros F V Hs Hu He Te Hv code expires.
  unfold AuthSpec.otpStored, AuthSpec.accountOf in *.
  assert (Auth.hasPhone phone u = true) as Pu
    by (apply find_some in Hu as [_ Hu]; exact Hu).
  pose proof (find_updateFirst (Auth.hasPhone phone)
                (Account.set_otp code expires) (Auth.accounts w) Hu Pu) as Hfind.
  assert (exists w1 : Auth.World,
            Auth.forgotPassword (Some phone) w
            = (Returned (Auth.mkResponse 200 (Auth.Message "OTP sent to your email")), w1)
            /\ AuthSpec.noFaults w1
            /\ Auth.accounts w1
               = fst (updateFirst (Auth.hasPhone phone)
                        (Account.set_otp code expires) (Auth.accounts w))
            /\ Auth.outbox w1
               = Auth.outbox w
                 ++ [Auth.mkMail email "Password Reset OTP" (Auth.otpText code)])
    as (w1 & R1 & F1 & A1 & O1).
  { unfold Auth.forgotPassword. cbn [Auth.textOf].
    rewrite V. cbn [negb]. auth_run F. rewrite Hu. auth_run F.
    rewrite He, Te, Hv. cbn [negb orb]. auth_run F.
    eexists. split; [reflexivity|]. auth_cbn.
    split; [exact F|]. split; reflexivity. }
  exists w1. split; [exact R1|].
  split; [rewrite A1; exact Hfind|]. split; [exact O1|].
  intros t Ht.
  assert (Auth.hasPhone phone (Account.set_otp code expires u) = true) as Pu'
    by exact Pu.
  pose proof (fun h =>
                find_updateFirst (Auth.hasPhone phone) (Account.reset h)
                  (Auth.accounts w1)) as Hfind2.
  rewrite A1 in Hfind2. specialize (fun h => Hfind2 h _ Hfind Pu').
  assert (exists (salt : nat) (w2 : Auth.World),
            Auth.resetPassword bcrypt_hash
              (Auth.ResetReq.mk (Some phone) (Some code) (Some password)
                 (Some password)) (Auth.later t w1)
            = (Returned
                 (Auth.mkResponse 200 (Auth.Message "Password reset successfully")),
               w2)
            /\ AuthSpec.noFaults w2
            /\ Auth.accounts w2
               = fst (updateFirst (Auth.hasPhone phone)
                        (Account.reset (bcrypt_hash password salt))
                        (fst (updateFirst (Auth.hasPhone phone)
                                (Account.set_otp code expires) (Auth.accounts w)))))
    as (salt & w2 & R2 & F2 & A2).
  { exists (S (Auth.calls w1)).
    unfold Auth.resetPassword.
    cbn [Auth.ResetReq.phone Auth.ResetReq.newPassword Auth.ResetReq.otp
         Auth.ResetReq.confirmPassword Auth.textOf].
    rewrite V, (@strong_is_long password Hs), differs_same, Hs.
    rewrite String.eqb_refl. cbn [negb].
    auth_run F1. rewrite A1, Hfind. auth_run F1.
    cbn [Account.set_otp Account.otp Account.otpExpires Auth.otpDiffers
         Auth.expired].
    rewrite String.eqb_refl. cbn [negb orb].
    replace (expires <? t) with false
      by (symmetry; apply Nat.ltb_ge; exact Ht).
    auth_run F1.
    eexists. split; [reflexivity|]. auth_cbn.
    split; [exact F1|]. rewrite A1. reflexivity. }
  exists salt, w2. split; [exact R2|].
  assert (find (Auth.hasPhone phone) (Auth.accounts w2)
          = Some (Account.reset (bcrypt_hash password salt)
                    (Account.set_otp code expires u))) as Hfind3
    by (rewrite A2; apply Hfind2).
  split; [exact Hfind3|].
  intros t' otp again Ht' Hs'.
  unfold Auth.resetPassword.
  cbn [Auth.ResetReq.phone Auth.ResetReq.newPassword Auth.ResetReq.otp
       Auth.ResetReq.confirmPassword Auth.textOf].
  rewrite V, (@strong_is_long again Hs'), differs_same, Hs'.
  rewrite String.eqb_refl. cbn [negb].
  auth_run F2. rewrite Hfind3. auth_run F2.
  cbn [Account.reset Account.otp Account.otpExpires Auth.expired].
  replace (0 <? t') with true by (symmetry; apply Nat.ltb_lt; exact Ht').
  rewrite orb_true_r. auth_run F2.
  eexists. split; reflexivity.
Qed.

Lemma forgot_then_reset_once_witness :
  let code := Auth.codes AuthScenario.world (Auth.drawn AuthScenario.world) in
  let expires := Auth.now AuthScenario.world + 5 * 60 * 1000 in
  exists w1 : Auth.World,
    Auth.forgotPassword (Some "0123456789") AuthScenario.world
    = (Returned (Auth.mkResponse 200 (Auth.Message "OTP sent to your email")), w1)
    /\ AuthSpec.otpStored "0123456789" code expires AuthScenario.dana w1
    /\ Auth.outbox w1
       = Auth.outbox AuthScenario.world
         ++ [Auth.mkMail "dana@x.com" "Password Reset OTP" (Auth.otpText code)]
    /\ forall t : nat, t <= expires ->
         exists (salt : nat) (w2 : Auth.World),
           Auth.resetPassword AuthScenario.toyHash
             (Auth.ResetReq.mk (Some "0123456789") (Some code) (Some "N3w!Passw")
                (Some "N3w!Passw")) (Auth.later t w1)
           = (Returned
                (Auth.mkResponse 200 (Auth.Message "Password reset successfully")),
              w2)
           /\ AuthSpec.accountOf "0123456789" w2
              = Some (Account.reset (AuthScenario.toyHash "N3w!Passw" salt)
                        AuthScenario.dana)
           /\ forall (t' : nat) (otp : option string) (again : string),
                0 < t' ->
                Auth.checkPasswordStrength again = "Strong" ->
                exists w3 : Auth.World,
                  Auth.resetPassword AuthScenario.toyHash
                    (Auth.ResetReq.mk (Some "0123456789") otp (Some again)
                       (Some again))
                    (Auth.later t' w2)
                  = (Returned
                       (Auth.mkResponse 401 (Auth.Error "Invalid or expired OTP")),
                     w3)
                  /\ Auth.accounts w3 = Auth.accounts w2.
Proof.
  apply (@forgot_then_reset_once AuthScenario.toyHash "0123456789" "N3w!Passw"
           "dana@x.com" AuthScenario.dana AuthScenario.world);
    first [intros k; reflexivity | vm_compute; reflexivity].
Defined.

(** X30. reset-password compares the otp of the request with the stored one
    by strict inequality and the clock with the stored expiry: for an
    account to which no otp was ever sent -- both paths unset, as
    register leaves them -- a request without otp passes both tests, and
    the password is replaced by the hash of the new one. (The phone is
    valid, the new password strong and confirmed, no call fails.) *)
Theorem reset_without_otp (bcrypt_hash : string -> nat -> string)
    (phone password : string) (u : Account.t) (w : Auth.World) :
  AuthSpec.noFaults w ->
  Auth.validatePhone (Some phone) = true ->
  Auth.checkPasswordStrength password = "Strong" ->
  AuthSpec.accountOf phone w = Some u ->
  Account.otp u = Unset -> Account.otpExpires u = Unset ->
  exists (salt : nat) (w' : Auth.World),
    Auth.resetPassword bcrypt_hash
      (Auth.ResetReq.mk (Some phone) None (Some password) (Some password)) w
    = (Returned (Auth.mkResponse 200 (Auth.Message "Password reset successfully")), w')
    /\ AuthSpec.accountOf phone w'
       = Some (Account.reset (bcrypt_hash password salt) u).
Proof.
  intros F V Hs Hu O E. unfold AuthSpec.accountOf in *.
  exists (S (Auth.calls w)).
  unfold Auth.resetPassword.
  cbn [Auth.ResetReq.phone Auth.ResetReq.newPassword Auth.ResetReq.otp
       Auth.ResetReq.confirmPassword Auth.textOf].
  rewrite V, (@strong_is_long password Hs), differs_same, Hs.
  rewrite String.eqb_refl. cbn [negb].
  auth_run F. rewrite Hu. auth_run F. rewrite O, E.
  cbn [Auth.otpDiffers Auth.expired orb]. auth_run F.
  eexists. split; [reflexivity|]. auth_cbn.
  apply find_updateFirst; [assumption|].
  apply find_some in Hu as [_ Hu]. exact Hu.
Qed.

Lemma reset_without_otp_witness :
  exists (salt : nat) (w' : Auth.World),
    Auth.resetPassword AuthScenario.toyHash
      (Auth.ResetReq.mk (Some "0123456789") None (Some "N3w!Passw")
         (Some "N3w!Passw")) AuthScenario.world
    = (Returned (Auth.mkResponse 200 (Auth.Message "Password reset successfully")), w')
    /\ AuthSpec.accountOf "0123456789" w'
       = Some (Account.reset (AuthScenario.toyHash "N3w!Passw" salt)
                 AuthScenario.dana).
Proof.
  apply (@reset_without_otp AuthScenario.toyHash "0123456789" "N3w!Passw"
           AuthScenario.dana AuthScenario.world);
    first [intros k; reflexivity | vm_compute; reflexivity].
Defined.

